(** * The Suricata radix tree (src/util-radix-tree.c), embedded in Rocq.

    The tree of [SCRadixNode]s lives in an arena: a finite map from node
    addresses to node records, with [left], [right] and [parent] held as
    optional addresses ([None] is the C [NULL]).  Machine integers are [Z];
    the places where the C code narrows a value are written out.  While
    loops that follow pointers take a fuel argument. *)

From Stdlib Require Import ZArith Lia Sorted.
From stdpp Require Import base option list sorting gmap.

Local Open Scope Z_scope.

(** ** Outcomes of a call *)

(** A C call either returns, or the process stops.  [ExitFailure] is
    [exit(EXIT_FAILURE)]; [InvalidAccess] is a dereference of [NULL] or of a
    freed node, or an access outside a buffer; [OutOfFuel] belongs to the
    model only: the fuel given to a pointer-following loop ran out. *)
Inductive fault : Type :=
  | ExitFailure
  | InvalidAccess
  | OutOfFuel.

Inductive outcome (A : Type) : Type :=
  | Done (a : A)
  | Fault (f : fault).
Arguments Done {A} a.
Arguments Fault {A} f.

#[global] Instance outcome_ret : MRet outcome := fun A a => Done a.
#[global] Instance outcome_bind : MBind outcome := fun A B k m =>
  match m with
  | Done a => k a
  | Fault f => Fault f
  end.

(** ** Data model *)

(** A node pointer. *)
Definition addr : Type := nat.

(** Modelled from the spec: [SCRadixUserData] is declared in
    util-radix-tree.h, which is not among the sources; the fields are those
    of the spec's data model, as util-radix-tree.c uses them.  The [next]
    link is the tail of the list that holds the record.  [ud_user] is the
    opaque [void *user]; [0] is [NULL]. *)
Record SCRadixUserData : Type := mkUserData {
  ud_netmask : Z;
  ud_user : Z
}.

(** Modelled from the spec: [SCRadixPrefix], declared in util-radix-tree.h
    as well.  [pfx_bitlen] takes the [uint16_t key_bitlen] that
    [SCRadixCreatePrefix] stores in it as it is. *)
Record SCRadixPrefix : Type := mkPrefix {
  pfx_bitlen : Z;
  pfx_stream : list Z;
  pfx_user_data : list SCRadixUserData;
  pfx_user_data_result : Z
}.

(** Modelled from the spec: [SCRadixNode], declared in util-radix-tree.h as
    well.  [n_bit] takes the bit length of a prefix ([node->bit =
    prefix->bitlen]) as it is.  [n_netmasks = None] is a [NULL] array;
    [Some l] is an allocated array whose first [netmask_cnt] cells are [l]
    (cells past [netmask_cnt] are never read by the code). *)
Record SCRadixNode : Type := mkNode {
  n_bit : Z;
  n_netmasks : option (list Z);
  n_prefix : option SCRadixPrefix;
  n_left : option addr;
  n_right : option addr;
  n_parent : option addr
}.

(** Modelled from the spec: [SCRadixTree], declared in util-radix-tree.h as
    well: the [head] pointer, with the arena that holds the nodes.  The
    [Free] callback is used by the release of a tree only and is left
    out. *)
Record SCRadixTree : Type := mkTree {
  t_heap : gmap addr SCRadixNode;
  t_head : option addr
}.

#[global] Instance SCRadixUserData_eq_dec : EqDecision SCRadixUserData.
Proof. solve_decision. Defined.
#[global] Instance SCRadixPrefix_eq_dec : EqDecision SCRadixPrefix.
Proof. solve_decision. Defined.
#[global] Instance SCRadixNode_eq_dec : EqDecision SCRadixNode.
Proof. solve_decision. Defined.

(** [SCRadixCreateRadixTree]. *)
Definition SCRadixCreateRadixTree : SCRadixTree :=
  {| t_heap := ∅; t_head := None |}.

(** ** Memory access *)

(** [*p] for a node pointer. *)
Definition load (h : gmap addr SCRadixNode) (p : addr) : outcome SCRadixNode :=
  match h !! p with
  | Some n => Done n
  | None => Fault InvalidAccess
  end.

(** [p->field] where [p] may be [NULL]. *)
Definition deref (h : gmap addr SCRadixNode) (p : option addr) : outcome SCRadixNode :=
  match p with
  | Some a => load h a
  | None => Fault InvalidAccess
  end.

(** [prefix->field] where [prefix] may be [NULL]. *)
Definition deref_prefix (prefix : option SCRadixPrefix) : outcome SCRadixPrefix :=
  match prefix with
  | Some p => Done p
  | None => Fault InvalidAccess
  end.

(** [stream[i]]. *)
Definition byte_at (stream : list Z) (i : Z) : outcome Z :=
  if i <? 0 then Fault InvalidAccess
  else match stream !! Z.to_nat i with
       | Some b => Done b
       | None => Fault InvalidAccess
       end.

(** Modelled from the spec: the macro [SC_RADIX_BITTEST] is declared in
    util-radix-tree.h, which is not among the sources; the spec's glossary
    places bit [i] in byte [i/8] at mask [0x80 >> (i mod 8)], so the macro
    is the bitwise and of its two arguments, read as a C truth value. *)
Definition SC_RADIX_BITTEST (x y : Z) : bool :=
  negb (Z.land x y =? 0).

(** [SC_RADIX_BITTEST(stream[b >> 3], (0x80 >> (b % 8)))]. *)
Definition bit_test (stream : list Z) (b : Z) : outcome bool :=
  x ← byte_at stream (Z.shiftr b 3);
  mret (SC_RADIX_BITTEST x (Z.shiftr 128 (b mod 8))).

(** ** Chopping a key against a netmask *)

(** The [mask] that the loop body of [SCRadixChopIPAddressAgainstNetmask]
    computes for byte [i]. *)
Definition chop_mask (i netmask : Z) : Z :=
  if (i + 1) * 8 >? netmask then
    if (i + 1) * 8 - netmask <? 8 then Z.shiftl (-1) ((i + 1) * 8 - netmask)
    else 0
  else -1.

(** The loop [for (i = 0; i < bytes; i++) stream[i] &= mask], with [n]
    iterations left and the buffer from byte [i] on. *)
Fixpoint chop_loop (n : nat) (i netmask : Z) (stream : list Z) : outcome (list Z) :=
  match n with
  | O => Done stream
  | S n' =>
      match stream with
      | [] => Fault InvalidAccess
      | b :: rest =>
          rest' ← chop_loop n' (i + 1) netmask rest;
          mret (Z.land b (chop_mask i netmask) :: rest')
      end
  end.

(** [SCRadixChopIPAddressAgainstNetmask]: the buffer after the call.  A
    [NULL] stream is touched as soon as the loop runs once. *)
Definition SCRadixChopIPAddressAgainstNetmask
    (stream : option (list Z)) (netmask key_bitlen : Z) : outcome (option (list Z)) :=
  let bytes := key_bitlen / 8 in
  match stream with
  | None => if 0 <? bytes then Fault InvalidAccess else Done None
  | Some s => s' ← chop_loop (Z.to_nat bytes) 0 netmask s; mret (Some s')
  end.

(** ** User data lists *)

(** [SCRadixAllocSCRadixUserData]. *)
Definition SCRadixAllocSCRadixUserData (netmask user : Z) : SCRadixUserData :=
  {| ud_netmask := netmask; ud_user := user |}.

(** [SCRadixAppendToSCRadixUserDataList]: [new] goes in front of the first
    entry whose netmask is smaller than its own. *)
Fixpoint SCRadixAppendToSCRadixUserDataList
    (new : SCRadixUserData) (head : list SCRadixUserData) : list SCRadixUserData :=
  match head with
  | [] => [new]
  | temp :: rest =>
      if ud_netmask new >? ud_netmask temp then new :: temp :: rest
      else temp :: SCRadixAppendToSCRadixUserDataList new rest
  end.

(** [SCRadixCreatePrefix]: [None] is the [NULL] of an invalid argument. *)
Definition SCRadixCreatePrefix
    (key_stream : option (list Z)) (key_bitlen user netmask : Z)
    : outcome (option SCRadixPrefix) :=
  if negb (key_bitlen mod 8 =? 0) || (key_bitlen =? 0) then Done None
  else match key_stream with
       | None => Done None
       | Some s =>
           if Z.of_nat (length s) <? key_bitlen / 8 then Fault InvalidAccess
           else Done (Some {| pfx_bitlen := key_bitlen;
                              pfx_stream := take (Z.to_nat (key_bitlen / 8)) s;
                              pfx_user_data := [SCRadixAllocSCRadixUserData netmask user];
                              pfx_user_data_result := 0 |})
       end.

(** [SCRadixAddNetmaskUserDataToPrefix]. *)
Definition SCRadixAddNetmaskUserDataToPrefix
    (prefix : SCRadixPrefix) (netmask user : Z) : outcome SCRadixPrefix :=
  if user =? 0 then Fault ExitFailure
  else Done {| pfx_bitlen := pfx_bitlen prefix;
               pfx_stream := pfx_stream prefix;
               pfx_user_data :=
                 SCRadixAppendToSCRadixUserDataList
                   (SCRadixAllocSCRadixUserData netmask user) (pfx_user_data prefix);
               pfx_user_data_result := pfx_user_data_result prefix |}.

(** The loop of [SCRadixRemoveNetmaskUserDataFromPrefix]: the first entry
    with this netmask is unlinked. *)
Fixpoint remove_user_data (netmask : Z) (head : list SCRadixUserData) : list SCRadixUserData :=
  match head with
  | [] => []
  | temp :: rest =>
      if ud_netmask temp =? netmask then rest
      else temp :: remove_user_data netmask rest
  end.

(** [SCRadixRemoveNetmaskUserDataFromPrefix]. *)
Definition SCRadixRemoveNetmaskUserDataFromPrefix
    (prefix : SCRadixPrefix) (netmask : Z) : SCRadixPrefix :=
  {| pfx_bitlen := pfx_bitlen prefix;
     pfx_stream := pfx_stream prefix;
     pfx_user_data := remove_user_data netmask (pfx_user_data prefix);
     pfx_user_data_result := pfx_user_data_result prefix |}.

(** [SCRadixPrefixContainNetmask]. *)
Definition SCRadixPrefixContainNetmask (prefix : option SCRadixPrefix) (netmask : Z) : bool :=
  match prefix with
  | None => false
  | Some p => existsb (fun user_data => ud_netmask user_data =? netmask) (pfx_user_data p)
  end.

(** [SCRadixPrefixNetmaskCount]. *)
Definition SCRadixPrefixNetmaskCount (prefix : option SCRadixPrefix) : Z :=
  match prefix with
  | None => 0
  | Some p => Z.of_nat (length (pfx_user_data p))
  end.

(** [prefix->user_data_result = user]. *)
Definition with_user_data_result (user : Z) (p : SCRadixPrefix) : SCRadixPrefix :=
  {| pfx_bitlen := pfx_bitlen p; pfx_stream := pfx_stream p;
     pfx_user_data := pfx_user_data p; pfx_user_data_result := user |}.

(** [SCRadixPrefixContainNetmaskAndSetUserData]: the prefix after the call
    and the returned flag.  In exact mode the head of the list is read
    without a [NULL] test. *)
Definition SCRadixPrefixContainNetmaskAndSetUserData
    (prefix : option SCRadixPrefix) (bitlen : Z) (exact_match : bool)
    : outcome (option SCRadixPrefix * bool) :=
  match prefix with
  | None => Done (None, false)
  | Some p =>
      if exact_match then
        match pfx_user_data p with
        | [] => Fault InvalidAccess
        | user_data :: _ =>
            if ud_netmask user_data =? bitlen
            then Done (Some (with_user_data_result (ud_user user_data) p), true)
            else Done (Some p, false)
        end
      else
        match pfx_user_data p with
        | [] => Done (Some p, false)
        | user_data :: next =>
            if ud_netmask user_data =? bitlen then
              match next with
              | second :: _ => Done (Some (with_user_data_result (ud_user second) p), true)
              | [] => Done (Some p, false)
              end
            else Done (Some (with_user_data_result (ud_user user_data) p), true)
        end
  end.

(** ** Node fields *)

(** Assignments to one field of a node record. *)
Definition with_bit (v : Z) (n : SCRadixNode) : SCRadixNode :=
  {| n_bit := v; n_netmasks := n_netmasks n; n_prefix := n_prefix n;
     n_left := n_left n; n_right := n_right n; n_parent := n_parent n |}.
Definition with_netmasks (v : option (list Z)) (n : SCRadixNode) : SCRadixNode :=
  {| n_bit := n_bit n; n_netmasks := v; n_prefix := n_prefix n;
     n_left := n_left n; n_right := n_right n; n_parent := n_parent n |}.
Definition with_prefix (v : option SCRadixPrefix) (n : SCRadixNode) : SCRadixNode :=
  {| n_bit := n_bit n; n_netmasks := n_netmasks n; n_prefix := v;
     n_left := n_left n; n_right := n_right n; n_parent := n_parent n |}.
Definition with_left (v : option addr) (n : SCRadixNode) : SCRadixNode :=
  {| n_bit := n_bit n; n_netmasks := n_netmasks n; n_prefix := n_prefix n;
     n_left := v; n_right := n_right n; n_parent := n_parent n |}.
Definition with_right (v : option addr) (n : SCRadixNode) : SCRadixNode :=
  {| n_bit := n_bit n; n_netmasks := n_netmasks n; n_prefix := n_prefix n;
     n_left := n_left n; n_right := v; n_parent := n_parent n |}.
Definition with_parent (v : option addr) (n : SCRadixNode) : SCRadixNode :=
  {| n_bit := n_bit n; n_netmasks := n_netmasks n; n_prefix := n_prefix n;
     n_left := n_left n; n_right := n_right n; n_parent := v |}.

(** [p->field = v]: a store through a pointer that does not point to a
    live node is an invalid access. *)
Definition store (f : SCRadixNode → SCRadixNode) (p : addr)
    (h : gmap addr SCRadixNode) : outcome (gmap addr SCRadixNode) :=
  n ← load h p; mret (<[p := f n]> h).

(** [SCRadixCreateNode]: a zeroed node at an address that is not in use.
    Allocation is taken to succeed; the model's allocator hands out the
    address [fresh (dom h)]. *)
Definition zero_node : SCRadixNode :=
  {| n_bit := 0; n_netmasks := None; n_prefix := None;
     n_left := None; n_right := None; n_parent := None |}.

Definition SCRadixCreateNode (h : gmap addr SCRadixNode) : gmap addr SCRadixNode * addr :=
  let node := fresh (dom h) in (<[node := zero_node]> h, node).

(** ** Netmask arrays of a node *)

(** The test that guards every registration of a netmask in the tree:
    [netmask == 255 || netmask == 32 || netmask == 128]. *)
Definition netmask_is_host (netmask : Z) : bool :=
  (netmask =? 255) || (netmask =? 32) || (netmask =? 128).

(** The loop [for (i = netmask_cnt - 2; i >= 0; i--)] that moves the
    netmask stored in the last cell towards the front; [k] is [i + 1]. *)
Fixpoint netmask_sift (k : nat) (netmasks : list Z) (netmask : Z) : list Z :=
  match k with
  | O => netmasks
  | S i =>
      match netmasks !! i with
      | Some x =>
          if netmask <? x then <[S i := netmask]> netmasks
          else netmask_sift i (<[i := netmask]> (<[S i := x]> netmasks)) netmask
      | None => netmasks
      end
  end.

(** [netmask_cnt++], the [SCRealloc], the store into the last cell and the
    sift loop.  With [netmask_cnt == 1] the code stores into cell 0 and
    returns at once, which is the sift loop run zero times. *)
Definition netmasks_register (netmasks : option (list Z)) (netmask : Z) : list Z :=
  let old := default [] netmasks in
  netmask_sift (length old) (old ++ [netmask]) netmask.

(** The scan [for (i = 0; i < node->netmask_cnt; i++) if (node->netmasks[i] <
    differ_bit + 1) break;] of the intermediate-node case: the index [i]. *)
Fixpoint netmask_split_index (netmasks : list Z) (differ_bit : Z) : nat :=
  match netmasks with
  | [] => O
  | x :: rest =>
      if x <? differ_bit + 1 then O
      else S (netmask_split_index rest differ_bit)
  end.

(** The transfer of netmasks from [node] to [inter_node] in the
    intermediate-node case: what [node] keeps and what [inter_node] gets.
    The cells from index [i] on are copied to the array allocated for
    [inter_node]; [node] keeps the first [i], and its array is freed when
    [i] is 0.  The allocation is taken to succeed also when no cell is left
    to copy: [inter_node] then has an array of no cells, not [NULL]. *)
Definition netmask_split (netmasks : option (list Z)) (differ_bit : Z)
    : option (list Z) * option (list Z) :=
  match netmasks with
  | None => (None, None)
  | Some l =>
      let i := netmask_split_index l differ_bit in
      (if decide (i = O) then None else Some (take i l), Some (drop i l))
  end.

(** ** Walks *)

(** The loops [parent = node->parent; while (parent != NULL && cond(parent->bit))
    { node = parent; parent = parent->parent; }]: the [node] they end at. *)
Fixpoint walk_up (fuel : nat) (h : gmap addr SCRadixNode) (cond : Z → bool)
    (node : addr) (parent : option addr) : outcome addr :=
  match parent with
  | None => Done node
  | Some p =>
      pn ← load h p;
      if cond (n_bit pn) then
        match fuel with
        | O => Fault OutOfFuel
        | S fuel' => walk_up fuel' h cond p (n_parent pn)
        end
      else Done node
  end.

(** The descent of [SCRadixAddKey]: [while (node->bit < bitlen ||
    node->prefix == NULL)]. *)
Fixpoint add_walk_down (fuel : nat) (h : gmap addr SCRadixNode)
    (stream : list Z) (bitlen : Z) (node : addr) : outcome addr :=
  n ← load h node;
  if (n_bit n <? bitlen) || bool_decide (n_prefix n = None) then
    match fuel with
    | O => Fault OutOfFuel
    | S fuel' =>
        if bitlen <? n_bit n then
          match n_right n with
          | None => Done node
          | Some r => add_walk_down fuel' h stream bitlen r
          end
        else
          b ← bit_test stream (n_bit n);
          match b with
          | true =>
              match n_right n with
              | None => Done node
              | Some r => add_walk_down fuel' h stream bitlen r
              end
          | false =>
              match n_left n with
              | None => Done node
              | Some l => add_walk_down fuel' h stream bitlen l
              end
          end
    end
  else Done node.

(** The position table applied to [temp = stream[i] ^ prefix->stream[i]]
    after [temp = temp * 2]: the offset [j] of the first differing bit. *)
Definition differ_offset (temp : Z) : Z :=
  let temp := temp * 2 in
  if temp >=? 256 then 0
  else if temp >=? 128 then 1
  else if temp >=? 64 then 2
  else if temp >=? 32 then 3
  else if temp >=? 16 then 4
  else if temp >=? 8 then 5
  else if temp >=? 4 then 6
  else if temp >=? 2 then 7
  else 0.

(** The loop [for (i = 0; (i * 8) < check_bit; i++)] that finds the first
    bit where the key and the prefix of [bottom_node] differ; [n] bounds the
    iterations left, [prefix] is [bottom_node->prefix]. *)
Fixpoint differ_loop (n : nat) (i check_bit : Z) (stream : list Z)
    (prefix : option SCRadixPrefix) (differ_bit : Z) : outcome Z :=
  if i * 8 <? check_bit then
    match n with
    | O => Fault OutOfFuel
    | S n' =>
        a ← byte_at stream i;
        p ← deref_prefix prefix;
        b ← byte_at (pfx_stream p) i;
        let temp := Z.lxor a b in
        if temp =? 0 then differ_loop n' (i + 1) check_bit stream prefix ((i + 1) * 8)
        else Done (i * 8 + differ_offset temp)
    end
  else Done differ_bit.

(** The assignment [parent->right = new] or [parent->left = new] that puts
    [new] in the place of [node] under [node->parent], or [tree->head = new]
    when there is no parent. *)
Definition replace_child (h : gmap addr SCRadixNode) (head : option addr)
    (parent : option addr) (node new : addr)
    : outcome (gmap addr SCRadixNode * option addr) :=
  match parent with
  | None => Done (h, Some new)
  | Some p =>
      pn ← load h p;
      if bool_decide (n_right pn = Some node)
      then h' ← store (with_right (Some new)) p h; mret (h', head)
      else h' ← store (with_left (Some new)) p h; mret (h', head)
  end.

(** The two blocks [insert the netmask into the tree] of [SCRadixAddKey]:
    walk up from [node] while [netmask < parent->bit + 1], then register the
    netmask in the node reached.  The result is the heap, that node, and
    whether its [netmask_cnt] became 1. *)
Definition register_netmask (fuel : nat) (h : gmap addr SCRadixNode)
    (node : addr) (netmask : Z) : outcome (gmap addr SCRadixNode * addr * bool) :=
  n ← load h node;
  target ← walk_up fuel h (fun bit => netmask <? bit + 1) node (n_parent n);
  tn ← load h target;
  let netmasks := netmasks_register (n_netmasks tn) netmask in
  h' ← store (with_netmasks (Some netmasks)) target h;
  mret (h', target, bool_decide (length netmasks = 1%nat)).

(** ** Insertion *)

(** [SCRadixAddKey], the branch [differ_bit == bitlen && node->bit == bitlen]:
    the key's stream is already at [node].  [n] is [*node].  When the
    netmask is registered in an array that was empty, the code returns
    [new_node], which is still [NULL] there; otherwise it returns [node],
    which by then is the node the netmask was registered in. *)
Definition add_existing (fuel : nat) (tree : SCRadixTree) (node : addr)
    (n : SCRadixNode) (prefix : SCRadixPrefix) (user netmask : Z)
    : outcome (SCRadixTree * option addr) :=
  let h := t_heap tree in
  match n_prefix n with
  | Some np =>
      if SCRadixPrefixContainNetmask (Some np) netmask then mret (tree, Some node)
      else
        np' ← SCRadixAddNetmaskUserDataToPrefix np netmask user;
        h ← store (with_prefix (Some np')) node h;
        if netmask_is_host netmask
        then mret ({| t_heap := h; t_head := t_head tree |}, Some node)
        else
          '(h, target, first) ← register_netmask fuel h node netmask;
          mret ({| t_heap := h; t_head := t_head tree |},
                if first : bool then None else Some target)
  | None =>
      p ← SCRadixCreatePrefix (Some (pfx_stream prefix)) (pfx_bitlen prefix) user 255;
      h ← store (with_prefix p) node h;
      mret ({| t_heap := h; t_head := t_head tree |}, Some node)
  end.

(** [SCRadixAddKey], the branch [differ_bit == bitlen] after the leaf
    [new_node] was made: the new key is a prefix of the keys below [node],
    and [new_node] becomes the parent of [node].  [n] is [*node] and [bn]
    is [*bottom_node]. *)
Definition add_above (h : gmap addr SCRadixNode) (head : option addr)
    (node : addr) (n bn : SCRadixNode) (new_node : addr) (differ_bit : Z)
    : outcome (gmap addr SCRadixNode * option addr) :=
  bp ← deref_prefix (n_prefix bn);
  b ← bit_test (pfx_stream bp) differ_bit;
  h ← store (if b : bool then with_right (Some node) else with_left (Some node)) new_node h;
  h ← store (with_parent (n_parent n)) new_node h;
  '(h, head) ← replace_child h head (n_parent n) node new_node;
  h ← store (with_parent (Some new_node)) node h;
  mret (h, head).

(** [SCRadixAddKey], the last branch: an intermediate node with
    [bit = differ_bit] takes the place of [node] and gets [node] and
    [new_node] as its children. *)
Definition add_split (h : gmap addr SCRadixNode) (head : option addr)
    (node : addr) (n : SCRadixNode) (new_node : addr) (stream : list Z)
    (differ_bit : Z) : outcome (gmap addr SCRadixNode * option addr) :=
  let '(h, inter_node) := SCRadixCreateNode h in
  h ← store (fun m => with_parent (n_parent n) (with_bit differ_bit m)) inter_node h;
  let '(keep, moved) := netmask_split (n_netmasks n) differ_bit in
  h ← store (with_netmasks moved) inter_node h;
  h ← store (with_netmasks keep) node h;
  b ← bit_test stream differ_bit;
  h ← store (if b : bool
             then fun m => with_right (Some new_node) (with_left (Some node) m)
             else fun m => with_right (Some node) (with_left (Some new_node) m))
            inter_node h;
  h ← store (with_parent (Some inter_node)) new_node h;
  '(h, head) ← replace_child h head (n_parent n) node inter_node;
  h ← store (with_parent (Some inter_node)) node h;
  mret (h, head).

(** [SCRadixAddKey].  The result is the tree after the call and the
    returned node pointer.  The key buffer of the caller is chopped in
    place by the first statement; its content after the call is given by
    [SCRadixChopIPAddressAgainstNetmask].  The tree handle itself is taken
    to be non-[NULL]. *)
Definition SCRadixAddKey (fuel : nat) (key_stream : option (list Z)) (key_bitlen : Z)
    (tree : SCRadixTree) (user netmask : Z) : outcome (SCRadixTree * option addr) :=
  key_stream ← SCRadixChopIPAddressAgainstNetmask key_stream netmask key_bitlen;
  created ← SCRadixCreatePrefix key_stream key_bitlen user netmask;
  match created with
  | None => mret (tree, None)
  | Some prefix =>
      match t_head tree with
      | None =>
          (* the very first element in the radix tree *)
          let '(h, node) := SCRadixCreateNode (t_heap tree) in
          h ← store (fun m => with_bit (pfx_bitlen prefix) (with_prefix (Some prefix) m)) node h;
          if netmask_is_host netmask
          then mret ({| t_heap := h; t_head := Some node |}, Some node)
          else
            h ← store (with_netmasks (Some [netmask])) node h;
            mret ({| t_heap := h; t_head := Some node |}, Some node)
      | Some head =>
          let h := t_heap tree in
          let stream := pfx_stream prefix in
          (* uint8_t bitlen = prefix->bitlen *)
          let bitlen := pfx_bitlen prefix mod 256 in
          bottom_node ← add_walk_down fuel h stream bitlen head;
          bn ← load h bottom_node;
          let check_bit := if n_bit bn <? bitlen then n_bit bn else bitlen in
          differ_bit ← differ_loop (Z.to_nat check_bit) 0 check_bit stream (n_prefix bn) 0;
          let differ_bit := if check_bit <? differ_bit then check_bit else differ_bit in
          node ← walk_up fuel h (fun bit => differ_bit <=? bit) bottom_node (n_parent bn);
          n ← load h node;
          if (differ_bit =? bitlen) && (n_bit n =? bitlen)
          then add_existing fuel tree node n prefix user netmask
          else
            (* create the leaf node for the new key *)
            let '(h, new_node) := SCRadixCreateNode h in
            h ← store (fun m => with_bit (pfx_bitlen prefix) (with_prefix (Some prefix) m))
                      new_node h;
            '(h, head) ← (if differ_bit =? bitlen
                          then add_above h (Some head) node n bn new_node differ_bit
                          else add_split h (Some head) node n new_node stream differ_bit);
            if netmask_is_host netmask
            then mret ({| t_heap := h; t_head := head |}, Some new_node)
            else
              '(h, _, _) ← register_netmask fuel h new_node netmask;
              mret ({| t_heap := h; t_head := head |}, Some new_node)
      end
  end.

(** [SCRadixAddKeyGeneric]. *)
Definition SCRadixAddKeyGeneric (fuel : nat) (key_stream : option (list Z)) (key_bitlen : Z)
    (tree : SCRadixTree) (user : Z) : outcome (SCRadixTree * option addr) :=
  SCRadixAddKey fuel key_stream key_bitlen tree user 255.

(** [SCRadixAddKeyIPV4]. *)
Definition SCRadixAddKeyIPV4 (fuel : nat) (key_stream : option (list Z))
    (tree : SCRadixTree) (user : Z) : outcome (SCRadixTree * option addr) :=
  SCRadixAddKey fuel key_stream 32 tree user 32.

(** [SCRadixAddKeyIPV6]. *)
Definition SCRadixAddKeyIPV6 (fuel : nat) (key_stream : option (list Z))
    (tree : SCRadixTree) (user : Z) : outcome (SCRadixTree * option addr) :=
  SCRadixAddKey fuel key_stream 128 tree user 128.

(** [SCRadixAddKeyIPV4Netblock]. *)
Definition SCRadixAddKeyIPV4Netblock (fuel : nat) (key_stream : option (list Z))
    (tree : SCRadixTree) (user netmask : Z) : outcome (SCRadixTree * option addr) :=
  SCRadixAddKey fuel key_stream 32 tree user netmask.

(** [SCRadixAddKeyIPV6Netblock]. *)
Definition SCRadixAddKeyIPV6Netblock (fuel : nat) (key_stream : option (list Z))
    (tree : SCRadixTree) (user netmask : Z) : outcome (SCRadixTree * option addr) :=
  SCRadixAddKey fuel key_stream 128 tree user netmask.

(** ** Lookup *)

(** The descent shared by [SCRadixRemoveKey], [SCRadixFindKey] and
    [SCRadixFindKeyIPNetblock]: [while (node->bit < prefix->bitlen)], with
    [return NULL] (here [None]) when the child taken is [NULL]. *)
Fixpoint find_walk_down (fuel : nat) (h : gmap addr SCRadixNode)
    (stream : list Z) (bitlen : Z) (node : addr) : outcome (option addr) :=
  n ← load h node;
  if n_bit n <? bitlen then
    match fuel with
    | O => Fault OutOfFuel
    | S fuel' =>
        b ← bit_test stream (n_bit n);
        match (if b : bool then n_right n else n_left n) with
        | None => Done None
        | Some child => find_walk_down fuel' h stream bitlen child
        end
    end
  else Done (Some node).

(** [memcmp(a, b, bytes) == 0]. *)
Definition memcmp_eq (a b : list Z) (bytes : Z) : outcome bool :=
  if (Z.of_nat (length a) <? bytes) || (Z.of_nat (length b) <? bytes)
  then Fault InvalidAccess
  else Done (bool_decide (take (Z.to_nat bytes) a = take (Z.to_nat bytes) b)).

(** The comparison of a stored prefix with the query prefix that follows
    each descent: [memcmp] over [bitlen / 8] bytes, then, unless
    [bitlen % 8 == 0], the leading bits of the next byte. *)
Definition stream_match (stored query : SCRadixPrefix) : outcome bool :=
  let bytes := pfx_bitlen query / 8 in
  same ← memcmp_eq (pfx_stream stored) (pfx_stream query) bytes;
  if same : bool then
    let mask := Z.shiftl (-1) (8 - pfx_bitlen query mod 8) in
    if pfx_bitlen query mod 8 =? 0 then Done true
    else
      a ← byte_at (pfx_stream stored) bytes;
      b ← byte_at (pfx_stream query) bytes;
      mret (Z.land a mask =? Z.land b mask)
  else Done false.

(** What one turn of the loop over [netmask_node->netmasks] leads to. *)
Inductive netblock_step : Type :=
  | NetblockReturn (h : gmap addr SCRadixNode) (result : option addr)
  | NetblockNext (stream : list Z) (node : addr).

(** The loop [for (j = 0; j < netmask_node->netmask_cnt; j++)] of
    [SCRadixFindKeyIPNetblock].  The query stream is chopped in place at
    each turn, and [node] is carried from one turn to the next. *)
Fixpoint netblock_loop (fuel : nat) (h : gmap addr SCRadixNode)
    (netmasks : list Z) (bitlen : Z) (stream : list Z) (node : addr)
    : outcome netblock_step :=
  match netmasks with
  | [] => Done (NetblockNext stream node)
  | netmask :: rest =>
      stream ← chop_loop (Z.to_nat (bitlen / 8)) 0 netmask stream;
      found ← find_walk_down fuel h stream bitlen node;
      match found with
      | None => Done (NetblockReturn h None)
      | Some node =>
          n ← load h node;
          if negb (n_bit n =? bitlen) || bool_decide (n_prefix n = None)
          then Done (NetblockReturn h None)
          else
            np ← deref_prefix (n_prefix n);
            same ← stream_match np {| pfx_bitlen := bitlen; pfx_stream := stream;
                                      pfx_user_data := []; pfx_user_data_result := 0 |};
            if same : bool then
              '(p, hit) ← SCRadixPrefixContainNetmaskAndSetUserData (n_prefix n) bitlen false;
              if hit : bool then
                h ← store (with_prefix p) node h;
                mret (NetblockReturn h (Some node))
              else netblock_loop fuel h rest bitlen stream node
            else netblock_loop fuel h rest bitlen stream node
      end
  end.

(** The loop [while (node != NULL && node->netmasks == NULL) node =
    node->parent;]. *)
Fixpoint netmask_node_of (fuel : nat) (h : gmap addr SCRadixNode)
    (node : option addr) : outcome (option addr) :=
  match node with
  | None => Done None
  | Some a =>
      n ← load h a;
      match n_netmasks n with
      | Some _ => Done (Some a)
      | None =>
          match fuel with
          | O => Fault OutOfFuel
          | S fuel' => netmask_node_of fuel' h (n_parent n)
          end
      end
  end.

(** [SCRadixFindKeyIPNetblock]; [bitlen] and [stream] are the fields of the
    query prefix.  The recursion of the C function spends one unit of
    fuel. *)
Fixpoint SCRadixFindKeyIPNetblock (fuel : nat) (h : gmap addr SCRadixNode)
    (bitlen : Z) (stream : list Z) (node : option addr)
    : outcome (gmap addr SCRadixNode * option addr) :=
  found ← netmask_node_of fuel h node;
  match found with
  | None => Done (h, None)
  | Some netmask_node =>
      nn ← load h netmask_node;
      step ← netblock_loop fuel h (default [] (n_netmasks nn)) bitlen stream netmask_node;
      match step with
      | NetblockReturn h result => Done (h, result)
      | NetblockNext stream _ =>
          match fuel with
          | O => Fault OutOfFuel
          | S fuel' => SCRadixFindKeyIPNetblock fuel' h bitlen stream (n_parent nn)
          end
      end
  end.

(** [SCRadixFindKey].  The tree after the call differs from the one before
    at most in the [user_data_result] of the prefix of the node returned. *)
Definition SCRadixFindKey (fuel : nat) (key_stream : option (list Z)) (key_bitlen : Z)
    (tree : SCRadixTree) (exact_match : bool) : outcome (SCRadixTree * option addr) :=
  match t_head tree with
  | None => Done (tree, None)
  | Some head =>
      let h := t_heap tree in
      created ← SCRadixCreatePrefix key_stream key_bitlen 0 255;
      match created with
      | None => Done (tree, None)
      | Some prefix =>
          found ← find_walk_down fuel h (pfx_stream prefix) (pfx_bitlen prefix) head;
          match found with
          | None => Done (tree, None)
          | Some node =>
              n ← load h node;
              if negb (n_bit n =? pfx_bitlen prefix) || bool_decide (n_prefix n = None)
              then Done (tree, None)
              else
                np ← deref_prefix (n_prefix n);
                same ← stream_match np prefix;
                '(p, hit) ← (if same : bool
                             then SCRadixPrefixContainNetmaskAndSetUserData
                                    (n_prefix n) key_bitlen true
                             else Done (n_prefix n, false));
                if hit : bool then
                  h ← store (with_prefix p) node h;
                  mret ({| t_heap := h; t_head := t_head tree |}, Some node)
                else if exact_match then Done (tree, None)
                else
                  '(h, result) ← SCRadixFindKeyIPNetblock fuel h (pfx_bitlen prefix)
                                   (pfx_stream prefix) (Some node);
                  mret ({| t_heap := h; t_head := t_head tree |}, result)
          end
      end
  end.

(** [SCRadixFindKeyGeneric]. *)
Definition SCRadixFindKeyGeneric (fuel : nat) (key_stream : option (list Z))
    (key_bitlen : Z) (tree : SCRadixTree) : outcome (SCRadixTree * option addr) :=
  SCRadixFindKey fuel key_stream key_bitlen tree true.

(** [SCRadixFindKeyIPV4ExactMatch]. *)
Definition SCRadixFindKeyIPV4ExactMatch (fuel : nat) (key_stream : option (list Z))
    (tree : SCRadixTree) : outcome (SCRadixTree * option addr) :=
  SCRadixFindKey fuel key_stream 32 tree true.

(** [SCRadixFindKeyIPV4BestMatch]. *)
Definition SCRadixFindKeyIPV4BestMatch (fuel : nat) (key_stream : option (list Z))
    (tree : SCRadixTree) : outcome (SCRadixTree * option addr) :=
  SCRadixFindKey fuel key_stream 32 tree false.

(** [SCRadixFindKeyIPV6ExactMatch]. *)
Definition SCRadixFindKeyIPV6ExactMatch (fuel : nat) (key_stream : option (list Z))
    (tree : SCRadixTree) : outcome (SCRadixTree * option addr) :=
  SCRadixFindKey fuel key_stream 128 tree true.

(** [SCRadixFindKeyIPV6BestMatch]. *)
Definition SCRadixFindKeyIPV6BestMatch (fuel : nat) (key_stream : option (list Z))
    (tree : SCRadixTree) : outcome (SCRadixTree * option addr) :=
  SCRadixFindKey fuel key_stream 128 tree false.

(** ** Removal *)

(** [SCRadixTransferNetmasksBWNodes].  The array of [dest] is reallocated
    to the joint size and the netmasks of [src] are copied behind the
    first [dest->netmask_cnt] cells, but [dest->netmask_cnt] is left as it
    was: the netmasks that [dest] holds afterwards are the ones it held
    before.  When the joint size is 0 and [dest] has an array, [SCRealloc]
    frees that array and gives [NULL], as [realloc] does for a size of 0,
    and the code takes this for a failed allocation and exits; with no
    array at [dest] the call is an allocation of size 0, which gives an
    array of no cells. *)
Definition SCRadixTransferNetmasksBWNodes (h : gmap addr SCRadixNode)
    (dest src : option addr) : outcome (gmap addr SCRadixNode) :=
  match src, dest with
  | Some s, Some d =>
      sn ← load h s;
      match n_netmasks sn with
      | None => Done h
      | Some src_netmasks =>
          dn ← load h d;
          if bool_decide (is_Some (n_netmasks dn))
             && (Z.of_nat (length src_netmasks)
                 + Z.of_nat (length (default [] (n_netmasks dn))) =? 0)
          then Fault ExitFailure
          else store (with_netmasks (Some (default [] (n_netmasks dn)))) d h
      end
  | _, _ => Done h
  end.

(** The scan [for (i = 0; i < node->netmask_cnt; i++) if (node->netmasks[i]
    == netmask) break;]: the index [i] it ends with. *)
Fixpoint netmask_find (netmasks : list Z) (netmask : Z) : nat :=
  match netmasks with
  | [] => O
  | x :: rest => if x =? netmask then O else S (netmask_find rest netmask)
  end.

(** [SCRadixRemoveNetblockEntry].  The walk up computes [local_node], but
    the netmask is then looked for in [node->netmasks]. *)
Definition SCRadixRemoveNetblockEntry (fuel : nat) (h : gmap addr SCRadixNode)
    (node : addr) (netmask : Z) : outcome (gmap addr SCRadixNode) :=
  n ← load h node;
  p ← match n_prefix n with
      | Some p => Done p
      | None => Fault ExitFailure
      end;
  h ← store (with_prefix (Some (SCRadixRemoveNetmaskUserDataFromPrefix p netmask))) node h;
  if (netmask =? 32) || (netmask =? 128) then Done h
  else
    local_node ← walk_up fuel h (fun bit => netmask <? bit + 1) node (n_parent n);
    let netmasks := default [] (n_netmasks n) in
    let i := netmask_find netmasks netmask in
    if bool_decide (i = length netmasks) then Done h
    else
      let netmasks := delete i netmasks in
      store (with_netmasks (if bool_decide (netmasks = []) then None else Some netmasks)) node h.

(** The sibling of [node] under its parent, as [SCRadixRemoveKey] picks it:
    [from->right] when [parent->left == node], else [from->left]; [from] is
    [parent] below a grandparent and [tree->head] otherwise. *)
Definition sibling_of (pn from : SCRadixNode) (node : addr) : option addr :=
  if bool_decide (n_left pn = Some node) then n_right from else n_left from.

(** The last part of [SCRadixRemoveKey]: the node holds one netmask and is
    not the head.  Its sibling takes the place of its parent, and both the
    parent and the node are released.  [n] is [*node]. *)
Definition unlink_node (h : gmap addr SCRadixNode) (head node : addr)
    (n : SCRadixNode) : outcome SCRadixTree :=
  match n_parent n with
  | None => Fault InvalidAccess
  | Some parent =>
      pn ← load h parent;
      '(h, new_head, temp_dest) ←
        match n_parent pn with
        | Some grandparent =>
            gn ← load h grandparent;
            match sibling_of pn pn node with
            | None =>
                (* the store of NULL into the grandparent, then NULL->parent *)
                Fault InvalidAccess
            | Some temp_dest =>
                h ← store (if bool_decide (n_left gn = Some parent)
                           then with_left (Some temp_dest)
                           else with_right (Some temp_dest)) grandparent h;
                h ← store (with_parent (Some grandparent)) temp_dest h;
                mret (h, Some head, temp_dest)
            end
        | None =>
            hn ← load h head;
            match sibling_of pn hn node with
            | None => Fault InvalidAccess
            | Some temp_dest =>
                h ← store (with_parent None) temp_dest h;
                mret (h, Some temp_dest, temp_dest)
            end
        end;
      h ← SCRadixTransferNetmasksBWNodes h (Some temp_dest) (Some parent);
      (* SCRadixReleaseNode(parent, tree); SCRadixReleaseNode(node, tree) *)
      mret {| t_heap := delete node (delete parent h); t_head := new_head |}
  end.

(** [SCRadixRemoveKey]. *)
Definition SCRadixRemoveKey (fuel : nat) (key_stream : option (list Z)) (key_bitlen : Z)
    (tree : SCRadixTree) (netmask : Z) : outcome SCRadixTree :=
  match t_head tree with
  | None => Done tree
  | Some head =>
      let h := t_heap tree in
      created ← SCRadixCreatePrefix key_stream key_bitlen 0 255;
      match created with
      | None => Done tree
      | Some prefix =>
          found ← find_walk_down fuel h (pfx_stream prefix) (pfx_bitlen prefix) head;
          match found with
          | None => Done tree
          | Some node =>
              n ← load h node;
              if negb (n_bit n =? pfx_bitlen prefix) || bool_decide (n_prefix n = None)
              then Done tree
              else
                np ← deref_prefix (n_prefix n);
                same ← stream_match np prefix;
                if negb same then Done tree
                else if negb (SCRadixPrefixContainNetmask (n_prefix n) netmask) then Done tree
                else if SCRadixPrefixNetmaskCount (n_prefix n) >? 1 then
                  h ← SCRadixRemoveNetblockEntry fuel h node netmask;
                  mret {| t_heap := h; t_head := t_head tree |}
                else if bool_decide (head = node) then
                  (* SCFree(node); tree->head = NULL *)
                  mret {| t_heap := delete node h; t_head := None |}
                else
                  unlink_node h head node n
          end
      end
  end.

(** [SCRadixRemoveKeyGeneric]. *)
Definition SCRadixRemoveKeyGeneric (fuel : nat) (key_stream : option (list Z))
    (key_bitlen : Z) (tree : SCRadixTree) : outcome SCRadixTree :=
  SCRadixRemoveKey fuel key_stream key_bitlen tree 255.

(** [SCRadixRemoveKeyIPV4Netblock]. *)
Definition SCRadixRemoveKeyIPV4Netblock (fuel : nat) (key_stream : option (list Z))
    (tree : SCRadixTree) (netmask : Z) : outcome SCRadixTree :=
  SCRadixRemoveKey fuel key_stream 32 tree netmask.

(** [SCRadixRemoveKeyIPV4]. *)
Definition SCRadixRemoveKeyIPV4 (fuel : nat) (key_stream : option (list Z))
    (tree : SCRadixTree) : outcome SCRadixTree :=
  SCRadixRemoveKey fuel key_stream 32 tree 32.

(** [SCRadixRemoveKeyIPV6Netblock]. *)
Definition SCRadixRemoveKeyIPV6Netblock (fuel : nat) (key_stream : option (list Z))
    (tree : SCRadixTree) (netmask : Z) : outcome SCRadixTree :=
  SCRadixRemoveKey fuel key_stream 128 tree netmask.

(** [SCRadixRemoveKeyIPV6]. *)
Definition SCRadixRemoveKeyIPV6 (fuel : nat) (key_stream : option (list Z))
    (tree : SCRadixTree) : outcome SCRadixTree :=
  SCRadixRemoveKey fuel key_stream 128 tree 128.

(** * Statements about the tree *)

(** ** Trees that the operations can produce *)

(** The values of the C types of the arguments: [key_bitlen] is a
    [uint16_t] and [netmask] a [uint8_t]. *)
Definition is_uint8 (z : Z) : Prop := 0 ≤ z < 256.
Definition is_uint16 (z : Z) : Prop := 0 ≤ z < 65536.

(** The trees built from the empty tree by calls of [SCRadixAddKey]; each
    add entry point is one such call. *)
Inductive inserted : SCRadixTree → Prop :=
  | inserted_create : inserted SCRadixCreateRadixTree
  | inserted_add fuel key_stream key_bitlen tree user netmask tree' node :
      inserted tree →
      is_uint16 key_bitlen → is_uint8 netmask →
      SCRadixAddKey fuel key_stream key_bitlen tree user netmask = Done (tree', node) →
      inserted tree'.


(** The trees that any sequence of insertions, removals and lookups leads
    to. *)
Inductive reachable : SCRadixTree → Prop :=
  | reachable_create : reachable SCRadixCreateRadixTree
  | reachable_add fuel key_stream key_bitlen tree user netmask tree' node :
      reachable tree →
      is_uint16 key_bitlen → is_uint8 netmask →
      SCRadixAddKey fuel key_stream key_bitlen tree user netmask = Done (tree', node) →
      reachable tree'
  | reachable_remove fuel key_stream key_bitlen tree netmask tree' :
      reachable tree →
      is_uint16 key_bitlen → is_uint8 netmask →
      SCRadixRemoveKey fuel key_stream key_bitlen tree netmask = Done tree' →
      reachable tree'
  | reachable_find fuel key_stream key_bitlen tree exact_match tree' node :
      reachable tree →
      is_uint16 key_bitlen →
      SCRadixFindKey fuel key_stream key_bitlen tree exact_match = Done (tree', node) →
      reachable tree'.

(** ** Reading a tree *)

(** [node->netmasks], as the list of its first [netmask_cnt] cells. *)
Definition netmasks_at (tree : SCRadixTree) (node : addr) : list Z :=
  match t_heap tree !! node with
  | Some n => default [] (n_netmasks n)
  | None => []
  end.

(** [node->prefix->user_data_result]. *)
Definition user_data_result_at (tree : SCRadixTree) (node : addr) : option Z :=
  match t_heap tree !! node with
  | Some n => pfx_user_data_result <$> n_prefix n
  | None => None
  end.

(** Netmask arrays in descending and in ascending order. *)
Definition descending (l : list Z) : Prop := Sorted Z.ge l.

(** A best-match lookup of an IPv4 key returns [node], with [user] as the
    selected user data. *)
Definition best_match_ipv4 (fuel : nat) (tree : SCRadixTree) (key : list Z)
    (node : addr) (user : Z) : Prop :=
  ∃ tree', SCRadixFindKeyIPV4BestMatch fuel (Some key) tree = Done (tree', Some node)
           ∧ user_data_result_at tree' node = Some user.

(** A best-match lookup of an IPv4 key returns [NULL]. *)
Definition no_match_ipv4 (fuel : nat) (tree : SCRadixTree) (key : list Z) : Prop :=
  ∃ tree', SCRadixFindKeyIPV4BestMatch fuel (Some key) tree = Done (tree', None).

(** ** Scenarios *)

(** Fuel that is ample for the trees of the scenarios. *)
Definition scenario_fuel : nat := 40.

(** Insert 192.168.0.0/16, 192.171.128.0/24 and 192.171.192.0/18 into an
    empty tree, with the users 1016, 1024 and 1018: the tree and the three
    nodes returned. *)
Definition three_netblocks : outcome (SCRadixTree * option addr * option addr * option addr) :=
  '(t, n16) ← SCRadixAddKeyIPV4Netblock scenario_fuel (Some [192; 168; 0; 0])
                 SCRadixCreateRadixTree 1016 16;
  '(t, n24) ← SCRadixAddKeyIPV4Netblock scenario_fuel (Some [192; 171; 128; 0]) t 1024 24;
  '(t, n18) ← SCRadixAddKeyIPV4Netblock scenario_fuel (Some [192; 171; 192; 0]) t 1018 18;
  mret (t, n16, n24, n18).

(** Insert 10.0.0.0/8 and then 10.0.0.0/16: the tree. *)
Definition two_netmasks_one_key : outcome SCRadixTree :=
  '(t, _) ← SCRadixAddKeyIPV4Netblock scenario_fuel (Some [10; 0; 0; 0])
               SCRadixCreateRadixTree 1008 8;
  '(t, _) ← SCRadixAddKeyIPV4Netblock scenario_fuel (Some [10; 0; 0; 0]) t 1016 16;
  mret t.

(** The tree that holds 192.168.0.0/16 alone. *)
Definition one_netblock : outcome SCRadixTree :=
  '(t, _) ← SCRadixAddKeyIPV4Netblock scenario_fuel (Some [192; 168; 0; 0])
               SCRadixCreateRadixTree 1016 16;
  mret t.

(** [one_netblock], then the host 192.168.1.1 is inserted: the tree and the
    node returned. *)
Definition netblock_then_host : outcome (SCRadixTree * option addr) :=
  t ← one_netblock;
  SCRadixAddKeyIPV4 scenario_fuel (Some [192; 168; 1; 1]) t 1032.

(** [netblock_then_host], then the host 192.168.1.1 is removed. *)
Definition netblock_then_host_removed : outcome SCRadixTree :=
  '(t, _) ← netblock_then_host;
  SCRadixRemoveKeyIPV4 scenario_fuel (Some [192; 168; 1; 1]) t.

(** Insert the host 10.0.0.0 and then the netblock 10.0.0.0/8, which has
    the same stream: the node returned by the second call. *)
Definition host_then_netblock : outcome (option addr) :=
  '(t, _) ← SCRadixAddKeyIPV4 scenario_fuel (Some [10; 0; 0; 0]) SCRadixCreateRadixTree 1032;
  '(_, node) ← SCRadixAddKeyIPV4Netblock scenario_fuel (Some [10; 0; 0; 0]) t 1008 8;
  mret node.

(** ** Properties as the specification words them, where the code differs *)

(** The partition of the propagation list as the specification states it:
    of the netmasks in [before], those that are at least [differ_bit + 1]
    are on the intermediate node afterwards and the others on the original
    node. *)
Definition split_as_specified (before : list Z) (differ_bit : Z)
    (original intermediate : list Z) : Prop :=
  ∀ x, x ∈ before →
       (differ_bit + 1 ≤ x → x ∈ intermediate ∧ x ∉ original)
       ∧ (x < differ_bit + 1 → x ∈ original ∧ x ∉ intermediate).

(** Insertion followed by removal of the same key and netmask gives back
    the tree, as the specification states it for every tree. *)
Definition add_remove_restores (fuel : nat) (tree : SCRadixTree)
    (key : list Z) (key_bitlen user netmask : Z) : Prop :=
  ∀ tree' node tree'',
    SCRadixAddKey fuel (Some key) key_bitlen tree user netmask = Done (tree', node) →
    SCRadixRemoveKey fuel (Some key) key_bitlen tree' netmask = Done tree'' →
    tree'' = tree.

(** ** Invariants of the nodes *)

(** What holds of the prefix of a node with the discriminator [bit], when
    every netmask that was inserted satisfies [N]: the user data list is
    not empty and holds netmasks that were inserted, the bit length is a
    positive multiple of 8 that is not below [bit], and the stream has
    [bitlen / 8] bytes. *)
Definition prefix_ok (N : Z → Prop) (bit : Z) (p : SCRadixPrefix) : Prop :=
  pfx_user_data p ≠ []
  ∧ Forall (λ ud, N (ud_netmask ud)) (pfx_user_data p)
  ∧ 0 < pfx_bitlen p
  ∧ pfx_bitlen p mod 8 = 0
  ∧ Z.of_nat (length (pfx_stream p)) = pfx_bitlen p / 8
  ∧ bit ≤ pfx_bitlen p.

(** What holds of every node: the discriminator is not negative, the
    netmask array is in descending order, and the prefix is as above. *)
Definition node_ok (N : Z → Prop) (n : SCRadixNode) : Prop :=
  0 ≤ n_bit n
  ∧ (∀ l, n_netmasks n = Some l → descending l)
  ∧ (∀ p, n_prefix n = Some p → prefix_ok N (n_bit n) p).

(** A property of all the nodes of an arena. *)
Definition heap_forall (P : SCRadixNode → Prop) (h : gmap addr SCRadixNode) : Prop :=
  map_Forall (λ _, P) h.

(** The fields of a node that are no links. *)
Definition payload (n : SCRadixNode) : Z * option (list Z) * option SCRadixPrefix :=
  (n_bit n, n_netmasks n, n_prefix n).

(** A tree with the node of 192.168.16.0, which holds the netmasks 24 and
    16, and the leaf just made for the host 192.168.24.1, which is not
    linked yet: the arena in which [SCRadixAddKey] splits the node at bit
    20. *)
Definition split_example_node : SCRadixNode :=
  {| n_bit := 32; n_netmasks := Some [24; 16];
     n_prefix := Some {| pfx_bitlen := 32; pfx_stream := [192; 168; 16; 0];
                         pfx_user_data := [mkUserData 24 1024; mkUserData 16 1016];
                         pfx_user_data_result := 0 |};
     n_left := None; n_right := None; n_parent := None |}.

Definition split_example_leaf : SCRadixNode :=
  {| n_bit := 32; n_netmasks := None;
     n_prefix := Some {| pfx_bitlen := 32; pfx_stream := [192; 168; 24; 1];
                         pfx_user_data := [mkUserData 32 1032];
                         pfx_user_data_result := 0 |};
     n_left := None; n_right := None; n_parent := None |}.

Definition split_example_heap : gmap addr SCRadixNode :=
  <[1%nat := split_example_leaf]> (<[0%nat := split_example_node]> ∅).

(** ** The links of the tree *)

(** The link fields of a node. *)
Definition links (n : SCRadixNode) : option addr * option addr * option addr :=
  (n_left n, n_right n, n_parent n).

(** The links of the node at [a] are sound: a child is a live node whose
    parent pointer leads back to [a], the parent is a live node, the two
    children differ, and [rank] falls along every child pointer and rises
    along the parent pointer, so that no walk goes round in a circle. *)
Definition node_linked (h : gmap addr SCRadixNode) (rank : addr → nat)
    (a : addr) (n : SCRadixNode) : Prop :=
  (∀ c, n_left n = Some c ∨ n_right n = Some c →
        ∃ nc, h !! c = Some nc ∧ n_parent nc = Some a ∧ (rank c < rank a)%nat)
  ∧ (∀ p, n_parent n = Some p → is_Some (h !! p) ∧ (rank a < rank p)%nat)
  ∧ (∀ c, n_left n = Some c → n_right n ≠ Some c).

(** A tree whose links are sound: the head is a live node without a
    parent, and every node is linked as above. *)
Definition tree_linked (tree : SCRadixTree) : Prop :=
  (∀ a, t_head tree = Some a → ∃ n, t_heap tree !! a = Some n ∧ n_parent n = None)
  ∧ ∃ rank, map_Forall (node_linked (t_heap tree) rank) (t_heap tree).

Abbreviation linkrec := (option addr * option addr * option addr)%type.

(** The links of an arena as a function of the address, and the
    soundness of the links stated on such a function. *)
Definition link_map (h : gmap addr SCRadixNode) (x : addr) : option linkrec :=
  links <$> h !! x.

Definition links_ok (L : addr → option linkrec) (head : option addr)
    (rank : addr → nat) : Prop :=
  (∀ a, head = Some a → ∃ l r, L a = Some (l, r, None))
  ∧ ∀ a l r p, L a = Some (l, r, p) →
      (∀ c, l = Some c ∨ r = Some c →
            ∃ l' r', L c = Some (l', r', Some a) ∧ (rank c < rank a)%nat)
      ∧ (∀ q, p = Some q → is_Some (L q) ∧ (rank a < rank q)%nat)
      ∧ (∀ c, l = Some c → r ≠ Some c).

(** Replace the child [node] by [new] in the link record of its parent. *)
Definition replace_in (node new : addr) (pl : linkrec) : linkrec :=
  if decide (pl.1.2 = Some node) then (pl.1.1, Some new, pl.2)
  else (Some new, pl.1.2, pl.2).

(** The links after the new node [X] was put in the place of [node] under
    the parent [P] of [node], with [node] and, when there is one, the new
    leaf [oY] as the children of [X]. *)
Definition spliced (L : addr → option linkrec) (node : addr) (P : option addr)
    (X : addr) (oY : option addr) (node_left : bool) (x : addr) : option linkrec :=
  if decide (x = node) then
    match L node with Some (l, r, _) => Some (l, r, Some X) | None => None end
  else if decide (Some x = P) then replace_in node X <$> L x
  else if decide (Some x = oY) then Some (None, None, Some X)
  else if decide (x = X) then
    Some (if node_left then (Some node, oY, P) else (oY, Some node, P))
  else L x.

(** A rank for the links after the splice. *)
Definition spliced_rank (rank : addr → nat) (node X : addr) (oY : option addr)
    (x : addr) : nat :=
  if decide (x = X) then 2 * rank node + 3
  else if decide (Some x = oY) then 0
  else 2 * rank x + 2.

(** The entry of a key and a netmask is in the tree, as the lookup and the
    removal find it: the descent by the bits of [stream] ends at [node],
    whose bit is [key_bitlen] and whose prefix holds [stream] and an entry
    for [netmask]. *)
Definition entry_found (fuel : nat) (tree : SCRadixTree) (stream : list Z)
    (key_bitlen netmask : Z) (node : addr) : Prop :=
  ∃ head n np,
    t_head tree = Some head
    ∧ find_walk_down fuel (t_heap tree) stream key_bitlen head = Done (Some node)
    ∧ t_heap tree !! node = Some n
    ∧ n_bit n = key_bitlen
    ∧ n_prefix n = Some np
    ∧ pfx_stream np = stream
    ∧ SCRadixPrefixContainNetmask (Some np) netmask = true.

(** A generic key of 256 bits, which the chop against the netmask 255
    leaves as it is. *)
Definition long_key : list Z := replicate 32 2.

(** Insert [long_key] into an empty tree, and then once more: the tree
    after the first insertion, the tree after the second one and the two
    nodes returned. *)
Definition long_key_twice
    : outcome (SCRadixTree * option addr * SCRadixTree * option addr) :=
  '(t1, n1) ← SCRadixAddKeyGeneric scenario_fuel (Some long_key) 256
                 SCRadixCreateRadixTree 1001;
  '(t2, n2) ← SCRadixAddKeyGeneric scenario_fuel (Some long_key) 256 t1 1002;
  mret (t1, n1, t2, n2).

(** Insert the generic keys "abaa" and "abab": the tree. *)
Definition two_generic_keys : outcome SCRadixTree :=
  '(t, _) ← SCRadixAddKeyGeneric scenario_fuel (Some [97; 98; 97; 97]) 32
               SCRadixCreateRadixTree 1001;
  '(t, _) ← SCRadixAddKeyGeneric scenario_fuel (Some [97; 98; 97; 98]) 32 t 1002;
  mret t.

(** ** Descents, and trees of keys of one width *)

(** [descent h stream bitlen k a x]: the walk of the lookup by the bits of
    [stream] leads from [a] to [x] in [k] steps, each of them out of a node
    whose bit is below [bitlen]. *)
Inductive descent (h : gmap addr SCRadixNode) (stream : list Z) (bitlen : Z)
    : nat → addr → addr → Prop :=
  | descent_here a : descent h stream bitlen 0 a a
  | descent_child k a n b c x :
      h !! a = Some n →
      n_bit n < bitlen →
      bit_test stream (n_bit n) = Done b →
      (if b : bool then n_right n else n_left n) = Some c →
      descent h stream bitlen k c x →
      descent h stream bitlen (S k) a x.

(** No node has a bit above [bitlen]: so it is in a tree whose keys all
    have [bitlen] bits. *)
Definition width_bounded (h : gmap addr SCRadixNode) (bitlen : Z) : Prop :=
  heap_forall (λ n, n_bit n ≤ bitlen) h.

(** The trees built from the empty tree by insertions of keys of [width]
    bits. *)
Inductive inserted_width (width : Z) : SCRadixTree → Prop :=
  | inserted_width_create : inserted_width width SCRadixCreateRadixTree
  | inserted_width_add fuel key_stream tree user netmask tree' node :
      inserted_width width tree →
      is_uint8 netmask →
      SCRadixAddKey fuel key_stream width tree user netmask = Done (tree', node) →
      inserted_width width tree'.

(** The intermediate node that [SCRadixAddKey] puts above [node] when the
    key differs from the keys below [node] at bit [d]: [b] is that bit of
    the new key, [new] the leaf of the new key, [moved] the netmasks taken
    over from [node]. *)
Definition inter_node_of (n : SCRadixNode) (node new : addr) (d : Z) (b : bool)
    (moved : option (list Z)) : SCRadixNode :=
  {| n_bit := d; n_netmasks := moved; n_prefix := None;
     n_left := Some (if b then node else new);
     n_right := Some (if b then new else node);
     n_parent := n_parent n |}.

(** After the insertion that made the leaf [new], the parent of [new]
    holds no netmask, and [netmask] is a host netmask or lies above the bit
    of that parent, so that it was registered in the leaf itself. *)
Definition leaf_parent_clear (tree : SCRadixTree) (new : addr) (netmask : Z) : Prop :=
  ∀ nn p np,
    t_heap tree !! new = Some nn → n_parent nn = Some p → t_heap tree !! p = Some np →
    default [] (n_netmasks np) = []
    ∧ (netmask_is_host netmask = true ∨ n_bit np < netmask).

(** Insert 10.0.0.0/8 and then 192.168.0.0/16: the tree. *)
Definition two_netblocks : outcome SCRadixTree :=
  '(t, _) ← SCRadixAddKeyIPV4Netblock scenario_fuel (Some [10; 0; 0; 0])
               SCRadixCreateRadixTree 1008 8;
  '(t, _) ← SCRadixAddKeyIPV4Netblock scenario_fuel (Some [192; 168; 0; 0]) t 1016 16;
  mret t.

(** ** Bits of keys, the order of user data lists, and what a lookup changes *)

(** Bit [pos] of a key, counted from the most significant bit of byte 0. *)
Definition key_bit (stream : list Z) (pos : Z) : option bool :=
  b ← stream !! Z.to_nat (pos / 8); Some (Z.testbit b (7 - pos mod 8)).

Definition is_bytes (stream : list Z) : Prop := Forall (λ b, 0 ≤ b < 256) stream.

(** The netmasks of a user data list, in the order of the list. *)
Definition ud_netmasks (l : list SCRadixUserData) : list Z := ud_netmask <$> l.

(** A user data list in descending order of the netmasks, and one in
    which no netmask occurs twice as well. *)
Definition ud_descending (l : list SCRadixUserData) : Prop :=
  StronglySorted Z.ge (ud_netmasks l).
Definition ud_strictly_descending (l : list SCRadixUserData) : Prop :=
  StronglySorted Z.gt (ud_netmasks l).

(** A node without the result slot of its prefix. *)
Definition forget_result (n : SCRadixNode) : SCRadixNode :=
  with_prefix (with_user_data_result 0 <$> n_prefix n) n.

(** [h'] is [h] but for the result slot of the prefix of the node
    [result]. *)
Definition result_only (h h' : gmap addr SCRadixNode) (result : option addr) : Prop :=
  (result = None → h' = h)
  ∧ (∀ a, forget_result <$> h' !! a = forget_result <$> h !! a)
  ∧ (∀ a, result ≠ Some a → h' !! a = h !! a).

(** The prefix of a node, when it has one, satisfies [Q]. *)
Definition prefix_all (Q : SCRadixPrefix → Prop) (n : SCRadixNode) : Prop :=
  ∀ p, n_prefix n = Some p → Q p.

(** ** Trees of keys of one width *)

(** The keys [s1] and [s2] have the same bits at the positions below [m]. *)
Definition agree_below (s1 s2 : list Z) (m : Z) : Prop :=
  ∀ pos, 0 ≤ pos < m → bit_test s1 pos = bit_test s2 pos.

(** What holds of the node at [a] in a tree of keys of [width] bits, when
    [key_of] gives a key found below each node: a node with a prefix is a
    leaf, with the bit [width] and the key [key_of a]; a node without one
    has a bit below [width] and two children; the bit of a child is above
    the bit of its parent, and the key below a child has the bits of the
    key below the parent up to the bit of the parent, at which it has the
    bit of the side of the child. *)
Definition node_keyed (width : Z) (h : gmap addr SCRadixNode) (key_of : addr → list Z)
    (a : addr) (n : SCRadixNode) : Prop :=
  is_bytes (key_of a) ∧ Z.of_nat (length (key_of a)) = width / 8
  ∧ 0 ≤ n_bit n
  ∧ (∀ p, n_prefix n = Some p →
       n_bit n = width ∧ pfx_bitlen p = width ∧ pfx_stream p = key_of a
       ∧ n_left n = None ∧ n_right n = None)
  ∧ (n_prefix n = None → n_bit n < width ∧ is_Some (n_left n) ∧ is_Some (n_right n))
  ∧ (∀ (b : bool) c nc,
       (if b then n_right n else n_left n) = Some c → h !! c = Some nc →
       n_bit n < n_bit nc
       ∧ agree_below (key_of c) (key_of a) (n_bit n)
       ∧ bit_test (key_of c) (n_bit n) = Done b).

(** Every node hangs in the tree: an empty tree has no node, a node
    without a parent is the head, and a node is a child of its parent. *)
Definition rooted (tree : SCRadixTree) : Prop :=
  (t_head tree = None → t_heap tree = ∅)
  ∧ (∀ a n, t_heap tree !! a = Some n → n_parent n = None → t_head tree = Some a)
  ∧ (∀ a n p pn, t_heap tree !! a = Some n → n_parent n = Some p →
       t_heap tree !! p = Some pn → n_left pn = Some a ∨ n_right pn = Some a).

(** A tree of keys of [width] bits. *)
Definition key_tree (width : Z) (tree : SCRadixTree) : Prop :=
  tree_linked tree ∧ rooted tree
  ∧ ∃ key_of, map_Forall (node_keyed width (t_heap tree) key_of) (t_heap tree).

(** The fields of a node that place it and its key in the tree. *)
Definition key_view (n : SCRadixNode)
    : Z * option addr * option addr * option addr * option (Z * list Z) :=
  (n_bit n, n_left n, n_right n, n_parent n,
   (λ p, (pfx_bitlen p, pfx_stream p)) <$> n_prefix n).

(** Two arenas with the same nodes, up to the netmask arrays and the user
    data. *)
Definition same_keys (h h' : gmap addr SCRadixNode) : Prop :=
  ∀ a, key_view <$> h' !! a = key_view <$> h !! a.

(** The leaf that an insertion makes for a key. *)
Definition leaf_of (prefix : SCRadixPrefix) : SCRadixNode :=
  with_bit (pfx_bitlen prefix) (with_prefix (Some prefix) zero_node).

(** The prefix that an insertion makes. *)
Definition prefix_of (width : Z) (key' : list Z) (user netmask : Z) : SCRadixPrefix :=
  {| pfx_bitlen := width;
     pfx_stream := take (Z.to_nat (width / 8)) key';
     pfx_user_data := [SCRadixAllocSCRadixUserData netmask user];
     pfx_user_data_result := 0 |}.

(** The parent of [node] after the intermediate node [inter] took the
    place of [node] below it. *)
Definition reparent (node inter : addr) (pn : SCRadixNode) : SCRadixNode :=
  if bool_decide (n_right pn = Some node) then with_right (Some inter) pn
  else with_left (Some inter) pn.

(** The arena after the split of [node] for the new leaf [new], as a
    function of the address. *)
Definition split_heap (h0 : gmap addr SCRadixNode) (node : addr) (n : SCRadixNode)
    (new : addr) (leaf : SCRadixNode) (inter : addr) (d : Z) (b : bool)
    (keep moved : option (list Z)) (x : addr) : option SCRadixNode :=
  if decide (x = inter) then Some (inter_node_of n node new d b moved)
  else if decide (x = node) then Some (with_parent (Some inter) (with_netmasks keep n))
  else if decide (x = new) then Some (with_parent (Some inter) leaf)
  else if decide (n_parent n = Some x) then reparent node inter <$> h0 !! x
  else h0 !! x.

(** The keys below the nodes after the split. *)
Definition split_key_of (key_of : addr → list Z) (node new inter : addr) (stream : list Z)
    (x : addr) : list Z :=
  if decide (x = new) then stream
  else if decide (x = inter) then key_of node
  else key_of x.

(** The trees built from the empty tree by insertions, removals and
    lookups of keys of [width] bits, the keys inserted being byte strings
    and the netmasks at most [width]. *)
Inductive built (width : Z) : SCRadixTree → Prop :=
  | built_create : built width SCRadixCreateRadixTree
  | built_add fuel key tree user netmask tree' node :
      built width tree →
      is_bytes key → 0 ≤ netmask ≤ width →
      SCRadixAddKey fuel (Some key) width tree user netmask = Done (tree', node) →
      built width tree'
  | built_remove fuel key tree netmask tree' :
      built width tree →
      SCRadixRemoveKey fuel (Some key) width tree netmask = Done tree' →
      built width tree'
  | built_find fuel key tree exact_match tree' node :
      built width tree →
      SCRadixFindKey fuel (Some key) width tree exact_match = Done (tree', node) →
      built width tree'.

(** The key stored at a node and the entries stored for it. *)
Definition entries_of (h : gmap addr SCRadixNode) (a : addr)
    : option (list Z * list SCRadixUserData) :=
  n ← h !! a; p ← n_prefix n; Some (pfx_stream p, pfx_user_data p).

(** The tree holds an entry for the key [stream] with this netmask and
    this user data. *)
Definition stored (tree : SCRadixTree) (stream : list Z) (netmask user : Z) : Prop :=
  ∃ a l, entries_of (t_heap tree) a = Some (stream, l)
         ∧ SCRadixAllocSCRadixUserData netmask user ∈ l.

(** The grandparent of a removed leaf after the sibling [sib] of the leaf
    took the place of [parent] below it. *)
Definition regrand (parent sib : addr) (gn : SCRadixNode) : SCRadixNode :=
  if bool_decide (n_left gn = Some parent) then with_left (Some sib) gn
  else with_right (Some sib) gn.

(** The arena after the leaf [node] and its parent were taken out of the
    tree, as a function of the address: [sn'] is the sibling of [node]
    afterwards and [gp] the parent of [parent]. *)
Definition unlink_heap (h : gmap addr SCRadixNode) (node parent sib : addr)
    (sn' : SCRadixNode) (gp : option addr) (x : addr) : option SCRadixNode :=
  if decide (x = node) then None
  else if decide (x = parent) then None
  else if decide (x = sib) then Some sn'
  else if decide (gp = Some x) then regrand parent sib <$> h !! x
  else h !! x.

(** The list of entries of every key is not empty and in strictly
    descending order of the netmasks, which are at most [width]. *)
Definition entries_ok (width : Z) (tree : SCRadixTree) : Prop :=
  ∀ a s l, entries_of (t_heap tree) a = Some (s, l) →
           l ≠ [] ∧ ud_strictly_descending l ∧ Forall (λ ud, ud_netmask ud ≤ width) l.

(** ** The release of a tree *)

(** [SCRadixReleaseNode]: [node->prefix] is read for the release of the
    prefix, and the node is freed.  The prefix, its stream and its user
    data list are held in the node record and go with it; the calls of
    [tree->Free] on the user pointers are outside the arena.  The release
    of a node that is not live is an invalid access. *)
Definition SCRadixReleaseNode (h : gmap addr SCRadixNode) (node : option addr)
    : outcome (gmap addr SCRadixNode) :=
  match node with
  | None => Done h
  | Some a => n ← load h a; mret (delete a h)
  end.

(** [SCRadixReleaseRadixSubtree]; each level of the recursion spends one
    unit of fuel.  [node->left] and [node->right] are read from the arena
    when the recursive call is made. *)
Fixpoint SCRadixReleaseRadixSubtree (fuel : nat) (h : gmap addr SCRadixNode)
    (node : option addr) : outcome (gmap addr SCRadixNode) :=
  match node with
  | None => Done h
  | Some a =>
      match fuel with
      | O => Fault OutOfFuel
      | S fuel' =>
          n ← load h a;
          h ← SCRadixReleaseRadixSubtree fuel' h (n_left n);
          n ← load h a;
          h ← SCRadixReleaseRadixSubtree fuel' h (n_right n);
          SCRadixReleaseNode h (Some a)
      end
  end.

(** [SCRadixReleaseRadixTree]. *)
Definition SCRadixReleaseRadixTree (fuel : nat) (tree : SCRadixTree) : outcome SCRadixTree :=
  h ← SCRadixReleaseRadixSubtree fuel (t_heap tree) (t_head tree);
  mret {| t_heap := h; t_head := None |}.

(** [under h a x]: the parent pointers lead from [x] to [a]. *)
Inductive under (h : gmap addr SCRadixNode) (a : addr) : addr → Prop :=
  | under_here : under h a a
  | under_parent x nx p :
      h !! x = Some nx → n_parent nx = Some p → under h a p → under h a x.

(** The arena of the tree of 192.168.0.0/16 and the host 192.168.1.1. *)
Definition netblock_host_heap : gmap addr SCRadixNode :=
  match netblock_then_host with
  | Done (t, _) => t_heap t
  | Fault _ => ∅
  end.

(** Insert 192.168.0.0/16, the host 192.168.1.1 and the host 10.1.2.3:
    the tree. *)
Definition netblock_and_hosts : SCRadixTree :=
  match
    '(t, _) ← SCRadixAddKeyIPV4Netblock scenario_fuel (Some [192; 168; 0; 0])
                 SCRadixCreateRadixTree 1016 16;
    '(t, _) ← SCRadixAddKeyIPV4 scenario_fuel (Some [192; 168; 1; 1]) t 1032;
    '(t, _) ← SCRadixAddKeyIPV4 scenario_fuel (Some [10; 1; 2; 3]) t 2032;
    mret t
  with
  | Done t => t
  | Fault _ => SCRadixCreateRadixTree
  end.

(** ** The way from a node towards the head *)

(** [climbs h netmask x t]: the parent pointers lead from [x] up to [t], and
    every node on the way above [x], [t] among them, has a bit that is
    not below [netmask]. *)
Inductive climbs (h : gmap addr SCRadixNode) (netmask : Z) : addr → addr → Prop :=
  | climbs_here x : climbs h netmask x x
  | climbs_parent x nx p pn t :
      h !! x = Some nx → n_parent nx = Some p →
      h !! p = Some pn → netmask ≤ n_bit pn →
      climbs h netmask p t →
      climbs h netmask x t.

(** ** The node that takes the netmask of an insertion *)

(** The node [a] holds an entry for [netmask]. *)
Definition holds_netmask (h : gmap addr SCRadixNode) (a : addr) (netmask : Z) : Prop :=
  ∃ s l, entries_of h a = Some (s, l) ∧ netmask ∈ ud_netmasks l.

(** [target] is the node chosen for the registration of [netmask] from the
    node [start]: the walk from [start] that goes on to the parent while
    [netmask < parent->bit + 1] ends at [target], so the parent of
    [target], if any, has a bit below [netmask]; and the array of [target]
    holds [netmask]. *)
Definition chosen_node (h : gmap addr SCRadixNode) (netmask : Z) (start target : addr)
    : Prop :=
  climbs h netmask start target
  ∧ ∃ tn, h !! target = Some tn
          ∧ netmask ∈ default [] (n_netmasks tn)
          ∧ ∀ p pn, n_parent tn = Some p → h !! p = Some pn → n_bit pn < netmask.

(** ** The exit of a removal *)

(** The leaf [node] has a parent and a sibling that both hold an array of
    no netmasks: allocated, with [netmask_cnt] 0. *)
Definition empty_arrays_around (h : gmap addr SCRadixNode) (node : addr) : Prop :=
  ∃ n parent pn sib sn,
    h !! node = Some n ∧ n_parent n = Some parent ∧ h !! parent = Some pn
    ∧ (n_left pn = Some sib ∧ n_right pn = Some node
       ∨ n_left pn = Some node ∧ n_right pn = Some sib)
    ∧ h !! sib = Some sn
    ∧ n_netmasks pn = Some [] ∧ n_netmasks sn = Some [].

(** Insert 10.0.0.0/24, the host 192.168.1.1 and the host 10.0.1.0. *)
Definition netblock_between_hosts : outcome SCRadixTree :=
  '(t, _) ← SCRadixAddKeyIPV4Netblock scenario_fuel (Some [10; 0; 0; 0])
               SCRadixCreateRadixTree 1024 24;
  '(t, _) ← SCRadixAddKeyIPV4 scenario_fuel (Some [192; 168; 1; 1]) t 1032;
  '(t, _) ← SCRadixAddKeyIPV4 scenario_fuel (Some [10; 0; 1; 0]) t 2032;
  mret t.

Definition netblock_between_hosts_tree : SCRadixTree :=
  match netblock_between_hosts with
  | Done t => t
  | Fault _ => SCRadixCreateRadixTree
  end.

(** * Proofs *)

(** ** The outcome monad *)

Lemma bind_Done {A B : Type} (m : outcome A) (k : A → outcome B) (b : B) :
  m ≫= k = Done b → ∃ a, m = Done a ∧ k a = Done b.
Proof. destruct m as [a|f]; simpl; [eauto | discriminate]. Qed.

(** Splits a hypothesis [m ≫= k = Done b] into the two runs. *)
Tactic Notation "inv_bind" hyp(H) "as" simple_intropattern(a) ident(Ha) :=
  apply bind_Done in H; destruct H as (a & Ha & H).
Tactic Notation "inv_bind" hyp(H) :=
  let a := fresh "a" in
  let Ha := fresh "Ha" in
  inv_bind H as a Ha.

(** ** The selection of the user data (C2) *)

(** C2.  For a prefix whose user data list has the head [ud] and the tail
    [rest], and any query [bitlen]: in exact mode the call returns 1 exactly
    when the netmask of [ud] is [bitlen], and then the field
    [user_data_result] holds the user of [ud]; in non-exact mode, when the
    netmask of [ud] is [bitlen] the call returns 1 exactly when [rest] is
    not empty, and then [user_data_result] holds the user of the second
    entry, and when the netmask of [ud] is not [bitlen] the call returns 1
    and [user_data_result] holds the user of [ud].  A call that returns 0
    leaves the prefix as it was, and no call changes the bit length, the
    stream or the user data list. *)
Theorem select_user_data_spec (bl : Z) (stream : list Z) (ud : SCRadixUserData)
    (rest : list SCRadixUserData) (res bitlen : Z) :
  let p := {| pfx_bitlen := bl; pfx_stream := stream;
              pfx_user_data := ud :: rest; pfx_user_data_result := res |} in
  (∃ p' hit,
      SCRadixPrefixContainNetmaskAndSetUserData (Some p) bitlen true = Done (Some p', hit)
      ∧ (hit = true ↔ ud_netmask ud = bitlen)
      ∧ (hit = true → p' = with_user_data_result (ud_user ud) p
                      ∧ pfx_user_data_result p' = ud_user ud)
      ∧ (hit = false → p' = p)
      ∧ pfx_bitlen p' = bl ∧ pfx_stream p' = stream ∧ pfx_user_data p' = ud :: rest)
  ∧ (∃ p' hit,
      SCRadixPrefixContainNetmaskAndSetUserData (Some p) bitlen false = Done (Some p', hit)
      ∧ (ud_netmask ud = bitlen →
           (hit = true ↔ rest ≠ [])
           ∧ (∀ second tl, rest = second :: tl →
                           p' = with_user_data_result (ud_user second) p
                           ∧ pfx_user_data_result p' = ud_user second))
      ∧ (ud_netmask ud ≠ bitlen →
           hit = true ∧ p' = with_user_data_result (ud_user ud) p
           ∧ pfx_user_data_result p' = ud_user ud)
      ∧ (hit = false → p' = p)
      ∧ pfx_bitlen p' = bl ∧ pfx_stream p' = stream ∧ pfx_user_data p' = ud :: rest).
Proof.
  intros p. unfold SCRadixPrefixContainNetmaskAndSetUserData; simpl.
  destruct (Z.eqb_spec (ud_netmask ud) bitlen) as [E|E]; split.
  - eexists _, true. split; [reflexivity|]. split; [tauto|].
    split; [auto|]. split; [discriminate|auto].
  - destruct rest as [|second tl].
    + eexists _, false. split; [reflexivity|]. split; [|split; [tauto|auto]].
      intros _. split; [split; [discriminate|congruence]|discriminate].
    + eexists _, true. split; [reflexivity|].
      split; [|split; [tauto|split; [discriminate|auto]]].
      intros _. split; [split; [discriminate|reflexivity]|].
      intros s t [= <- <-]. auto.
  - eexists _, false. split; [reflexivity|]. split; [|split; [discriminate|auto]].
    split; [discriminate|tauto].
  - eexists _, true. split; [reflexivity|]. split; [tauto|].
    split; [auto|]. split; [discriminate|auto].
Qed.

(** ** Best match among three netblocks (C1) *)

(** C1.  After 192.168.0.0/16, 192.171.128.0/24 and 192.171.192.0/18 were
    inserted in this order into an empty tree, the best-match lookup
    returns the node and the user of the /16 entry for 192.168.1.6, of the
    /24 entry for 192.171.128.145 and of the /18 entry for 192.171.224.6,
    and returns no node for 192.171.64.6 and for 192.174.224.6. *)
Theorem best_match_three_netblocks :
  ∃ t n16 n24 n18,
    three_netblocks = Done (t, Some n16, Some n24, Some n18)
    ∧ best_match_ipv4 scenario_fuel t [192; 168; 1; 6] n16 1016
    ∧ best_match_ipv4 scenario_fuel t [192; 171; 128; 145] n24 1024
    ∧ best_match_ipv4 scenario_fuel t [192; 171; 224; 6] n18 1018
    ∧ no_match_ipv4 scenario_fuel t [192; 171; 64; 6]
    ∧ no_match_ipv4 scenario_fuel t [192; 174; 224; 6].
Proof.
  eexists _, _, _, _. split; [vm_compute; reflexivity|].
  repeat split; eexists; try split; vm_compute; reflexivity.
Qed.

(** ** The node returned by an insertion (C6) *)

(** C6.  The host 10.0.0.0 is in the tree; adding the netblock 10.0.0.0/8,
    whose stream is the one of the host, returns [NULL]: the netmask is the
    first one registered in the node, and the code returns [new_node]
    there, which no statement has set yet. *)
Theorem add_netmask_to_existing_key_returns_null :
  host_then_netblock = Done None.
Proof. vm_compute. reflexivity. Qed.

(** ** Invalid keys (C8) *)

(** C8.  With a [NULL] key stream and a bit length of 32 the insertion
    does not return: [SCRadixChopIPAddressAgainstNetmask] writes through the
    stream before [SCRadixCreatePrefix] tests it. *)
Theorem add_null_stream_faults (fuel : nat) (tree : SCRadixTree) (user netmask : Z) :
  SCRadixAddKey fuel None 32 tree user netmask = Fault InvalidAccess.
Proof. reflexivity. Qed.

(** The chop loop runs to its end on a buffer that is long enough, and
    keeps its length. *)
Lemma chop_loop_Done (n : nat) (i netmask : Z) (s : list Z) :
  (n ≤ length s)%nat →
  ∃ s', chop_loop n i netmask s = Done s' ∧ length s' = length s.
Proof.
  revert i s. induction n as [|n IH]; intros i s Hn; simpl.
  - eauto.
  - destruct s as [|b rest]; simpl in *; [lia|].
    destruct (IH (i + 1) rest) as (r & -> & Hr); [lia|]. simpl.
    eexists. split; [reflexivity|]. simpl. lia.
Qed.

(** A bit length that is zero or not a multiple of 8 is refused, whatever
    the tree; the tree is left as it was. *)
Lemma add_bad_bitlen_refused (fuel : nat) (key : list Z) (key_bitlen : Z)
    (tree : SCRadixTree) (user netmask : Z) :
  key_bitlen = 0 ∨ key_bitlen mod 8 ≠ 0 →
  key_bitlen / 8 ≤ Z.of_nat (length key) →
  SCRadixAddKey fuel (Some key) key_bitlen tree user netmask = Done (tree, None).
Proof.
  intros Hbad Hlen. unfold SCRadixAddKey, SCRadixChopIPAddressAgainstNetmask.
  destruct (chop_loop_Done (Z.to_nat (key_bitlen / 8)) 0 netmask key) as (s' & -> & _); [lia|].
  simpl. unfold SCRadixCreatePrefix.
  replace (negb (key_bitlen mod 8 =? 0) || (key_bitlen =? 0)) with true; [reflexivity|].
  symmetry. apply orb_true_iff. destruct Hbad as [->|H]; [right; reflexivity|left].
  apply negb_true_iff, Z.eqb_neq. exact H.
Qed.

(** ** Netmask arrays in descending order *)

#[local] Instance Zge_trans : Transitive Z.ge.
Proof. intros x y z; lia. Qed.

Lemma descending_strongly (l : list Z) : descending l ↔ StronglySorted Z.ge l.
Proof.
  split; [intros H; apply Sorted_StronglySorted; [apply _|exact H] | apply StronglySorted_Sorted].
Qed.

Lemma netmask_sift_middle (pre suf : list Z) (netmask : Z) :
  StronglySorted Z.ge (pre ++ suf) →
  Forall (λ x, x ≤ netmask) suf →
  StronglySorted Z.ge (netmask_sift (length pre) (pre ++ netmask :: suf) netmask).
Proof.
  revert suf. induction pre as [|x pre IH] using rev_ind; intros suf Hs Hsuf.
  - simpl in *. apply StronglySorted_cons. split; [|exact Hs].
    eapply Forall_impl; [exact Hsuf|]. intros y Hy; simpl in Hy. lia.
  - rewrite length_app, Nat.add_1_r. simpl.
    rewrite <- app_assoc. simpl.
    rewrite list_lookup_middle by reflexivity.
    rewrite <- app_assoc in Hs. simpl in Hs.
    destruct (Z.ltb_spec netmask x) as [Hlt|Hge].
    + rewrite list_insert_id.
      2:{ replace (pre ++ x :: netmask :: suf) with ((pre ++ [x]) ++ netmask :: suf)
            by (rewrite <- app_assoc; reflexivity).
          apply list_lookup_middle. rewrite length_app. simpl. lia. }
      apply StronglySorted_app in Hs as (Hcross & Hpre & Hxs).
      apply StronglySorted_cons in Hxs as (Hx & Hsuf').
      apply StronglySorted_app. split; [|split; [exact Hpre|]].
      * intros a b Ha Hb. apply elem_of_cons in Hb as [->|Hb].
        -- apply (Hcross a x Ha). left.
        -- apply elem_of_cons in Hb as [->|Hb].
           ++ assert (a >= x) by (apply (Hcross a x Ha); left). lia.
           ++ apply (Hcross a b Ha). right. exact Hb.
      * apply StronglySorted_cons. split.
        -- apply Forall_cons. split; [lia|exact Hx].
        -- apply StronglySorted_cons. split; [|exact Hsuf'].
           eapply Forall_impl; [exact Hsuf|]. intros y Hy; simpl in Hy. lia.
    + replace (<[length pre:=netmask]> (<[S (length pre):=x]> (pre ++ x :: netmask :: suf)))
        with (pre ++ netmask :: x :: suf).
      * apply IH; [exact Hs|]. apply Forall_cons. split; [lia|exact Hsuf].
      * replace (S (length pre)) with (length pre + 1)%nat by lia.
        rewrite (insert_app_r pre (x :: netmask :: suf) 1 x). simpl.
        rewrite (insert_app_r_alt pre _ (length pre)) by lia.
        rewrite Nat.sub_diag. reflexivity.
Qed.

Lemma netmasks_register_descending (old : option (list Z)) (netmask : Z) :
  (∀ l, old = Some l → descending l) →
  descending (netmasks_register old netmask).
Proof.
  intros Hold. unfold netmasks_register. apply descending_strongly.
  apply netmask_sift_middle; [|constructor].
  rewrite app_nil_r. destruct old as [l|]; simpl; [|constructor].
  apply descending_strongly, Hold. reflexivity.
Qed.

Lemma netmask_split_index_take (l : list Z) (differ_bit : Z) :
  Forall (λ x, differ_bit + 1 ≤ x) (take (netmask_split_index l differ_bit) l).
Proof.
  induction l as [|x l IH]; simpl; [constructor|].
  destruct (Z.ltb_spec x (differ_bit + 1)); simpl; [constructor|].
  constructor; [lia|exact IH].
Qed.

Lemma netmask_split_index_drop (l : list Z) (differ_bit : Z) :
  StronglySorted Z.ge l →
  Forall (λ x, x < differ_bit + 1) (drop (netmask_split_index l differ_bit) l).
Proof.
  induction l as [|x l IH]; simpl; intros Hs; [constructor|].
  apply StronglySorted_cons in Hs as (Hx & Hl).
  destruct (Z.ltb_spec x (differ_bit + 1)); simpl.
  - constructor; [lia|]. eapply Forall_impl; [exact Hx|]. intros y Hy; simpl in Hy. lia.
  - apply IH, Hl.
Qed.

Lemma descending_take (l : list Z) (i : nat) : descending l → descending (take i l).
Proof.
  rewrite !descending_strongly. intros Hs.
  rewrite <- (take_drop i l) in Hs. apply StronglySorted_app in Hs. tauto.
Qed.

Lemma descending_drop (l : list Z) (i : nat) : descending l → descending (drop i l).
Proof.
  rewrite !descending_strongly. intros Hs.
  rewrite <- (take_drop i l) in Hs. apply StronglySorted_app in Hs. tauto.
Qed.

Lemma descending_delete (l : list Z) (i : nat) : descending l → descending (delete i l).
Proof.
  rewrite !descending_strongly. intros Hs. rewrite delete_take_drop.
  rewrite <- (take_drop i l) in Hs.
  apply StronglySorted_app in Hs as (Hcross & Ht & Hd).
  apply StronglySorted_app. split; [|split; [exact Ht|]].
  - intros a b Ha Hb. apply Hcross; [exact Ha|].
    rewrite <- (take_drop 1 (drop i l)). rewrite drop_drop.
    apply elem_of_app. right. replace (i + 1)%nat with (S i) by lia. exact Hb.
  - rewrite <- (take_drop 1 (drop i l)) in Hd. apply StronglySorted_app in Hd.
    rewrite drop_drop in Hd. replace (i + 1)%nat with (S i) in Hd by lia. tauto.
Qed.

(** ** Loads, stores and allocations *)

Lemma load_Done h a n : load h a = Done n → h !! a = Some n.
Proof. unfold load. destruct (h !! a); [intros [= ->]; reflexivity | discriminate]. Qed.

Lemma store_Done f a h h' :
  store f a h = Done h' → ∃ n, h !! a = Some n ∧ h' = <[a := f n]> h.
Proof.
  unfold store. intros H. inv_bind H. apply load_Done in Ha.
  injection H as <-. eauto.
Qed.

Lemma heap_forall_load P h a n : heap_forall P h → load h a = Done n → P n.
Proof. intros Hh Hl. apply load_Done in Hl. exact (Hh a n Hl). Qed.

Lemma heap_forall_store P f a h h' :
  heap_forall P h → (∀ n, h !! a = Some n → P n → P (f n)) →
  store f a h = Done h' → heap_forall P h'.
Proof.
  intros Hh Hf Hs. apply store_Done in Hs as (n & Hn & ->).
  apply map_Forall_insert_2; [|exact Hh]. apply Hf; [exact Hn|]. exact (Hh a n Hn).
Qed.

Lemma create_node_fresh h h' a :
  SCRadixCreateNode h = (h', a) → h !! a = None ∧ h' = <[a := zero_node]> h.
Proof.
  unfold SCRadixCreateNode. intros [= <- <-]. split; [|reflexivity].
  apply not_elem_of_dom. apply is_fresh.
Qed.

Lemma heap_forall_create P h h' a :
  heap_forall P h → P zero_node → SCRadixCreateNode h = (h', a) → heap_forall P h'.
Proof.
  intros Hh Hz Hc. apply create_node_fresh in Hc as (_ & ->).
  apply map_Forall_insert_2; assumption.
Qed.

(** ** The node invariants are kept by every operation *)

Section node_ok.
Context (N : Z → Prop).

Lemma node_ok_zero : node_ok N zero_node.
Proof. split; [simpl; lia|]. split; simpl; discriminate. Qed.

Lemma node_ok_left v n : node_ok N n → node_ok N (with_left v n).
Proof. intros H; exact H. Qed.
Lemma node_ok_right v n : node_ok N n → node_ok N (with_right v n).
Proof. intros H; exact H. Qed.
Lemma node_ok_parent v n : node_ok N n → node_ok N (with_parent v n).
Proof. intros H; exact H. Qed.

Lemma node_ok_netmasks v n :
  node_ok N n → (∀ l, v = Some l → descending l) → node_ok N (with_netmasks v n).
Proof. intros (Hb & _ & Hp) Hv. split; [exact Hb|]. split; [exact Hv|exact Hp]. Qed.

Lemma node_ok_register netmask n :
  node_ok N n →
  node_ok N (with_netmasks (Some (netmasks_register (n_netmasks n) netmask)) n).
Proof.
  intros Hn. apply node_ok_netmasks; [exact Hn|]. intros l [= <-].
  apply netmasks_register_descending. apply Hn.
Qed.

Lemma node_ok_leaf p n :
  node_ok N n → prefix_ok N (pfx_bitlen p) p →
  node_ok N (with_bit (pfx_bitlen p) (with_prefix (Some p) n)).
Proof.
  intros (_ & Hm & _) Hp. split; [|split]; simpl.
  - destruct Hp as (_ & _ & ? & _). lia.
  - exact Hm.
  - intros q [= <-]. exact Hp.
Qed.

Lemma create_prefix_ok key_stream key_bitlen user netmask p :
  is_uint16 key_bitlen → N netmask →
  SCRadixCreatePrefix key_stream key_bitlen user netmask = Done (Some p) →
  prefix_ok N key_bitlen p ∧ pfx_bitlen p = key_bitlen.
Proof.
  intros Hk HN. unfold SCRadixCreatePrefix.
  destruct (negb (key_bitlen mod 8 =? 0) || (key_bitlen =? 0)) eqn:E; [discriminate|].
  apply orb_false_iff in E as (E1 & E2).
  apply negb_false_iff, Z.eqb_eq in E1. apply Z.eqb_neq in E2.
  destruct key_stream as [s|]; [|discriminate].
  destruct (Z.ltb_spec (Z.of_nat (length s)) (key_bitlen / 8)); [discriminate|].
  intros [= <-]. split; [|reflexivity]. unfold prefix_ok; simpl.
  split; [discriminate|]. split; [repeat constructor; exact HN|].
  unfold is_uint16 in Hk. split; [clear -Hk E2; lia|]. split; [exact E1|]. split; [|lia].
  assert (0 ≤ key_bitlen / 8) by (apply Z.div_pos; lia).
  rewrite length_take. lia.
Qed.

Lemma add_user_data_nonempty new l : SCRadixAppendToSCRadixUserDataList new l ≠ [].
Proof. destruct l as [|x l]; simpl; [discriminate|]. destruct (_ >? _); discriminate. Qed.

Lemma add_user_data_forall (Q : SCRadixUserData → Prop) new l :
  Q new → Forall Q l → Forall Q (SCRadixAppendToSCRadixUserDataList new l).
Proof.
  intros Hn. induction 1 as [|x l Hx Hl IH]; simpl; [repeat constructor; exact Hn|].
  destruct (_ >? _); repeat constructor; assumption.
Qed.

Lemma node_ok_add_netmask n np np' netmask user :
  node_ok N n → n_prefix n = Some np → N netmask →
  SCRadixAddNetmaskUserDataToPrefix np netmask user = Done np' →
  node_ok N (with_prefix (Some np') n).
Proof.
  intros (Hb & Hm & Hp) Hnp HN. unfold SCRadixAddNetmaskUserDataToPrefix.
  destruct (user =? 0); [discriminate|]. intros [= <-].
  specialize (Hp np Hnp). destruct Hp as (H1 & H2 & H3 & H4 & H5 & H6).
  split; [exact Hb|]. split; [exact Hm|]. simpl. intros q [= <-].
  unfold prefix_ok; simpl. split; [apply add_user_data_nonempty|].
  split; [apply add_user_data_forall; [exact HN|exact H2]|]. auto.
Qed.

Lemma register_netmask_node_ok fuel h node netmask h' target first :
  heap_forall (node_ok N) h →
  register_netmask fuel h node netmask = Done (h', target, first) →
  heap_forall (node_ok N) h'.
Proof.
  intros Hh H. unfold register_netmask in H.
  inv_bind H. inv_bind H. inv_bind H. inv_bind H. injection H as <- <- <-.
  eapply heap_forall_store; [exact Hh| |exact Ha2].
  intros n Hn Hok. apply load_Done in Ha1. rewrite Ha1 in Hn. injection Hn as <-.
  apply node_ok_register, Hok.
Qed.

Lemma replace_child_node_ok h head parent node new h' head' :
  heap_forall (node_ok N) h →
  replace_child h head parent node new = Done (h', head') →
  heap_forall (node_ok N) h'.
Proof.
  intros Hh H. unfold replace_child in H.
  destruct parent as [p|]; [|injection H as <- <-; exact Hh].
  inv_bind H. destruct (bool_decide _); inv_bind H; injection H as <- <-;
    (eapply heap_forall_store; [exact Hh| |exact Ha0]); intros n _ Hok; exact Hok.
Qed.

Lemma differ_offset_nonneg temp : 0 ≤ differ_offset temp.
Proof. unfold differ_offset. repeat (destruct (_ >=? _); [lia|]). lia. Qed.

Lemma differ_loop_nonneg n i check_bit stream prefix d r :
  0 ≤ i → 0 ≤ d → differ_loop n i check_bit stream prefix d = Done r → 0 ≤ r.
Proof.
  revert i d. induction n as [|n IH]; intros i d Hi Hd; simpl.
  - destruct (_ <? _); [discriminate|]. intros [= <-]. exact Hd.
  - destruct (_ <? _); [|intros [= <-]; exact Hd].
    intros H. inv_bind H. inv_bind H. inv_bind H.
    destruct (_ =? 0).
    + apply IH in H; [exact H|lia|lia].
    + injection H as <-. pose proof (differ_offset_nonneg (Z.lxor a a1)). lia.
Qed.

Lemma add_existing_node_ok fuel tree node n prefix user netmask tree' r :
  N 255 → N netmask →
  heap_forall (node_ok N) (t_heap tree) →
  t_heap tree !! node = Some n →
  prefix_ok N (pfx_bitlen prefix) prefix →
  is_uint16 (pfx_bitlen prefix) →
  n_bit n = pfx_bitlen prefix mod 256 →
  add_existing fuel tree node n prefix user netmask = Done (tree', r) →
  heap_forall (node_ok N) (t_heap tree').
Proof.
  intros H255 HN Hh Hn Hp Hk Hbit H. unfold add_existing in H.
  pose proof (Hh node n Hn) as Hok.
  destruct (n_prefix n) as [np|] eqn:Enp.
  - destruct (SCRadixPrefixContainNetmask _ _); [injection H as <- <-; exact Hh|].
    inv_bind H. inv_bind H.
    assert (heap_forall (node_ok N) a0) as Hh0.
    { eapply heap_forall_store; [exact Hh| |exact Ha0].
      intros m Hm _. rewrite Hn in Hm. injection Hm as <-.
      eapply node_ok_add_netmask; eauto. }
    destruct (netmask_is_host netmask); [injection H as <- <-; exact Hh0|].
    inv_bind H. destruct a1 as [[h1 target] first]. injection H as <- <-. simpl.
    eapply register_netmask_node_ok; eauto.
  - inv_bind H. inv_bind H. injection H as <- <-. simpl.
    eapply heap_forall_store; [exact Hh| |exact Ha0].
    intros m Hm _. rewrite Hn in Hm. injection Hm as <-.
    destruct Hok as (Hb & Hm & _). split; [exact Hb|]. split; [exact Hm|]. simpl.
    intros q ->. 
    destruct Hp as (_ & _ & ? & ? & ? & _).
    apply create_prefix_ok in Ha; [|exact Hk|exact H255].
    destruct Ha as ((Q1 & Q2 & Q3 & Q4 & Q5 & Q6) & Q7).
    unfold prefix_ok. repeat (split; [assumption|]).
    rewrite Hbit, Q7. unfold is_uint16 in Hk. 
    pose proof (Z.mod_le (pfx_bitlen prefix) 256). lia.
Qed.

Lemma add_above_node_ok h head node n bn new_node differ_bit h' head' :
  heap_forall (node_ok N) h →
  add_above h head node n bn new_node differ_bit = Done (h', head') →
  heap_forall (node_ok N) h'.
Proof.
  intros Hh H. unfold add_above in H.
  inv_bind H. inv_bind H. inv_bind H. inv_bind H. inv_bind H.
  destruct a3 as [h3 head3]. inv_bind H. injection H as <- <-.
  assert (heap_forall (node_ok N) a1) as H1.
  { eapply heap_forall_store; [exact Hh| |exact Ha1].
    intros m _ Hok. destruct a0; exact Hok. }
  assert (heap_forall (node_ok N) a2) as H2.
  { eapply heap_forall_store; [exact H1| |exact Ha2]. intros m _ Hok. exact Hok. }
  apply replace_child_node_ok in Ha3; [|exact H2].
  eapply heap_forall_store; [exact Ha3| |exact Ha4]. intros m _ Hok. exact Hok.
Qed.

Lemma netmask_split_descending_parts netmasks differ_bit keep moved :
  (∀ l, netmasks = Some l → descending l) →
  netmask_split netmasks differ_bit = (keep, moved) →
  (∀ l, keep = Some l → descending l) ∧ (∀ l, moved = Some l → descending l).
Proof.
  intros Hd. unfold netmask_split. destruct netmasks as [l0|].
  - intros [= <- <-]. split.
    + destruct (decide _); [discriminate|]. intros l [= <-].
      apply descending_take, Hd. reflexivity.
    + intros l [= <-]. apply descending_drop, Hd. reflexivity.
  - intros [= <- <-]. split; discriminate.
Qed.

Lemma add_split_node_ok h head node n new_node stream differ_bit h' head' :
  heap_forall (node_ok N) h → node_ok N n → 0 ≤ differ_bit →
  add_split h head node n new_node stream differ_bit = Done (h', head') →
  heap_forall (node_ok N) h'.
Proof.
  intros Hh Hn Hd H. unfold add_split in H.
  destruct (SCRadixCreateNode h) as [h0 inter_node] eqn:Ec.
  pose proof (create_node_fresh _ _ _ Ec) as (Hfresh & ->).
  assert (heap_forall (node_ok N) (<[inter_node:=zero_node]> h)) as H0.
  { apply map_Forall_insert_2; [apply node_ok_zero|exact Hh]. }
  inv_bind H.
  destruct (netmask_split (n_netmasks n) differ_bit) as [keep moved] eqn:Es.
  destruct (netmask_split_descending_parts _ _ _ _ (proj1 (proj2 Hn)) Es) as (Hkeep & Hmoved).
  inv_bind H. inv_bind H. inv_bind H. inv_bind H. inv_bind H. inv_bind H.
  destruct a5 as [h5 head5]. inv_bind H. injection H as <- <-.
  assert (heap_forall (node_ok N) a) as H1.
  { eapply heap_forall_store; [exact H0| |exact Ha].
    intros m Hm _. rewrite lookup_insert_eq in Hm. injection Hm as <-.
    split; [exact Hd|]. split; simpl; discriminate. }
  assert (heap_forall (node_ok N) a0) as H2.
  { eapply heap_forall_store; [exact H1| |exact Ha0].
    intros m _ Hok. apply node_ok_netmasks; assumption. }
  assert (heap_forall (node_ok N) a1) as H3.
  { eapply heap_forall_store; [exact H2| |exact Ha1].
    intros m _ Hok. apply node_ok_netmasks; assumption. }
  assert (heap_forall (node_ok N) a3) as H4.
  { eapply heap_forall_store; [exact H3| |exact Ha3].
    intros m _ Hok. destruct a2; exact Hok. }
  assert (heap_forall (node_ok N) a4) as H5.
  { eapply heap_forall_store; [exact H4| |exact Ha4]. intros m _ Hok. exact Hok. }
  apply replace_child_node_ok in Ha5; [|exact H5].
  eapply heap_forall_store; [exact Ha5| |exact Ha6]. intros m _ Hok. exact Hok.
Qed.

Lemma add_key_node_ok fuel key_stream key_bitlen tree user netmask tree' r :
  N 255 → N netmask → is_uint16 key_bitlen →
  heap_forall (node_ok N) (t_heap tree) →
  SCRadixAddKey fuel key_stream key_bitlen tree user netmask = Done (tree', r) →
  heap_forall (node_ok N) (t_heap tree').
Proof.
  intros H255 HN Hk Hh H. unfold SCRadixAddKey in H.
  inv_bind H. inv_bind H. destruct a0 as [prefix|]; [|injection H as <- <-; exact Hh].
  apply create_prefix_ok in Ha0 as (Hp & Hbl); [|exact Hk|exact HN].
  rewrite <- Hbl in Hk, Hp.
  destruct (t_head tree) as [head|].
  - inv_bind H. inv_bind H.
    pose proof (heap_forall_load _ _ _ _ Hh Ha1) as Hbn.
    inv_bind H. inv_bind H. inv_bind H.
    pose proof (heap_forall_load _ _ _ _ Hh Ha4) as Hn.
    set (bitlen := pfx_bitlen prefix mod 256) in *.
    set (check_bit := if n_bit a1 <? bitlen then n_bit a1 else bitlen) in *.
    set (differ_bit := if check_bit <? a2 then check_bit else a2) in *.
    assert (0 ≤ bitlen) as Hbitlen by (apply Z.mod_pos_bound; lia).
    assert (0 ≤ check_bit) as Hcheck.
    { unfold check_bit. destruct Hbn as (? & _). destruct (n_bit a1 <? bitlen); lia. }
    assert (0 ≤ differ_bit) as Hdiffer.
    { apply differ_loop_nonneg in Ha2; [|lia|lia].
      unfold differ_bit. destruct (check_bit <? a2); lia. }
    destruct ((differ_bit =? bitlen) && (n_bit a4 =? bitlen)) eqn:Ecase.
    + apply andb_true_iff in Ecase as (_ & E2). apply Z.eqb_eq in E2.
      apply load_Done in Ha4.
      exact (add_existing_node_ok _ _ _ _ _ _ _ _ _ H255 HN Hh Ha4 Hp Hk E2 H).
    + destruct (SCRadixCreateNode (t_heap tree)) as [h0 new_node] eqn:Ec.
      pose proof (heap_forall_create _ _ _ _ Hh node_ok_zero Ec) as H0.
      inv_bind H.
      assert (heap_forall (node_ok N) a5) as H1.
      { eapply heap_forall_store; [exact H0| |exact Ha5].
        intros m _ Hok. apply node_ok_leaf; assumption. }
      inv_bind H. destruct a6 as [h6 head6].
      assert (heap_forall (node_ok N) h6) as H2.
      { destruct (differ_bit =? bitlen).
        - eapply add_above_node_ok; eauto.
        - eapply add_split_node_ok; eauto. }
      destruct (netmask_is_host netmask); [injection H as <- <-; exact H2|].
      inv_bind H. destruct a6 as [[h7 target] first]. injection H as <- <-. simpl.
      eapply register_netmask_node_ok; eauto.
  - destruct (SCRadixCreateNode (t_heap tree)) as [h0 node] eqn:Ec.
    pose proof (heap_forall_create _ _ _ _ Hh node_ok_zero Ec) as H0.
    inv_bind H.
    assert (heap_forall (node_ok N) a0) as H1.
    { eapply heap_forall_store; [exact H0| |exact Ha0].
      intros m _ Hok. apply node_ok_leaf; assumption. }
    destruct (netmask_is_host netmask); [injection H as <- <-; exact H1|].
    inv_bind H. injection H as <- <-. simpl.
    eapply heap_forall_store; [exact H1| |exact Ha1].
    intros m _ Hok. apply node_ok_netmasks; [exact Hok|].
    intros l [= <-]. repeat constructor.
Qed.

Lemma prefix_ok_result bit u p : prefix_ok N bit p → prefix_ok N bit (with_user_data_result u p).
Proof. intros H; exact H. Qed.

Lemma select_prefix_ok bit prefix bitlen exact p hit :
  (∀ q, prefix = Some q → prefix_ok N bit q) →
  SCRadixPrefixContainNetmaskAndSetUserData prefix bitlen exact = Done (p, hit) →
  ∀ q, p = Some q → prefix_ok N bit q.
Proof.
  intros Hp H. unfold SCRadixPrefixContainNetmaskAndSetUserData in H.
  destruct prefix as [p0|]; [|injection H as <- <-; discriminate].
  specialize (Hp p0 eq_refl).
  destruct exact; destruct (pfx_user_data p0) as [|ud [|second tl]]; try discriminate;
    repeat (destruct (_ =? _)); injection H as <- <-; intros q [= <-];
    try exact Hp; apply prefix_ok_result, Hp.
Qed.

Lemma node_ok_select n bitlen exact p hit :
  node_ok N n →
  SCRadixPrefixContainNetmaskAndSetUserData (n_prefix n) bitlen exact = Done (p, hit) →
  node_ok N (with_prefix p n).
Proof.
  intros (Hb & Hm & Hp) H. split; [exact Hb|]. split; [exact Hm|]. simpl.
  eapply select_prefix_ok; eauto.
Qed.

Lemma netblock_loop_node_ok fuel h netmasks bitlen stream node h' r :
  heap_forall (node_ok N) h →
  netblock_loop fuel h netmasks bitlen stream node = Done (NetblockReturn h' r) →
  heap_forall (node_ok N) h'.
Proof.
  intros Hh. revert stream node. induction netmasks as [|netmask rest IH]; intros stream node H;
    simpl in H; [discriminate|].
  inv_bind H as stream' Hchop. inv_bind H as found Hwalk.
  destruct found as [found|]; [|injection H as <- <-; exact Hh].
  inv_bind H as n Hload. destruct (negb _ || _); [injection H as <- <-; exact Hh|].
  inv_bind H as np Hnp. inv_bind H as same Hsame. destruct same; [|eapply IH; exact H].
  inv_bind H as sel Hsel. destruct sel as [p hit]. destruct hit; [|eapply IH; exact H].
  inv_bind H as h1 Hstore. injection H as <- <-.
  eapply heap_forall_store; [exact Hh| |exact Hstore].
  intros m Hm Hok. apply load_Done in Hload. rewrite Hload in Hm. injection Hm as <-.
  eapply node_ok_select; eauto.
Qed.

Lemma find_netblock_node_ok fuel h bitlen stream node h' r :
  heap_forall (node_ok N) h →
  SCRadixFindKeyIPNetblock fuel h bitlen stream node = Done (h', r) →
  heap_forall (node_ok N) h'.
Proof.
  intros Hh. revert stream node. induction fuel as [|fuel IH]; intros stream node H; simpl in H.
  - inv_bind H as found Hfound.
    destruct found as [netmask_node|]; [|injection H as <- <-; exact Hh].
    inv_bind H as nn Hload. inv_bind H as step Hstep. destruct step; [|discriminate].
    injection H as <- <-. eapply netblock_loop_node_ok; eauto.
  - inv_bind H as found Hfound.
    destruct found as [netmask_node|]; [|injection H as <- <-; exact Hh].
    inv_bind H as nn Hload. inv_bind H as step Hstep. destruct step.
    + injection H as <- <-. eapply netblock_loop_node_ok; eauto.
    + eapply IH; exact H.
Qed.

Lemma find_key_node_ok fuel key_stream key_bitlen tree exact tree' r :
  heap_forall (node_ok N) (t_heap tree) →
  SCRadixFindKey fuel key_stream key_bitlen tree exact = Done (tree', r) →
  heap_forall (node_ok N) (t_heap tree').
Proof.
  intros Hh H. unfold SCRadixFindKey in H.
  destruct (t_head tree) as [head|]; [|injection H as <- <-; exact Hh].
  inv_bind H as created Hcreated.
  destruct created as [prefix|]; [|injection H as <- <-; exact Hh].
  inv_bind H as found Hwalk.
  destruct found as [node|]; [|injection H as <- <-; exact Hh].
  inv_bind H as n Hload. destruct (negb _ || _); [injection H as <- <-; exact Hh|].
  inv_bind H as np Hnp. inv_bind H as same Hsame. inv_bind H as sel Hsel.
  destruct sel as [p hit]. destruct hit.
  - inv_bind H as h1 Hstore. injection H as <- <-. simpl.
    eapply heap_forall_store; [exact Hh| |exact Hstore].
    intros m Hm Hok. apply load_Done in Hload. rewrite Hload in Hm. injection Hm as <-.
    destruct same; [eapply node_ok_select; eauto|discriminate].
  - destruct exact; [injection H as <- <-; exact Hh|].
    inv_bind H as res Hres. destruct res as [h3 result]. injection H as <- <-. simpl.
    eapply find_netblock_node_ok; eauto.
Qed.

Lemma remove_user_data_forall (Q : SCRadixUserData → Prop) netmask l :
  Forall Q l → Forall Q (remove_user_data netmask l).
Proof.
  induction 1 as [|x l Hx Hl IH]; simpl; [constructor|].
  destruct (_ =? _); [exact Hl|]. constructor; assumption.
Qed.

Lemma remove_user_data_nonempty netmask l :
  (1 < length l)%nat → remove_user_data netmask l ≠ [].
Proof.
  destruct l as [|x [|y l]]; simpl; [lia|lia|]. intros _.
  destruct (_ =? _); discriminate.
Qed.

Lemma remove_netblock_entry_node_ok fuel h node netmask n h' :
  heap_forall (node_ok N) h →
  h !! node = Some n →
  SCRadixPrefixNetmaskCount (n_prefix n) > 1 →
  SCRadixRemoveNetblockEntry fuel h node netmask = Done h' →
  heap_forall (node_ok N) h'.
Proof.
  intros Hh Hn Hc H. unfold SCRadixRemoveNetblockEntry in H.
  inv_bind H as n0 Hload. apply load_Done in Hload. rewrite Hn in Hload.
  injection Hload as <-.
  destruct (n_prefix n) as [p|] eqn:Ep; simpl in H; [|discriminate].
  inv_bind H as h1 Hstore.
  assert (heap_forall (node_ok N) h1) as H1.
  { eapply heap_forall_store; [exact Hh| |exact Hstore].
    intros m Hm (Hb & Hnm & Hp). rewrite Hn in Hm. injection Hm as <-.
    split; [exact Hb|]. split; [exact Hnm|]. simpl. intros q [= <-].
    destruct (Hp p Ep) as (Q1 & Q2 & Q3). unfold prefix_ok; simpl.
    split; [apply remove_user_data_nonempty; simpl in Hc; lia|].
    split; [apply remove_user_data_forall, Q2|exact Q3]. }
  destruct ((netmask =? 32) || (netmask =? 128)); [injection H as <-; exact H1|].
  inv_bind H as local_node Hwalk. destruct (bool_decide _); [injection H as <-; exact H1|].
  eapply heap_forall_store; [exact H1| |exact H].
  intros m _ Hok. apply node_ok_netmasks; [exact Hok|].
  destruct (bool_decide _); [discriminate|]. intros l [= <-].
  apply descending_delete. destruct (n_netmasks n) as [l0|] eqn:El; simpl.
  - destruct (Hh node n Hn) as (_ & Hd & _). apply Hd, El.
  - constructor.
Qed.

Lemma transfer_netmasks_node_ok h dest src h' :
  heap_forall (node_ok N) h →
  SCRadixTransferNetmasksBWNodes h dest src = Done h' →
  heap_forall (node_ok N) h'.
Proof.
  intros Hh H. unfold SCRadixTransferNetmasksBWNodes in H.
  destruct src as [s|]; [|injection H as <-; exact Hh].
  destruct dest as [d|]; [|injection H as <-; exact Hh].
  inv_bind H as sn Hsn. destruct (n_netmasks sn); [|injection H as <-; exact Hh].
  inv_bind H as dn Hdn. destruct (_ && _); [discriminate|].
  eapply heap_forall_store; [exact Hh| |exact H].
  intros m Hm Hok. apply load_Done in Hdn. rewrite Hdn in Hm. injection Hm as ->.
  apply node_ok_netmasks; [exact Hok|]. intros l0 [= <-].
  destruct (n_netmasks m) as [l1|] eqn:El; simpl; [apply Hok, El|constructor].
Qed.

Lemma unlink_node_node_ok h head node n tree' :
  heap_forall (node_ok N) h →
  unlink_node h head node n = Done tree' →
  heap_forall (node_ok N) (t_heap tree').
Proof.
  intros Hh H. unfold unlink_node in H.
  destruct (n_parent n) as [parent|]; [|discriminate].
  inv_bind H as pn Hpn. inv_bind H as res Hres. destruct res as [[h0 new_head] temp_dest].
  inv_bind H as h1 Htransfer. injection H as <-. simpl.
  apply map_Forall_delete, map_Forall_delete.
  eapply transfer_netmasks_node_ok; [|exact Htransfer].
  destruct (n_parent pn) as [grandparent|].
  - inv_bind Hres as gn Hgn. destruct (sibling_of pn pn node) as [sib|]; [|discriminate].
    inv_bind Hres as h2 Hs1. inv_bind Hres as h3 Hs2. injection Hres as <- <- <-.
    assert (heap_forall (node_ok N) h2) as H2.
    { eapply heap_forall_store; [exact Hh| |exact Hs1].
      intros m _ Hok. destruct (bool_decide _); exact Hok. }
    eapply heap_forall_store; [exact H2| |exact Hs2]. intros m _ Hok; exact Hok.
  - inv_bind Hres as hn Hhn. destruct (sibling_of pn hn node) as [sib|]; [|discriminate].
    inv_bind Hres as h2 Hs1. injection Hres as <- <- <-.
    eapply heap_forall_store; [exact Hh| |exact Hs1]. intros m _ Hok; exact Hok.
Qed.

Lemma remove_key_node_ok fuel key_stream key_bitlen tree netmask tree' :
  heap_forall (node_ok N) (t_heap tree) →
  SCRadixRemoveKey fuel key_stream key_bitlen tree netmask = Done tree' →
  heap_forall (node_ok N) (t_heap tree').
Proof.
  intros Hh H. unfold SCRadixRemoveKey in H.
  destruct (t_head tree) as [head|]; [|injection H as <-; exact Hh].
  inv_bind H as created Hcreated.
  destruct created as [prefix|]; [|injection H as <-; exact Hh].
  inv_bind H as found Hwalk. destruct found as [node|]; [|injection H as <-; exact Hh].
  inv_bind H as n Hload. destruct (negb _ || _); [injection H as <-; exact Hh|].
  inv_bind H as np Hnp. inv_bind H as same Hsame.
  destruct (negb same); [injection H as <-; exact Hh|].
  destruct (negb _); [injection H as <-; exact Hh|].
  destruct (Z.gtb_spec (SCRadixPrefixNetmaskCount (n_prefix n)) 1) as [Hc|Hc].
  - inv_bind H as h1 Hentry. injection H as <-. simpl.
    apply load_Done in Hload.
    eapply remove_netblock_entry_node_ok; eauto. lia.
  - destruct (bool_decide _).
    + injection H as <-. simpl. apply map_Forall_delete, Hh.
    + eapply unlink_node_node_ok; eauto.
Qed.
End node_ok.

(** ** The invariants on the trees that the operations produce *)

Lemma heap_forall_empty P : heap_forall P (t_heap SCRadixCreateRadixTree).
Proof. apply map_Forall_empty. Qed.


Lemma reachable_node_ok tree : reachable tree → heap_forall (node_ok (λ _, True)) (t_heap tree).
Proof.
  induction 1.
  - apply heap_forall_empty.
  - eapply add_key_node_ok; eauto.
  - eapply remove_key_node_ok; eauto.
  - eapply find_key_node_ok; eauto.
Qed.


(** ** The order of the netmask arrays (C3) *)



(** ** The partition of the netmasks at a split (C4) *)

(** The netmasks are not partitioned as the specification has it: when the
    host 192.168.1.1 is inserted next to 192.168.0.0/16 the intermediate
    node has bit 23, and the netmask 16, which is below 24, is the one
    that moves to it. *)
Lemma split_as_specified_fails :
  ∃ t0 orig t inter,
    one_netblock = Done t0 ∧ t_head t0 = Some orig
    ∧ netblock_then_host = Done (t, Some 1%nat) ∧ t_head t = Some inter
    ∧ (n_bit <$> t_heap t !! inter) = Some 23
    ∧ ¬ split_as_specified (netmasks_at t0 orig) 23 (netmasks_at t orig) (netmasks_at t inter).
Proof.
  eexists _, _, _, _. split; [vm_compute; reflexivity|]. split; [reflexivity|].
  split; [vm_compute; reflexivity|]. split; [reflexivity|]. split; [vm_compute; reflexivity|].
  intros H. destruct (H 16) as [_ H2].
  { vm_compute. left. }
  destruct H2 as [H2 _]; [lia|]. vm_compute in H2. inversion H2.
Qed.

Lemma store_payload f a h h' x :
  store f a h = Done h' →
  (∀ n, payload (f n) = payload n) →
  payload <$> h' !! x = payload <$> h !! x.
Proof.
  intros Hs Hf. apply store_Done in Hs as (n & Hn & ->).
  destruct (decide (a = x)) as [->|Hne].
  - rewrite lookup_insert_eq, Hn. simpl. f_equal. apply Hf.
  - rewrite lookup_insert_ne by exact Hne. reflexivity.
Qed.

Lemma replace_child_payload h head parent node new h' head' x :
  replace_child h head parent node new = Done (h', head') →
  payload <$> h' !! x = payload <$> h !! x.
Proof.
  unfold replace_child. destruct parent as [p|]; [|intros [= <- <-]; reflexivity].
  intros H. inv_bind H as pn Hpn.
  destruct (bool_decide _); inv_bind H as h1 Hs; injection H as <- <-;
    (eapply store_payload; [exact Hs|]); intros n; reflexivity.
Qed.

(** C4, as the code has it.  When an insertion puts an intermediate node
    with the bit [differ_bit] above [node], whose netmask array is in
    descending order, the netmasks of [node] that are at least
    [differ_bit + 1] stay on [node] and the netmasks below [differ_bit + 1]
    are the ones on the intermediate node, which is a new node without a
    prefix. *)
Theorem add_split_partition (h : gmap addr SCRadixNode) (head : option addr)
    (node : addr) (n : SCRadixNode) (new_node : addr) (stream : list Z)
    (differ_bit : Z) (h' : gmap addr SCRadixNode) (head' : option addr) :
  h !! node = Some n →
  descending (default [] (n_netmasks n)) →
  add_split h head node n new_node stream differ_bit = Done (h', head') →
  ∃ inter_node ni nn,
    h !! inter_node = None
    ∧ h' !! inter_node = Some ni
    ∧ h' !! node = Some nn
    ∧ n_bit ni = differ_bit
    ∧ n_prefix ni = None
    ∧ default [] (n_netmasks nn) ++ default [] (n_netmasks ni) = default [] (n_netmasks n)
    ∧ Forall (λ x, differ_bit + 1 ≤ x) (default [] (n_netmasks nn))
    ∧ Forall (λ x, x < differ_bit + 1) (default [] (n_netmasks ni)).
Proof.
  intros Hn Hd H. unfold add_split in H.
  destruct (SCRadixCreateNode h) as [h0 inter_node] eqn:Ec.
  apply create_node_fresh in Ec as (Hfresh & ->).
  assert (inter_node ≠ node) as Hne by (intros ->; congruence).
  inv_bind H as h1 Hs1.
  destruct (netmask_split (n_netmasks n) differ_bit) as [keep moved] eqn:Es.
  inv_bind H as h2 Hs2. inv_bind H as h3 Hs3. inv_bind H as b Hb.
  inv_bind H as h4 Hs4. inv_bind H as h5 Hs5. inv_bind H as res Hrc.
  destruct res as [h6 head6]. inv_bind H as h7 Hs7. injection H as <- <-.
  (* the payloads after the three stores that set them *)
  apply store_Done in Hs1 as (m1 & Hm1 & ->).
  rewrite lookup_insert_eq in Hm1. injection Hm1 as <-.
  apply store_Done in Hs2 as (m2 & Hm2 & ->).
  rewrite lookup_insert_eq in Hm2. injection Hm2 as <-.
  apply store_Done in Hs3 as (m3 & Hm3 & ->).
  rewrite !lookup_insert_ne in Hm3 by exact Hne. rewrite Hn in Hm3. injection Hm3 as <-.
  set (h3 := <[node:=with_netmasks keep n]> _) in *.
  assert (payload <$> h7 !! inter_node = Some (differ_bit, moved, None)) as Hpi.
  { rewrite (store_payload _ _ _ _ _ Hs7) by (intros; reflexivity).
    rewrite (replace_child_payload _ _ _ _ _ _ _ _ Hrc).
    rewrite (store_payload _ _ _ _ _ Hs5) by (intros; reflexivity).
    rewrite (store_payload _ _ _ _ _ Hs4) by (intros; destruct b; reflexivity).
    unfold h3. rewrite lookup_insert_ne by congruence. rewrite lookup_insert_eq. reflexivity. }
  assert (payload <$> h7 !! node = Some (n_bit n, keep, n_prefix n)) as Hpn.
  { rewrite (store_payload _ _ _ _ _ Hs7) by (intros; reflexivity).
    rewrite (replace_child_payload _ _ _ _ _ _ _ _ Hrc).
    rewrite (store_payload _ _ _ _ _ Hs5) by (intros; reflexivity).
    rewrite (store_payload _ _ _ _ _ Hs4) by (intros; destruct b; reflexivity).
    unfold h3. rewrite lookup_insert_eq. reflexivity. }
  destruct (h7 !! inter_node) as [ni|] eqn:Eni; [|discriminate].
  destruct (h7 !! node) as [nn|] eqn:Enn; [|discriminate].
  injection Hpi as Hi1 Hi2 Hi3. injection Hpn as Hn1 Hn2 Hn3.
  exists inter_node, ni, nn. do 5 (split; [first [assumption|reflexivity]|]).
  rewrite Hi2, Hn2. clear -Es Hd. unfold netmask_split in Es.
  destruct (n_netmasks n) as [l|]; simpl in *.
  - injection Es as <- <-. simpl.
    split; [|split].
    + destruct (decide (netmask_split_index l differ_bit = O)) as [E|E]; simpl;
        [rewrite E; reflexivity|apply take_drop].
    + destruct (decide (netmask_split_index l differ_bit = O)) as [E|E]; simpl;
        [constructor|apply netmask_split_index_take].
    + apply netmask_split_index_drop, descending_strongly, Hd.
  - injection Es as <- <-. simpl. repeat constructor.
Qed.

Lemma add_split_partition_witness :
  ∃ h' head',
    add_split split_example_heap (Some 0%nat) 0%nat split_example_node 1%nat
      [192; 168; 24; 1] 20 = Done (h', head')
    ∧ ∃ inter_node ni nn,
        split_example_heap !! inter_node = None
        ∧ h' !! inter_node = Some ni
        ∧ h' !! 0%nat = Some nn
        ∧ n_bit ni = 20
        ∧ n_prefix ni = None
        ∧ default [] (n_netmasks nn) ++ default [] (n_netmasks ni) = [24; 16]
        ∧ Forall (λ x, 20 + 1 ≤ x) (default [] (n_netmasks nn))
        ∧ Forall (λ x, x < 20 + 1) (default [] (n_netmasks ni)).
Proof.
  eexists _, _. split; [vm_compute; reflexivity|].
  apply (add_split_partition split_example_heap (Some 0%nat) 0%nat split_example_node
           1%nat [192; 168; 24; 1] 20 _ (Some 2%nat)).
  - reflexivity.
  - simpl. repeat constructor. lia.
  - vm_compute. reflexivity.
Defined.

(** ** Insertion followed by removal (C5) *)

(** Insertion followed by removal does not give back every tree: when
    192.168.0.0/16 is in the tree, inserting it once more changes nothing,
    and the removal then empties the tree. *)
Lemma add_remove_restores_fails :
  ∃ t, one_netblock = Done t
       ∧ ¬ add_remove_restores scenario_fuel t [192; 168; 0; 0] 32 2016 16.
Proof.
  eexists. split; [vm_compute; reflexivity|].
  intros H. specialize (H _ _ _ eq_refl eq_refl). discriminate H.
Qed.

(** The case of the empty tree, with any fuel.  Into an empty tree, the
    insertion of a key of [key_bitlen] bits, a positive multiple of 8, with
    any netmask returns a node, and the removal of the key as the insertion
    left it in the buffer (chopped against the netmask), with the same
    netmask, gives back the empty tree. *)
Theorem add_remove_on_empty_tree (fuel : nat) (key : list Z) (key_bitlen user netmask : Z) :
  0 < key_bitlen → key_bitlen mod 8 = 0 → key_bitlen / 8 ≤ Z.of_nat (length key) →
  ∃ key' tree node,
    SCRadixChopIPAddressAgainstNetmask (Some key) netmask key_bitlen = Done (Some key')
    ∧ SCRadixAddKey fuel (Some key) key_bitlen SCRadixCreateRadixTree user netmask
      = Done (tree, Some node)
    ∧ SCRadixRemoveKey fuel (Some key') key_bitlen tree netmask
      = Done SCRadixCreateRadixTree.
Proof.
  intros Hpos Hmod Hlen.
  assert (0 ≤ key_bitlen / 8) as Hdiv by (apply Z.div_pos; lia).
  destruct (chop_loop_Done (Z.to_nat (key_bitlen / 8)) 0 netmask key) as (key' & Hchop & Hlen');
    [lia|].
  assert (SCRadixChopIPAddressAgainstNetmask (Some key) netmask key_bitlen = Done (Some key'))
    as Hc by (unfold SCRadixChopIPAddressAgainstNetmask; rewrite Hchop; reflexivity).
  assert (∀ u m, SCRadixCreatePrefix (Some key') key_bitlen u m
          = Done (Some {| pfx_bitlen := key_bitlen;
                          pfx_stream := take (Z.to_nat (key_bitlen / 8)) key';
                          pfx_user_data := [SCRadixAllocSCRadixUserData m u];
                          pfx_user_data_result := 0 |})) as Hcreate.
  { intros u m. unfold SCRadixCreatePrefix.
    rewrite (proj2 (Z.eqb_eq _ _) Hmod). simpl.
    destruct (Z.eqb_spec key_bitlen 0) as [E|_]; [lia|].
    destruct (Z.ltb_spec (Z.of_nat (length key')) (key_bitlen / 8)); [lia|]. reflexivity. }
  set (stream := take (Z.to_nat (key_bitlen / 8)) key') in *.
  set (leaf := λ (netmasks : option (list Z)),
         {| n_bit := key_bitlen; n_netmasks := netmasks;
            n_prefix := Some {| pfx_bitlen := key_bitlen; pfx_stream := stream;
                                pfx_user_data := [SCRadixAllocSCRadixUserData netmask user];
                                pfx_user_data_result := 0 |};
            n_left := None; n_right := None; n_parent := None |}).
  assert (∀ (a : addr) netmasks,
            SCRadixRemoveKey fuel (Some key') key_bitlen
              {| t_heap := <[a := leaf netmasks]> ∅; t_head := Some a |} netmask
            = Done SCRadixCreateRadixTree) as Hremove.
  { intros a netmasks. unfold SCRadixRemoveKey. simpl. rewrite Hcreate. simpl.
    assert (find_walk_down fuel (<[a:=leaf netmasks]> ∅) stream key_bitlen a
            = Done (Some a)) as ->.
    { destruct fuel; simpl; unfold load; rewrite lookup_insert_eq; simpl;
        rewrite Z.ltb_irrefl; reflexivity. }
    simpl. unfold load. rewrite lookup_insert_eq. simpl.
    rewrite Z.eqb_refl. simpl.
    unfold stream_match, memcmp_eq. simpl.
    assert (Z.of_nat (length stream) = key_bitlen / 8) as Hls
      by (unfold stream; rewrite length_take; lia).
    rewrite Hls, Z.ltb_irrefl. simpl.
    case_bool_decide; [|congruence].
    rewrite (proj2 (Z.eqb_eq _ _) Hmod). simpl.
    rewrite Z.eqb_refl. simpl.
    case_bool_decide; [|congruence].
    rewrite delete_insert_eq. rewrite delete_empty. reflexivity. }
  exists key'. unfold SCRadixAddKey. rewrite Hc. simpl. rewrite Hcreate. simpl.
  unfold SCRadixCreateNode. simpl.
  unfold store, load. rewrite lookup_insert_eq. simpl.
  destruct (netmask_is_host netmask).
  - eexists _, _. split; [reflexivity|]. split; [reflexivity|].
    rewrite insert_insert_eq. apply (Hremove _ None).
  - rewrite lookup_insert_eq. simpl.
    eexists _, _. split; [reflexivity|]. split; [reflexivity|].
    rewrite !insert_insert_eq. apply (Hremove _ (Some [netmask])).
Qed.

Lemma add_remove_on_empty_tree_witness :
  ∃ key' tree node,
    SCRadixChopIPAddressAgainstNetmask (Some [192; 168; 7; 9]) 16 32 = Done (Some key')
    ∧ SCRadixAddKey 0 (Some [192; 168; 7; 9]) 32 SCRadixCreateRadixTree 1016 16
      = Done (tree, Some node)
    ∧ SCRadixRemoveKey 0 (Some key') 32 tree 16 = Done SCRadixCreateRadixTree.
Proof.
  apply (add_remove_on_empty_tree 0 [192; 168; 7; 9] 32 1016 16).
  - lia.
  - reflexivity.
  - vm_compute. discriminate.
Defined.

(** ** User data lists are never empty (C9) *)

(** C9.  In every tree that a sequence of insertions, removals and lookups
    leads to, the user data list of every prefix is not empty, so the
    selection routine, which reads the head of the list without a test,
    makes no invalid access on it. *)
Theorem reachable_user_data_nonempty (tree : SCRadixTree) (node : addr)
    (n : SCRadixNode) (p : SCRadixPrefix) :
  reachable tree → t_heap tree !! node = Some n → n_prefix n = Some p →
  pfx_user_data p ≠ []
  ∧ ∀ bitlen exact_match,
      SCRadixPrefixContainNetmaskAndSetUserData (Some p) bitlen exact_match
      ≠ Fault InvalidAccess.
Proof.
  intros Hr Hn Hp. apply reachable_node_ok in Hr.
  destruct (Hr node n Hn) as (_ & _ & Hok). destruct (Hok p Hp) as (Hne & _).
  split; [exact Hne|]. intros bitlen exact_match.
  unfold SCRadixPrefixContainNetmaskAndSetUserData.
  destruct (pfx_user_data p) as [|ud [|second tl]]; [congruence| |];
    destruct exact_match; destruct (_ =? _); discriminate.
Qed.

Lemma reachable_user_data_nonempty_witness :
  ∃ t n p,
    netblock_then_host_removed = Done t
    ∧ t_heap t !! 0%nat = Some n ∧ n_prefix n = Some p
    ∧ pfx_user_data p ≠ []
    ∧ ∀ bitlen exact_match,
        SCRadixPrefixContainNetmaskAndSetUserData (Some p) bitlen exact_match
        ≠ Fault InvalidAccess.
Proof.
  eexists _, _, _. split; [vm_compute; reflexivity|].
  split; [vm_compute; reflexivity|]. split; [reflexivity|].
  eapply (reachable_user_data_nonempty _ 0%nat).
  - eapply (reachable_remove scenario_fuel (Some [192; 168; 1; 1]) 32 _ 32).
    + eapply (reachable_add scenario_fuel (Some [192; 168; 1; 1]) 32 _ 1032 32).
      * eapply (reachable_add scenario_fuel (Some [192; 168; 0; 0]) 32 _ 1016 16).
        -- apply reachable_create.
        -- unfold is_uint16; lia.
        -- unfold is_uint8; lia.
        -- vm_compute. reflexivity.
      * unfold is_uint16; lia.
      * unfold is_uint8; lia.
      * vm_compute. reflexivity.
    + unfold is_uint16; lia.
    + unfold is_uint8; lia.
    + vm_compute. reflexivity.
  - vm_compute. reflexivity.
  - reflexivity.
Defined.

(** ** Insertion keeps the links of the tree sound *)

Lemma spliced_ok L head rank node l r P X oY node_left :
  links_ok L head rank →
  L node = Some (l, r, P) →
  L X = None →
  (∀ y, oY = Some y → L y = None ∧ y ≠ X) →
  links_ok (spliced L node P X oY node_left)
           (match P with None => Some X | Some _ => head end)
           (spliced_rank rank node X oY).
Proof.
  intros (Hhead & Hall) Hnode HX HY.
  assert (node ≠ X) as HnX by congruence.
  assert (∀ y, oY = Some y → y ≠ node) as HnY by (intros y Hy ->; apply HY in Hy; destruct Hy; congruence).
  destruct (Hall node l r P Hnode) as (Hnc & Hnp & Hnd).
  assert (∀ p, P = Some p → p ≠ node ∧ p ≠ X ∧ Some p ≠ oY ∧ is_Some (L p) ∧ (rank node < rank p)%nat) as HP.
  { intros p ->. destruct (Hnp p eq_refl) as ([pl Hpl] & Hr).
    repeat split; try congruence; try lia; eauto.
    - intros ->. lia.
    - intros E. symmetry in E. apply HY in E. destruct E. congruence. }
  assert (∀ a rec, L a = Some rec → a ≠ X ∧ Some a ≠ oY) as Hold.
  { intros a rec Ha. split; [congruence|]. intros E. symmetry in E. apply HY in E.
    destruct E. congruence. }
  split.
  - intros a Ha. unfold spliced. destruct P as [p|].
    + destruct (Hhead a Ha) as (hl & hr & Hh).
      destruct (HP p eq_refl) as (? & ? & ? & ? & ?).
      assert (a ≠ node) by (intros ->; congruence).
      destruct (Hold a _ Hh).
      destruct (decide (a = node)); [congruence|].
      destruct (decide (Some a = Some p)) as [E|E].
      * rewrite Hh. simpl. unfold replace_in. simpl. case_decide; eauto.
      * destruct (decide (Some a = oY)); [congruence|].
        destruct (decide (a = X)); [congruence|]. eauto.
    + injection Ha as <-.
      destruct (decide (X = node)); [congruence|].
      destruct (decide (Some X = None)); [congruence|].
      destruct (decide (Some X = oY)) as [E|E].
      { symmetry in E. apply HY in E. destruct E. congruence. }
      destruct (decide (X = X)); [|congruence]. destruct node_left; eauto.
  - assert (∀ c cl cr cp, L c = Some (cl, cr, cp) →
            ∃ cl' cr', spliced L node P X oY node_left c
                       = Some (cl', cr', if decide (c = node) then Some X else cp)
            ∧ spliced_rank rank node X oY c = (2 * rank c + 2)%nat) as F1.
    { intros c cl cr cp Hc. destruct (Hold c _ Hc) as (HcX & HcY).
      unfold spliced, spliced_rank.
      rewrite !(decide_False (P := c = X)) by assumption.
      rewrite !(decide_False (P := Some c = oY)) by assumption.
      destruct (decide (c = node)) as [->|Hcn].
      - rewrite Hnode. eexists _, _. split; reflexivity.
      - destruct (decide (Some c = P)) as [E|E].
        + rewrite Hc. simpl. unfold replace_in. simpl.
          case_decide; eexists _, _; split; reflexivity.
        + rewrite Hc. eexists _, _. split; reflexivity. }
    assert (spliced L node P X oY node_left X
            = Some (if node_left then (Some node, oY, P) else (oY, Some node, P))
            ∧ spliced_rank rank node X oY X = (2 * rank node + 3)%nat) as (FX & FXr).
    { unfold spliced, spliced_rank.
      rewrite !(decide_False (P := X = node)) by congruence.
      rewrite !(decide_False (P := Some X = P))
        by (intros E; symmetry in E; apply HP in E; tauto).
      rewrite !(decide_False (P := Some X = oY))
        by (intros E; symmetry in E; apply HY in E; tauto).
      rewrite !(decide_True (P := X = X)) by reflexivity. tauto. }
    assert (∀ y, oY = Some y →
              spliced L node P X oY node_left y = Some (None, None, Some X)
              ∧ spliced_rank rank node X oY y = 0%nat) as FY.
    { intros y Hy. destruct (HY y Hy) as (HLy & HyX). unfold spliced, spliced_rank.
      rewrite !(decide_False (P := y = node)) by (apply HnY, Hy).
      rewrite !(decide_False (P := Some y = P))
        by (intros E; symmetry in E; apply HP in E; destruct E as (_ & _ & E & _); congruence).
      rewrite !(decide_True (P := Some y = oY)) by congruence.
      rewrite !(decide_False (P := y = X)) by assumption. tauto. }
    intros a al ar ap Ha.
    destruct (decide (a = X)) as [->|HaX].
    { rewrite FX in Ha. split; [|split].
      - intros c Hc.
        assert (c = node ∨ oY = Some c) as [->|Hy]
          by (destruct node_left; injection Ha as <- <- <-; destruct Hc as [Hc|Hc];
              try (injection Hc as <-); auto).
        + destruct (F1 node l r P Hnode) as (cl' & cr' & E1 & E2).
          rewrite decide_True in E1 by reflexivity. rewrite E1, E2, FXr. eexists _, _.
          split; [reflexivity|lia].
        + destruct (FY c Hy) as (E1 & E2). rewrite E1, E2, FXr. eexists _, _.
          split; [reflexivity|lia].
      - intros q Hq. assert (P = Some q) as HPq
          by (destruct node_left; injection Ha as <- <- <-; exact Hq).
        destruct (HP q HPq) as (_ & _ & _ & [[[ql qr] qp] Hq'] & Hr).
        destruct (F1 q ql qr qp Hq') as (cl' & cr' & E1 & E2).
        rewrite E1, E2, FXr. split; [eauto|lia].
      - intros c Hc Hr.
        destruct node_left; injection Ha as <- <- <-.
        + injection Hc as <-. apply HnY in Hr. congruence.
        + injection Hr as <-. apply HnY in Hc. congruence. }
    destruct (decide (Some a = oY)) as [HaY|HaY].
    { symmetry in HaY. destruct (FY a HaY) as (E1 & E2). rewrite E1 in Ha.
      injection Ha as <- <- <-. split; [|split].
      - intros c [?|?]; discriminate.
      - intros q [= <-]. rewrite FX, E2, FXr. split; [eauto|lia].
      - discriminate. }
    assert (∃ ol or op, L a = Some (ol, or, op)) as (ol & or & op & HLa).
    { unfold spliced in Ha.
      rewrite (decide_False (P := a = X)) in Ha by assumption.
      rewrite (decide_False (P := Some a = oY)) in Ha by assumption.
      destruct (decide (a = node)) as [->|?]; [eauto|].
      destruct (L a) as [[[ol or] op]|]; [eauto|].
      destruct (decide (Some a = P)); discriminate. }
    destruct (Hall a ol or op HLa) as (Hac & Hap & Had).
    destruct (F1 a ol or op HLa) as (al' & ar' & E1 & Ea).
    rewrite E1 in Ha. injection Ha as -> -> <-. rewrite Ea.
    (* the children of an old node *)
    assert (∀ c, al = Some c ∨ ar = Some c →
              c = X ∨ (ol = Some c ∨ or = Some c) ∧ c ≠ node) as Hkids.
    { intros c Hc. unfold spliced in E1.
      rewrite (decide_False (P := a = X)) in E1 by assumption.
      rewrite (decide_False (P := Some a = oY)) in E1 by assumption.
      destruct (decide (a = node)) as [->|Han].
      - rewrite Hnode in E1. injection E1 as <- <-.
        rewrite Hnode in HLa. injection HLa as <- <- <-.
        right. split; [exact Hc|]. intros ->.
        destruct (Hnc node Hc) as (? & ? & _ & ?). lia.
      - destruct (decide (Some a = P)) as [E|E].
        + rewrite HLa in E1. simpl in E1. unfold replace_in in E1. simpl in E1.
          destruct (decide (or = Some node)) as [Hor|Hor]; injection E1 as <- <-.
          * destruct Hc as [Hc|Hc]; [|left; congruence].
            right. split; [auto|]. intros ->. exact (Had node Hc Hor).
          * destruct Hc as [Hc|Hc]; [left; congruence|].
            right. split; [auto|]. intros ->. exact (Hor Hc).
        + rewrite HLa in E1. injection E1 as <- <-.
          right. split; [exact Hc|]. intros ->.
          destruct (Hac node Hc) as (? & ? & Hpar & _).
          rewrite Hnode in Hpar. injection Hpar as _ _ Hpar. congruence. }
    split; [|split].
    + intros c Hc. destruct (Hkids c Hc) as [->|(Hc' & Hcn)].
      * (* the spliced node under the parent of [node] *)
        assert (Some a = P) as HaP.
        { unfold spliced in E1.
          rewrite (decide_False (P := a = X)) in E1 by assumption.
          rewrite (decide_False (P := Some a = oY)) in E1 by assumption.
          destruct (decide (a = node)) as [->|Han].
          - rewrite Hnode in E1. injection E1 as <- <-.
            destruct (Hnc X Hc) as (? & ? & HLX & _). congruence.
          - destruct (decide (Some a = P)) as [E|E]; [exact E|].
            rewrite HLa in E1. injection E1 as <- <-.
            destruct (Hac X Hc) as (? & ? & HLX & _). congruence. }
        rewrite FX, FXr. destruct (HP a (eq_sym HaP)) as (_ & _ & _ & _ & Hr).
        rewrite <- HaP. destruct node_left; eexists _, _; (split; [reflexivity|lia]).
      * destruct (Hac c Hc') as (cl & cr & HLc & Hr).
        destruct (F1 c cl cr (Some a) HLc) as (cl' & cr' & E1c & E2c).
        rewrite decide_False in E1c by assumption.
        rewrite E1c, E2c. eexists _, _. split; [reflexivity|lia].
    + intros q Hq. destruct (decide (a = node)) as [->|Han].
      * injection Hq as <-. rewrite FX, FXr. split; [eauto|lia].
      * destruct (Hap q Hq) as ([[[ql qr] qp] HLq] & Hr).
        destruct (F1 q ql qr qp HLq) as (cl' & cr' & E1q & E2q).
        rewrite E1q, E2q. split; [eauto|lia].
    + unfold spliced in E1.
      rewrite (decide_False (P := a = X)) in E1 by assumption.
      rewrite (decide_False (P := Some a = oY)) in E1 by assumption.
      assert (∀ c, ol = Some c ∨ or = Some c → c ≠ X) as HoldX.
      { intros c Hc ->. destruct (Hac X Hc) as (? & ? & HLX & _). congruence. }
      destruct (decide (a = node)) as [->|Han].
      * rewrite Hnode in E1. injection E1 as <- <-.
        rewrite Hnode in HLa. injection HLa as <- <- <-. exact Hnd.
      * destruct (decide (Some a = P)) as [E|E].
        -- rewrite HLa in E1. simpl in E1. unfold replace_in in E1. simpl in E1.
           destruct (decide (or = Some node)) as [Hor|Hor]; injection E1 as <- <-.
           ++ intros c Hl [= <-]. exact (HoldX X (or_introl Hl) eq_refl).
           ++ intros c [= <-] Hr. exact (HoldX X (or_intror Hr) eq_refl).
        -- rewrite HLa in E1. injection E1 as <- <-. exact Had.
Qed.

Lemma link_map_lookup h a n : h !! a = Some n → link_map h a = Some (links n).
Proof. unfold link_map. intros ->. reflexivity. Qed.

Lemma link_map_None h a : h !! a = None → link_map h a = None.
Proof. unfold link_map. intros ->. reflexivity. Qed.

Lemma link_map_insert h a n x :
  link_map (<[a := n]> h) x = if decide (x = a) then Some (links n) else link_map h x.
Proof.
  unfold link_map. destruct (decide (x = a)) as [->|Hne].
  - rewrite lookup_insert_eq. reflexivity.
  - rewrite lookup_insert_ne by congruence. reflexivity.
Qed.

Lemma store_link_map f a h h' :
  store f a h = Done h' →
  ∃ n, h !! a = Some n
       ∧ ∀ x, link_map h' x = if decide (x = a) then Some (links (f n)) else link_map h x.
Proof.
  intros Hs. apply store_Done in Hs as (n & Hn & ->). exists n. split; [exact Hn|].
  intros x. apply link_map_insert.
Qed.

Lemma store_link_map_same f a h h' x :
  store f a h = Done h' → (∀ n, links (f n) = links n) → link_map h' x = link_map h x.
Proof.
  intros Hs Hf. apply store_link_map in Hs as (n & Hn & ->).
  case_decide; [subst; rewrite Hf; symmetry; apply link_map_lookup, Hn|reflexivity].
Qed.

Lemma links_ok_ext L L' head rank :
  (∀ x, L' x = L x) → links_ok L head rank → links_ok L' head rank.
Proof.
  intros E (Hh & Ha). split.
  - intros a Hhead. rewrite E. apply Hh, Hhead.
  - intros a l r p HL. rewrite E in HL. destruct (Ha a l r p HL) as (H1 & H2 & H3).
    split; [|split; [|exact H3]].
    + intros c Hc. rewrite E. apply H1, Hc.
    + intros q Hq. rewrite E. apply H2, Hq.
Qed.

Lemma tree_linked_links_ok tree :
  tree_linked tree ↔ ∃ rank, links_ok (link_map (t_heap tree)) (t_head tree) rank.
Proof.
  unfold tree_linked, links_ok, link_map. split.
  - intros (Hh & rank & Hall). exists rank. split.
    + intros a Ha. destruct (Hh a Ha) as (n & -> & Hp). simpl.
      exists (n_left n), (n_right n). unfold links. rewrite Hp. reflexivity.
    + intros a l r p Ha. destruct (t_heap tree !! a) as [n|] eqn:En; [|discriminate].
      injection Ha as <- <- <-. destruct (Hall a n En) as (H1 & H2 & H3).
      split; [|split; [|exact H3]].
      * intros c Hc. destruct (H1 c Hc) as (nc & -> & Hp & Hr). simpl.
        exists (n_left nc), (n_right nc). unfold links. rewrite Hp. auto.
      * intros q Hq. destruct (H2 q Hq) as ([nq ->] & Hr). simpl. eauto.
  - intros (rank & Hh & Hall). split.
    + intros a Ha. destruct (Hh a Ha) as (l & r & E).
      destruct (t_heap tree !! a) as [n|]; [|discriminate].
      injection E as _ _ E. eauto.
    + exists rank. intros a n En. specialize (Hall a (n_left n) (n_right n) (n_parent n)).
      rewrite En in Hall. destruct (Hall eq_refl) as (H1 & H2 & H3).
      split; [|split; [|exact H3]].
      * intros c Hc. destruct (H1 c Hc) as (l' & r' & E & Hr).
        destruct (t_heap tree !! c) as [nc|]; [|discriminate].
        injection E as _ _ E. eauto.
      * intros q Hq. destruct (H2 q Hq) as (E & Hr). split; [|exact Hr].
        destruct (t_heap tree !! q); [eauto|]. destruct E; discriminate.
Qed.

Lemma replace_child_link_map h head P node new h' head' :
  replace_child h head P node new = Done (h', head') →
  head' = match P with None => Some new | Some _ => head end
  ∧ ∀ x, link_map h' x = if decide (Some x = P) then replace_in node new <$> link_map h x
                          else link_map h x.
Proof.
  unfold replace_child. destruct P as [p|].
  - intros H. inv_bind H as pn Hpn. apply load_Done in Hpn.
    destruct (bool_decide (n_right pn = Some node)) eqn:Eb.
    + apply bool_decide_eq_true in Eb. inv_bind H as h1 Hs. injection H as <- <-.
      split; [reflexivity|]. intros x.
      apply store_link_map in Hs as (m & Hm & ->). rewrite Hpn in Hm. injection Hm as <-.
      destruct (decide (x = p)) as [->|Hne].
      * rewrite decide_True by reflexivity. rewrite (link_map_lookup _ _ _ Hpn). simpl.
        unfold replace_in. simpl. rewrite decide_True by exact Eb. reflexivity.
      * rewrite decide_False by congruence. reflexivity.
    + apply bool_decide_eq_false in Eb. inv_bind H as h1 Hs. injection H as <- <-.
      split; [reflexivity|]. intros x.
      apply store_link_map in Hs as (m & Hm & ->). rewrite Hpn in Hm. injection Hm as <-.
      destruct (decide (x = p)) as [->|Hne].
      * rewrite decide_True by reflexivity. rewrite (link_map_lookup _ _ _ Hpn). simpl.
        unfold replace_in. simpl. rewrite decide_False by exact Eb. reflexivity.
      * rewrite decide_False by congruence. reflexivity.
  - intros [= <- <-]. split; [reflexivity|]. intros x.
    rewrite decide_False by discriminate. reflexivity.
Qed.

Lemma links_ok_parent L head rank node l r p :
  links_ok L head rank → L node = Some (l, r, Some p) → p ≠ node ∧ is_Some (L p).
Proof.
  intros (_ & Hall) Hn. destruct (Hall node l r (Some p) Hn) as (_ & Hp & _).
  destruct (Hp p eq_refl) as (Hs & Hr). split; [intros ->; lia|exact Hs].
Qed.

Lemma add_split_link_map h00 head0 rank h head node n new_node stream differ_bit h' head' :
  links_ok (link_map h00) head0 rank →
  h00 !! node = Some n →
  h00 !! new_node = None →
  (∀ x, h !! x = None → h00 !! x = None) →
  (∀ x, link_map h x = if decide (x = new_node) then Some (None, None, None)
                       else link_map h00 x) →
  add_split h head node n new_node stream differ_bit = Done (h', head') →
  ∃ inter_node node_left,
    link_map h00 inter_node = None ∧ inter_node ≠ new_node
    ∧ head' = match n_parent n with None => Some inter_node | Some _ => head end
    ∧ ∀ x, link_map h' x
           = spliced (link_map h00) node (n_parent n) inter_node (Some new_node) node_left x.
Proof.
  intros Hok Hn Hnew Hdom Hh H. unfold add_split in H.
  destruct (SCRadixCreateNode h) as [h1 inter_node] eqn:Ec.
  apply create_node_fresh in Ec as (Hfresh & ->).
  assert (link_map h00 inter_node = None) as Hi00 by (apply link_map_None, Hdom, Hfresh).
  assert (inter_node ≠ new_node) as Hin.
  { intros ->. pose proof (Hh new_node) as E. rewrite decide_True in E by reflexivity.
    rewrite (link_map_None _ _ Hfresh) in E. discriminate. }
  assert (inter_node ≠ node) as Hnode_i by (intros ->; apply link_map_lookup in Hn; congruence).
  assert (new_node ≠ node) as Hnode_n by (intros ->; congruence).
  assert (∀ p, n_parent n = Some p → p ≠ node ∧ p ≠ inter_node ∧ p ≠ new_node) as HP.
  { intros p Hp. pose proof (link_map_lookup _ _ _ Hn) as E. unfold links in E. rewrite Hp in E.
    destruct (links_ok_parent _ _ _ _ _ _ _ Hok E) as (H1 & [rec H2]).
    split; [exact H1|]. split; [congruence|]. intros ->.
    rewrite (link_map_None _ _ Hnew) in H2. discriminate. }
  inv_bind H as h2 Hs1.
  destruct (netmask_split (n_netmasks n) differ_bit) as [keep moved].
  inv_bind H as h3 Hs2. inv_bind H as h4 Hs3. inv_bind H as b Hb.
  inv_bind H as h5 Hs4. inv_bind H as h6 Hs5. inv_bind H as res Hrc.
  destruct res as [h7 head7]. inv_bind H as h8 Hs7. injection H as <- <-.
  exists inter_node, b. split; [exact Hi00|]. split; [exact Hin|].
  apply replace_child_link_map in Hrc as (-> & H7). split; [reflexivity|].
  (* the link maps of the successive arenas *)
  apply store_link_map in Hs1 as (m1 & Hm1 & H2).
  rewrite lookup_insert_eq in Hm1. injection Hm1 as <-.
  pose proof (λ x, store_link_map_same _ _ _ _ x Hs2 (λ _, eq_refl)) as H3.
  pose proof (λ x, store_link_map_same _ _ _ _ x Hs3 (λ _, eq_refl)) as H4.
  apply store_link_map in Hs4 as (m4 & Hm4 & H5).
  assert (links m4 = (None, None, n_parent n)) as Hl4.
  { apply link_map_lookup in Hm4. rewrite H4, H3, H2, decide_True in Hm4 by reflexivity.
    unfold links in *. simpl in Hm4. congruence. }
  apply store_link_map in Hs5 as (m5 & Hm5 & H6).
  assert (links m5 = (None, None, None)) as Hl5.
  { apply link_map_lookup in Hm5.
    rewrite H5, decide_False, H4, H3, H2, decide_False, link_map_insert, decide_False,
      Hh, decide_True in Hm5 by congruence.
    congruence. }
  apply store_link_map in Hs7 as (m7 & Hm7 & H8).
  assert (links m7 = links n) as Hl7.
  { apply link_map_lookup in Hm7. rewrite H7 in Hm7.
    rewrite decide_False in Hm7.
    2:{ intros E. symmetry in E. apply HP in E. tauto. }
    rewrite H6, decide_False, H5, decide_False, H4, H3, H2, decide_False, link_map_insert,
      decide_False, Hh, decide_False, (link_map_lookup _ _ _ Hn) in Hm7 by congruence.
    congruence. }
  intros x. rewrite H8. unfold spliced.
  destruct (decide (x = node)) as [->|Hxn].
  { rewrite (link_map_lookup _ _ _ Hn). unfold links in *. simpl.
    injection Hl7 as E1 E2 E3. rewrite E1, E2. reflexivity. }
  rewrite H7. destruct (decide (Some x = n_parent n)) as [E|E].
  { symmetry in E. destruct (HP x E) as (_ & Hxi & Hxnew).
    rewrite H6, decide_False, H5, decide_False, H4, H3, H2, decide_False, link_map_insert,
      decide_False, Hh, decide_False by congruence. reflexivity. }
  rewrite H6. destruct (decide (x = new_node)) as [->|Hxnew].
  { rewrite decide_True by reflexivity. unfold links in *. simpl.
    injection Hl5 as E1 E2 E3. rewrite E1, E2. reflexivity. }
  rewrite decide_False by congruence.
  rewrite H5. destruct (decide (x = inter_node)) as [->|Hxi].
  { unfold links in *. injection Hl4 as E1 E2 E3. destruct b; simpl; rewrite E3; reflexivity. }
  rewrite H4, H3, H2, decide_False, link_map_insert, decide_False, Hh, decide_False
    by congruence.
  reflexivity.
Qed.

Lemma add_above_link_map h00 head0 rank h head node n bn new_node differ_bit h' head' :
  links_ok (link_map h00) head0 rank →
  h00 !! node = Some n →
  h00 !! new_node = None →
  (∀ x, link_map h x = if decide (x = new_node) then Some (None, None, None)
                       else link_map h00 x) →
  add_above h head node n bn new_node differ_bit = Done (h', head') →
  ∃ node_left,
    head' = match n_parent n with None => Some new_node | Some _ => head end
    ∧ ∀ x, link_map h' x
           = spliced (link_map h00) node (n_parent n) new_node None node_left x.
Proof.
  intros Hok Hn Hnew Hh H. unfold add_above in H.
  assert (new_node ≠ node) as Hnode_n by (intros ->; congruence).
  assert (∀ p, n_parent n = Some p → p ≠ node ∧ p ≠ new_node) as HP.
  { intros p Hp. pose proof (link_map_lookup _ _ _ Hn) as E. unfold links in E. rewrite Hp in E.
    destruct (links_ok_parent _ _ _ _ _ _ _ Hok E) as (H1 & [rec H2]).
    split; [exact H1|]. intros ->.
    rewrite (link_map_None _ _ Hnew) in H2. discriminate. }
  inv_bind H as bp Hbp. inv_bind H as b Hb. inv_bind H as h1 Hs1. inv_bind H as h2 Hs2.
  inv_bind H as res Hrc. destruct res as [h3 head3]. inv_bind H as h4 Hs4.
  injection H as <- <-.
  exists (negb b).
  apply replace_child_link_map in Hrc as (-> & H3). split; [reflexivity|].
  apply store_link_map in Hs1 as (m1 & Hm1 & H1).
  assert (links m1 = (None, None, None)) as Hl1.
  { apply link_map_lookup in Hm1. rewrite Hh, decide_True in Hm1 by reflexivity. congruence. }
  apply store_link_map in Hs2 as (m2 & Hm2 & H2).
  assert (links m2 = if b then (None, Some node, None) else (Some node, None, None)) as Hl2.
  { apply link_map_lookup in Hm2. rewrite H1, decide_True in Hm2 by reflexivity.
    unfold links in *. destruct b; simpl in Hm2; congruence. }
  apply store_link_map in Hs4 as (m4 & Hm4 & H4).
  assert (links m4 = links n) as Hl4.
  { apply link_map_lookup in Hm4. rewrite H3 in Hm4.
    rewrite decide_False in Hm4.
    2:{ intros E. symmetry in E. apply HP in E. tauto. }
    rewrite H2, decide_False, H1, decide_False, Hh, decide_False,
      (link_map_lookup _ _ _ Hn) in Hm4 by congruence.
    congruence. }
  intros x. rewrite H4. unfold spliced.
  destruct (decide (x = node)) as [->|Hxn].
  { rewrite (link_map_lookup _ _ _ Hn). unfold links in *. simpl.
    injection Hl4 as E1 E2 E3. rewrite E1, E2. reflexivity. }
  rewrite H3. destruct (decide (Some x = n_parent n)) as [E|E].
  { symmetry in E. destruct (HP x E) as (_ & Hxnew).
    rewrite H2, decide_False, H1, decide_False, Hh, decide_False by congruence. reflexivity. }
  rewrite decide_False by discriminate.
  rewrite H2. destruct (decide (x = new_node)) as [->|Hxnew].
  { unfold links in *. destruct b; simpl; injection Hl2 as E1 E2 E3; rewrite E1, E2; reflexivity. }
  rewrite H1, decide_False, Hh, decide_False by congruence. reflexivity.
Qed.

Lemma create_leaf_link_map h00 h0 new_node f h :
  SCRadixCreateNode h00 = (h0, new_node) →
  store f new_node h0 = Done h →
  (∀ m, links (f m) = links m) →
  h00 !! new_node = None
  ∧ (∀ x, h !! x = None → h00 !! x = None)
  ∧ ∀ x, link_map h x = if decide (x = new_node) then Some (None, None, None)
                        else link_map h00 x.
Proof.
  intros Hc Hs Hf. apply create_node_fresh in Hc as (Hfresh & ->).
  split; [exact Hfresh|]. split.
  - intros x Hx. apply store_Done in Hs as (m & Hm & ->).
    destruct (decide (x = new_node)) as [->|Hne].
    + rewrite lookup_insert_eq in Hx. discriminate.
    + rewrite !lookup_insert_ne in Hx by congruence. exact Hx.
  - intros x. rewrite (store_link_map_same _ _ _ _ x Hs Hf). apply link_map_insert.
Qed.

Lemma first_node_links_ok L rank a :
  links_ok L None rank → L a = None →
  links_ok (λ x, if decide (x = a) then Some (None, None, None) else L x) (Some a) rank.
Proof.
  intros (_ & Hall) Ha. split.
  - intros b [= <-]. rewrite decide_True by reflexivity. eauto.
  - intros b l r p Hb. destruct (decide (b = a)) as [->|Hne].
    + injection Hb as <- <- <-. split; [|split]; [intros c [?|?]| |]; discriminate.
    + destruct (Hall b l r p Hb) as (H1 & H2 & H3). split; [|split; [|exact H3]].
      * intros c Hc. destruct (H1 c Hc) as (l' & r' & E & Hr).
        rewrite decide_False by congruence. eauto.
      * intros q Hq. destruct (H2 q Hq) as (E & Hr).
        rewrite decide_False by (intros ->; rewrite Ha in E; destruct E; discriminate). auto.
Qed.

Lemma register_netmask_link_map fuel h node netmask h' target first x :
  register_netmask fuel h node netmask = Done (h', target, first) →
  link_map h' x = link_map h x.
Proof.
  intros H. unfold register_netmask in H.
  inv_bind H as n Hn. inv_bind H as t Ht. inv_bind H as tn Htn. inv_bind H as h1 Hs.
  injection H as <- <- <-. eapply store_link_map_same; [exact Hs|]. intros m; reflexivity.
Qed.

Lemma add_existing_link_map fuel tree node n prefix user netmask tree' r :
  add_existing fuel tree node n prefix user netmask = Done (tree', r) →
  t_head tree' = t_head tree ∧ ∀ x, link_map (t_heap tree') x = link_map (t_heap tree) x.
Proof.
  intros H. unfold add_existing in H. destruct (n_prefix n) as [np|].
  - destruct (SCRadixPrefixContainNetmask _ _); [injection H as <- <-; auto|].
    inv_bind H as np' Hnp. inv_bind H as h1 Hs.
    assert (∀ x, link_map h1 x = link_map (t_heap tree) x) as H1
      by (intros x; eapply store_link_map_same; [exact Hs|]; intros m; reflexivity).
    destruct (netmask_is_host netmask); [injection H as <- <-; auto|].
    inv_bind H as res Hr. destruct res as [[h2 target] first]. injection H as <- <-. simpl.
    split; [reflexivity|]. intros x.
    rewrite (register_netmask_link_map _ _ _ _ _ _ _ x Hr). apply H1.
  - inv_bind H as p Hp. inv_bind H as h1 Hs. injection H as <- <-. simpl.
    split; [reflexivity|]. intros x.
    eapply store_link_map_same; [exact Hs|]. intros m; reflexivity.
Qed.

Lemma add_key_linked fuel key_stream key_bitlen tree user netmask tree' r :
  tree_linked tree →
  SCRadixAddKey fuel key_stream key_bitlen tree user netmask = Done (tree', r) →
  tree_linked tree'.
Proof.
  intros Hl H. apply tree_linked_links_ok in Hl as (rank & Hok).
  apply tree_linked_links_ok. unfold SCRadixAddKey in H.
  inv_bind H as key' Hchop. inv_bind H as created Hcreated.
  destruct created as [prefix|]; [|injection H as <- <-; eauto].
  destruct (t_head tree) as [head|] eqn:Ehead.
  - inv_bind H as bottom_node Hwalk. inv_bind H as bn Hbn. inv_bind H as differ Hdiffer.
    inv_bind H as node Hup. inv_bind H as n Hn. apply load_Done in Hn.
    match type of H with (if ?c then _ else _) = _ => destruct c end.
    + apply add_existing_link_map in H as (Hh & Hm). exists rank. rewrite Hh, Ehead.
      eapply links_ok_ext; [exact Hm|exact Hok].
    + destruct (SCRadixCreateNode (t_heap tree)) as [h0 new_node] eqn:Ec.
      inv_bind H as h1 Hs1.
      destruct (create_leaf_link_map _ _ _ _ _ Ec Hs1 (λ _, eq_refl)) as (Hnew & Hdom & Hh1).
      inv_bind H as res Hres. destruct res as [h2 head2].
      assert (∃ X oY node_left,
                link_map (t_heap tree) X = None
                ∧ (∀ y, oY = Some y → link_map (t_heap tree) y = None ∧ y ≠ X)
                ∧ head2 = match n_parent n with None => Some X | Some _ => Some head end
                ∧ ∀ x, link_map h2 x
                       = spliced (link_map (t_heap tree)) node (n_parent n) X oY node_left x)
        as (X & oY & node_left & HX & HY & -> & Hh2).
      { match type of Hres with (if ?c then _ else _) = _ => destruct c end.
        - destruct (add_above_link_map _ _ _ _ _ _ _ _ _ _ _ _ Hok Hn Hnew Hh1 Hres)
            as (node_left & -> & E).
          exists new_node, None, node_left. split; [apply link_map_None, Hnew|].
          split; [discriminate|]. split; [reflexivity|exact E].
        - destruct (add_split_link_map _ _ _ _ _ _ _ _ _ _ _ _ Hok Hn Hnew Hdom Hh1 Hres)
            as (inter_node & node_left & Hi & Hne & -> & E).
          exists inter_node, (Some new_node), node_left. split; [exact Hi|].
          split; [|split; [reflexivity|exact E]].
          intros y [= <-]. split; [apply link_map_None, Hnew|congruence]. }
      pose proof (spliced_ok _ _ _ _ _ _ _ _ _ node_left Hok (link_map_lookup _ _ _ Hn) HX HY)
        as Hok'.
      exists (spliced_rank rank node X oY).
      destruct (netmask_is_host netmask).
      * injection H as <- <-. simpl. eapply links_ok_ext; [exact Hh2|exact Hok'].
      * inv_bind H as res Hreg. destruct res as [[h3 target] first]. injection H as <- <-.
        simpl. eapply links_ok_ext; [|exact Hok'].
        intros x. rewrite (register_netmask_link_map _ _ _ _ _ _ _ x Hreg). apply Hh2.
  - destruct (SCRadixCreateNode (t_heap tree)) as [h0 node] eqn:Ec.
    inv_bind H as h1 Hs1.
    destruct (create_leaf_link_map _ _ _ _ _ Ec Hs1 (λ _, eq_refl)) as (Hnew & Hdom & Hh1).
    pose proof (first_node_links_ok _ _ node Hok (link_map_None _ _ Hnew)) as Hok'.
    exists rank. destruct (netmask_is_host netmask).
    + injection H as <- <-. simpl. eapply links_ok_ext; [exact Hh1|exact Hok'].
    + inv_bind H as h2 Hs2. injection H as <- <-. simpl.
      eapply links_ok_ext; [|exact Hok']. intros x.
      rewrite (store_link_map_same _ _ _ _ x Hs2 (λ _, eq_refl)). apply Hh1.
Qed.

Lemma inserted_linked tree : inserted tree → tree_linked tree.
Proof.
  induction 1 as [|fuel key_stream key_bitlen tree user netmask tree' node _ IH _ _ Hadd].
  - split; [discriminate|]. exists (λ _, O). apply map_Forall_empty.
  - eapply add_key_linked; eauto.
Qed.

(** ** Exact lookup of generic keys (C10) *)

Lemma bit_test_Done stream b :
  0 ≤ b → b < 8 * Z.of_nat (length stream) → ∃ r, bit_test stream b = Done r.
Proof.
  intros H0 H1. unfold bit_test, byte_at.
  rewrite (Z.shiftr_div_pow2 b 3) by lia. change (2 ^ 3) with 8.
  assert (0 ≤ b / 8) by (apply Z.div_pos; lia).
  assert (b / 8 < Z.of_nat (length stream)) by (apply Z.div_lt_upper_bound; lia).
  destruct (Z.ltb_spec (b / 8) 0); [lia|].
  destruct (stream !! Z.to_nat (b / 8)) as [x|] eqn:E; [simpl; eauto|].
  apply lookup_ge_None in E. lia.
Qed.



Lemma create_prefix_Done key key_bitlen user netmask :
  0 < key_bitlen → key_bitlen mod 8 = 0 → key_bitlen / 8 ≤ Z.of_nat (length key) →
  SCRadixCreatePrefix (Some key) key_bitlen user netmask
  = Done (Some {| pfx_bitlen := key_bitlen;
                  pfx_stream := take (Z.to_nat (key_bitlen / 8)) key;
                  pfx_user_data := [SCRadixAllocSCRadixUserData netmask user];
                  pfx_user_data_result := 0 |}).
Proof.
  intros Hpos Hmod Hlen. unfold SCRadixCreatePrefix.
  rewrite (proj2 (Z.eqb_eq _ _) Hmod). simpl.
  destruct (Z.eqb_spec key_bitlen 0) as [E|_]; [lia|].
  destruct (Z.ltb_spec (Z.of_nat (length key)) (key_bitlen / 8)); [lia|]. reflexivity.
Qed.



(** The key "abaa", which was just inserted, is not found. *)
Example generic_key_just_inserted_not_found :
  ∃ t, two_generic_keys = Done t
       ∧ SCRadixFindKeyGeneric scenario_fuel (Some [97; 98; 97; 97]) 32 t = Done (t, None).
Proof. eexists. split; vm_compute; reflexivity. Qed.

(** ** Duplicate insertions (C7) *)

Lemma find_walk_down_last fuel h stream bitlen a node :
  find_walk_down fuel h stream bitlen a = Done (Some node) →
  node = a ∨ ∃ pred pn, h !! pred = Some pn ∧ n_bit pn < bitlen
                        ∧ (n_left pn = Some node ∨ n_right pn = Some node).
Proof.
  revert a. induction fuel as [|fuel IH]; intros a H; simpl in H.
  - inv_bind H as n Hn. destruct (n_bit n <? bitlen); [discriminate|].
    injection H as <-. auto.
  - inv_bind H as n Hn. apply load_Done in Hn.
    destruct (Z.ltb_spec (n_bit n) bitlen) as [Hlt|Hge]; [|injection H as <-; auto].
    inv_bind H as b Hb.
    destruct (if b then n_right n else n_left n) as [c|] eqn:Ec; [|discriminate].
    destruct (IH c H) as [->|Hpred]; [|right; exact Hpred].
    right. exists a, n. split; [exact Hn|]. split; [exact Hlt|]. destruct b; auto.
Qed.

Lemma add_follows_find fuel h stream bitlen a node n :
  find_walk_down fuel h stream bitlen a = Done (Some node) →
  h !! node = Some n → n_bit n = bitlen → n_prefix n ≠ None →
  add_walk_down fuel h stream bitlen a = Done node.
Proof.
  intros H Hn Hbit Hp. revert a H. induction fuel as [|fuel IH]; intros a H; simpl in H |- *.
  - inv_bind H as m Hm. rewrite Hm. simpl.
    destruct (Z.ltb_spec (n_bit m) bitlen) as [Hlt|Hge]; [discriminate|].
    injection H as <-. apply load_Done in Hm. rewrite Hn in Hm. injection Hm as <-.
    simpl. rewrite bool_decide_eq_false_2 by exact Hp. reflexivity.
  - inv_bind H as m Hm. rewrite Hm. simpl.
    destruct (Z.ltb_spec (n_bit m) bitlen) as [Hlt|Hge].
    + simpl. destruct (Z.ltb_spec bitlen (n_bit m)); [lia|].
      inv_bind H as b Hb. rewrite Hb. simpl.
      destruct b; simpl in H.
      * destruct (n_right m) as [c|]; [|discriminate]. apply IH, H.
      * destruct (n_left m) as [c|]; [|discriminate]. apply IH, H.
    + injection H as <-. apply load_Done in Hm. rewrite Hn in Hm. injection Hm as <-.
      simpl. rewrite bool_decide_eq_false_2 by exact Hp. reflexivity.
Qed.

Lemma differ_loop_equal n i check_bit np :
  check_bit = 8 * Z.of_nat (length (pfx_stream np)) →
  0 ≤ i ≤ Z.of_nat (length (pfx_stream np)) →
  (Z.to_nat (Z.of_nat (length (pfx_stream np)) - i) ≤ n)%nat →
  differ_loop n i check_bit (pfx_stream np) (Some np) (i * 8) = Done check_bit.
Proof.
  intros Hc. revert i. induction n as [|n IH]; intros i Hi Hn; simpl.
  - destruct (Z.ltb_spec (i * 8) check_bit); [lia|]. f_equal. lia.
  - destruct (Z.ltb_spec (i * 8) check_bit) as [Hlt|Hge]; [|f_equal; lia].
    unfold byte_at. destruct (Z.ltb_spec i 0); [lia|].
    destruct (pfx_stream np !! Z.to_nat i) as [a|] eqn:Ea.
    + simpl. rewrite Z.lxor_nilpotent. simpl.
      apply IH; lia.
    + apply lookup_ge_None in Ea. lia.
Qed.

Lemma chop_loop_length n i netmask s s' :
  chop_loop n i netmask s = Done s' → (n ≤ length s)%nat ∧ length s' = length s.
Proof.
  revert i s s'. induction n as [|n IH]; intros i s s' H; simpl in H.
  - injection H as <-. split; [lia|reflexivity].
  - destruct s as [|b rest]; [discriminate|]. inv_bind H as rest' Hr. injection H as <-.
    apply IH in Hr. simpl. lia.
Qed.

(** Duplicate insertions of keys below 256 bits change nothing.  In a tree
    with sound links, when the key as chopped against the netmask is
    found at [node] together with an entry for the netmask, the insertion
    returns [node] and leaves the tree as it is. *)
Theorem duplicate_add_unchanged (fuel : nat) (tree : SCRadixTree) (key key' : list Z)
    (key_bitlen user netmask : Z) (node : addr) :
  tree_linked tree →
  0 < key_bitlen < 256 →
  key_bitlen mod 8 = 0 →
  SCRadixChopIPAddressAgainstNetmask (Some key) netmask key_bitlen = Done (Some key') →
  entry_found fuel tree (take (Z.to_nat (key_bitlen / 8)) key') key_bitlen netmask node →
  SCRadixAddKey fuel (Some key) key_bitlen tree user netmask = Done (tree, Some node).
Proof.
  intros (Hhead & rank & Hl) Hk Hmod Hchop
    (head & n & np & Ehead & Hwalk & Hn & Hbit & Hnp & Hstream & Hcontain).
  assert (0 ≤ key_bitlen / 8) as Hdiv by (apply Z.div_pos; lia).
  assert (key_bitlen = 8 * (key_bitlen / 8)) as Hk8 by (apply Z.div_exact; [lia|exact Hmod]).
  set (stream := take (Z.to_nat (key_bitlen / 8)) key') in *.
  assert (key_bitlen / 8 ≤ Z.of_nat (length key')) as Hlen.
  { unfold SCRadixChopIPAddressAgainstNetmask in Hchop. inv_bind Hchop as s' Hs'.
    injection Hchop as <-. apply chop_loop_length in Hs'. lia. }
  unfold SCRadixAddKey. rewrite Hchop. simpl.
  rewrite create_prefix_Done by (try assumption; lia). simpl. rewrite Ehead.
  fold stream. rewrite (Z.mod_small key_bitlen 256) by lia.
  rewrite (add_follows_find _ _ _ _ _ _ _ Hwalk Hn Hbit) by congruence. simpl.
  unfold load. rewrite Hn. simpl. rewrite Hbit, Z.ltb_irrefl.
  assert (Z.of_nat (length stream) = key_bitlen / 8) as Hls
    by (unfold stream; rewrite length_take; lia).
  assert (differ_loop (Z.to_nat key_bitlen) 0 key_bitlen stream (n_prefix n) 0
          = Done key_bitlen) as ->.
  { rewrite Hnp, <- Hstream. rewrite <- Hstream in Hls.
    apply (differ_loop_equal _ 0); lia. }
  simpl. rewrite Z.ltb_irrefl.
  assert (walk_up fuel (t_heap tree) (λ bit, key_bitlen <=? bit) node (n_parent n)
          = Done node) as ->.
  { destruct (n_parent n) as [p|] eqn:Ep; [|destruct fuel; reflexivity].
    destruct (find_walk_down_last _ _ _ _ _ _ Hwalk) as [->|(pred & pn & Hpn & Hlt & Hchild)].
    - destruct (Hhead head Ehead) as (nh & Hnh & Hparent). congruence.
    - destruct (Hl pred pn Hpn) as (Hc & _).
      destruct (Hc node Hchild) as (nc & Hnc & Hpar & _).
      assert (p = pred) as -> by congruence.
      destruct fuel; simpl; unfold load; rewrite Hpn; simpl;
        destruct (Z.leb_spec key_bitlen (n_bit pn)); (lia || reflexivity). }
  simpl. rewrite Hn. simpl. rewrite Hbit, Z.eqb_refl. simpl.
  unfold add_existing. rewrite Hnp, Hcontain. reflexivity.
Qed.

(** C7.  A duplicate insertion of a key of 256 bits is not ignored.  The
    key is in the tree after the first insertion, as the lookup finds it;
    the second insertion does not reach the duplicate test, because
    [bitlen] is a [uint8_t] and holds 256 as 0: it makes a second node above
    the first one and returns it. *)
Theorem duplicate_long_key_adds_node :
  ∃ t1 n1 t2 n2,
    long_key_twice = Done (t1, Some n1, t2, Some n2)
    ∧ SCRadixChopIPAddressAgainstNetmask (Some long_key) 255 256 = Done (Some long_key)
    ∧ entry_found scenario_fuel t1 long_key 256 255 n1
    ∧ size (t_heap t1) = 1%nat
    ∧ size (t_heap t2) = 2%nat
    ∧ t_head t2 = Some n2
    ∧ n2 ≠ n1.
Proof.
  eexists _, _, _, _. split; [vm_compute; reflexivity|].
  split; [vm_compute; reflexivity|]. split.
  - eexists _, _, _. split; [reflexivity|]. split; [vm_compute; reflexivity|].
    split; [vm_compute; reflexivity|]. repeat split.
  - repeat split. discriminate.
Qed.

(** ** Insertion followed by removal, in a tree with entries (C5) *)

(** The bit test at the position just past the end of the stream reads
    outside the buffer. *)
Lemma bit_test_past_end stream bitlen :
  0 ≤ bitlen → Z.of_nat (length stream) ≤ bitlen / 8 →
  bit_test stream bitlen = Fault InvalidAccess.
Proof.
  intros H0 Hlen. unfold bit_test, byte_at. rewrite (Z.shiftr_div_pow2 bitlen 3) by lia.
  change (2 ^ 3) with 8.
  assert (0 ≤ bitlen / 8) by (apply Z.div_pos; lia).
  destruct (Z.ltb_spec (bitlen / 8) 0); [lia|].
  rewrite (proj2 (lookup_ge_None stream (Z.to_nat (bitlen / 8)))) by lia. reflexivity.
Qed.

(** In a tree whose bits are bounded by [bitlen] the descent of the
    insertion is the descent of the lookup: it never takes the branch
    [bitlen < node->bit]. *)
Lemma add_walk_down_descent fuel h stream bitlen a bottom :
  width_bounded h bitlen → 0 ≤ bitlen →
  Z.of_nat (length stream) ≤ bitlen / 8 →
  add_walk_down fuel h stream bitlen a = Done bottom →
  ∃ k, (k ≤ fuel)%nat ∧ descent h stream bitlen k a bottom.
Proof.
  intros Hw H0 Hlen. revert a. induction fuel as [|fuel IH]; intros a H; simpl in H.
  - inv_bind H as n Hn. destruct (_ || _); [discriminate|]. injection H as <-.
    exists O. split; [lia|constructor].
  - inv_bind H as n Hn. apply load_Done in Hn.
    destruct (_ || _); [|injection H as <-; exists O; split; [lia|constructor]].
    pose proof (Hw a n Hn) as Hb. simpl in Hb.
    destruct (Z.ltb_spec bitlen (n_bit n)); [lia|].
    inv_bind H as b Hb'.
    assert (n_bit n < bitlen) as Hlt.
    { destruct (decide (n_bit n = bitlen)) as [E|E]; [|lia].
      rewrite E, bit_test_past_end in Hb' by assumption. discriminate. }
    destruct b.
    + destruct (n_right n) as [r|] eqn:Er.
      * destruct (IH r H) as (k & Hk & Hd). exists (S k). split; [lia|].
        eapply (descent_child _ _ _ _ _ _ true); eauto.
      * injection H as <-. exists O. split; [lia|constructor].
    + destruct (n_left n) as [l|] eqn:El.
      * destruct (IH l H) as (k & Hk & Hd). exists (S k). split; [lia|].
        eapply (descent_child _ _ _ _ _ _ false); eauto.
      * injection H as <-. exists O. split; [lia|constructor].
Qed.

(** The rank falls along a descent, and a descent stays among the live
    nodes. *)
Lemma descent_rank h rank stream bitlen k a x :
  map_Forall (node_linked h rank) h →
  descent h stream bitlen k a x →
  (rank x ≤ rank a)%nat ∧ (k ≠ O → (rank x < rank a)%nat) ∧ (is_Some (h !! a) → is_Some (h !! x)).
Proof.
  intros Hl. induction 1 as [a|k a n b c x Hn Hlt Hb Hc Hd IH].
  - split; [lia|]. split; [congruence|auto].
  - destruct (Hl a n Hn) as (Hch & _).
    destruct (Hch c) as (nc & Hnc & _ & Hr); [destruct b; auto|].
    destruct IH as (IH1 & _ & IH3). split; [lia|]. split; [lia|].
    intros _. apply IH3. eauto.
Qed.

(** The walk up from the end [x] of a descent out of [a] stops below a
    node [pred] of the descent, which the descent left for the node
    reached, or it comes back to [a] and goes on from there. *)
Lemma walk_up_descent h rank stream bitlen cond fuel k a x na nx node :
  map_Forall (node_linked h rank) h →
  descent h stream bitlen k a x →
  h !! a = Some na → h !! x = Some nx →
  walk_up fuel h cond x (n_parent nx) = Done node →
  (∃ j pred pn b,
      descent h stream bitlen j a pred ∧ (S j ≤ k)%nat
      ∧ h !! pred = Some pn ∧ n_bit pn < bitlen
      ∧ bit_test stream (n_bit pn) = Done b
      ∧ (if b : bool then n_right pn else n_left pn) = Some node
      ∧ cond (n_bit pn) = false)
  ∨ (∃ fuel', walk_up fuel' h cond a (n_parent na) = Done node).
Proof.
  intros Hl Hd. revert na nx fuel.
  induction Hd as [a|k a n b c x Hn Hlt Hb Hc Hd IH]; intros na nx fuel Hna Hnx Hw.
  - right. exists fuel. congruence.
  - destruct (Hl a n Hn) as (Hch & _).
    destruct (Hch c) as (nc & Hnc & Hpar & Hr); [destruct b; auto|].
    destruct (IH nc nx fuel Hnc Hnx Hw) as [(j & pred & pn & b' & Hj & Hle & Hp & Hplt & Hpb & Hpc & Hcond)|(fuel' & Hw')].
    + left. exists (S j), pred, pn, b'. split; [exact (descent_child h stream bitlen j a n b c pred Hn Hlt Hb Hc Hj)|].
      split; [lia|]. do 4 (split; [assumption|]). assumption.
    + rewrite Hpar in Hw'. assert (na = n) as -> by congruence.
      destruct fuel' as [|f]; simpl in Hw'; unfold load in Hw'; rewrite Hn in Hw'; simpl in Hw'.
      * destruct (cond (n_bit n)) eqn:Ec; [discriminate|]. injection Hw' as <-.
        left. exists O, a, n, b. split; [constructor|]. split; [lia|].
           do 4 (split; [assumption|]). assumption.
      * destruct (cond (n_bit n)) eqn:Ec.
        -- right. exists f. exact Hw'.
        -- injection Hw' as <-.
           left. exists O, a, n, b. split; [constructor|]. split; [lia|].
           do 4 (split; [assumption|]). assumption.
Qed.

(** The node reached by a walk up is the start, or the walk went through
    its bit. *)
Lemma walk_up_result fuel h cond x parent node :
  walk_up fuel h cond x parent = Done node →
  node = x ∨ ∃ n, h !! node = Some n ∧ cond (n_bit n) = true.
Proof.
  revert x parent. induction fuel as [|fuel IH]; intros x parent H; simpl in H.
  - destruct parent as [p|]; [|injection H as <-; auto].
    inv_bind H as pn Hpn. destruct (cond _); [discriminate|]. injection H as <-. auto.
  - destruct parent as [p|]; [|injection H as <-; auto].
    inv_bind H as pn Hpn. apply load_Done in Hpn.
    destruct (cond (n_bit pn)) eqn:Ec; [|injection H as <-; auto].
    destruct (IH _ _ H) as [->|Hr]; [|auto]. right. eauto.
Qed.

(** The arena after [add_split], node by node. *)
Lemma add_split_heap h head node n new leaf stream d h' head' :
  h !! node = Some n → h !! new = Some leaf → node ≠ new →
  (∀ p, n_parent n = Some p → p ≠ node ∧ p ≠ new ∧ is_Some (h !! p)) →
  add_split h (Some head) node n new stream d = Done (h', head') →
  ∃ b inter keep moved,
    bit_test stream d = Done b
    ∧ netmask_split (n_netmasks n) d = (keep, moved)
    ∧ h !! inter = None
    ∧ h' !! inter = Some (inter_node_of n node new d b moved)
    ∧ h' !! node = Some (with_parent (Some inter) (with_netmasks keep n))
    ∧ h' !! new = Some (with_parent (Some inter) leaf)
    ∧ (∀ x, x ≠ inter → x ≠ node → x ≠ new → n_parent n ≠ Some x → h' !! x = h !! x)
    ∧ match n_parent n with
      | None => head' = Some inter
      | Some p =>
          head' = Some head
          ∧ ∃ pn, h !! p = Some pn
                  ∧ h' !! p = Some (if bool_decide (n_right pn = Some node)
                                    then with_right (Some inter) pn
                                    else with_left (Some inter) pn)
      end.
Proof.
  intros Hn Hnew Hne HP H. unfold add_split in H.
  destruct (SCRadixCreateNode h) as [h0 inter] eqn:Ec.
  apply create_node_fresh in Ec as (Hfresh & ->).
  assert (inter ≠ node) as Hin by (intros ->; congruence).
  assert (inter ≠ new) as Hiw by (intros ->; congruence).
  inv_bind H as h1 Hs1.
  destruct (netmask_split (n_netmasks n) d) as [keep moved] eqn:Es.
  inv_bind H as h2 Hs2. inv_bind H as h3 Hs3. inv_bind H as b Hb.
  inv_bind H as h4 Hs4. inv_bind H as h5 Hs5. inv_bind H as res Hrc.
  destruct res as [h6 head6]. inv_bind H as h7 Hs7. injection H as <- <-.
  apply store_Done in Hs1 as (m1 & Hm1 & ->).
  rewrite lookup_insert_eq in Hm1. injection Hm1 as <-.
  apply store_Done in Hs2 as (m2 & Hm2 & ->).
  rewrite lookup_insert_eq in Hm2. injection Hm2 as <-.
  apply store_Done in Hs3 as (m3 & Hm3 & ->).
  rewrite !lookup_insert_ne in Hm3 by exact Hin. rewrite Hn in Hm3. injection Hm3 as <-.
  apply store_Done in Hs4 as (m4 & Hm4 & ->).
  rewrite lookup_insert_ne in Hm4 by congruence. rewrite lookup_insert_eq in Hm4.
  injection Hm4 as <-.
  apply store_Done in Hs5 as (m5 & Hm5 & ->).
  rewrite !lookup_insert_ne in Hm5 by congruence. rewrite Hnew in Hm5. injection Hm5 as <-.
  exists b, inter, keep, moved. split; [exact Hb|]. split; [reflexivity|].
  split; [exact Hfresh|].
  unfold replace_child in Hrc.
  destruct (n_parent n) as [p|] eqn:Ep.
  - destruct (HP p eq_refl) as (Hpn & Hpw & pn & Hp).
    assert (p ≠ inter) as Hpi by (intros ->; congruence).
    inv_bind Hrc as pn' Hpn'. apply load_Done in Hpn'.
    rewrite !lookup_insert_ne in Hpn' by congruence. rewrite Hp in Hpn'. injection Hpn' as <-.
    assert (∃ f, h6 = <[p := f pn]> (<[new:=with_parent (Some inter) leaf]>
               (<[inter:=inter_node_of n node new d b moved]>
                  (<[node:=with_netmasks keep n]>
                     (<[inter:=with_netmasks moved
                          (with_parent (Some p) (with_bit d zero_node))]>
                        (<[inter:=with_parent (Some p) (with_bit d zero_node)]>
                           (<[inter:=zero_node]> h))))))
               ∧ f = (if bool_decide (n_right pn = Some node)
                      then with_right (Some inter) else with_left (Some inter))
               ∧ head6 = Some head) as (f & -> & Hf & ->).
    { case_bool_decide; inv_bind Hrc as hh Hs; injection Hrc as <- <-;
        apply store_Done in Hs as (m & Hm & ->);
        rewrite !lookup_insert_ne in Hm by congruence; rewrite Hp in Hm; injection Hm as <-.
      - exists (with_right (Some inter)). split; [|auto]. f_equal. f_equal. f_equal.
        unfold inter_node_of. rewrite Ep. destruct b; reflexivity.
      - exists (with_left (Some inter)). split; [|auto]. f_equal. f_equal. f_equal.
        unfold inter_node_of. rewrite Ep. destruct b; reflexivity. }
    apply store_Done in Hs7 as (m7 & Hm7 & ->).
    rewrite !lookup_insert_ne in Hm7 by congruence. rewrite lookup_insert_eq in Hm7.
    injection Hm7 as <-.
    split; [|split; [|split; [|split; [|split]]]].
    + rewrite !lookup_insert_ne by congruence. rewrite lookup_insert_eq. reflexivity.
    + rewrite lookup_insert_eq. reflexivity.
    + rewrite !lookup_insert_ne by congruence. rewrite lookup_insert_eq. reflexivity.
    + intros x Hx1 Hx2 Hx3 Hx4. rewrite !lookup_insert_ne by congruence. reflexivity.
    + reflexivity.
    + exists pn. split; [exact Hp|].
      rewrite lookup_insert_ne by congruence. rewrite lookup_insert_eq. rewrite Hf.
      case_bool_decide; reflexivity.
  - injection Hrc as <- <-.
    apply store_Done in Hs7 as (m7 & Hm7 & ->).
    rewrite !lookup_insert_ne in Hm7 by congruence. rewrite lookup_insert_eq in Hm7.
    injection Hm7 as <-.
    split; [|split; [|split; [|split]]].
    + rewrite !lookup_insert_ne by congruence. rewrite lookup_insert_eq.
      f_equal. unfold inter_node_of. rewrite Ep. destruct b; reflexivity.
    + rewrite lookup_insert_eq. reflexivity.
    + rewrite !lookup_insert_ne by congruence. rewrite lookup_insert_eq. reflexivity.
    + intros x Hx1 Hx2 Hx3 Hx4. rewrite !lookup_insert_ne by congruence. reflexivity.
    + reflexivity.
Qed.

Lemma find_walk_down_stop fuel h stream bitlen a n :
  h !! a = Some n → bitlen ≤ n_bit n →
  find_walk_down fuel h stream bitlen a = Done (Some a).
Proof.
  intros Hn Hb. destruct fuel; simpl; unfold load; rewrite Hn; simpl;
    destruct (Z.ltb_spec (n_bit n) bitlen); (lia || reflexivity).
Qed.

Lemma find_walk_down_step fuel h stream bitlen a n b c :
  h !! a = Some n → n_bit n < bitlen →
  bit_test stream (n_bit n) = Done b →
  (if b : bool then n_right n else n_left n) = Some c →
  find_walk_down (S fuel) h stream bitlen a = find_walk_down fuel h stream bitlen c.
Proof.
  intros Hn Hlt Hb Hc. simpl. unfold load. rewrite Hn. simpl.
  destruct (Z.ltb_spec (n_bit n) bitlen); [|lia].
  rewrite Hb. simpl. rewrite Hc. reflexivity.
Qed.

(** The lookup follows a descent of [h] in any arena [h'] that has the
    bits and the children of [h] at the nodes above the end of the
    descent. *)
Lemma find_along_descent h h' rank stream bitlen j a pred :
  map_Forall (node_linked h rank) h →
  descent h stream bitlen j a pred →
  (∀ x nx, h !! x = Some nx → (rank pred < rank x)%nat →
     ∃ nx', h' !! x = Some nx' ∧ n_bit nx' = n_bit nx
            ∧ n_left nx' = n_left nx ∧ n_right nx' = n_right nx) →
  ∀ f, find_walk_down (j + f) h' stream bitlen a = find_walk_down f h' stream bitlen pred.
Proof.
  intros Hl Hd Hagree. induction Hd as [a|k a n b c x Hn Hlt Hb Hc Hd IH]; intros f.
  - reflexivity.
  - destruct (descent_rank _ _ _ _ _ _ _ Hl Hd) as (Hr & _).
    destruct (Hl a n Hn) as (Hch & _).
    destruct (Hch c) as (nc & Hnc & _ & Hrc); [destruct b; auto|].
    destruct (Hagree a n Hn) as (n' & Hn' & E1 & E2 & E3); [lia|].
    change (S k + f)%nat with (S (k + f)).
    rewrite (find_walk_down_step _ _ _ _ _ n' b c); [apply IH; exact Hagree|exact Hn'|lia| |].
    + rewrite E1. exact Hb.
    + rewrite E2, E3. exact Hc.
Qed.

(** The arena after [register_netmask]. *)
Lemma register_netmask_heap fuel h node netmask h' target first :
  register_netmask fuel h node netmask = Done (h', target, first) →
  ∃ n tn, h !! node = Some n ∧ h !! target = Some tn
    ∧ walk_up fuel h (fun bit => netmask <? bit + 1) node (n_parent n) = Done target
    ∧ h' = <[target := with_netmasks (Some (netmasks_register (n_netmasks tn) netmask)) tn]> h.
Proof.
  unfold register_netmask. intros H.
  inv_bind H as n Hn. inv_bind H as t Ht. inv_bind H as tn Htn. inv_bind H as h1 Hs.
  injection H as <- <- <-. apply load_Done in Hn, Htn.
  apply store_Done in Hs as (m & Hm & ->). rewrite Htn in Hm. injection Hm as <-.
  exists n, tn. auto.
Qed.

(** The node returned for a key that is in the tree is a node of the tree
    before the call. *)
Lemma add_existing_old fuel tree node n prefix user netmask tree' r :
  t_heap tree !! node = Some n →
  add_existing fuel tree node n prefix user netmask = Done (tree', Some r) →
  is_Some (t_heap tree !! r).
Proof.
  intros Hn. unfold add_existing. destruct (n_prefix n) as [np|].
  - destruct (SCRadixPrefixContainNetmask _ _).
    + intros [= <- <-]. eauto.
    + intros H. inv_bind H as np' Hnp. inv_bind H as h1 Hs.
      apply store_Done in Hs as (m & Hm & ->).
      destruct (netmask_is_host netmask).
      * injection H as <- <-. eauto.
      * inv_bind H as res Hr. destruct res as [[h2 target] first].
        apply register_netmask_heap in Hr as (n1 & tn & Hn1 & Htn & _ & ->).
        destruct first; [discriminate|]. injection H as <- <-.
        destruct (decide (node = target)) as [<-|Hne]; [eauto|].
        rewrite lookup_insert_ne in Htn by exact Hne. eauto.
  - intros H. inv_bind H as p Hp. inv_bind H as h1 Hs. injection H as <- <-. eauto.
Qed.

(** [SCRadixRemoveKey] up to the point where it unlinks the node: the
    descent ends at [new], which holds the key with the one entry for
    [netmask]. *)
Lemma remove_key_sole_entry fuel h hd key key_bitlen netmask new nn p user :
  0 < key_bitlen → key_bitlen mod 8 = 0 → key_bitlen / 8 ≤ Z.of_nat (length key) →
  find_walk_down fuel h (take (Z.to_nat (key_bitlen / 8)) key) key_bitlen hd = Done (Some new) →
  h !! new = Some nn → n_bit nn = key_bitlen → n_prefix nn = Some p →
  pfx_stream p = take (Z.to_nat (key_bitlen / 8)) key →
  pfx_user_data p = [SCRadixAllocSCRadixUserData netmask user] →
  SCRadixRemoveKey fuel (Some key) key_bitlen {| t_heap := h; t_head := Some hd |} netmask
  = if bool_decide (hd = new)
    then Done {| t_heap := delete new h; t_head := None |}
    else unlink_node h hd new nn.
Proof.
  intros Hpos Hmod Hlen Hfind Hnn Hbit Hp Hstream Hud.
  assert (0 ≤ key_bitlen / 8) as Hdiv by (apply Z.div_pos; lia).
  unfold SCRadixRemoveKey. simpl.
  rewrite create_prefix_Done by assumption. simpl.
  rewrite Hfind. simpl. unfold load. rewrite Hnn. simpl.
  rewrite Hbit, Z.eqb_refl, Hp. simpl.
  unfold stream_match, memcmp_eq. simpl. rewrite Hstream.
  assert (Z.of_nat (length (take (Z.to_nat (key_bitlen / 8)) key)) = key_bitlen / 8) as Hls
    by (rewrite length_take; lia).
  rewrite Hls, Z.ltb_irrefl. simpl.
  rewrite (bool_decide_eq_true_2 (take _ _ = take _ _)) by reflexivity.
  rewrite (proj2 (Z.eqb_eq _ _) Hmod). simpl.
  rewrite Hud. simpl. rewrite Z.eqb_refl. simpl. reflexivity.
Qed.

Lemma load_lookup h a n : h !! a = Some n → load h a = Done n.
Proof. intros H. unfold load. rewrite H. reflexivity. Qed.

Lemma store_lookup f a h n : h !! a = Some n → store f a h = Done (<[a := f n]> h).
Proof. intros H. unfold store. rewrite (load_lookup _ _ _ H). reflexivity. Qed.

(** The removal of the leaf [new] undoes the splice that put [inter] above
    [node], when [inter] hands back to [node] no netmask that [node] did not
    keep. *)
#[local] Arguments SCRadixTransferNetmasksBWNodes : simpl never.

Lemma unlink_spliced h0 head0 h3 hd3 node n new nn inter d b keep moved :
  h0 !! node = Some n → h0 !! new = None → h0 !! inter = None → new ≠ inter →
  h3 !! inter = Some (inter_node_of n node new d b moved) →
  h3 !! node = Some (with_parent (Some inter) (with_netmasks keep n)) →
  h3 !! new = Some nn → n_parent nn = Some inter →
  (∀ x, x ≠ inter → x ≠ node → x ≠ new → n_parent n ≠ Some x → h3 !! x = h0 !! x) →
  match n_parent n with
  | None => hd3 = inter ∧ head0 = Some node
  | Some p =>
      head0 = Some hd3 ∧ p ≠ node
      ∧ ∃ pn, h0 !! p = Some pn
              ∧ h3 !! p = Some (if bool_decide (n_right pn = Some node)
                                then with_right (Some inter) pn
                                else with_left (Some inter) pn)
              ∧ (n_left pn = Some node ∨ n_right pn = Some node)
              ∧ n_left pn ≠ Some inter
  end →
  match moved with
  | None => keep = n_netmasks n
  | Some _ => Some (default [] keep) = n_netmasks n
  end →
  keep ≠ Some [] →
  unlink_node h3 hd3 new nn = Done {| t_heap := h0; t_head := head0 |}.
Proof.
  intros Hn Hnew Hinter Hni Hi Hnode Hnn Hpar Hother HP Hmasks Hkeep.
  assert (node ≠ new) as Hnw by (intros ->; congruence).
  assert (node ≠ inter) as Hnin by (intros ->; congruence).
  unfold unlink_node. rewrite Hpar. rewrite (load_lookup _ _ _ Hi). simpl.
  assert (∀ from, from = inter_node_of n node new d b moved →
            sibling_of (inter_node_of n node new d b moved) from new = Some node) as Hsib.
  { intros from ->. unfold sibling_of, inter_node_of. simpl.
    destruct b; case_bool_decide; congruence. }
  (* the netmasks that the transfer leaves on [node] *)
  assert (∀ h m, h !! inter = Some (inter_node_of n node new d b moved) →
            h !! node = Some m → n_netmasks m = keep →
            ∃ m', SCRadixTransferNetmasksBWNodes h (Some node) (Some inter)
                  = Done (<[node := m']> h)
                  ∧ m' = with_netmasks (n_netmasks n) m) as Htransfer.
  { intros h m Hhi Hhm Hmk. unfold SCRadixTransferNetmasksBWNodes.
    rewrite (load_lookup _ _ _ Hhi). simpl. destruct moved as [l|].
    - rewrite (load_lookup _ _ _ Hhm). simpl. rewrite Hmk.
      assert (bool_decide (is_Some keep)
              && (Z.of_nat (length l) + Z.of_nat (length (default [] keep)) =? 0) = false)
        as ->.
      { destruct keep as [[|x k]|]; simpl; [congruence| |reflexivity].
        apply Z.eqb_neq. lia. }
      rewrite (store_lookup _ _ _ _ Hhm), Hmasks. eauto.
    - exists m. rewrite insert_id by exact Hhm. split; [reflexivity|].
      rewrite <- Hmasks, <- Hmk. destruct m; reflexivity. }
  destruct (n_parent n) as [p|] eqn:Ep.
  - destruct HP as (-> & Hpn & pn & Hp0 & Hp3 & Hchild & Hleft).
    assert (p ≠ new) as Hpw by (intros ->; congruence).
    assert (p ≠ inter) as Hpi by (intros ->; congruence).
    assert (∃ g, h3 !! p = Some g ∧ n_parent g = n_parent pn
                 ∧ (if bool_decide (n_left g = Some inter)
                    then with_left (Some node) else with_right (Some node)) g = pn)
      as (g & Hg3 & Hgp & Hg).
    { destruct (decide (n_right pn = Some node)) as [E|E].
      - rewrite (bool_decide_eq_true_2 _ E) in Hp3. eexists. split; [exact Hp3|].
        split; [reflexivity|]. simpl. rewrite (bool_decide_eq_false_2 _ Hleft).
        destruct pn; unfold with_right; simpl in *; congruence.
      - rewrite (bool_decide_eq_false_2 _ E) in Hp3. eexists. split; [exact Hp3|].
        split; [reflexivity|]. simpl. rewrite bool_decide_eq_true_2 by reflexivity.
        destruct Hchild as [Hc|Hc]; [|congruence].
        destruct pn; unfold with_left; simpl in *; congruence. }
    rewrite (load_lookup _ _ _ Hg3). simpl.
    rewrite Hsib by reflexivity. simpl.
    rewrite (store_lookup _ _ _ _ Hg3). simpl.
    rewrite (store_lookup _ node _ (with_parent (Some inter) (with_netmasks keep n)))
      by (rewrite lookup_insert_ne by congruence; exact Hnode).
    simpl. rewrite Hg.
    match goal with
    | |- context [SCRadixTransferNetmasksBWNodes ?h _ _] =>
        edestruct (Htransfer h) as (m' & Ht & Hm');
        [rewrite !lookup_insert_ne by congruence; exact Hi
        |rewrite lookup_insert_eq; reflexivity
        |reflexivity
        |rewrite Ht, Hm']
    end.
    simpl. f_equal. f_equal.
    apply map_eq. intros x.
    destruct (decide (x = new)) as [->|Hx1]; [rewrite lookup_delete_eq; congruence|].
    rewrite lookup_delete_ne by congruence.
    destruct (decide (x = inter)) as [->|Hx2]; [rewrite lookup_delete_eq; congruence|].
    rewrite lookup_delete_ne by congruence.
    destruct (decide (x = node)) as [->|Hx3].
    { rewrite lookup_insert_eq, Hn. f_equal.
      destruct n; unfold with_netmasks, with_parent; simpl in *; congruence. }
    rewrite !lookup_insert_ne by congruence.
    destruct (decide (x = p)) as [->|Hx4]; [rewrite lookup_insert_eq; congruence|].
    rewrite lookup_insert_ne by congruence. apply Hother; congruence.
  - destruct HP as (-> & ->).
    rewrite (load_lookup _ _ _ Hi). simpl.
    rewrite Hsib by reflexivity. simpl.
    rewrite (store_lookup _ _ _ _ Hnode). simpl.
    match goal with
    | |- context [SCRadixTransferNetmasksBWNodes ?h _ _] =>
        edestruct (Htransfer h) as (m' & Ht & Hm');
        [rewrite !lookup_insert_ne by congruence; exact Hi
        |rewrite lookup_insert_eq; reflexivity
        |reflexivity
        |rewrite Ht, Hm']
    end.
    simpl. f_equal. f_equal.
    apply map_eq. intros x.
    destruct (decide (x = new)) as [->|Hx1]; [rewrite lookup_delete_eq; congruence|].
    rewrite lookup_delete_ne by congruence.
    destruct (decide (x = inter)) as [->|Hx2]; [rewrite lookup_delete_eq; congruence|].
    rewrite lookup_delete_ne by congruence.
    destruct (decide (x = node)) as [->|Hx3].
    { rewrite lookup_insert_eq, Hn. f_equal.
      destruct n; unfold with_netmasks, with_parent; simpl in *; congruence. }
    rewrite !lookup_insert_ne by congruence. apply Hother; congruence.
Qed.

(** Insertions of keys of [width] bits keep the bits of the nodes bounded
    by [width]. *)
Section width.
Context (width : Z).

Lemma register_netmask_width fuel h node netmask h' target first :
  width_bounded h width →
  register_netmask fuel h node netmask = Done (h', target, first) →
  width_bounded h' width.
Proof.
  intros Hh H. unfold register_netmask in H.
  inv_bind H as n Hn. inv_bind H as t Ht. inv_bind H as tn Htn. inv_bind H as h1 Hs.
  injection H as <- <- <-.
  eapply (heap_forall_store (λ n, n_bit n ≤ width)); [exact Hh| |exact Hs].
  intros m _ Hok. exact Hok.
Qed.

Lemma replace_child_width h head parent node new h' head' :
  width_bounded h width →
  replace_child h head parent node new = Done (h', head') →
  width_bounded h' width.
Proof.
  intros Hh H. unfold replace_child in H.
  destruct parent as [p|]; [|injection H as <- <-; exact Hh].
  inv_bind H as pn Hpn. destruct (bool_decide _); inv_bind H as h1 Hs; injection H as <- <-;
    (eapply (heap_forall_store (λ n, n_bit n ≤ width)); [exact Hh| |exact Hs]);
    intros n _ Hok; exact Hok.
Qed.

Lemma add_existing_width fuel tree node n prefix user netmask tree' r :
  width_bounded (t_heap tree) width →
  add_existing fuel tree node n prefix user netmask = Done (tree', r) →
  width_bounded (t_heap tree') width.
Proof.
  intros Hh H. unfold add_existing in H.
  destruct (n_prefix n) as [np|].
  - destruct (SCRadixPrefixContainNetmask _ _); [injection H as <- <-; exact Hh|].
    inv_bind H as np' Hnp. inv_bind H as h1 Hs.
    assert (width_bounded h1 width) as Hh1.
    { eapply (heap_forall_store (λ n, n_bit n ≤ width)); [exact Hh| |exact Hs].
      intros m _ Hok. exact Hok. }
    destruct (netmask_is_host netmask); [injection H as <- <-; exact Hh1|].
    inv_bind H as res Hreg. destruct res as [[h2 target] first]. injection H as <- <-. simpl.
    eapply register_netmask_width; eauto.
  - inv_bind H as p Hp. inv_bind H as h1 Hs. injection H as <- <-. simpl.
    eapply (heap_forall_store (λ n, n_bit n ≤ width)); [exact Hh| |exact Hs].
    intros m _ Hok. exact Hok.
Qed.

Lemma add_above_width h head node n bn new_node differ_bit h' head' :
  width_bounded h width →
  add_above h head node n bn new_node differ_bit = Done (h', head') →
  width_bounded h' width.
Proof.
  intros Hh H. unfold add_above in H.
  inv_bind H as bp Hbp. inv_bind H as b Hb. inv_bind H as h1 Hs1. inv_bind H as h2 Hs2.
  inv_bind H as res Hrc. destruct res as [h3 head3]. inv_bind H as h4 Hs4.
  injection H as <- <-.
  assert (width_bounded h1 width) as H1.
  { eapply (heap_forall_store (λ n, n_bit n ≤ width)); [exact Hh| |exact Hs1].
    intros m _ Hok. destruct b; exact Hok. }
  assert (width_bounded h2 width) as H2.
  { eapply (heap_forall_store (λ n, n_bit n ≤ width)); [exact H1| |exact Hs2].
    intros m _ Hok. exact Hok. }
  apply replace_child_width in Hrc; [|exact H2].
  eapply (heap_forall_store (λ n, n_bit n ≤ width)); [exact Hrc| |exact Hs4].
  intros m _ Hok. exact Hok.
Qed.

Lemma add_split_width h head node n new_node stream differ_bit h' head' :
  width_bounded h width → 0 ≤ width → differ_bit ≤ width →
  add_split h head node n new_node stream differ_bit = Done (h', head') →
  width_bounded h' width.
Proof.
  intros Hh Hw Hd H. unfold add_split in H.
  destruct (SCRadixCreateNode h) as [h0 inter_node] eqn:Ec.
  pose proof (create_node_fresh _ _ _ Ec) as (Hfresh & ->).
  assert (width_bounded (<[inter_node:=zero_node]> h) width) as H0.
  { apply map_Forall_insert_2; [exact Hw|exact Hh]. }
  inv_bind H as h1 Hs1.
  destruct (netmask_split (n_netmasks n) differ_bit) as [keep moved] eqn:Es.
  inv_bind H as h2 Hs2. inv_bind H as h3 Hs3. inv_bind H as b Hb.
  inv_bind H as h4 Hs4. inv_bind H as h5 Hs5. inv_bind H as res Hrc.
  destruct res as [h6 head6]. inv_bind H as h7 Hs7. injection H as <- <-.
  assert (width_bounded h1 width) as H1.
  { eapply (heap_forall_store (λ n, n_bit n ≤ width)); [exact H0| |exact Hs1].
    intros m _ _. exact Hd. }
  assert (width_bounded h2 width) as H2.
  { eapply (heap_forall_store (λ n, n_bit n ≤ width)); [exact H1| |exact Hs2].
    intros m _ Hok. exact Hok. }
  assert (width_bounded h3 width) as H3.
  { eapply (heap_forall_store (λ n, n_bit n ≤ width)); [exact H2| |exact Hs3].
    intros m _ Hok. exact Hok. }
  assert (width_bounded h4 width) as H4.
  { eapply (heap_forall_store (λ n, n_bit n ≤ width)); [exact H3| |exact Hs4].
    intros m _ Hok. destruct b; exact Hok. }
  assert (width_bounded h5 width) as H5.
  { eapply (heap_forall_store (λ n, n_bit n ≤ width)); [exact H4| |exact Hs5].
    intros m _ Hok. exact Hok. }
  apply replace_child_width in Hrc; [|exact H5].
  eapply (heap_forall_store (λ n, n_bit n ≤ width)); [exact Hrc| |exact Hs7].
  intros m _ Hok. exact Hok.
Qed.

Lemma add_key_width fuel key_stream tree user netmask tree' r :
  0 ≤ width < 256 →
  width_bounded (t_heap tree) width →
  SCRadixAddKey fuel key_stream width tree user netmask = Done (tree', r) →
  width_bounded (t_heap tree') width.
Proof.
  intros Hk Hh H. unfold SCRadixAddKey in H.
  inv_bind H as ks Hchop. inv_bind H as created Hcreate.
  destruct created as [prefix|]; [|injection H as <- <-; exact Hh].
  assert (pfx_bitlen prefix = width) as Hbl.
  { unfold SCRadixCreatePrefix in Hcreate. destruct (_ || _); [discriminate|].
    destruct ks as [s|]; [|discriminate]. destruct (_ <? _); [discriminate|].
    injection Hcreate as <-. reflexivity. }
  rewrite Hbl in H. rewrite (Z.mod_small width 256) in H by lia.
  destruct (t_head tree) as [head|].
  - inv_bind H as bottom Hdown. inv_bind H as bn Hbn. inv_bind H as d0 Hdiff.
    set (check_bit := if n_bit bn <? width then n_bit bn else width) in *.
    set (d := if check_bit <? d0 then check_bit else d0) in *.
    inv_bind H as node Hup. inv_bind H as n Hn.
    assert (check_bit ≤ width) as Hcb
      by (unfold check_bit; destruct (Z.ltb_spec (n_bit bn) width); lia).
    assert (d ≤ width) as Hd
      by (unfold d; destruct (Z.ltb_spec check_bit d0); lia).
    destruct ((d =? width) && (n_bit n =? width)).
    + eapply add_existing_width; eauto.
    + destruct (SCRadixCreateNode (t_heap tree)) as [h0 new_node] eqn:Ec.
      assert (width_bounded h0 width) as H0.
      { apply create_node_fresh in Ec as (_ & ->).
        apply map_Forall_insert_2; [exact (proj1 Hk)|exact Hh]. }
      inv_bind H as h1 Hs1.
      assert (width_bounded h1 width) as H1.
      { eapply (heap_forall_store (λ n, n_bit n ≤ width)); [exact H0| |exact Hs1].
        intros m _ _. simpl. lia. }
      inv_bind H as res Hput. destruct res as [h2 head2].
      assert (width_bounded h2 width) as H2.
      { destruct (d =? width).
        - eapply add_above_width; eauto.
        - eapply add_split_width; eauto. lia. }
      destruct (netmask_is_host netmask); [injection H as <- <-; exact H2|].
      inv_bind H as res Hreg. destruct res as [[h3 target] first]. injection H as <- <-.
      simpl. eapply register_netmask_width; eauto.
  - destruct (SCRadixCreateNode (t_heap tree)) as [h0 node] eqn:Ec.
    assert (width_bounded h0 width) as H0.
    { apply create_node_fresh in Ec as (_ & ->).
      apply map_Forall_insert_2; [exact (proj1 Hk)|exact Hh]. }
    inv_bind H as h1 Hs1.
    assert (width_bounded h1 width) as H1.
    { eapply (heap_forall_store (λ n, n_bit n ≤ width)); [exact H0| |exact Hs1].
      intros m _ _. simpl. lia. }
    destruct (netmask_is_host netmask); [injection H as <- <-; exact H1|].
    inv_bind H as h2 Hs2. injection H as <- <-. simpl.
    eapply (heap_forall_store (λ n, n_bit n ≤ width)); [exact H1| |exact Hs2].
    intros m _ Hok. exact Hok.
Qed.

End width.

(** The trees built from keys of one width below 256 bits have sound
    links and bounded bits. *)
Lemma inserted_width_shape width tree :
  0 ≤ width < 256 → inserted_width width tree →
  tree_linked tree ∧ width_bounded (t_heap tree) width.
Proof.
  intros Hk Hi. split.
  - apply inserted_linked. induction Hi as [|fuel ks tree user netmask tree' node Hi IH Hn H].
    + constructor.
    + eapply inserted_add; [exact IH| |exact Hn|exact H]. unfold is_uint16. lia.
  - induction Hi as [|fuel ks tree user netmask tree' node Hi IH Hn H].
    + apply map_Forall_empty.
    + eapply add_key_width; eauto.
Qed.

(** Where the round trip gives back the tree.  Take a tree with sound links
    whose bits are bounded by [key_bitlen], as every tree built from keys
    of that width is, and a key of [key_bitlen] bits, below 256.  When the insertion of
    the key with [netmask] makes a new leaf, leaves the parent of the leaf
    without netmasks and registers [netmask], unless it is a host netmask,
    in the leaf itself, then the removal of the key as the insertion left it
    in the buffer (chopped against the netmask), with the same netmask and
    one more unit of fuel, returns, and what it returns is the tree as it
    was before the insertion: the same nodes at the same addresses, with the
    same bits, prefixes, user data, netmasks and links. *)
Theorem add_remove_new_leaf (fuel : nat) (tree : SCRadixTree) (key key' : list Z)
    (key_bitlen user netmask : Z) (tree' : SCRadixTree) (new : addr) :
  tree_linked tree →
  width_bounded (t_heap tree) key_bitlen →
  0 < key_bitlen < 256 →
  SCRadixChopIPAddressAgainstNetmask (Some key) netmask key_bitlen = Done (Some key') →
  SCRadixAddKey fuel (Some key) key_bitlen tree user netmask = Done (tree', Some new) →
  t_heap tree !! new = None →
  leaf_parent_clear tree' new netmask →
  SCRadixRemoveKey (S fuel) (Some key') key_bitlen tree' netmask = Done tree.
Proof.
  intros (Hhead & rank & Hl) Hw Hk Hchop Hadd Hfresh Hclear.
  unfold SCRadixAddKey in Hadd. rewrite Hchop in Hadd. simpl in Hadd.
  inv_bind Hadd as created Hcreate.
  destruct created as [prefix|]; [|discriminate].
  assert (key_bitlen mod 8 = 0 ∧ key_bitlen / 8 ≤ Z.of_nat (length key')
          ∧ prefix = {| pfx_bitlen := key_bitlen;
                        pfx_stream := take (Z.to_nat (key_bitlen / 8)) key';
                        pfx_user_data := [SCRadixAllocSCRadixUserData netmask user];
                        pfx_user_data_result := 0 |}) as (Hmod & Hlen & ->).
  { unfold SCRadixCreatePrefix in Hcreate.
    destruct (Z.eqb_spec (key_bitlen mod 8) 0) as [E|E]; [|discriminate]. simpl in Hcreate.
    destruct (Z.eqb_spec key_bitlen 0); [discriminate|].
    destruct (Z.ltb_spec (Z.of_nat (length key')) (key_bitlen / 8)); [discriminate|].
    injection Hcreate as <-. auto. }
  assert (0 ≤ key_bitlen / 8) as Hdiv by (apply Z.div_pos; lia).
  assert (key_bitlen = 8 * (key_bitlen / 8)) as Hk8 by (apply Z.div_exact; [lia|exact Hmod]).
  set (stream := take (Z.to_nat (key_bitlen / 8)) key') in *.
  assert (Z.of_nat (length stream) = key_bitlen / 8) as Hls
    by (unfold stream; rewrite length_take; lia).
  set (prefix := {| pfx_bitlen := key_bitlen; pfx_stream := stream;
                    pfx_user_data := [SCRadixAllocSCRadixUserData netmask user];
                    pfx_user_data_result := 0 |}) in *.
  assert (SCRadixCreatePrefix (Some key') key_bitlen 0 255
          = Done (Some {| pfx_bitlen := key_bitlen; pfx_stream := stream;
                          pfx_user_data := [SCRadixAllocSCRadixUserData 255 0];
                          pfx_user_data_result := 0 |})) as Hquery.
  { apply create_prefix_Done; (assumption || lia). }
  destruct tree as [h0 head0]. simpl in *.
  destruct head0 as [hd|].
  - rewrite (Z.mod_small key_bitlen 256) in Hadd by lia.
    inv_bind Hadd as bottom Hdown. inv_bind Hadd as bn Hbn. inv_bind Hadd as d0 Hdiff.
    set (check_bit := if n_bit bn <? key_bitlen then n_bit bn else key_bitlen) in *.
    set (d := if check_bit <? d0 then check_bit else d0) in *.
    inv_bind Hadd as node Hup. inv_bind Hadd as n Hn.
    apply load_Done in Hbn, Hn.
    assert (d ≤ check_bit) as Hdc by (unfold d; destruct (Z.ltb_spec check_bit d0); lia).
    assert (check_bit ≤ key_bitlen) as Hcb
      by (unfold check_bit; destruct (Z.ltb_spec (n_bit bn) key_bitlen); lia).
    destruct ((d =? key_bitlen) && (n_bit n =? key_bitlen)) eqn:Ecase.
    { apply add_existing_old in Hadd; [|exact Hn]. simpl in Hadd.
      destruct Hadd as [x Hx]. congruence. }
    set (new_node := fresh (dom h0)) in *.
    assert (h0 !! new_node = None) as Hnewfresh by (apply not_elem_of_dom, is_fresh).
    inv_bind Hadd as h1 Hs1.
    apply store_Done in Hs1 as (z & Hz & ->). rewrite lookup_insert_eq in Hz.
    injection Hz as <-. rewrite insert_insert_eq in Hadd.
    set (leaf := with_bit key_bitlen (with_prefix (Some prefix) zero_node)) in *.
    inv_bind Hadd as res Hsplit. destruct res as [h2 head2].
    (* the shape of the descent *)
    destruct (Hhead hd eq_refl) as (nh & Hnh & Hnhp).
    assert (0 ≤ key_bitlen) as Hk0 by lia.
    assert (Z.of_nat (length stream) ≤ key_bitlen / 8) as Hls' by (rewrite Hls; lia).
    destruct (add_walk_down_descent _ _ _ _ _ _ Hw Hk0 Hls' Hdown) as (k & Hkf & Hdesc).
    pose proof (walk_up_descent _ _ _ _ _ _ _ _ _ _ _ _ Hl Hdesc Hnh Hbn Hup) as Hplace.
    (* the new key is no prefix of a longer key of the tree *)
    assert (d ≠ key_bitlen) as Hd.
    { intros E. rewrite E, Z.eqb_refl in Ecase. simpl in Ecase.
      apply Z.eqb_neq in Ecase. pose proof (Hw _ _ Hn) as Hwn. simpl in Hwn.
      destruct (walk_up_result _ _ _ _ _ _ Hup) as [->|(n' & Hn' & Hc)].
      - assert (n = bn) as -> by congruence.
        unfold check_bit in Hdc. destruct (Z.ltb_spec (n_bit bn) key_bitlen); lia.
      - assert (n' = n) as -> by congruence. apply Z.leb_le in Hc. lia. }
    rewrite (proj2 (Z.eqb_neq _ _) Hd) in Hsplit.
    assert (node ≠ new_node) as Hnn by (intros ->; congruence).
    destruct (Hl node n Hn) as (_ & Hnpar & _).
    destruct (add_split_heap (<[new_node:=leaf]> h0) hd node n new_node leaf stream d h2 head2)
      as (b & inter & keep & moved & Hb & Es & Hifresh & Hi2 & Hnode2 & Hnew2 & Hother2 & HP2).
    { rewrite lookup_insert_ne by congruence. exact Hn. }
    { apply lookup_insert_eq. }
    { exact Hnn. }
    { intros p Ep. destruct (Hnpar p Ep) as ((np & Hnp) & Hr).
      split; [intros ->; lia|]. split; [intros ->; congruence|].
      rewrite lookup_insert_ne by (intros ->; congruence). eauto. }
    { exact Hsplit. }
    assert (inter ≠ new_node) as Hiw by (intros ->; rewrite lookup_insert_eq in Hifresh; discriminate).
    rewrite lookup_insert_ne in Hifresh by congruence.
    assert (inter ≠ node) as Hin by (intros ->; congruence).
    (* the registration of the netmask stays at the new leaf *)
    assert (new = new_node
            ∧ ∃ h3 nn, tree' = {| t_heap := h3; t_head := head2 |}
                ∧ h3 !! new_node = Some nn
                ∧ n_bit nn = key_bitlen ∧ n_prefix nn = Some prefix
                ∧ n_parent nn = Some inter
                ∧ ∀ x, x ≠ new_node → h3 !! x = h2 !! x)
      as (-> & h3 & nn & -> & Hnew3 & Hnnb & Hnnp & Hnnpar & Hother3).
    { destruct (netmask_is_host netmask) eqn:Ehost.
      - injection Hadd as <- <-. split; [reflexivity|].
        exists h2, (with_parent (Some inter) leaf). auto 10.
      - inv_bind Hadd as res Hreg. destruct res as [[h3 target] first].
        injection Hadd as <- <-. split; [reflexivity|].
        apply register_netmask_heap in Hreg as (n1 & tn & Hn1 & Htn & Hwalk & ->).
        rewrite Hnew2 in Hn1. injection Hn1 as <-. simpl in Hwalk.
        assert (walk_up fuel h2 (λ bit, netmask <? bit + 1) new_node (Some inter)
                = (if netmask <? d + 1
                   then match fuel with
                        | O => Fault OutOfFuel
                        | S fuel' => walk_up fuel' h2 (λ bit, netmask <? bit + 1) inter
                                       (n_parent n)
                        end
                   else Done new_node)) as Ewalk.
        { destruct fuel; simpl; rewrite (load_lookup _ _ _ Hi2); reflexivity. }
        rewrite Ewalk in Hwalk. clear Ewalk.
        destruct (Z.ltb_spec netmask (d + 1)) as [Hlow|Hhigh].
        + exfalso.
          assert (∀ x m, h2 !! x = Some m →
                    ∃ m', <[target:=with_netmasks
                                      (Some (netmasks_register (n_netmasks tn) netmask)) tn]> h2
                          !! x = Some m'
                          ∧ n_parent m' = n_parent m ∧ n_bit m' = n_bit m) as Hkeep.
          { intros x m Hm. destruct (decide (target = x)) as [->|Hne].
            - rewrite lookup_insert_eq. eexists. split; [reflexivity|].
              assert (tn = m) as -> by congruence. auto.
            - rewrite lookup_insert_ne by exact Hne. eauto. }
          destruct (Hkeep _ _ Hnew2) as (m1 & Hm1 & Hm1p & _).
          destruct (Hkeep _ _ Hi2) as (m2 & Hm2 & _ & Hm2b).
          destruct (Hclear m1 inter m2 Hm1 Hm1p Hm2) as (_ & [Hc|Hc]); [congruence|].
          rewrite Hm2b in Hc. simpl in Hc. lia.
        + injection Hwalk as <-.
          rewrite Hnew2 in Htn. injection Htn as <-.
          eexists _, _. split; [reflexivity|]. split; [apply lookup_insert_eq|].
          split; [reflexivity|]. split; [reflexivity|]. split; [reflexivity|].
          intros x Hx. rewrite lookup_insert_ne by congruence. reflexivity. }
    assert (h3 !! inter = Some (inter_node_of n node new_node d b moved)) as Hi3
      by (rewrite Hother3 by congruence; exact Hi2).
    assert (h3 !! node = Some (with_parent (Some inter) (with_netmasks keep n))) as Hnode3
      by (rewrite Hother3 by congruence; exact Hnode2).
    assert (match moved with
            | None => keep = n_netmasks n
            | Some _ => Some (default [] keep) = n_netmasks n
            end) as Hmasks.
    { destruct (Hclear nn inter _ Hnew3 Hnnpar Hi3) as (Hempty & _). simpl in Hempty.
      unfold netmask_split in Es. destruct (n_netmasks n) as [l|].
      - injection Es as <- <-. simpl in Hempty. f_equal.
        pose proof (take_drop (netmask_split_index l d) l) as Htd.
        rewrite Hempty, app_nil_r in Htd.
        destruct (decide (netmask_split_index l d = O)) as [E|E]; simpl.
        + rewrite E in Htd. simpl in Htd. exact Htd.
        + exact Htd.
      - injection Es as <- <-. reflexivity. }
    assert (keep ≠ Some []) as Hkeepne.
    { unfold netmask_split in Es. destruct (n_netmasks n) as [l|].
      - injection Es as <- <-.
        destruct (decide (netmask_split_index l d = O)) as [E|E]; [discriminate|].
        destruct l as [|x l]; [contradiction|]. simpl in E |- *.
        destruct (x <? d + 1); [contradiction|discriminate].
      - injection Es as <- <-. discriminate. }
    assert (d < key_bitlen) as Hdlt by (clear -Hd Hdc Hcb; clearbody d check_bit; lia).
    assert (∀ f, find_walk_down (S f) h3 stream key_bitlen inter = Done (Some new_node))
      as Hfind1.
    { intros f. rewrite (find_walk_down_step _ _ _ _ _ _ b new_node Hi3); [|exact Hdlt|exact Hb|].
      - apply (find_walk_down_stop _ _ _ _ _ nn Hnew3). lia.
      - destruct b; reflexivity. }
    assert (∀ x, x ≠ inter → x ≠ node → x ≠ new_node → n_parent n ≠ Some x →
              h3 !! x = h0 !! x) as Hother.
    { intros x Hx1 Hx2 Hx3 Hx4. rewrite Hother3 by exact Hx3.
      rewrite Hother2 by assumption. apply lookup_insert_ne. congruence. }
    assert (∀ hd3, find_walk_down (S fuel) h3 stream key_bitlen hd3 = Done (Some new_node) →
              hd3 ≠ new_node →
              SCRadixRemoveKey (S fuel) (Some key') key_bitlen
                {| t_heap := h3; t_head := Some hd3 |} netmask
              = unlink_node h3 hd3 new_node nn) as Hremove.
    { intros hd3 Hfind Hne.
      rewrite (remove_key_sole_entry _ _ _ _ _ _ new_node nn prefix user);
        try assumption; try reflexivity; [|lia].
      rewrite bool_decide_eq_false_2 by exact Hne. reflexivity. }
    destruct Hplace as [(j & pred & pn & b' & Hj & Hle & Hp & Hplt & Hpb & Hpc & Hcond)
                       |(fuel' & Hw')].
    + (* [node] hangs below [pred] *)
      destruct (Hl pred pn Hp) as (Hch & _ & Hlr).
      destruct (Hch node) as (nc & Hnc & Hncp & Hrank); [destruct b'; auto|].
      assert (nc = n) as -> by congruence.
      rewrite Hncp in HP2. destruct HP2 as (-> & pn1 & Hp1 & Hp2).
      assert (pred ≠ new_node) as Hpw by (intros ->; congruence).
      assert (pred ≠ inter) as Hpi by (intros ->; congruence).
      assert (pred ≠ node) as Hpn by (intros ->; lia).
      rewrite lookup_insert_ne in Hp1 by congruence.
      assert (pn1 = pn) as -> by congruence.
      rewrite <- Hother3 in Hp2 by exact Hpw.
      rewrite Hremove.
      * apply (unlink_spliced h0 (Some hd) h3 hd node n new_node nn inter d b keep moved);
          try assumption; [congruence|].
        rewrite Hncp. split; [reflexivity|]. split; [exact Hpn|].
        exists pn. split; [exact Hp|]. split; [exact Hp2|].
        split; [destruct b'; auto|].
        intros E. destruct (Hch inter) as (ni & Hni & _); [auto|]. congruence.
      * replace (S fuel) with (j + S (S (fuel - j - 1)))%nat by lia.
        rewrite (find_along_descent h0 h3 rank stream key_bitlen j hd pred Hl Hj).
        -- rewrite (find_walk_down_step _ _ _ _ _ _ b' inter Hp2); [apply Hfind1| | |].
           ++ case_bool_decide; exact Hplt.
           ++ case_bool_decide; exact Hpb.
           ++ destruct b'; simpl in Hpc.
              ** rewrite bool_decide_eq_true_2 by exact Hpc. reflexivity.
              ** rewrite bool_decide_eq_false_2 by (apply Hlr; exact Hpc). reflexivity.
        -- intros x nx Hx Hr. exists nx. split; [|auto].
           rewrite Hother; [exact Hx| | | |]; try (intros ->; congruence).
           ++ intros ->. lia.
           ++ rewrite Hncp. intros [= ->]. lia.
      * intros ->. congruence.
    + (* [node] is the head *)
      rewrite Hnhp in Hw'.
      assert (node = hd) as -> by (destruct fuel'; simpl in Hw'; congruence).
      assert (n = nh) as -> by congruence.
      rewrite Hnhp in HP2. subst head2.
      rewrite Hremove; [|apply Hfind1|congruence].
      apply (unlink_spliced h0 (Some hd) h3 inter hd nh new_node nn inter d b keep moved);
        try assumption; [congruence|].
      rewrite Hnhp. split; reflexivity.
  - (* the first node of the tree *)
    set (new_node := fresh (dom h0)) in *.
    assert (h0 !! new_node = None) as Hnewfresh by (apply not_elem_of_dom, is_fresh).
    inv_bind Hadd as h1 Hs1.
    apply store_Done in Hs1 as (z & Hz & ->). rewrite lookup_insert_eq in Hz.
    injection Hz as <-. rewrite insert_insert_eq in Hadd.
    set (leaf := with_bit key_bitlen (with_prefix (Some prefix) zero_node)) in *.
    assert (∃ nn, tree' = {| t_heap := <[new_node:=nn]> h0; t_head := Some new_node |}
                  ∧ new = new_node
                  ∧ n_bit nn = key_bitlen ∧ n_prefix nn = Some prefix)
      as (nn & -> & -> & Hnnb & Hnnp).
    { destruct (netmask_is_host netmask).
      - injection Hadd as <- <-. exists leaf. auto.
      - inv_bind Hadd as h2 Hs2. injection Hadd as <- <-.
        apply store_Done in Hs2 as (z & Hz & ->). rewrite lookup_insert_eq in Hz.
        injection Hz as <-. rewrite insert_insert_eq. eexists. split; [reflexivity|]. auto. }
    assert (find_walk_down (S fuel) (<[new_node:=nn]> h0) stream key_bitlen new_node
            = Done (Some new_node)) as Hfind
      by (apply (find_walk_down_stop _ _ _ _ _ nn); [apply lookup_insert_eq|lia]).
    rewrite (remove_key_sole_entry (S fuel) (<[new_node:=nn]> h0) new_node key' key_bitlen
               netmask new_node nn prefix user (proj1 Hk) Hmod Hlen Hfind
               (lookup_insert_eq _ _ _) Hnnb Hnnp eq_refl eq_refl).
    rewrite bool_decide_eq_true_2 by reflexivity.
    rewrite delete_insert_id by exact Hnewfresh. reflexivity.
Qed.

(** 192.171.7.9/16 is inserted into the tree of 10.0.0.0/8 and
    192.168.0.0/16, below the node that tests bit 0 and next to the leaf of
    192.168.0.0, and removed again. *)
Lemma add_remove_new_leaf_witness :
  ∃ t t' new,
    two_netblocks = Done t
    ∧ SCRadixAddKey scenario_fuel (Some [192; 171; 7; 9]) 32 t 2016 16 = Done (t', Some new)
    ∧ SCRadixRemoveKey (S scenario_fuel) (Some [192; 171; 0; 0]) 32 t' 16 = Done t.
Proof.
  eexists _, _, _. split; [vm_compute; reflexivity|]. split; [vm_compute; reflexivity|].
  match goal with |- _ = Done ?t => assert (inserted_width 32 t) as Hi end.
  { eapply (inserted_width_add 32 scenario_fuel (Some [192; 168; 0; 0]) _ 1016 16).
    - eapply (inserted_width_add 32 scenario_fuel (Some [10; 0; 0; 0]) _ 1008 8).
      + apply inserted_width_create.
      + unfold is_uint8; lia.
      + vm_compute. reflexivity.
    - unfold is_uint8; lia.
    - vm_compute. reflexivity. }
  destruct (inserted_width_shape 32 _ ltac:(lia) Hi) as (Hlinked & Hwidth).
  eapply (add_remove_new_leaf scenario_fuel _ [192; 171; 7; 9] [192; 171; 0; 0] 32 2016 16 _ _
           Hlinked Hwidth).
  - lia.
  - vm_compute. reflexivity.
  - vm_compute. reflexivity.
  - vm_compute. reflexivity.
  - intros nn p np H1 H2 H3. vm_compute in H1. injection H1 as <-.
    vm_compute in H2. injection H2 as <-. vm_compute in H3. injection H3 as <-.
    split; [reflexivity|]. right. simpl. lia.
Defined.

(** C5.  Insertion followed by removal does not give back the tree for an
    entry that is new to it.  The tree holds 192.168.0.0/16 alone; the host
    192.168.1.1, for which no node of the tree holds a stream, is inserted
    and removed again with the same key and netmask.  Both calls return,
    and the tree that the removal returns is not the tree before the
    insertion: the netmask 16 went from the leaf of 192.168.0.0 to the
    intermediate node, the transfer to the remaining node at the removal
    copies it without counting it, so the array that held [16] holds no
    netmask, and 192.168.5.5, which matched the netblock before, matches
    nothing afterwards. *)
Example removal_loses_moved_netmask :
  ∃ t0 t1 node t head,
    one_netblock = Done t0
    ∧ (∀ a s l, entries_of (t_heap t0) a = Some (s, l) → s ≠ [192; 168; 1; 1])
    ∧ SCRadixAddKey scenario_fuel (Some [192; 168; 1; 1]) 32 t0 1032 32 = Done (t1, Some node)
    ∧ SCRadixRemoveKey scenario_fuel (Some [192; 168; 1; 1]) 32 t1 32 = Done t
    ∧ t ≠ t0
    ∧ ¬ add_remove_restores scenario_fuel t0 [192; 168; 1; 1] 32 1032 32
    ∧ t_head t0 = Some head ∧ t_head t = Some head
    ∧ netmasks_at t0 head = [16] ∧ netmasks_at t head = []
    ∧ best_match_ipv4 scenario_fuel t0 [192; 168; 5; 5] head 1016
    ∧ no_match_ipv4 scenario_fuel t [192; 168; 5; 5].
Proof.
  eexists _, _, _, _, _. split; [vm_compute; reflexivity|].
  split.
  { intros a s l He Es. subst s. unfold entries_of in He.
    match type of He with
    | context [?h !! a] => destruct (h !! a) as [n|] eqn:Hn; [|discriminate]
    end.
    apply elem_of_map_to_list in Hn. vm_compute in Hn.
    repeat (apply elem_of_cons in Hn as [Hn|Hn];
            [injection Hn as -> ->; vm_compute in He; discriminate|]).
    inversion Hn. }
  split; [vm_compute; reflexivity|]. split; [vm_compute; reflexivity|].
  split; [intros E; apply (f_equal (λ t, netmasks_at t 0%nat)) in E; vm_compute in E;
          discriminate|].
  split.
  { intros H. specialize (H _ _ _ eq_refl eq_refl).
    apply (f_equal (λ t, netmasks_at t 0%nat)) in H. vm_compute in H. discriminate. }
  split; [reflexivity|]. split; [reflexivity|]. split; [reflexivity|]. split; [reflexivity|].
  split; eexists; try split; vm_compute; reflexivity.
Qed.

(** ** The chop of a key against a netmask *)

Lemma chop_mask_testbit i netmask t :
  0 ≤ t →
  Z.testbit (chop_mask i netmask) t = (8 * i + 7 - t <? netmask) && negb (netmask <=? 8 * i).
Proof.
  intros Ht. unfold chop_mask.
  destruct (Z.gtb_spec ((i + 1) * 8) netmask) as [Hgt|Hle].
  - destruct (Z.ltb_spec ((i + 1) * 8 - netmask) 8) as [Hk|Hk].
    + rewrite Z.shiftl_spec by exact Ht.
      destruct (Z.ltb_spec (8 * i + 7 - t) netmask) as [H1|H1];
        destruct (Z.leb_spec netmask (8 * i)) as [H2|H2]; simpl; try lia.
      * apply Z.bits_m1. lia.
      * apply Z.testbit_neg_r. lia.
    + rewrite Z.bits_0.
      destruct (Z.leb_spec netmask (8 * i)) as [H2|H2]; [|lia].
      simpl. symmetry. apply andb_false_r.
  - rewrite Z.bits_m1 by exact Ht.
    destruct (Z.ltb_spec (8 * i + 7 - t) netmask) as [H1|H1]; [|lia].
    destruct (Z.leb_spec netmask (8 * i)) as [H2|H2]; [lia|]. reflexivity.
Qed.

Lemma chop_loop_lookup n i netmask s s' :
  chop_loop n i netmask s = Done s' →
  length s' = length s
  ∧ ∀ (k : nat) b, s !! k = Some b →
      s' !! k = Some (if decide (k < n)%nat then Z.land b (chop_mask (i + Z.of_nat k) netmask) else b).
Proof.
  revert i s s'. induction n as [|n IH]; intros i s s' H; simpl in H.
  - injection H as <-. split; [reflexivity|]. intros k b Hk.
    destruct (decide (k < 0)%nat); [lia|exact Hk].
  - destruct s as [|b0 rest]; [discriminate|]. inv_bind H as rest' Hr. injection H as <-.
    destruct (IH _ _ _ Hr) as (Hlen & Hlook). split; [simpl; lia|].
    intros [|k] b Hk; simpl in Hk |- *.
    + injection Hk as <-. rewrite Z.add_0_r. reflexivity.
    + rewrite (Hlook k b Hk).
      replace (i + 1 + Z.of_nat k) with (i + Z.of_nat (S k)) by lia.
      destruct (decide (k < n)%nat); destruct (decide (S k < S n)%nat); (lia || reflexivity).
Qed.

(** X1.  The chop changes no length; in the first [key_bitlen / 8] bytes it
    keeps the bits at the positions below [netmask], counted from the most
    significant bit of byte 0, and clears the others; the bytes after
    these are left as they are. *)
Theorem chop_keeps_network_bits (s s' : list Z) (netmask key_bitlen : Z) :
  SCRadixChopIPAddressAgainstNetmask (Some s) netmask key_bitlen = Done (Some s') →
  length s' = length s
  ∧ ∀ (k : nat) b, s !! k = Some b →
      ∃ b', s' !! k = Some b'
        ∧ if decide (Z.of_nat k < key_bitlen / 8)
          then ∀ t, 0 ≤ t < 8 →
                 Z.testbit b' t = Z.testbit b t && (8 * Z.of_nat k + (7 - t) <? netmask)
          else b' = b.
Proof.
  unfold SCRadixChopIPAddressAgainstNetmask. intros H. inv_bind H as s1 Hs. injection H as <-.
  destruct (chop_loop_lookup _ _ _ _ _ Hs) as (Hlen & Hlook). split; [exact Hlen|].
  intros k b Hk. rewrite (Hlook k b Hk), Z.add_0_l. eexists. split; [reflexivity|].
  destruct (decide (Z.of_nat k < key_bitlen / 8)) as [Hin|Hout].
  - destruct (decide (k < Z.to_nat (key_bitlen / 8))%nat); [|lia].
    intros t Ht. rewrite Z.land_spec, chop_mask_testbit by lia. simpl.
    replace (8 * Z.of_nat k + 7 - t) with (8 * Z.of_nat k + (7 - t)) by lia.
    destruct (Z.ltb_spec (8 * Z.of_nat k + (7 - t)) netmask) as [H1|H1];
      destruct (Z.leb_spec netmask (8 * Z.of_nat k)) as [H2|H2]; simpl; (lia || reflexivity).
  - destruct (decide (k < Z.to_nat (key_bitlen / 8))%nat); [lia|reflexivity].
Qed.

Lemma chop_keeps_network_bits_witness :
  SCRadixChopIPAddressAgainstNetmask (Some [192; 168; 240; 1]) 19 32
  = Done (Some [192; 168; 224; 0])
  ∧ ∀ (k : nat) b, [192; 168; 240; 1] !! k = Some b →
      ∃ b', [192; 168; 224; 0] !! k = Some b'
        ∧ if decide (Z.of_nat k < 32 / 8)
          then ∀ t, 0 ≤ t < 8 →
                 Z.testbit b' t = Z.testbit b t && (8 * Z.of_nat k + (7 - t) <? 19)
          else b' = b.
Proof.
  split; [reflexivity|].
  apply (chop_keeps_network_bits [192; 168; 240; 1] [192; 168; 224; 0] 19 32 eq_refl).
Defined.

Lemma chop_mask_absorb i m1 m2 b :
  m2 ≤ m1 →
  Z.land (Z.land b (chop_mask i m1)) (chop_mask i m2) = Z.land b (chop_mask i m2).
Proof.
  intros Hm. apply Z.bits_inj'. intros t Ht.
  rewrite !Z.land_spec, !chop_mask_testbit by exact Ht.
  destruct (Z.testbit b t); simpl; [|reflexivity].
  destruct (Z.ltb_spec (8 * i + 7 - t) m1); destruct (Z.ltb_spec (8 * i + 7 - t) m2);
    destruct (Z.leb_spec m1 (8 * i)); destruct (Z.leb_spec m2 (8 * i)); simpl; (lia || reflexivity).
Qed.

Lemma chop_loop_absorb n i m1 m2 s s1 :
  m2 ≤ m1 →
  chop_loop n i m1 s = Done s1 →
  chop_loop n i m2 s1 = chop_loop n i m2 s.
Proof.
  intros Hm. revert i s s1. induction n as [|n IH]; intros i s s1 H; simpl in H |- *.
  - injection H as <-. reflexivity.
  - destruct s as [|b rest]; [discriminate|]. inv_bind H as rest' Hr. injection H as <-.
    rewrite (IH _ _ _ Hr). rewrite chop_mask_absorb by exact Hm. reflexivity.
Qed.

(** X2.  Chopping against a netmask and then against one that is not larger
    is chopping against the second one alone. *)
Theorem chop_twice (s s1 : list Z) (m1 m2 key_bitlen : Z) :
  m2 ≤ m1 →
  SCRadixChopIPAddressAgainstNetmask (Some s) m1 key_bitlen = Done (Some s1) →
  SCRadixChopIPAddressAgainstNetmask (Some s1) m2 key_bitlen
  = SCRadixChopIPAddressAgainstNetmask (Some s) m2 key_bitlen.
Proof.
  intros Hm H. unfold SCRadixChopIPAddressAgainstNetmask in *.
  inv_bind H as s' Hs. injection H as <-.
  rewrite (chop_loop_absorb _ _ _ _ _ _ Hm Hs). reflexivity.
Qed.

Lemma chop_twice_witness :
  SCRadixChopIPAddressAgainstNetmask (Some [192; 168; 240; 0]) 16 32
  = SCRadixChopIPAddressAgainstNetmask (Some [192; 168; 255; 7]) 16 32.
Proof.
  apply (chop_twice [192; 168; 255; 7] [192; 168; 240; 0] 20 16 32); [lia|reflexivity].
Defined.


(** ** The bit at which two keys differ *)

Lemma differ_offset_log2 temp :
  0 < temp < 256 → differ_offset temp = 7 - Z.log2 temp.
Proof.
  intros Ht. unfold differ_offset.
  assert (∀ a, 0 ≤ a → 2 ^ a ≤ temp < 2 ^ (a + 1) → 7 - a = 7 - Z.log2 temp) as Hu.
  { intros a Ha Hr. rewrite (Z.log2_unique temp a Ha); [reflexivity|].
    replace (Z.succ a) with (a + 1) by lia. exact Hr. }
  destruct (Z.geb_spec (temp * 2) 256); [apply (Hu 7); simpl; lia|].
  destruct (Z.geb_spec (temp * 2) 128); [apply (Hu 6); simpl; lia|].
  destruct (Z.geb_spec (temp * 2) 64); [apply (Hu 5); simpl; lia|].
  destruct (Z.geb_spec (temp * 2) 32); [apply (Hu 4); simpl; lia|].
  destruct (Z.geb_spec (temp * 2) 16); [apply (Hu 3); simpl; lia|].
  destruct (Z.geb_spec (temp * 2) 8); [apply (Hu 2); simpl; lia|].
  destruct (Z.geb_spec (temp * 2) 4); [apply (Hu 1); simpl; lia|].
  destruct (Z.geb_spec (temp * 2) 2); [apply (Hu 0); simpl; lia|].
  lia.
Qed.

Lemma byte_lxor_range a b : 0 ≤ a < 256 → 0 ≤ b < 256 → 0 ≤ Z.lxor a b < 256.
Proof.
  intros Ha Hb. split; [apply Z.lxor_nonneg; lia|].
  destruct (Z.eq_dec (Z.lxor a b) 0) as [->|Hne]; [lia|].
  assert (0 < Z.lxor a b) as Hpos by (pose proof (proj2 (Z.lxor_nonneg a b)); lia).
  change 256 with (2 ^ 8). apply Z.log2_lt_pow2; [exact Hpos|].
  pose proof (Z.log2_lxor a b ltac:(lia) ltac:(lia)) as Hl.
  assert (Z.log2 a < 8).
  { destruct (Z.eq_dec a 0) as [->|?]; [simpl; lia|]. apply Z.log2_lt_pow2; simpl; lia. }
  assert (Z.log2 b < 8).
  { destruct (Z.eq_dec b 0) as [->|?]; [simpl; lia|]. apply Z.log2_lt_pow2; simpl; lia. }
  lia.
Qed.

(** The bytes [a] and [b] differ: MSB first, their bits agree before the
    offset that the position table gives, and differ at that offset. *)
Lemma differ_offset_spec a b :
  0 ≤ a < 256 → 0 ≤ b < 256 → Z.lxor a b ≠ 0 →
  let j := differ_offset (Z.lxor a b) in
  0 ≤ j < 8
  ∧ (∀ j', 0 ≤ j' < j → Z.testbit a (7 - j') = Z.testbit b (7 - j'))
  ∧ Z.testbit a (7 - j) ≠ Z.testbit b (7 - j).
Proof.
  intros Ha Hb Hne. pose proof (byte_lxor_range a b Ha Hb) as Hr.
  assert (0 < Z.lxor a b < 256) as Hpos by lia.
  simpl. rewrite (differ_offset_log2 _ Hpos).
  assert (0 ≤ Z.log2 (Z.lxor a b) < 8) as Hl.
  { split; [apply Z.log2_nonneg|]. apply Z.log2_lt_pow2; simpl; lia. }
  split; [lia|]. split.
  - intros j' Hj'.
    pose proof (Z.bits_above_log2 (Z.lxor a b) (7 - j') ltac:(lia) ltac:(lia)) as Hx.
    rewrite Z.lxor_spec in Hx. destruct (Z.testbit a _), (Z.testbit b _); simpl in Hx; congruence.
  - replace (7 - (7 - Z.log2 (Z.lxor a b))) with (Z.log2 (Z.lxor a b)) by lia.
    pose proof (Z.bit_log2 (Z.lxor a b) ltac:(lia)) as Hx.
    rewrite Z.lxor_spec in Hx. destruct (Z.testbit a _), (Z.testbit b _); simpl in Hx; congruence.
Qed.

Lemma byte_at_Done stream i a : byte_at stream i = Done a → 0 ≤ i ∧ stream !! Z.to_nat i = Some a.
Proof.
  unfold byte_at. destruct (Z.ltb_spec i 0); [discriminate|].
  destruct (stream !! Z.to_nat i); [intros [= ->]; auto|discriminate].
Qed.

Lemma key_bit_in_byte stream i a pos :
  stream !! Z.to_nat i = Some a → 0 ≤ i → 8 * i ≤ pos < 8 * i + 8 →
  key_bit stream pos = Some (Z.testbit a (7 - (pos - 8 * i))).
Proof.
  intros Ha Hi Hpos. unfold key_bit.
  assert (pos / 8 = i) as -> by (Z.div_mod_to_equations; lia).
  assert (pos mod 8 = pos - 8 * i) as -> by (Z.div_mod_to_equations; lia).
  rewrite Ha. reflexivity.
Qed.

Lemma differ_loop_spec n i check_bit stream p d :
  is_bytes stream → is_bytes (pfx_stream p) → 0 ≤ i →
  differ_loop n i check_bit stream (Some p) (i * 8) = Done d →
  i * 8 ≤ d
  ∧ (∀ pos, i * 8 ≤ pos → pos < check_bit → pos < d →
            key_bit stream pos = key_bit (pfx_stream p) pos)
  ∧ (d < check_bit →
     ∃ x y, key_bit stream d = Some x ∧ key_bit (pfx_stream p) d = Some y ∧ x ≠ y).
Proof.
  intros Hs Hp. revert i d. induction n as [|n IH]; intros i d Hi H; simpl in H.
  - destruct (Z.ltb_spec (i * 8) check_bit); [discriminate|]. injection H as <-.
    split; [lia|]. split; [intros; lia|lia].
  - destruct (Z.ltb_spec (i * 8) check_bit) as [Hlt|Hge].
    + inv_bind H as a Ha. simpl in H. inv_bind H as b Hb.
      apply byte_at_Done in Ha as (_ & Ha). apply byte_at_Done in Hb as (_ & Hb).
      assert (0 ≤ a < 256) as Hra by exact (proj1 (Forall_lookup _ _) Hs _ _ Ha).
      assert (0 ≤ b < 256) as Hrb by exact (proj1 (Forall_lookup _ _) Hp _ _ Hb).
      destruct (Z.eqb_spec (Z.lxor a b) 0) as [E|E].
      * apply Z.lxor_eq in E. subst b.
        destruct (IH (i + 1) d ltac:(lia) H) as (H1 & H2 & H3).
        split; [lia|]. split; [|exact H3].
        intros pos Hp1 Hp2 Hp3. destruct (Z.lt_ge_cases pos ((i + 1) * 8)) as [Hin|Hout].
        -- rewrite (key_bit_in_byte _ i a) by (assumption || lia).
           rewrite (key_bit_in_byte _ i a) by (assumption || lia). reflexivity.
        -- apply H2; lia.
      * injection H as <-.
        destruct (differ_offset_spec a b Hra Hrb E) as (Hj & Hbefore & Hat).
        set (j := differ_offset (Z.lxor a b)) in *.
        split; [lia|]. split.
        -- intros pos Hp1 Hp2 Hp3.
           rewrite (key_bit_in_byte _ i a) by (assumption || lia).
           rewrite (key_bit_in_byte _ i b) by (assumption || lia).
           f_equal. apply Hbefore. lia.
        -- intros _. exists (Z.testbit a (7 - j)), (Z.testbit b (7 - j)).
           rewrite (key_bit_in_byte _ i a) by (assumption || lia).
           rewrite (key_bit_in_byte _ i b) by (assumption || lia).
           replace (i * 8 + j - 8 * i) with j by lia. auto.
    + injection H as <-. split; [lia|]. split; [intros; lia|lia].
Qed.

(** X3.  The bit at which [SCRadixAddKey] splits is the first bit, below
    [check_bit], at which the new key and the key found differ. *)
Theorem first_differing_bit (n : nat) (check_bit : Z) (stream : list Z)
    (p : SCRadixPrefix) (d : Z) :
  is_bytes stream → is_bytes (pfx_stream p) →
  differ_loop n 0 check_bit stream (Some p) 0 = Done d →
  let differ_bit := if check_bit <? d then check_bit else d in
  (∀ pos, 0 ≤ pos < differ_bit → key_bit stream pos = key_bit (pfx_stream p) pos)
  ∧ (differ_bit < check_bit →
     ∃ x y, key_bit stream differ_bit = Some x ∧ key_bit (pfx_stream p) differ_bit = Some y
            ∧ x ≠ y).
Proof.
  intros Hs Hp H.
  destruct (differ_loop_spec n 0 check_bit stream p d Hs Hp ltac:(lia) H) as (H1 & H2 & H3).
  simpl. destruct (Z.ltb_spec check_bit d) as [Hlt|Hge].
  - split; [intros pos Hpos; apply H2; lia|lia].
  - split; [intros pos Hpos; apply H2; lia|exact H3].
Qed.

Lemma first_differing_bit_witness :
  let p := {| pfx_bitlen := 32; pfx_stream := [192; 168; 0; 0];
              pfx_user_data := []; pfx_user_data_result := 0 |} in
  differ_loop 32 0 32 [192; 171; 0; 0] (Some p) 0 = Done 14
  ∧ (∀ pos, 0 ≤ pos < 14 → key_bit [192; 171; 0; 0] pos = key_bit [192; 168; 0; 0] pos)
  ∧ (14 < 32 →
     ∃ x y, key_bit [192; 171; 0; 0] 14 = Some x ∧ key_bit [192; 168; 0; 0] 14 = Some y
            ∧ x ≠ y).
Proof.
  intros p. split; [reflexivity|].
  apply (first_differing_bit 32 32 [192; 171; 0; 0] p 14).
  - repeat constructor; lia.
  - repeat constructor; lia.
  - reflexivity.
Defined.


(** ** The user data list of a prefix *)

Lemma append_perm new l : SCRadixAppendToSCRadixUserDataList new l ≡ₚ new :: l.
Proof.
  induction l as [|x l IH]; simpl; [reflexivity|].
  destruct (_ >? _); [reflexivity|]. rewrite IH. apply Permutation_swap.
Qed.

Lemma append_descending new l :
  ud_descending l → ud_descending (SCRadixAppendToSCRadixUserDataList new l).
Proof.
  unfold ud_descending, ud_netmasks. induction l as [|x l IH]; simpl; intros Hs.
  - repeat constructor.
  - apply StronglySorted_inv in Hs as (Hl & Hx).
    destruct (Z.gtb_spec (ud_netmask new) (ud_netmask x)) as [Hgt|Hle]; simpl.
    + constructor; [constructor; assumption|].
      constructor; [lia|]. eapply Forall_impl; [exact Hx|]. simpl. intros y Hy. lia.
    + constructor; [apply IH, Hl|].
      change (Forall (Z.ge (ud_netmask x))
                (ud_netmask <$> SCRadixAppendToSCRadixUserDataList new l)).
      rewrite append_perm. simpl. constructor; [lia|exact Hx].
Qed.

Lemma contain_elem p netmask :
  SCRadixPrefixContainNetmask (Some p) netmask = true ↔ netmask ∈ ud_netmasks (pfx_user_data p).
Proof.
  unfold SCRadixPrefixContainNetmask, ud_netmasks. rewrite existsb_exists, list_elem_of_fmap.
  split.
  - intros (x & Hx & E). apply Z.eqb_eq in E. exists x. split; [auto|].
    apply list_elem_of_In, Hx.
  - intros (x & E & Hx). exists x. split; [apply list_elem_of_In, Hx|]. apply Z.eqb_eq. auto.
Qed.

Lemma append_strictly_descending new l :
  ud_strictly_descending l → ud_netmask new ∉ ud_netmasks l →
  ud_strictly_descending (SCRadixAppendToSCRadixUserDataList new l).
Proof.
  unfold ud_strictly_descending, ud_netmasks. induction l as [|x l IH]; simpl; intros Hs Hn.
  - repeat constructor.
  - apply StronglySorted_inv in Hs as (Hl & Hx).
    apply not_elem_of_cons in Hn as (Hne & Hn).
    destruct (Z.gtb_spec (ud_netmask new) (ud_netmask x)) as [Hgt|Hle]; simpl.
    + constructor; [constructor; assumption|].
      constructor; [lia|]. eapply Forall_impl; [exact Hx|]. simpl. intros y Hy. lia.
    + constructor; [apply IH; assumption|].
      change (Forall (Z.gt (ud_netmask x))
                (ud_netmask <$> SCRadixAppendToSCRadixUserDataList new l)).
      rewrite append_perm. simpl. constructor; [lia|exact Hx].
Qed.

(** X4.  [SCRadixAddNetmaskUserDataToPrefix] adds exactly one entry, with the
    netmask and the user data given; it keeps a list in descending order
    of the netmasks in that order, and a strictly descending one strictly
    descending when the netmask is new to it; the prefix then holds the
    netmask, has one entry more, and has its key unchanged. *)
Theorem add_netmask_user_data_spec (p p' : SCRadixPrefix) (netmask user : Z) :
  SCRadixAddNetmaskUserDataToPrefix p netmask user = Done p' →
  pfx_user_data p' ≡ₚ SCRadixAllocSCRadixUserData netmask user :: pfx_user_data p
  ∧ (ud_descending (pfx_user_data p) → ud_descending (pfx_user_data p'))
  ∧ (ud_strictly_descending (pfx_user_data p) →
     SCRadixPrefixContainNetmask (Some p) netmask = false →
     ud_strictly_descending (pfx_user_data p'))
  ∧ SCRadixPrefixContainNetmask (Some p') netmask = true
  ∧ SCRadixPrefixNetmaskCount (Some p') = SCRadixPrefixNetmaskCount (Some p) + 1
  ∧ pfx_stream p' = pfx_stream p ∧ pfx_bitlen p' = pfx_bitlen p.
Proof.
  unfold SCRadixAddNetmaskUserDataToPrefix. destruct (user =? 0); [discriminate|].
  intros [= <-]. cbn [pfx_user_data pfx_stream pfx_bitlen].
  split; [apply append_perm|]. split; [apply append_descending|]. split.
  - intros Hs Hc. apply append_strictly_descending; [exact Hs|].
    intros Hin. apply (proj2 (contain_elem p netmask)) in Hin. congruence.
  - split.
    + apply contain_elem. cbn [pfx_user_data]. unfold ud_netmasks.
      rewrite append_perm. simpl. left.
    + split; [|auto]. unfold SCRadixPrefixNetmaskCount. cbn [pfx_user_data].
      rewrite append_perm. simpl length. lia.
Qed.

Lemma add_netmask_user_data_spec_witness :
  let p := {| pfx_bitlen := 32; pfx_stream := [10; 0; 0; 0];
              pfx_user_data := [mkUserData 32 1032; mkUserData 8 1008];
              pfx_user_data_result := 0 |} in
  ∃ p', SCRadixAddNetmaskUserDataToPrefix p 16 1016 = Done p'
        ∧ pfx_user_data p' = [mkUserData 32 1032; mkUserData 16 1016; mkUserData 8 1008]
        ∧ SCRadixPrefixContainNetmask (Some p') 16 = true
        ∧ SCRadixPrefixNetmaskCount (Some p') = SCRadixPrefixNetmaskCount (Some p) + 1.
Proof.
  intros p. eexists. split; [reflexivity|]. split; [reflexivity|].
  destruct (add_netmask_user_data_spec p _ 16 1016 eq_refl) as (_ & _ & _ & Hc & Hn & _).
  split; [exact Hc|exact Hn].
Defined.

Lemma remove_absent netmask l :
  netmask ∉ ud_netmasks l → remove_user_data netmask l = l.
Proof.
  induction l as [|x l IH]; simpl; [reflexivity|]. intros Hn.
  apply not_elem_of_cons in Hn as (Hne & Hn).
  destruct (Z.eqb_spec (ud_netmask x) netmask); [congruence|]. rewrite IH by exact Hn. reflexivity.
Qed.

Lemma remove_append netmask user l :
  netmask ∉ ud_netmasks l →
  remove_user_data netmask
    (SCRadixAppendToSCRadixUserDataList (SCRadixAllocSCRadixUserData netmask user) l) = l.
Proof.
  induction l as [|x l IH]; simpl; intros Hn.
  - rewrite Z.eqb_refl. reflexivity.
  - apply not_elem_of_cons in Hn as (Hne & Hn).
    destruct (netmask >? ud_netmask x); simpl.
    + rewrite Z.eqb_refl. reflexivity.
    + destruct (Z.eqb_spec (ud_netmask x) netmask); [congruence|].
      rewrite IH by exact Hn. reflexivity.
Qed.

(** X5.  When a prefix holds no entry for a netmask, adding an entry for it
    and removing that netmask again gives the prefix back as it was. *)
Theorem add_remove_netmask_user_data (p p' : SCRadixPrefix) (netmask user : Z) :
  SCRadixPrefixContainNetmask (Some p) netmask = false →
  SCRadixAddNetmaskUserDataToPrefix p netmask user = Done p' →
  SCRadixRemoveNetmaskUserDataFromPrefix p' netmask = p.
Proof.
  intros Hc. unfold SCRadixAddNetmaskUserDataToPrefix. destruct (user =? 0); [discriminate|].
  intros [= <-]. unfold SCRadixRemoveNetmaskUserDataFromPrefix. cbn [pfx_user_data pfx_stream pfx_bitlen pfx_user_data_result].
  rewrite remove_append; [destruct p; reflexivity|].
  intros Hin. apply (proj2 (contain_elem p netmask)) in Hin. congruence.
Qed.

Lemma add_remove_netmask_user_data_witness :
  let p := {| pfx_bitlen := 32; pfx_stream := [10; 0; 0; 0];
              pfx_user_data := [mkUserData 32 1032; mkUserData 8 1008];
              pfx_user_data_result := 0 |} in
  ∃ p', SCRadixAddNetmaskUserDataToPrefix p 16 1016 = Done p'
        ∧ SCRadixRemoveNetmaskUserDataFromPrefix p' 16 = p.
Proof.
  intros p. eexists. split; [reflexivity|].
  apply (add_remove_netmask_user_data p _ 16 1016); reflexivity.
Defined.

Lemma remove_present netmask l :
  netmask ∈ ud_netmasks l →
  ∃ pre x suf, l = pre ++ x :: suf ∧ ud_netmask x = netmask ∧ (netmask ∉ ud_netmasks pre)
               ∧ remove_user_data netmask l = pre ++ suf.
Proof.
  induction l as [|y l IH]; simpl; intros Hin; [inversion Hin|].
  destruct (Z.eqb_spec (ud_netmask y) netmask) as [E|E].
  - exists [], y, l. split; [reflexivity|]. split; [exact E|]. split; [|reflexivity].
    intros H. inversion H.
  - apply elem_of_cons in Hin as [Hin|Hin]; [congruence|].
    destruct (IH Hin) as (pre & x & suf & -> & Hx & Hpre & Hr).
    exists (y :: pre), x, suf. split; [reflexivity|]. split; [exact Hx|]. split.
    + simpl. intros H. apply elem_of_cons in H as [H|H]; [congruence|]. exact (Hpre H).
    + rewrite Hr. reflexivity.
Qed.

(** X6.  [SCRadixRemoveNetmaskUserDataFromPrefix] leaves a prefix without the
    netmask as it is; from a prefix with it, it takes one entry away; the
    other netmasks are held as before; in a strictly descending list the
    netmask is gone afterwards; the key is unchanged. *)
Theorem remove_netmask_user_data_spec (p : SCRadixPrefix) (netmask : Z) :
  let p' := SCRadixRemoveNetmaskUserDataFromPrefix p netmask in
  (SCRadixPrefixContainNetmask (Some p) netmask = false → p' = p)
  ∧ (SCRadixPrefixContainNetmask (Some p) netmask = true →
     SCRadixPrefixNetmaskCount (Some p') = SCRadixPrefixNetmaskCount (Some p) - 1)
  ∧ (∀ m, m ≠ netmask →
       SCRadixPrefixContainNetmask (Some p') m = SCRadixPrefixContainNetmask (Some p) m)
  ∧ (ud_strictly_descending (pfx_user_data p) →
     ud_strictly_descending (pfx_user_data p')
     ∧ SCRadixPrefixContainNetmask (Some p') netmask = false)
  ∧ pfx_stream p' = pfx_stream p ∧ pfx_bitlen p' = pfx_bitlen p.
Proof.
  intros p'. subst p'. unfold SCRadixRemoveNetmaskUserDataFromPrefix.
  destruct (SCRadixPrefixContainNetmask (Some p) netmask) eqn:Ec.
  - apply contain_elem in Ec.
    destruct (remove_present _ _ Ec) as (pre & x & suf & El & Hx & Hpre & Hr).
    split; [discriminate|]. split; [|split; [|split]].
    + intros _. unfold SCRadixPrefixNetmaskCount. cbn [pfx_user_data]. rewrite Hr, El.
      rewrite !length_app. simpl. lia.
    + intros m Hm. apply eq_iff_eq_true. rewrite !contain_elem. cbn [pfx_user_data].
      rewrite Hr, El. unfold ud_netmasks. rewrite !fmap_app, fmap_cons.
      rewrite !elem_of_app, elem_of_cons. rewrite Hx. tauto.
    + unfold ud_strictly_descending. cbn [pfx_user_data]. rewrite Hr, El.
      unfold ud_netmasks. rewrite !fmap_app, fmap_cons. intros Hs.
      apply StronglySorted_app in Hs as (H3 & H1 & H2).
      apply StronglySorted_inv in H2 as (H2 & H4).
      split.
      * apply StronglySorted_app. split; [|split; [exact H1|exact H2]].
        intros a b Ha Hb. apply H3; [exact Ha|]. right. exact Hb.
      * destruct (SCRadixPrefixContainNetmask _ netmask) eqn:Ec'; [|reflexivity].
        apply contain_elem in Ec'. cbn [pfx_user_data] in Ec'. exfalso.
        unfold ud_netmasks in Ec'. rewrite fmap_app in Ec'.
        apply elem_of_app in Ec' as [Hin|Hin]; [exact (Hpre Hin)|].
        rewrite Forall_forall in H4. specialize (H4 _ Hin). lia.
    + auto.
  - assert (netmask ∉ ud_netmasks (pfx_user_data p)) as Hn.
    { intros Hin. apply (proj2 (contain_elem p netmask)) in Hin. congruence. }
    rewrite (remove_absent _ _ Hn).
    assert ({| pfx_bitlen := pfx_bitlen p; pfx_stream := pfx_stream p;
               pfx_user_data := pfx_user_data p;
               pfx_user_data_result := pfx_user_data_result p |} = p) as ->
      by (destruct p; reflexivity).
    split; [reflexivity|]. split; [discriminate|]. split; [reflexivity|].
    split; [|auto]. intros Hs. split; [exact Hs|exact Ec].
Qed.


(** ** The selection of the best entry *)

(** X7.  In a list without repeated netmasks, in descending order, the
    selection in non-exact mode succeeds exactly when the list has an entry
    with a netmask other than [bitlen]; it then takes the entry with the
    largest such netmask, and the field [user_data_result] of the prefix
    holds the user of that entry afterwards, with the list as it was. *)
Theorem best_selection_is_largest (p p' : SCRadixPrefix) (bitlen : Z) (hit : bool) :
  ud_strictly_descending (pfx_user_data p) →
  SCRadixPrefixContainNetmaskAndSetUserData (Some p) bitlen false = Done (Some p', hit) →
  (hit = true ↔ ∃ ud, ud ∈ pfx_user_data p ∧ ud_netmask ud ≠ bitlen)
  ∧ (hit = true →
     ∃ ud, ud ∈ pfx_user_data p ∧ ud_netmask ud ≠ bitlen
           ∧ p' = with_user_data_result (ud_user ud) p
           ∧ pfx_user_data_result p' = ud_user ud
           ∧ pfx_user_data p' = pfx_user_data p
           ∧ ∀ ud', ud' ∈ pfx_user_data p → ud_netmask ud' ≠ bitlen →
                    ud_netmask ud' ≤ ud_netmask ud).
Proof.
  unfold ud_strictly_descending, ud_netmasks, SCRadixPrefixContainNetmaskAndSetUserData.
  destruct (pfx_user_data p) as [|x [|y l]] eqn:El; simpl; intros Hs H.
  - injection H as <- <-. split; [|discriminate].
    split; [discriminate|]. intros (ud & Hin & _). inversion Hin.
  - destruct (Z.eqb_spec (ud_netmask x) bitlen) as [E|E]; injection H as <- <-.
    + split; [|discriminate]. split; [discriminate|].
      intros (ud & Hin & Hne). apply list_elem_of_singleton in Hin. congruence.
    + split; [split; [|reflexivity]|].
      * intros _. exists x. split; [left|exact E].
      * intros _. exists x. split; [left|]. split; [exact E|]. split; [reflexivity|]. split; [reflexivity|].
        split; [simpl; congruence|].
        intros ud' Hin _. apply list_elem_of_singleton in Hin. subst. lia.
  - apply StronglySorted_inv in Hs as (Hs & Hx).
    apply StronglySorted_inv in Hs as (Hs & Hy).
    apply Forall_cons in Hx as (Hxy & Hx).
    destruct (Z.eqb_spec (ud_netmask x) bitlen) as [E|E]; injection H as <- <-.
    + split; [split; [|reflexivity]|].
      * intros _. exists y. split; [right; left|lia].
      * intros _. exists y. split; [right; left|]. split; [lia|]. split; [reflexivity|]. split; [reflexivity|].
        split; [simpl; congruence|].
        intros ud' Hin Hne. apply elem_of_cons in Hin as [->|Hin]; [congruence|].
        apply elem_of_cons in Hin as [->|Hin]; [lia|].
        rewrite Forall_forall in Hy. specialize (Hy (ud_netmask ud')).
        assert (ud_netmask ud' ∈ ud_netmask <$> l) as Hm
          by (apply list_elem_of_fmap; eauto).
        specialize (Hy Hm). lia.
    + split; [split; [|reflexivity]|].
      * intros _. exists x. split; [left|exact E].
      * intros _. exists x. split; [left|]. split; [exact E|]. split; [reflexivity|]. split; [reflexivity|].
        split; [simpl; congruence|].
        intros ud' Hin _. apply elem_of_cons in Hin as [->|Hin]; [lia|].
        apply elem_of_cons in Hin as [->|Hin]; [lia|].
        rewrite Forall_forall in Hx. specialize (Hx (ud_netmask ud')).
        assert (ud_netmask ud' ∈ ud_netmask <$> l) as Hm
          by (apply list_elem_of_fmap; eauto).
        specialize (Hx Hm). lia.
Qed.

Lemma best_selection_is_largest_witness :
  let p := {| pfx_bitlen := 32; pfx_stream := [10; 0; 0; 0];
              pfx_user_data := [mkUserData 32 1032; mkUserData 16 1016; mkUserData 8 1008];
              pfx_user_data_result := 0 |} in
  ∃ ud, ud ∈ pfx_user_data p ∧ ud_netmask ud ≠ 32
        ∧ with_user_data_result 1016 p = with_user_data_result (ud_user ud) p
        ∧ pfx_user_data_result (with_user_data_result 1016 p) = ud_user ud
        ∧ pfx_user_data (with_user_data_result 1016 p) = pfx_user_data p
        ∧ ∀ ud', ud' ∈ pfx_user_data p → ud_netmask ud' ≠ 32 →
                 ud_netmask ud' ≤ ud_netmask ud.
Proof.
  intros p.
  apply (best_selection_is_largest p (with_user_data_result 1016 p) 32 true).
  - unfold ud_strictly_descending. simpl. repeat constructor; lia.
  - reflexivity.
  - reflexivity.
Defined.


(** ** Where a netmask is registered *)

Lemma netmask_sift_perm (pre suf : list Z) (netmask : Z) :
  netmask_sift (length pre) (pre ++ netmask :: suf) netmask ≡ₚ netmask :: pre ++ suf.
Proof.
  revert suf. induction pre as [|x pre IH] using rev_ind; intros suf.
  - reflexivity.
  - rewrite length_app, Nat.add_1_r. simpl.
    rewrite <- !app_assoc. simpl.
    rewrite list_lookup_middle by reflexivity.
    destruct (netmask <? x).
    + rewrite list_insert_id.
      2:{ replace (pre ++ x :: netmask :: suf) with ((pre ++ [x]) ++ netmask :: suf)
            by (rewrite <- app_assoc; reflexivity).
          apply list_lookup_middle. rewrite length_app. simpl. lia. }
      rewrite (Permutation_middle pre (x :: suf) netmask).
      apply Permutation_app_head, Permutation_swap.
    + replace (<[length pre:=netmask]> (<[S (length pre):=x]> (pre ++ x :: netmask :: suf)))
        with (pre ++ netmask :: x :: suf).
      * apply IH.
      * replace (S (length pre)) with (length pre + 1)%nat by lia.
        rewrite (insert_app_r pre (x :: netmask :: suf) 1 x). simpl.
        rewrite (insert_app_r_alt pre _ (length pre)) by lia.
        rewrite Nat.sub_diag. reflexivity.
Qed.

Lemma netmasks_register_perm (old : option (list Z)) (netmask : Z) :
  netmasks_register old netmask ≡ₚ netmask :: default [] old.
Proof.
  unfold netmasks_register. rewrite netmask_sift_perm, app_nil_r. reflexivity.
Qed.

Lemma walk_up_stop fuel h cond x parent t :
  walk_up fuel h cond x parent = Done t →
  (t = x ∧ ∀ p pn, parent = Some p → h !! p = Some pn → cond (n_bit pn) = false)
  ∨ (∃ nt, h !! t = Some nt ∧ cond (n_bit nt) = true
           ∧ ∀ p pn, n_parent nt = Some p → h !! p = Some pn → cond (n_bit pn) = false).
Proof.
  revert x parent. induction fuel as [|fuel IH]; intros x parent H; simpl in H.
  - destruct parent as [p|]; [|injection H as <-; left; split; [reflexivity|discriminate]].
    inv_bind H as pn Hpn. apply load_Done in Hpn.
    destruct (cond (n_bit pn)) eqn:Ec; [discriminate|]. injection H as <-.
    left. split; [reflexivity|]. intros q qn [= <-] Hq. congruence.
  - destruct parent as [p|]; [|injection H as <-; left; split; [reflexivity|discriminate]].
    inv_bind H as pn Hpn. apply load_Done in Hpn.
    destruct (cond (n_bit pn)) eqn:Ec.
    + destruct (IH _ _ H) as [(-> & Hstop)|Hup].
      * right. exists pn. split; [exact Hpn|]. split; [exact Ec|]. exact Hstop.
      * right. exact Hup.
    + injection H as <-. left. split; [reflexivity|]. intros q qn [= <-] Hq. congruence.
Qed.

(** The walk of a registration goes up through the parent pointers, over
    nodes whose bits are not below the netmask. *)
Lemma walk_up_climbs fuel h netmask x nx t :
  h !! x = Some nx →
  walk_up fuel h (λ bit, netmask <? bit + 1) x (n_parent nx) = Done t →
  climbs h netmask x t.
Proof.
  revert x nx. induction fuel as [|fuel IH]; intros x nx Hx H.
  - destruct (n_parent nx) as [p|] eqn:Ep; simpl in H; [|injection H as <-; constructor].
    inv_bind H as pn Hpn. destruct (netmask <? n_bit pn + 1); [discriminate|].
    injection H as <-. constructor.
  - destruct (n_parent nx) as [p|] eqn:Ep; simpl in H; [|injection H as <-; constructor].
    inv_bind H as pn Hpn. apply load_Done in Hpn.
    destruct (Z.ltb_spec netmask (n_bit pn + 1)) as [Hlt|]; [|injection H as <-; constructor].
    apply (climbs_parent _ _ x nx p pn t Hx Ep Hpn); [lia|].
    exact (IH p pn Hpn H).
Qed.

Lemma climbs_under h netmask x t : climbs h netmask x t → under h t x.
Proof.
  induction 1 as [|x nx p pn t Hx Hp _ _ _ IH]; [constructor|].
  exact (under_parent _ _ _ _ _ Hx Hp IH).
Qed.

(** X8.  The registration of a netmask changes one node, [target], and there
    only the netmask array, which gains exactly this netmask.  [target] is
    the node the walk started at or an ancestor of it: the parent pointers
    lead from the start node to [target] over nodes whose bits are not
    below the netmask, and the parent of [target], if any, has a bit below
    the netmask. *)
Theorem register_netmask_place (fuel : nat) (h h' : gmap addr SCRadixNode)
    (node target : addr) (netmask : Z) (first : bool) :
  register_netmask fuel h node netmask = Done (h', target, first) →
  ∃ tn l,
    h !! target = Some tn
    ∧ h' = <[target := with_netmasks (Some l) tn]> h
    ∧ l ≡ₚ netmask :: default [] (n_netmasks tn)
    ∧ (target = node ∨ netmask ≤ n_bit tn)
    ∧ (∀ p pn, n_parent tn = Some p → h !! p = Some pn → n_bit pn < netmask)
    ∧ under h target node
    ∧ climbs h netmask node target.
Proof.
  unfold register_netmask. intros H.
  inv_bind H as n Hn. inv_bind H as t Ht. inv_bind H as tn Htn. inv_bind H as h1 Hs.
  injection H as <- <- <-. apply load_Done in Hn, Htn.
  apply store_Done in Hs as (m & Hm & ->). rewrite Htn in Hm. injection Hm as <-.
  pose proof (walk_up_climbs _ _ _ _ _ _ Hn Ht) as Hclimb.
  exists tn, (netmasks_register (n_netmasks tn) netmask).
  split; [exact Htn|]. split; [reflexivity|]. split; [apply netmasks_register_perm|].
  assert ((t = node ∨ netmask ≤ n_bit tn)
          ∧ ∀ p pn, n_parent tn = Some p → h !! p = Some pn → n_bit pn < netmask)
    as (Hat & Hpar).
  { destruct (walk_up_stop _ _ _ _ _ _ Ht) as [(-> & Hstop)|(nt & Hnt & Hc & Hstop)].
    - split; [left; reflexivity|]. intros p pn Hp Hpn.
      assert (tn = n) as -> by congruence.
      specialize (Hstop p pn Hp Hpn). simpl in Hstop. apply Z.ltb_ge in Hstop. lia.
    - assert (nt = tn) as -> by congruence. simpl in Hc. apply Z.ltb_lt in Hc.
      split; [right; lia|]. intros p pn Hp Hpn.
      specialize (Hstop p pn Hp Hpn). simpl in Hstop. apply Z.ltb_ge in Hstop. lia. }
  split; [exact Hat|]. split; [exact Hpar|].
  split; [exact (climbs_under _ _ _ _ Hclimb)|exact Hclimb].
Qed.

Lemma register_netmask_place_witness :
  ∃ h' target first,
    register_netmask scenario_fuel netblock_host_heap 1%nat 20 = Done (h', target, first)
    ∧ target ≠ 1%nat
    ∧ ∃ tn l,
        netblock_host_heap !! target = Some tn
        ∧ h' = <[target := with_netmasks (Some l) tn]> netblock_host_heap
        ∧ l ≡ₚ 20 :: default [] (n_netmasks tn)
        ∧ (target = 1%nat ∨ 20 ≤ n_bit tn)
        ∧ (∀ p pn, n_parent tn = Some p → netblock_host_heap !! p = Some pn → n_bit pn < 20)
        ∧ under netblock_host_heap target 1%nat
        ∧ climbs netblock_host_heap 20 1%nat target.
Proof.
  eexists _, _, _. split; [vm_compute; reflexivity|]. split; [discriminate|].
  eapply (register_netmask_place scenario_fuel netblock_host_heap _ 1%nat _ 20 _).
  vm_compute. reflexivity.
Defined.


(** ** Exact and best-match lookup, and requests that do nothing *)

(** X9.  A node that the exact lookup returns is returned by the best-match
    lookup too, with the same user data selected. *)
Theorem exact_match_is_best_match (fuel : nat) (key_stream : option (list Z))
    (key_bitlen : Z) (tree tree' : SCRadixTree) (node : addr) :
  SCRadixFindKey fuel key_stream key_bitlen tree true = Done (tree', Some node) →
  SCRadixFindKey fuel key_stream key_bitlen tree false = Done (tree', Some node).
Proof.
  unfold SCRadixFindKey. destruct (t_head tree) as [head|]; [|discriminate].
  destruct (SCRadixCreatePrefix _ _ _ _) as [[prefix|]|]; simpl; try discriminate.
  destruct (find_walk_down _ _ _ _ _) as [[found|]|]; simpl; try discriminate.
  destruct (load _ _) as [n|]; simpl; [|discriminate].
  destruct (_ || _); [discriminate|].
  destruct (deref_prefix _) as [np|]; simpl; [|discriminate].
  destruct (stream_match _ _) as [same|]; simpl; [|discriminate].
  destruct (if same then _ else _) as [[p hit]|]; simpl; [|discriminate].
  destruct hit; [auto|discriminate].
Qed.

Lemma exact_match_is_best_match_witness :
  ∃ t t' node,
    netblock_then_host = Done (t, Some node)
    ∧ SCRadixFindKey scenario_fuel (Some [192; 168; 1; 1]) 32 t true = Done (t', Some node)
    ∧ SCRadixFindKey scenario_fuel (Some [192; 168; 1; 1]) 32 t false = Done (t', Some node).
Proof.
  eexists _, _, _. split; [vm_compute; reflexivity|]. split; [vm_compute; reflexivity|].
  eapply (exact_match_is_best_match scenario_fuel (Some [192; 168; 1; 1]) 32).
  vm_compute. reflexivity.
Defined.

(** X10.  A lookup or a removal with a [NULL] key, or with a bit length that
    is 0 or no multiple of 8, does nothing. *)
Theorem find_remove_invalid_request (fuel : nat) (key_stream : option (list Z))
    (key_bitlen : Z) (tree : SCRadixTree) (exact_match : bool) (netmask : Z) :
  key_stream = None ∨ key_bitlen = 0 ∨ key_bitlen mod 8 ≠ 0 →
  SCRadixFindKey fuel key_stream key_bitlen tree exact_match = Done (tree, None)
  ∧ SCRadixRemoveKey fuel key_stream key_bitlen tree netmask = Done tree.
Proof.
  intros H.
  assert (SCRadixCreatePrefix key_stream key_bitlen 0 255 = Done None) as Hc.
  { unfold SCRadixCreatePrefix. destruct H as [->|[->|H]].
    - destruct (_ || _); reflexivity.
    - reflexivity.
    - apply Z.eqb_neq in H. rewrite H. reflexivity. }
  unfold SCRadixFindKey, SCRadixRemoveKey.
  destruct (t_head tree); [|auto]. rewrite Hc. auto.
Qed.

Lemma find_remove_invalid_request_witness :
  ∃ t, one_netblock = Done t
       ∧ SCRadixFindKey 5 None 32 t false = Done (t, None)
       ∧ SCRadixRemoveKey 5 None 32 t 16 = Done t.
Proof.
  eexists. split; [vm_compute; reflexivity|].
  apply (find_remove_invalid_request 5 None 32 _ false 16). left. reflexivity.
Defined.


(** ** What a lookup changes *)

Lemma select_result_only prefix bitlen exact p hit :
  SCRadixPrefixContainNetmaskAndSetUserData prefix bitlen exact = Done (p, hit) →
  (hit = false → p = prefix)
  ∧ with_user_data_result 0 <$> p = with_user_data_result 0 <$> prefix.
Proof.
  unfold SCRadixPrefixContainNetmaskAndSetUserData.
  destruct prefix as [q|]; [|intros [= <- <-]; auto].
  destruct exact.
  - destruct (pfx_user_data q) as [|ud l]; [discriminate|].
    destruct (_ =? _); intros [= <- <-]; split; (discriminate || reflexivity).
  - destruct (pfx_user_data q) as [|ud [|second l]];
      [intros [= <- <-]; auto | |];
      destruct (_ =? _); intros [= <- <-]; split; (discriminate || reflexivity).
Qed.

Lemma result_only_refl h r : r = None → result_only h h r.
Proof. intros ->. split; [auto|]. split; auto. Qed.

Lemma result_only_store h node n p :
  h !! node = Some n →
  with_user_data_result 0 <$> p = with_user_data_result 0 <$> n_prefix n →
  result_only h (<[node := with_prefix p n]> h) (Some node).
Proof.
  intros Hn Hp. split; [discriminate|]. split.
  - intros a. destruct (decide (node = a)) as [<-|Hne].
    + rewrite lookup_insert_eq, Hn. simpl. f_equal. unfold forget_result. simpl.
      rewrite Hp. reflexivity.
    + rewrite lookup_insert_ne by exact Hne. reflexivity.
  - intros a Ha. apply lookup_insert_ne. congruence.
Qed.

Lemma netblock_loop_result_only fuel h netmasks bitlen stream node h' result :
  netblock_loop fuel h netmasks bitlen stream node = Done (NetblockReturn h' result) →
  result_only h h' result.
Proof.
  revert stream node. induction netmasks as [|netmask rest IH]; intros stream node H;
    simpl in H; [discriminate|].
  inv_bind H as stream' Hc. inv_bind H as found Hf.
  destruct found as [node'|]; [|injection H as <- <-; apply result_only_refl; reflexivity].
  inv_bind H as n Hn. apply load_Done in Hn.
  destruct (_ || _); [injection H as <- <-; apply result_only_refl; reflexivity|].
  inv_bind H as np Hnp. inv_bind H as same Hsame.
  destruct same; [|apply (IH _ _ H)].
  inv_bind H as res Hsel. destruct res as [p hit].
  destruct hit; [|apply (IH _ _ H)].
  inv_bind H as h1 Hs. injection H as <- <-.
  apply store_Done in Hs as (m & Hm & ->). rewrite Hn in Hm. injection Hm as <-.
  apply result_only_store; [exact Hn|]. apply (select_result_only _ _ _ _ _ Hsel).
Qed.

Lemma find_netblock_result_only fuel h bitlen stream node h' result :
  SCRadixFindKeyIPNetblock fuel h bitlen stream node = Done (h', result) →
  result_only h h' result.
Proof.
  revert stream node. induction fuel as [|fuel IH]; intros stream node H; simpl in H.
  - inv_bind H as found Hf.
    destruct found as [nm|]; [|injection H as <- <-; apply result_only_refl; reflexivity].
    inv_bind H as nn Hnn. inv_bind H as step Hstep.
    destruct step as [h1 r1|s1 n1]; [|discriminate].
    injection H as <- <-. apply (netblock_loop_result_only _ _ _ _ _ _ _ _ Hstep).
  - inv_bind H as found Hf.
    destruct found as [nm|]; [|injection H as <- <-; apply result_only_refl; reflexivity].
    inv_bind H as nn Hnn. inv_bind H as step Hstep.
    destruct step as [h1 r1|s1 n1].
    + injection H as <- <-. apply (netblock_loop_result_only _ _ _ _ _ _ _ _ Hstep).
    + apply (IH _ _ H).
Qed.

(** The arena and the head after a lookup. *)
Lemma find_key_frame fuel key_stream key_bitlen tree tree' exact_match result :
  SCRadixFindKey fuel key_stream key_bitlen tree exact_match = Done (tree', result) →
  t_head tree' = t_head tree
  ∧ result_only (t_heap tree) (t_heap tree') result.
Proof.
  unfold SCRadixFindKey. intros H.
  destruct (t_head tree) as [head|] eqn:Eh;
    [|injection H as <- <-; split; [auto|apply result_only_refl; reflexivity]].
  inv_bind H as created Hc.
  destruct created as [prefix|];
    [|injection H as <- <-; split; [auto|apply result_only_refl; reflexivity]].
  inv_bind H as found Hf.
  destruct found as [node|];
    [|injection H as <- <-; split; [auto|apply result_only_refl; reflexivity]].
  inv_bind H as n Hn. apply load_Done in Hn.
  destruct (_ || _);
    [injection H as <- <-; split; [auto|apply result_only_refl; reflexivity]|].
  inv_bind H as np Hnp. inv_bind H as same Hsame. inv_bind H as res Hsel.
  destruct res as [p hit]. destruct hit.
  - inv_bind H as h1 Hs. injection H as <- <-. simpl. split; [reflexivity|].
    apply store_Done in Hs as (m & Hm & ->). rewrite Hn in Hm. injection Hm as <-.
    apply result_only_store; [exact Hn|].
    destruct same; [apply (select_result_only _ _ _ _ _ Hsel)|].
    injection Hsel as <-. reflexivity.
  - destruct exact_match;
      [injection H as <- <-; split; [auto|apply result_only_refl; reflexivity]|].
    inv_bind H as res Hnb. destruct res as [h1 r1]. injection H as <- <-. simpl.
    split; [reflexivity|]. apply (find_netblock_result_only _ _ _ _ _ _ _ Hnb).
Qed.

(** X11.  A lookup leaves the tree as it is, but for the result slot of the
    prefix of the node it returns. *)
Theorem find_key_result_only (fuel : nat) (key_stream : option (list Z)) (key_bitlen : Z)
    (tree tree' : SCRadixTree) (exact_match : bool) (result : option addr) :
  SCRadixFindKey fuel key_stream key_bitlen tree exact_match = Done (tree', result) →
  t_head tree' = t_head tree
  ∧ result_only (t_heap tree) (t_heap tree') result.
Proof. apply find_key_frame. Qed.

Lemma find_key_result_only_witness :
  ∃ t t' node,
    netblock_then_host = Done (t, Some node)
    ∧ SCRadixFindKey scenario_fuel (Some [192; 168; 7; 7]) 32 t false = Done (t', Some 0%nat)
    ∧ t_head t' = t_head t
    ∧ result_only (t_heap t) (t_heap t') (Some 0%nat).
Proof.
  eexists _, _, _. split; [vm_compute; reflexivity|]. split; [vm_compute; reflexivity|].
  eapply (find_key_result_only scenario_fuel (Some [192; 168; 7; 7]) 32 _ _ false).
  vm_compute. reflexivity.
Defined.


(** ** The user data lists stay in order *)

Section prefix_inv.
Context (Q : SCRadixPrefix → Prop).
Context (Q_create : ∀ key_stream key_bitlen user netmask p,
           SCRadixCreatePrefix key_stream key_bitlen user netmask = Done (Some p) → Q p).
Context (Q_add : ∀ p netmask user p',
           Q p → SCRadixPrefixContainNetmask (Some p) netmask = false →
           SCRadixAddNetmaskUserDataToPrefix p netmask user = Done p' → Q p').
Context (Q_remove : ∀ p netmask, Q p → Q (SCRadixRemoveNetmaskUserDataFromPrefix p netmask)).
Context (Q_result : ∀ p user, Q p ↔ Q (with_user_data_result user p)).

Lemma register_netmask_prefix_all fuel h node netmask h' target first :
  heap_forall (prefix_all Q) h →
  register_netmask fuel h node netmask = Done (h', target, first) →
  heap_forall (prefix_all Q) h'.
Proof.
  intros Hh H. unfold register_netmask in H.
  inv_bind H as n Hn. inv_bind H as t Ht. inv_bind H as tn Htn. inv_bind H as h1 Hs.
  injection H as <- <- <-.
  eapply heap_forall_store; [exact Hh| |exact Hs]. intros m _ Hok. exact Hok.
Qed.

Lemma replace_child_prefix_all h head parent node new h' head' :
  heap_forall (prefix_all Q) h →
  replace_child h head parent node new = Done (h', head') →
  heap_forall (prefix_all Q) h'.
Proof.
  intros Hh H. unfold replace_child in H.
  destruct parent as [p|]; [|injection H as <- <-; exact Hh].
  inv_bind H as pn Hpn. destruct (bool_decide _); inv_bind H as h1 Hs; injection H as <- <-;
    (eapply heap_forall_store; [exact Hh| |exact Hs]); intros n _ Hok; exact Hok.
Qed.

Lemma add_existing_prefix_all fuel tree node n prefix user netmask tree' r :
  heap_forall (prefix_all Q) (t_heap tree) →
  t_heap tree !! node = Some n →
  add_existing fuel tree node n prefix user netmask = Done (tree', r) →
  heap_forall (prefix_all Q) (t_heap tree').
Proof.
  intros Hh Hn H. unfold add_existing in H.
  destruct (n_prefix n) as [np|] eqn:Enp.
  - destruct (SCRadixPrefixContainNetmask _ _) eqn:Ec; [injection H as <- <-; exact Hh|].
    inv_bind H as np' Hnp. inv_bind H as h1 Hs.
    assert (heap_forall (prefix_all Q) h1) as Hh1.
    { eapply heap_forall_store; [exact Hh| |exact Hs].
      intros m Hm _ q [= <-]. rewrite Hn in Hm. injection Hm as <-.
      eapply Q_add; [|exact Ec|exact Hnp]. exact (Hh node n Hn np Enp). }
    destruct (netmask_is_host netmask); [injection H as <- <-; exact Hh1|].
    inv_bind H as res Hreg. destruct res as [[h2 target] first]. injection H as <- <-. simpl.
    eapply register_netmask_prefix_all; eauto.
  - inv_bind H as p Hp. inv_bind H as h1 Hs. injection H as <- <-. simpl.
    eapply heap_forall_store; [exact Hh| |exact Hs].
    intros m _ _ q Hq. simpl in Hq. subst p. eapply Q_create, Hp.
Qed.

Lemma add_above_prefix_all h head node n bn new_node differ_bit h' head' :
  heap_forall (prefix_all Q) h →
  add_above h head node n bn new_node differ_bit = Done (h', head') →
  heap_forall (prefix_all Q) h'.
Proof.
  intros Hh H. unfold add_above in H.
  inv_bind H as bp Hbp. inv_bind H as b Hb. inv_bind H as h1 Hs1. inv_bind H as h2 Hs2.
  inv_bind H as res Hrc. destruct res as [h3 head3]. inv_bind H as h4 Hs4.
  injection H as <- <-.
  assert (heap_forall (prefix_all Q) h1) as H1.
  { eapply heap_forall_store; [exact Hh| |exact Hs1].
    intros m _ Hok. destruct b; exact Hok. }
  assert (heap_forall (prefix_all Q) h2) as H2.
  { eapply heap_forall_store; [exact H1| |exact Hs2]. intros m _ Hok. exact Hok. }
  apply replace_child_prefix_all in Hrc; [|exact H2].
  eapply heap_forall_store; [exact Hrc| |exact Hs4]. intros m _ Hok. exact Hok.
Qed.

Lemma add_split_prefix_all h head node n new_node stream differ_bit h' head' :
  heap_forall (prefix_all Q) h →
  add_split h head node n new_node stream differ_bit = Done (h', head') →
  heap_forall (prefix_all Q) h'.
Proof.
  intros Hh H. unfold add_split in H.
  destruct (SCRadixCreateNode h) as [h0 inter_node] eqn:Ec.
  pose proof (create_node_fresh _ _ _ Ec) as (Hfresh & ->).
  assert (heap_forall (prefix_all Q) (<[inter_node:=zero_node]> h)) as H0.
  { apply map_Forall_insert_2; [discriminate|exact Hh]. }
  inv_bind H as h1 Hs1.
  destruct (netmask_split (n_netmasks n) differ_bit) as [keep moved] eqn:Es.
  inv_bind H as h2 Hs2. inv_bind H as h3 Hs3. inv_bind H as b Hb.
  inv_bind H as h4 Hs4. inv_bind H as h5 Hs5. inv_bind H as res Hrc.
  destruct res as [h6 head6]. inv_bind H as h7 Hs7. injection H as <- <-.
  assert (heap_forall (prefix_all Q) h1) as H1.
  { eapply heap_forall_store; [exact H0| |exact Hs1]. intros m _ Hok. exact Hok. }
  assert (heap_forall (prefix_all Q) h2) as H2.
  { eapply heap_forall_store; [exact H1| |exact Hs2]. intros m _ Hok. exact Hok. }
  assert (heap_forall (prefix_all Q) h3) as H3.
  { eapply heap_forall_store; [exact H2| |exact Hs3]. intros m _ Hok. exact Hok. }
  assert (heap_forall (prefix_all Q) h4) as H4.
  { eapply heap_forall_store; [exact H3| |exact Hs4].
    intros m _ Hok. destruct b; exact Hok. }
  assert (heap_forall (prefix_all Q) h5) as H5.
  { eapply heap_forall_store; [exact H4| |exact Hs5]. intros m _ Hok. exact Hok. }
  apply replace_child_prefix_all in Hrc; [|exact H5].
  eapply heap_forall_store; [exact Hrc| |exact Hs7]. intros m _ Hok. exact Hok.
Qed.

Lemma add_key_prefix_all fuel key_stream key_bitlen tree user netmask tree' r :
  heap_forall (prefix_all Q) (t_heap tree) →
  SCRadixAddKey fuel key_stream key_bitlen tree user netmask = Done (tree', r) →
  heap_forall (prefix_all Q) (t_heap tree').
Proof.
  intros Hh H. unfold SCRadixAddKey in H.
  inv_bind H as ks Hchop. inv_bind H as created Hcreate.
  destruct created as [prefix|]; [|injection H as <- <-; exact Hh].
  pose proof (Q_create _ _ _ _ _ Hcreate) as Hq.
  destruct (t_head tree) as [head|].
  - inv_bind H as bottom Hdown. inv_bind H as bn Hbn. inv_bind H as d0 Hdiff.
    inv_bind H as node Hup. inv_bind H as n Hn. apply load_Done in Hn.
    destruct (_ && _).
    + eapply add_existing_prefix_all; eauto.
    + destruct (SCRadixCreateNode (t_heap tree)) as [h0 new_node] eqn:Ec.
      assert (heap_forall (prefix_all Q) h0) as H0.
      { apply create_node_fresh in Ec as (_ & ->).
        apply map_Forall_insert_2; [discriminate|exact Hh]. }
      inv_bind H as h1 Hs1.
      assert (heap_forall (prefix_all Q) h1) as H1.
      { eapply heap_forall_store; [exact H0| |exact Hs1].
        intros m _ _ q [= <-]. exact Hq. }
      inv_bind H as res Hput. destruct res as [h2 head2].
      assert (heap_forall (prefix_all Q) h2) as H2.
      { destruct (_ =? _).
        - eapply add_above_prefix_all; eauto.
        - eapply add_split_prefix_all; eauto. }
      destruct (netmask_is_host netmask); [injection H as <- <-; exact H2|].
      inv_bind H as res Hreg. destruct res as [[h3 target] first]. injection H as <- <-.
      simpl. eapply register_netmask_prefix_all; eauto.
  - destruct (SCRadixCreateNode (t_heap tree)) as [h0 node] eqn:Ec.
    assert (heap_forall (prefix_all Q) h0) as H0.
    { apply create_node_fresh in Ec as (_ & ->).
      apply map_Forall_insert_2; [discriminate|exact Hh]. }
    inv_bind H as h1 Hs1.
    assert (heap_forall (prefix_all Q) h1) as H1.
    { eapply heap_forall_store; [exact H0| |exact Hs1].
      intros m _ _ q [= <-]. exact Hq. }
    destruct (netmask_is_host netmask); [injection H as <- <-; exact H1|].
    inv_bind H as h2 Hs2. injection H as <- <-. simpl.
    eapply heap_forall_store; [exact H1| |exact Hs2]. intros m _ Hok. exact Hok.
Qed.

Lemma remove_netblock_entry_prefix_all fuel h node netmask h' :
  heap_forall (prefix_all Q) h →
  SCRadixRemoveNetblockEntry fuel h node netmask = Done h' →
  heap_forall (prefix_all Q) h'.
Proof.
  intros Hh H. unfold SCRadixRemoveNetblockEntry in H.
  inv_bind H as n Hn. apply load_Done in Hn.
  destruct (n_prefix n) as [p|] eqn:Ep; simpl in H; [|discriminate].
  inv_bind H as h1 Hstore.
  assert (heap_forall (prefix_all Q) h1) as H1.
  { eapply heap_forall_store; [exact Hh| |exact Hstore].
    intros m Hm _ q [= <-]. apply Q_remove. exact (Hh node n Hn p Ep). }
  destruct (_ || _); [injection H as <-; exact H1|].
  inv_bind H as local_node Hwalk. destruct (bool_decide _); [injection H as <-; exact H1|].
  eapply heap_forall_store; [exact H1| |exact H]. intros m _ Hok. exact Hok.
Qed.

Lemma transfer_netmasks_prefix_all h dest src h' :
  heap_forall (prefix_all Q) h →
  SCRadixTransferNetmasksBWNodes h dest src = Done h' →
  heap_forall (prefix_all Q) h'.
Proof.
  intros Hh H. unfold SCRadixTransferNetmasksBWNodes in H.
  destruct src as [s|]; [|injection H as <-; exact Hh].
  destruct dest as [d|]; [|injection H as <-; exact Hh].
  inv_bind H as sn Hsn. destruct (n_netmasks sn); [|injection H as <-; exact Hh].
  inv_bind H as dn Hdn. destruct (_ && _); [discriminate|].
  eapply heap_forall_store; [exact Hh| |exact H].
  intros m _ Hok. exact Hok.
Qed.

Lemma unlink_node_prefix_all h head node n tree' :
  heap_forall (prefix_all Q) h →
  unlink_node h head node n = Done tree' →
  heap_forall (prefix_all Q) (t_heap tree').
Proof.
  intros Hh H. unfold unlink_node in H.
  destruct (n_parent n) as [parent|]; [|discriminate].
  inv_bind H as pn Hpn. inv_bind H as res Hres. destruct res as [[h0 new_head] temp_dest].
  inv_bind H as h1 Htransfer. injection H as <-. simpl.
  apply map_Forall_delete, map_Forall_delete.
  eapply transfer_netmasks_prefix_all; [|exact Htransfer].
  destruct (n_parent pn) as [grandparent|].
  - inv_bind Hres as gn Hgn. destruct (sibling_of pn pn node) as [sib|]; [|discriminate].
    inv_bind Hres as h2 Hs1. inv_bind Hres as h3 Hs2. injection Hres as <- <- <-.
    assert (heap_forall (prefix_all Q) h2) as H2.
    { eapply heap_forall_store; [exact Hh| |exact Hs1].
      intros m _ Hok. destruct (bool_decide _); exact Hok. }
    eapply heap_forall_store; [exact H2| |exact Hs2]. intros m _ Hok; exact Hok.
  - inv_bind Hres as hn Hhn. destruct (sibling_of pn hn node) as [sib|]; [|discriminate].
    inv_bind Hres as h2 Hs1. injection Hres as <- <- <-.
    eapply heap_forall_store; [exact Hh| |exact Hs1]. intros m _ Hok; exact Hok.
Qed.

Lemma remove_key_prefix_all fuel key_stream key_bitlen tree netmask tree' :
  heap_forall (prefix_all Q) (t_heap tree) →
  SCRadixRemoveKey fuel key_stream key_bitlen tree netmask = Done tree' →
  heap_forall (prefix_all Q) (t_heap tree').
Proof.
  intros Hh H. unfold SCRadixRemoveKey in H.
  destruct (t_head tree) as [head|]; [|injection H as <-; exact Hh].
  inv_bind H as created Hcreated.
  destruct created as [prefix|]; [|injection H as <-; exact Hh].
  inv_bind H as found Hwalk. destruct found as [node|]; [|injection H as <-; exact Hh].
  inv_bind H as n Hload. destruct (negb _ || _); [injection H as <-; exact Hh|].
  inv_bind H as np Hnp. inv_bind H as same Hsame.
  destruct (negb same); [injection H as <-; exact Hh|].
  destruct (negb _); [injection H as <-; exact Hh|].
  destruct (_ >? _).
  - inv_bind H as h1 Hentry. injection H as <-. simpl.
    eapply remove_netblock_entry_prefix_all; eauto.
  - destruct (bool_decide _).
    + injection H as <-. simpl. apply map_Forall_delete, Hh.
    + eapply unlink_node_prefix_all; eauto.
Qed.

Lemma find_key_prefix_all fuel key_stream key_bitlen tree exact tree' r :
  heap_forall (prefix_all Q) (t_heap tree) →
  SCRadixFindKey fuel key_stream key_bitlen tree exact = Done (tree', r) →
  heap_forall (prefix_all Q) (t_heap tree').
Proof.
  intros Hh H. apply find_key_frame in H as (_ & _ & Hforget & _).
  intros a n' Hn' p' Hp'. specialize (Hforget a). rewrite Hn' in Hforget.
  destruct (t_heap tree !! a) as [n|] eqn:En; [|discriminate].
  simpl in Hforget. assert (n_prefix (forget_result n') = n_prefix (forget_result n)) as Hf
    by congruence.
  simpl in Hf. rewrite Hp' in Hf. destruct (n_prefix n) as [p|] eqn:Ep; [|discriminate].
  assert (with_user_data_result 0 p' = with_user_data_result 0 p) as Hf'.
  { cbn [fmap option_fmap option_map] in Hf. congruence. }
  apply (Q_result p' 0). rewrite Hf'. apply Q_result.
  exact (Hh a n En p Ep).
Qed.

Lemma reachable_prefix_all tree : reachable tree → heap_forall (prefix_all Q) (t_heap tree).
Proof.
  induction 1 as [|? ? ? ? ? ? ? ? _ IH _ _ H|? ? ? ? ? ? _ IH _ _ H|? ? ? ? ? ? ? _ IH _ H].
  - apply map_Forall_empty.
  - eapply add_key_prefix_all; eauto.
  - eapply remove_key_prefix_all; eauto.
  - eapply find_key_prefix_all; eauto.
Qed.

End prefix_inv.

Lemma remove_strictly_descending netmask l :
  ud_strictly_descending l → ud_strictly_descending (remove_user_data netmask l).
Proof.
  intros Hs. destruct (decide (netmask ∈ ud_netmasks l)) as [Hin|Hn].
  - destruct (remove_present _ _ Hin) as (pre & x & suf & -> & Hx & Hpre & ->).
    unfold ud_strictly_descending, ud_netmasks in *. rewrite fmap_app, fmap_cons in Hs.
    rewrite fmap_app.
    apply StronglySorted_app in Hs as (H3 & H1 & H2).
    apply StronglySorted_inv in H2 as (H2 & H4).
    apply StronglySorted_app. split; [|split; [exact H1|exact H2]].
    intros a b Ha Hb. apply H3; [exact Ha|]. right. exact Hb.
  - rewrite remove_absent by exact Hn. exact Hs.
Qed.

(** X12.  In every tree that insertions, removals and lookups lead to, the
    user data list of every prefix is in strictly descending order of the
    netmasks: no prefix holds two entries for one netmask. *)
Theorem reachable_user_data_strictly_descending (tree : SCRadixTree) (node : addr)
    (n : SCRadixNode) (p : SCRadixPrefix) :
  reachable tree →
  t_heap tree !! node = Some n →
  n_prefix n = Some p →
  ud_strictly_descending (pfx_user_data p) ∧ NoDup (ud_netmasks (pfx_user_data p)).
Proof.
  intros Hr Hn Hp.
  assert (ud_strictly_descending (pfx_user_data p)) as Hs.
  { refine (reachable_prefix_all (λ p, ud_strictly_descending (pfx_user_data p))
              _ _ _ _ tree Hr node n Hn p Hp).
    - intros ks kb user netmask q Hq. unfold SCRadixCreatePrefix in Hq.
      destruct (_ || _); [discriminate|]. destruct ks; [|discriminate].
      destruct (_ <? _); [discriminate|]. injection Hq as <-. repeat constructor.
    - intros q netmask user q' Hq Hc Hadd. unfold SCRadixAddNetmaskUserDataToPrefix in Hadd.
      destruct (user =? 0); [discriminate|]. injection Hadd as <-. cbn [pfx_user_data].
      apply append_strictly_descending; [exact Hq|]. simpl.
      intros Hin. apply (proj2 (contain_elem q netmask)) in Hin. congruence.
    - intros q netmask Hq. apply remove_strictly_descending, Hq.
    - intros q user. destruct q. reflexivity. }
  split; [exact Hs|]. unfold ud_strictly_descending in Hs.
  induction Hs as [|x l Hl IH Hx]; constructor; [|exact IH].
  intros Hin. rewrite Forall_forall in Hx. specialize (Hx x Hin). lia.
Qed.

Lemma reachable_user_data_strictly_descending_witness :
  ∃ t n p,
    two_netmasks_one_key = Done t
    ∧ t_heap t !! 0%nat = Some n ∧ n_prefix n = Some p
    ∧ ud_netmasks (pfx_user_data p) = [16; 8]
    ∧ ud_strictly_descending (pfx_user_data p)
    ∧ NoDup (ud_netmasks (pfx_user_data p)).
Proof.
  eexists _, _, _. split; [vm_compute; reflexivity|].
  split; [vm_compute; reflexivity|]. split; [reflexivity|]. split; [reflexivity|].
  eapply (reachable_user_data_strictly_descending _ 0%nat).
  - eapply (reachable_add scenario_fuel (Some [10; 0; 0; 0]) 32 _ 1016 16).
    + eapply (reachable_add scenario_fuel (Some [10; 0; 0; 0]) 32 _ 1008 8).
      * apply reachable_create.
      * unfold is_uint16; lia.
      * unfold is_uint8; lia.
      * vm_compute. reflexivity.
    + unfold is_uint16; lia.
    + unfold is_uint8; lia.
    + vm_compute. reflexivity.
  - vm_compute. reflexivity.
  - reflexivity.
Defined.



(** ** Exact lookup after an insertion *)

(** The leaf that an insertion makes is where the descent by the bits of
    the key ends in the tree after the insertion, and holds the key with
    the one entry of the insertion. *)
Lemma add_new_leaf_found fuel tree key key' key_bitlen user netmask tree' new :
  tree_linked tree →
  width_bounded (t_heap tree) key_bitlen →
  0 < key_bitlen < 256 →
  SCRadixChopIPAddressAgainstNetmask (Some key) netmask key_bitlen = Done (Some key') →
  SCRadixAddKey fuel (Some key) key_bitlen tree user netmask = Done (tree', Some new) →
  t_heap tree !! new = None →
  key_bitlen mod 8 = 0 ∧ key_bitlen / 8 ≤ Z.of_nat (length key')
  ∧ ∃ hd' nn,
      t_head tree' = Some hd'
      ∧ find_walk_down (S fuel) (t_heap tree') (take (Z.to_nat (key_bitlen / 8)) key')
          key_bitlen hd' = Done (Some new)
      ∧ t_heap tree' !! new = Some nn
      ∧ n_bit nn = key_bitlen
      ∧ n_prefix nn = Some {| pfx_bitlen := key_bitlen;
                              pfx_stream := take (Z.to_nat (key_bitlen / 8)) key';
                              pfx_user_data := [SCRadixAllocSCRadixUserData netmask user];
                              pfx_user_data_result := 0 |}.
Proof.
  intros (Hhead & rank & Hl) Hw Hk Hchop Hadd Hfresh.
  unfold SCRadixAddKey in Hadd. rewrite Hchop in Hadd. simpl in Hadd.
  inv_bind Hadd as created Hcreate.
  destruct created as [prefix|]; [|discriminate].
  assert (key_bitlen mod 8 = 0 ∧ key_bitlen / 8 ≤ Z.of_nat (length key')
          ∧ prefix = {| pfx_bitlen := key_bitlen;
                        pfx_stream := take (Z.to_nat (key_bitlen / 8)) key';
                        pfx_user_data := [SCRadixAllocSCRadixUserData netmask user];
                        pfx_user_data_result := 0 |}) as (Hmod & Hlen & ->).
  { unfold SCRadixCreatePrefix in Hcreate.
    destruct (Z.eqb_spec (key_bitlen mod 8) 0) as [E|E]; [|discriminate]. simpl in Hcreate.
    destruct (Z.eqb_spec key_bitlen 0); [discriminate|].
    destruct (Z.ltb_spec (Z.of_nat (length key')) (key_bitlen / 8)); [discriminate|].
    injection Hcreate as <-. auto. }
  split; [exact Hmod|]. split; [exact Hlen|].
  assert (0 ≤ key_bitlen / 8) as Hdiv by (apply Z.div_pos; lia).
  set (stream := take (Z.to_nat (key_bitlen / 8)) key') in *.
  assert (Z.of_nat (length stream) = key_bitlen / 8) as Hls
    by (unfold stream; rewrite length_take; lia).
  set (prefix := {| pfx_bitlen := key_bitlen; pfx_stream := stream;
                    pfx_user_data := [SCRadixAllocSCRadixUserData netmask user];
                    pfx_user_data_result := 0 |}) in *.
  destruct tree as [h0 head0]. simpl in Hadd, Hfresh, Hhead, Hl, Hw. cbn [t_heap t_head].
  set (new_node := fresh (dom h0)) in *.
  assert (h0 !! new_node = None) as Hnewfresh by (apply not_elem_of_dom, is_fresh).
  set (leaf := with_bit key_bitlen (with_prefix (Some prefix) zero_node)) in *.
  destruct head0 as [hd|].
  - rewrite (Z.mod_small key_bitlen 256) in Hadd by lia.
    inv_bind Hadd as bottom Hdown. inv_bind Hadd as bn Hbn. inv_bind Hadd as d0 Hdiff.
    set (check_bit := if n_bit bn <? key_bitlen then n_bit bn else key_bitlen) in *.
    set (d := if check_bit <? d0 then check_bit else d0) in *.
    inv_bind Hadd as node Hup. inv_bind Hadd as n Hn.
    apply load_Done in Hbn, Hn.
    assert (d ≤ check_bit) as Hdc by (unfold d; destruct (Z.ltb_spec check_bit d0); lia).
    assert (check_bit ≤ key_bitlen) as Hcb
      by (unfold check_bit; destruct (Z.ltb_spec (n_bit bn) key_bitlen); lia).
    destruct ((d =? key_bitlen) && (n_bit n =? key_bitlen)) eqn:Ecase.
    { apply add_existing_old in Hadd; [|exact Hn]. simpl in Hadd.
      destruct Hadd as [x Hx]. congruence. }
    inv_bind Hadd as h1 Hs1.
    apply store_Done in Hs1 as (z & Hz & ->). rewrite lookup_insert_eq in Hz.
    injection Hz as <-. rewrite insert_insert_eq in Hadd. fold leaf in Hadd.
    inv_bind Hadd as res Hsplit. destruct res as [h2 head2].
    destruct (Hhead hd eq_refl) as (nh & Hnh & Hnhp).
    assert (0 ≤ key_bitlen) as Hk0 by lia.
    assert (Z.of_nat (length stream) ≤ key_bitlen / 8) as Hls' by (rewrite Hls; lia).
    destruct (add_walk_down_descent _ _ _ _ _ _ Hw Hk0 Hls' Hdown) as (k & Hkf & Hdesc).
    pose proof (walk_up_descent _ _ _ _ _ _ _ _ _ _ _ _ Hl Hdesc Hnh Hbn Hup) as Hplace.
    assert (d ≠ key_bitlen) as Hd.
    { intros E. rewrite E, Z.eqb_refl in Ecase. simpl in Ecase.
      apply Z.eqb_neq in Ecase. pose proof (Hw _ _ Hn) as Hwn. simpl in Hwn.
      destruct (walk_up_result _ _ _ _ _ _ Hup) as [->|(n' & Hn' & Hc)].
      - assert (n = bn) as -> by congruence.
        unfold check_bit in Hdc. destruct (Z.ltb_spec (n_bit bn) key_bitlen); lia.
      - assert (n' = n) as -> by congruence. apply Z.leb_le in Hc. lia. }
    rewrite (proj2 (Z.eqb_neq _ _) Hd) in Hsplit.
    assert (node ≠ new_node) as Hnn by (intros ->; congruence).
    destruct (Hl node n Hn) as (_ & Hnpar & _).
    destruct (add_split_heap (<[new_node:=leaf]> h0) hd node n new_node leaf stream d h2 head2)
      as (b & inter & keep & moved & Hb & Es & Hifresh & Hi2 & Hnode2 & Hnew2 & Hother2 & HP2).
    { rewrite lookup_insert_ne by congruence. exact Hn. }
    { apply lookup_insert_eq. }
    { exact Hnn. }
    { intros p Ep. destruct (Hnpar p Ep) as ((np & Hnp) & Hr).
      split; [intros ->; lia|]. split; [intros ->; congruence|].
      rewrite lookup_insert_ne by (intros ->; congruence). eauto. }
    { exact Hsplit. }
    assert (inter ≠ new_node) as Hiw
      by (intros ->; rewrite lookup_insert_eq in Hifresh; discriminate).
    rewrite lookup_insert_ne in Hifresh by congruence.
    assert (inter ≠ node) as Hin by (intros ->; congruence).
    (* the registration of the netmask changes no bit, link or prefix *)
    assert (new = new_node
            ∧ ∃ h3, tree' = {| t_heap := h3; t_head := head2 |}
                ∧ ∀ x m, h2 !! x = Some m →
                    ∃ m', h3 !! x = Some m' ∧ n_bit m' = n_bit m ∧ n_left m' = n_left m
                          ∧ n_right m' = n_right m ∧ n_prefix m' = n_prefix m)
      as (-> & h3 & -> & Hshape).
    { destruct (netmask_is_host netmask) eqn:Ehost.
      - injection Hadd as <- <-. split; [reflexivity|]. exists h2. split; [reflexivity|].
        intros x m Hm. exists m. auto.
      - inv_bind Hadd as res Hreg. destruct res as [[h3 target] first].
        injection Hadd as <- <-. split; [reflexivity|].
        apply register_netmask_heap in Hreg as (n1 & tn & Hn1 & Htn & Hwalk & ->).
        eexists. split; [reflexivity|]. intros x m Hm.
        destruct (decide (target = x)) as [->|Hne].
        + rewrite lookup_insert_eq. eexists. split; [reflexivity|].
          assert (tn = m) as -> by congruence. auto.
        + rewrite lookup_insert_ne by exact Hne. exists m. auto. }
    cbn [t_heap t_head].
    destruct (Hshape _ _ Hnew2) as (nn & Hnew3 & Hnnb & _ & _ & Hnnp).
    destruct (Hshape _ _ Hi2) as (ni & Hi3 & Hnib & Hnil & Hnir & _).
    assert (d < key_bitlen) as Hdlt by (clear -Hd Hdc Hcb; clearbody d check_bit; lia).
    assert (∀ f, find_walk_down (S f) h3 stream key_bitlen inter = Done (Some new_node))
      as Hfind1.
    { intros f. rewrite (find_walk_down_step _ _ _ _ _ _ b new_node Hi3).
      - apply (find_walk_down_stop _ _ _ _ _ nn Hnew3). rewrite Hnnb. simpl. lia.
      - rewrite Hnib. exact Hdlt.
      - rewrite Hnib. exact Hb.
      - rewrite Hnil, Hnir. destruct b; reflexivity. }
    assert (∃ hd', head2 = Some hd'
                   ∧ find_walk_down (S fuel) h3 stream key_bitlen hd' = Done (Some new_node))
      as (hd' & -> & Hfind).
    { destruct Hplace as [(j & pred & pn & b' & Hj & Hle & Hp & Hplt & Hpb & Hpc & Hcond)
                         |(fuel' & Hw')].
      - destruct (Hl pred pn Hp) as (Hch & _ & Hlr).
        destruct (Hch node) as (nc & Hnc & Hncp & Hrank); [destruct b'; auto|].
        assert (nc = n) as -> by congruence.
        rewrite Hncp in HP2. destruct HP2 as (-> & pn1 & Hp1 & Hp2).
        assert (pred ≠ new_node) as Hpw by (intros ->; congruence).
        assert (pred ≠ inter) as Hpi by (intros ->; congruence).
        assert (pred ≠ node) as Hpn by (intros ->; lia).
        rewrite lookup_insert_ne in Hp1 by congruence.
        assert (pn1 = pn) as -> by congruence.
        destruct (Hshape _ _ Hp2) as (pn3 & Hp3 & Hpb3 & Hpl3 & Hpr3 & _).
        exists hd. split; [reflexivity|].
        replace (S fuel) with (j + S (S (fuel - j - 1)))%nat by lia.
        rewrite (find_along_descent h0 h3 rank stream key_bitlen j hd pred Hl Hj).
        + rewrite (find_walk_down_step _ _ _ _ _ _ b' inter Hp3); [apply Hfind1| | |].
          * rewrite Hpb3. case_bool_decide; exact Hplt.
          * rewrite Hpb3. case_bool_decide; exact Hpb.
          * rewrite Hpl3, Hpr3. destruct b'; simpl in Hpc.
            -- rewrite bool_decide_eq_true_2 by exact Hpc. reflexivity.
            -- rewrite bool_decide_eq_false_2 by (apply Hlr; exact Hpc). reflexivity.
        + intros x nx Hx Hr.
          assert (h2 !! x = Some nx) as Hx2.
          { rewrite Hother2; [rewrite lookup_insert_ne by (intros ->; congruence); exact Hx
                             | | | |]; try (intros ->; congruence).
            - intros ->. lia.
            - rewrite Hncp. intros [= ->]. lia. }
          destruct (Hshape _ _ Hx2) as (nx' & Hx3 & E1 & E2 & E3 & _). eauto 10.
      - rewrite Hnhp in Hw'.
        assert (node = hd) as -> by (destruct fuel'; simpl in Hw'; congruence).
        assert (n = nh) as -> by congruence.
        rewrite Hnhp in HP2. subst head2. exists inter. split; [reflexivity|]. apply Hfind1. }
    exists hd', nn. auto 10.
  - (* the first node of the tree *)
    inv_bind Hadd as h1 Hs1.
    apply store_Done in Hs1 as (z & Hz & ->). rewrite lookup_insert_eq in Hz.
    injection Hz as <-. rewrite insert_insert_eq in Hadd. fold leaf in Hadd.
    assert (∃ nn, tree' = {| t_heap := <[new_node:=nn]> h0; t_head := Some new_node |}
                  ∧ new = new_node
                  ∧ n_bit nn = key_bitlen ∧ n_prefix nn = Some prefix)
      as (nn & -> & -> & Hnnb & Hnnp).
    { destruct (netmask_is_host netmask).
      - injection Hadd as <- <-. exists leaf. auto.
      - inv_bind Hadd as h2 Hs2. injection Hadd as <- <-.
        apply store_Done in Hs2 as (z & Hz & ->). rewrite lookup_insert_eq in Hz.
        injection Hz as <-. rewrite insert_insert_eq. eexists. split; [reflexivity|]. auto. }
    cbn [t_heap t_head]. exists new_node, nn. split; [reflexivity|].
    split; [apply (find_walk_down_stop _ _ _ _ _ nn); [apply lookup_insert_eq|lia]|].
    split; [apply lookup_insert_eq|]. auto.
Qed.


(** X13.  After an insertion that made a new leaf, in a tree of keys of
    [key_bitlen] bits, the exact lookup of the key as it was stored
    returns that leaf with the user data of the insertion when the netmask
    is [key_bitlen], and finds nothing when the key was stored for a
    shorter netmask. *)
Theorem exact_find_after_insert (fuel : nat) (tree : SCRadixTree) (key key' : list Z)
    (key_bitlen user netmask : Z) (tree' : SCRadixTree) (new : addr) :
  tree_linked tree →
  width_bounded (t_heap tree) key_bitlen →
  0 < key_bitlen < 256 →
  SCRadixChopIPAddressAgainstNetmask (Some key) netmask key_bitlen = Done (Some key') →
  SCRadixAddKey fuel (Some key) key_bitlen tree user netmask = Done (tree', Some new) →
  t_heap tree !! new = None →
  (netmask = key_bitlen →
   ∃ tree'', SCRadixFindKey (S fuel) (Some key') key_bitlen tree' true
             = Done (tree'', Some new)
             ∧ user_data_result_at tree'' new = Some user)
  ∧ (netmask ≠ key_bitlen →
     SCRadixFindKey (S fuel) (Some key') key_bitlen tree' true = Done (tree', None)).
Proof.
  intros Hlinked Hw Hk Hchop Hadd Hfresh.
  destruct (add_new_leaf_found _ _ _ _ _ _ _ _ _ Hlinked Hw Hk Hchop Hadd Hfresh)
    as (Hmod & Hlen & hd' & nn & Hhd & Hfind & Hnn & Hbit & Hp).
  assert (0 ≤ key_bitlen / 8) as Hdiv by (apply Z.div_pos; lia).
  set (stream := take (Z.to_nat (key_bitlen / 8)) key') in *.
  assert (Z.of_nat (length stream) = key_bitlen / 8) as Hls
    by (unfold stream; rewrite length_take; lia).
  assert (SCRadixFindKey (S fuel) (Some key') key_bitlen tree' true
          = ('(p, hit) ← SCRadixPrefixContainNetmaskAndSetUserData (n_prefix nn)
                           key_bitlen true;
             if hit : bool
             then h ← store (with_prefix p) new (t_heap tree');
                  mret ({| t_heap := h; t_head := t_head tree' |}, Some new)
             else Done (tree', None))) as ->.
  { unfold SCRadixFindKey. rewrite Hhd.
    rewrite create_prefix_Done by (assumption || lia).
    cbn [mbind outcome_bind pfx_stream pfx_bitlen]. fold stream. rewrite Hfind.
    cbn [mbind outcome_bind]. unfold load at 1. rewrite Hnn.
    cbn [mbind outcome_bind]. rewrite Hbit, Z.eqb_refl, Hp.
    rewrite bool_decide_eq_false_2 by discriminate.
    cbn [negb orb deref_prefix mbind outcome_bind].
    unfold stream_match, memcmp_eq. cbn [pfx_stream pfx_bitlen]. fold stream.
    rewrite Hls, Z.ltb_irrefl. cbn [orb mbind outcome_bind].
    rewrite bool_decide_eq_true_2 by reflexivity.
    rewrite (proj2 (Z.eqb_eq _ _) Hmod). reflexivity. }
  rewrite Hp.
  unfold SCRadixPrefixContainNetmaskAndSetUserData.
  cbn [pfx_user_data SCRadixAllocSCRadixUserData ud_netmask ud_user].
  split.
  - intros ->. rewrite Z.eqb_refl. cbn [mbind outcome_bind].
    unfold store, load. rewrite Hnn. cbn [mbind outcome_bind mret outcome_ret].
    eexists. split; [reflexivity|].
    unfold user_data_result_at. cbn [t_heap]. rewrite lookup_insert_eq. reflexivity.
  - intros Hne. rewrite (proj2 (Z.eqb_neq _ _) Hne). reflexivity.
Qed.

Lemma exact_find_after_insert_witness :
  ∃ t t' new,
    two_netblocks = Done t
    ∧ SCRadixAddKey scenario_fuel (Some [192; 171; 7; 9]) 32 t 2032 32 = Done (t', Some new)
    ∧ (32 = 32 →
       ∃ t'', SCRadixFindKey (S scenario_fuel) (Some [192; 171; 7; 9]) 32 t' true
              = Done (t'', Some new)
              ∧ user_data_result_at t'' new = Some 2032)
    ∧ (32 ≠ 32 →
       SCRadixFindKey (S scenario_fuel) (Some [192; 171; 7; 9]) 32 t' true = Done (t', None)).
Proof.
  eexists _, _, _. split; [vm_compute; reflexivity|].
  match goal with
  | |- SCRadixAddKey _ _ _ ?t _ _ = _ ∧ _ => assert (inserted_width 32 t) as Hi
  end.
  { eapply (inserted_width_add 32 scenario_fuel (Some [192; 168; 0; 0]) _ 1016 16).
    - eapply (inserted_width_add 32 scenario_fuel (Some [10; 0; 0; 0]) _ 1008 8).
      + apply inserted_width_create.
      + unfold is_uint8; lia.
      + vm_compute. reflexivity.
    - unfold is_uint8; lia.
    - vm_compute. reflexivity. }
  destruct (inserted_width_shape 32 _ ltac:(lia) Hi) as (Hlinked & Hwidth).
  split; [vm_compute; reflexivity|].
  eapply (exact_find_after_insert scenario_fuel _ [192; 171; 7; 9] [192; 171; 7; 9] 32 2032 32
            _ _ Hlinked Hwidth).
  - lia.
  - vm_compute. reflexivity.
  - vm_compute. reflexivity.
  - vm_compute. reflexivity.
Defined.


(** ** Lookup in the tree of one netblock *)

(** X14.  In the tree that holds one netblock, the best-match lookup of an
    address returns the node of the netblock, with its user data, when the
    address chopped against the netmask is the key of the netblock, and
    finds nothing otherwise. *)
Theorem single_netblock_lookup (fuel0 fuel : nat) (key key' k k' : list Z)
    (key_bitlen user netmask : Z) (tree : SCRadixTree) (node : addr) :
  0 < key_bitlen → key_bitlen mod 8 = 0 →
  Z.of_nat (length key) = key_bitlen / 8 → Z.of_nat (length k) = key_bitlen / 8 →
  netmask < key_bitlen → netmask_is_host netmask = false →
  SCRadixChopIPAddressAgainstNetmask (Some key) netmask key_bitlen = Done (Some key') →
  SCRadixChopIPAddressAgainstNetmask (Some k) netmask key_bitlen = Done (Some k') →
  SCRadixAddKey fuel0 (Some key) key_bitlen SCRadixCreateRadixTree user netmask
  = Done (tree, Some node) →
  (k' = key' →
   ∃ tree', SCRadixFindKey (S fuel) (Some k) key_bitlen tree false = Done (tree', Some node)
            ∧ user_data_result_at tree' node = Some user)
  ∧ (k' ≠ key' →
     SCRadixFindKey (S fuel) (Some k) key_bitlen tree false = Done (tree, None)).
Proof.
  intros Hpos Hmod Hlkey Hlk Hnm Hhost Hchop Hchopk Hadd.
  assert (0 ≤ key_bitlen / 8) as Hdiv by (apply Z.div_pos; lia).
  set (bytes := Z.to_nat (key_bitlen / 8)) in *.
  assert (chop_loop bytes 0 netmask key = Done key') as Hc1.
  { unfold SCRadixChopIPAddressAgainstNetmask in Hchop. inv_bind Hchop as s Hs.
    injection Hchop as <-. exact Hs. }
  assert (chop_loop bytes 0 netmask k = Done k') as Hc2.
  { unfold SCRadixChopIPAddressAgainstNetmask in Hchopk. inv_bind Hchopk as s Hs.
    injection Hchopk as <-. exact Hs. }
  pose proof (chop_loop_length _ _ _ _ _ Hc1) as (_ & Hl1).
  pose proof (chop_loop_length _ _ _ _ _ Hc2) as (_ & Hl2).
  assert (take bytes key' = key') as Htk1 by (apply take_ge; lia).
  assert (take bytes k' = k') as Htk2 by (apply take_ge; lia).
  assert (take bytes k = k) as Htk3 by (apply take_ge; lia).
  set (prefix := {| pfx_bitlen := key_bitlen; pfx_stream := key';
                    pfx_user_data := [SCRadixAllocSCRadixUserData netmask user];
                    pfx_user_data_result := 0 |}).
  set (n := {| n_bit := key_bitlen; n_netmasks := Some [netmask]; n_prefix := Some prefix;
               n_left := None; n_right := None; n_parent := None |}).
  assert (tree = {| t_heap := <[node := n]> ∅; t_head := Some node |}) as ->.
  { unfold SCRadixAddKey in Hadd. rewrite Hchop in Hadd. cbn [mbind outcome_bind] in Hadd.
    rewrite create_prefix_Done in Hadd by lia. fold bytes in Hadd. rewrite Htk1 in Hadd.
    cbn in Hadd. rewrite Hhost in Hadd. unfold store, load in Hadd.
    rewrite !lookup_insert_eq in Hadd. cbn in Hadd. rewrite lookup_insert_eq in Hadd.
    cbn in Hadd. injection Hadd as <- <-. rewrite !insert_insert_eq. reflexivity. }
  set (h := <[node := n]> (∅ : gmap addr SCRadixNode)).
  assert (h !! node = Some n) as Hn by apply lookup_insert_eq.
  assert (∀ f s, find_walk_down f h s key_bitlen node = Done (Some node)) as Hfind.
  { intros f s. apply (find_walk_down_stop _ _ _ _ _ n Hn). simpl. lia. }
  assert (∀ q, Z.of_nat (length q) = key_bitlen / 8 →
            stream_match prefix {| pfx_bitlen := key_bitlen; pfx_stream := q;
                                   pfx_user_data := []; pfx_user_data_result := 0 |}
            = Done (bool_decide (key' = q))) as Hmatch.
  { intros q Hq. unfold stream_match, memcmp_eq. cbn [pfx_stream pfx_bitlen prefix].
    destruct (Z.ltb_spec (Z.of_nat (length key')) (key_bitlen / 8)); [lia|].
    destruct (Z.ltb_spec (Z.of_nat (length q)) (key_bitlen / 8)); [lia|].
    cbn [orb mbind outcome_bind]. fold bytes. rewrite Htk1.
    rewrite (take_ge q) by lia.
    case_bool_decide; [|reflexivity]. rewrite (proj2 (Z.eqb_eq _ _) Hmod). reflexivity. }
  assert (SCRadixFindKey (S fuel) (Some k) key_bitlen {| t_heap := h; t_head := Some node |}
            false
          = ('(h', result) ← SCRadixFindKeyIPNetblock (S fuel) h key_bitlen k (Some node);
             mret ({| t_heap := h'; t_head := Some node |}, result))) as ->.
  { unfold SCRadixFindKey. cbn [t_head t_heap].
    rewrite create_prefix_Done by lia. fold bytes. rewrite Htk3.
    cbn [mbind outcome_bind pfx_stream pfx_bitlen]. rewrite Hfind.
    cbn [mbind outcome_bind]. rewrite (load_lookup _ _ _ Hn).
    cbn [mbind outcome_bind n n_bit n_prefix]. rewrite Z.eqb_refl.
    rewrite bool_decide_eq_false_2 by discriminate.
    cbn [negb orb deref_prefix mbind outcome_bind].
    match goal with
    | |- context [stream_match prefix ?q] =>
        replace (stream_match prefix q) with (Done (bool_decide (key' = k)) : outcome bool)
    end.
    2:{ symmetry.
        unfold stream_match, memcmp_eq. cbn [pfx_stream pfx_bitlen prefix].
        destruct (Z.ltb_spec (Z.of_nat (length key')) (key_bitlen / 8)); [lia|].
        destruct (Z.ltb_spec (Z.of_nat (length k)) (key_bitlen / 8)); [lia|].
        cbn [orb mbind outcome_bind]. fold bytes. rewrite Htk1, Htk3.
        case_bool_decide; [|reflexivity]. rewrite (proj2 (Z.eqb_eq _ _) Hmod). reflexivity. }
    cbn [mbind outcome_bind].
    assert (SCRadixPrefixContainNetmaskAndSetUserData (Some prefix) key_bitlen true
            = Done (Some prefix, false)) as Hsel.
    { unfold SCRadixPrefixContainNetmaskAndSetUserData. cbn.
      destruct (Z.eqb_spec netmask key_bitlen); [lia|reflexivity]. }
    case_bool_decide; [rewrite Hsel|]; reflexivity. }
  assert (SCRadixFindKeyIPNetblock (S fuel) h key_bitlen k (Some node)
          = if bool_decide (key' = k')
            then Done (<[node := with_prefix (Some (with_user_data_result user prefix)) n]> h,
                       Some node)
            else Done (h, None)) as ->.
  { cbn [SCRadixFindKeyIPNetblock netmask_node_of]. rewrite (load_lookup _ _ _ Hn).
    cbn [mbind outcome_bind n n_netmasks]. rewrite (load_lookup _ _ _ Hn).
    cbn [mbind outcome_bind n n_netmasks default netblock_loop].
    change (id [netmask]) with [netmask]. cbn [netblock_loop].
    fold bytes. rewrite Hc2. cbn [mbind outcome_bind]. rewrite Hfind.
    cbn [mbind outcome_bind]. rewrite (load_lookup _ _ _ Hn).
    cbn [mbind outcome_bind n n_bit n_prefix n_parent]. rewrite Z.eqb_refl.
    rewrite bool_decide_eq_false_2 by discriminate.
    cbn [negb orb deref_prefix mbind outcome_bind].
    rewrite Hmatch by lia. cbn [mbind outcome_bind].
    case_bool_decide.
    - unfold SCRadixPrefixContainNetmaskAndSetUserData.
      cbn [prefix pfx_user_data SCRadixAllocSCRadixUserData ud_netmask ud_user].
      destruct (Z.eqb_spec netmask key_bitlen); [lia|].
      cbn [mbind outcome_bind]. rewrite (store_lookup _ _ _ _ Hn). reflexivity.
    - destruct fuel; reflexivity. }
  split.
  - intros <-. rewrite bool_decide_eq_true_2 by reflexivity. cbn [mbind outcome_bind].
    eexists. split; [reflexivity|]. unfold user_data_result_at. cbn [t_heap].
    rewrite lookup_insert_eq. reflexivity.
  - intros Hne. rewrite bool_decide_eq_false_2 by congruence. reflexivity.
Qed.

Lemma single_netblock_lookup_witness :
  ∃ tree node,
    SCRadixAddKey 0 (Some [192; 168; 7; 9]) 32 SCRadixCreateRadixTree 1016 16
    = Done (tree, Some node)
    ∧ ([192; 168; 0; 0] = [192; 168; 0; 0] →
       ∃ tree', SCRadixFindKey 1 (Some [192; 168; 200; 3]) 32 tree false
                = Done (tree', Some node)
                ∧ user_data_result_at tree' node = Some 1016)
    ∧ ([192; 168; 0; 0] ≠ [192; 168; 0; 0] →
       SCRadixFindKey 1 (Some [192; 168; 200; 3]) 32 tree false = Done (tree, None)).
Proof.
  eexists _, _. split; [vm_compute; reflexivity|].
  eapply (single_netblock_lookup 0 0 [192; 168; 7; 9] [192; 168; 0; 0] [192; 168; 200; 3]
            [192; 168; 0; 0] 32 1016 16).
  - lia.
  - reflexivity.
  - reflexivity.
  - reflexivity.
  - lia.
  - reflexivity.
  - reflexivity.
  - reflexivity.
  - vm_compute. reflexivity.
Defined.



(** ** Trees of keys of one width *)

Lemma testbit_land_pow2 x k : 0 ≤ k → negb (Z.land x (2 ^ k) =? 0) = Z.testbit x k.
Proof.
  intros Hk. destruct (Z.testbit x k) eqn:E.
  - destruct (Z.eqb_spec (Z.land x (2 ^ k)) 0) as [E0|]; [|reflexivity].
    apply (f_equal (λ z, Z.testbit z k)) in E0.
    rewrite Z.land_spec, E, Z.pow2_bits_true, Z.bits_0 in E0 by lia. discriminate.
  - destruct (Z.eqb_spec (Z.land x (2 ^ k)) 0) as [|Hne]; [reflexivity|]. exfalso. apply Hne.
    apply Z.bits_inj'. intros m Hm. rewrite Z.land_spec, Z.bits_0.
    destruct (Z.eq_dec m k) as [->|Hmk]; [rewrite E; reflexivity|].
    rewrite (Z.pow2_bits_false k m) by lia. apply andb_false_r.
Qed.

(** [bit_test] reads the bit of the key, counted from the most significant
    bit of byte 0. *)
Lemma bit_test_key_bit stream pos :
  0 ≤ pos →
  bit_test stream pos = match key_bit stream pos with
                        | Some b => Done b
                        | None => Fault InvalidAccess
                        end.
Proof.
  intros Hpos. unfold bit_test, byte_at, key_bit.
  rewrite (Z.shiftr_div_pow2 pos 3) by lia. change (2 ^ 3) with 8.
  assert (0 ≤ pos / 8) by (apply Z.div_pos; lia).
  destruct (Z.ltb_spec (pos / 8) 0); [lia|].
  destruct (stream !! Z.to_nat (pos / 8)) as [x|]; [|reflexivity]. simpl.
  unfold mret, outcome_ret. f_equal. unfold SC_RADIX_BITTEST.
  assert (0 ≤ pos mod 8 < 8) as Hm by (apply Z.mod_pos_bound; lia).
  rewrite Z.shiftr_div_pow2 by lia. change 128 with (2 ^ 7).
  rewrite <- Z.pow_sub_r by lia. apply testbit_land_pow2. lia.
Qed.

Lemma key_bit_bit_test s1 s2 pos :
  0 ≤ pos → key_bit s1 pos = key_bit s2 pos → bit_test s1 pos = bit_test s2 pos.
Proof. intros Hpos E. rewrite !bit_test_key_bit by exact Hpos. rewrite E. reflexivity. Qed.

Lemma agree_below_refl s m : agree_below s s m.
Proof. intros pos _. reflexivity. Qed.

Lemma agree_below_sym s1 s2 m : agree_below s1 s2 m → agree_below s2 s1 m.
Proof. intros H pos Hpos. symmetry. apply H, Hpos. Qed.

Lemma agree_below_trans s1 s2 s3 m1 m2 m :
  agree_below s1 s2 m1 → agree_below s2 s3 m2 → m ≤ m1 → m ≤ m2 → agree_below s1 s3 m.
Proof.
  intros H1 H2 Hm1 Hm2 pos Hpos. rewrite H1 by lia. apply H2. lia.
Qed.

(** Along a descent the key below the node reached has the bits of the key
    below the start, up to the bit of the start. *)
Lemma descent_key_of width h rank key_of stream bitlen k a x na :
  map_Forall (node_linked h rank) h →
  map_Forall (node_keyed width h key_of) h →
  descent h stream bitlen k a x → h !! a = Some na →
  ∃ nx, h !! x = Some nx ∧ n_bit na ≤ n_bit nx
        ∧ agree_below (key_of x) (key_of a) (n_bit na).
Proof.
  intros Hl Hk Hd. revert na.
  induction Hd as [a|k a n b c x Hn Hlt Hb Hc Hd IH]; intros na Hna.
  - exists na. split; [exact Hna|]. split; [lia|apply agree_below_refl].
  - assert (na = n) as -> by congruence.
    destruct (Hl a n Hn) as (Hch & _).
    destruct (Hch c) as (nc & Hnc & _); [destruct b; auto|].
    destruct (Hk a n Hn) as (_ & _ & _ & _ & _ & Hdir).
    destruct (Hdir b c nc Hc Hnc) as (Hbit & Hag & _).
    destruct (IH nc Hnc) as (nx & Hnx & Hle & Hagx).
    exists nx. split; [exact Hnx|]. split; [lia|].
    apply (agree_below_trans _ _ _ _ _ _ Hagx Hag); lia.
Qed.

Lemma same_keys_sym h h' : same_keys h h' → same_keys h' h.
Proof. intros H a. symmetry. apply H. Qed.

Lemma same_keys_refl h : same_keys h h.
Proof. intros a. reflexivity. Qed.

Lemma same_keys_trans h1 h2 h3 : same_keys h1 h2 → same_keys h2 h3 → same_keys h1 h3.
Proof. intros H1 H2 a. rewrite H2. apply H1. Qed.

Lemma same_keys_lookup h h' a n' :
  same_keys h h' → h' !! a = Some n' → ∃ n, h !! a = Some n ∧ key_view n' = key_view n.
Proof.
  intros H Hn'. specialize (H a). rewrite Hn' in H.
  destruct (h !! a) as [n|]; [|discriminate]. exists n. split; [reflexivity|].
  cbn [fmap option_fmap option_map] in H. apply (inj Some) in H. exact H.
Qed.

Lemma same_keys_store f a h h' :
  (∀ n, key_view (f n) = key_view n) → store f a h = Done h' → same_keys h h'.
Proof.
  intros Hf Hs. apply store_Done in Hs as (n & Hn & ->). intros x.
  destruct (decide (x = a)) as [->|Hne].
  - rewrite lookup_insert_eq, Hn. simpl. rewrite Hf. reflexivity.
  - rewrite lookup_insert_ne by congruence. reflexivity.
Qed.

Lemma key_view_fields n n' :
  key_view n' = key_view n →
  n_bit n' = n_bit n ∧ n_left n' = n_left n ∧ n_right n' = n_right n
  ∧ n_parent n' = n_parent n
  ∧ (λ p, (pfx_bitlen p, pfx_stream p)) <$> n_prefix n'
    = (λ p, (pfx_bitlen p, pfx_stream p)) <$> n_prefix n.
Proof. unfold key_view. intros [= -> -> -> -> ->]. auto. Qed.

Lemma same_keys_back h h' a n' :
  same_keys h h' → h' !! a = Some n' →
  ∃ n, h !! a = Some n ∧ n_bit n' = n_bit n ∧ n_left n' = n_left n
       ∧ n_right n' = n_right n ∧ n_parent n' = n_parent n
       ∧ (λ p, (pfx_bitlen p, pfx_stream p)) <$> n_prefix n'
         = (λ p, (pfx_bitlen p, pfx_stream p)) <$> n_prefix n.
Proof.
  intros Hs Hn'. destruct (same_keys_lookup _ _ _ _ Hs Hn') as (n & Hn & Hv).
  exists n. split; [exact Hn|]. apply key_view_fields, Hv.
Qed.

(** The shape of a tree of keys depends on the key view of its nodes
    alone. *)
Lemma linked_same_keys h h' head :
  same_keys h h' →
  tree_linked {| t_heap := h; t_head := head |} →
  tree_linked {| t_heap := h'; t_head := head |}.
Proof.
  intros Hs Hlinked.
  apply tree_linked_links_ok in Hlinked as (rank & Hok). apply tree_linked_links_ok.
  exists rank. simpl in *. refine (links_ok_ext _ _ _ _ _ Hok).
  intros x. unfold link_map. specialize (Hs x).
  destruct (h' !! x) as [n'|], (h !! x) as [n|]; try discriminate; [|reflexivity].
  cbn [fmap option_fmap option_map] in Hs |- *. apply (inj Some) in Hs.
  apply key_view_fields in Hs as (_ & E1 & E2 & E3 & _).
  unfold links. rewrite E1, E2, E3. reflexivity.
Qed.

Lemma rooted_same_keys h h' head :
  same_keys h h' →
  rooted {| t_heap := h; t_head := head |} →
  rooted {| t_heap := h'; t_head := head |}.
Proof.
  intros Hs (R0 & R1 & R2). simpl in *. split; [|split]; simpl.
  - intros Hh. apply map_eq. intros a. rewrite lookup_empty.
    specialize (Hs a). rewrite (R0 Hh), lookup_empty in Hs.
    destruct (h' !! a); [discriminate|reflexivity].
  - intros a n' Hn' Hp. destruct (same_keys_back _ _ _ _ Hs Hn') as (n & Hn & _ & _ & _ & E & _).
    apply (R1 a n Hn). congruence.
  - intros a n' p pn' Hn' Hp Hpn'.
    destruct (same_keys_back _ _ _ _ Hs Hn') as (n & Hn & _ & _ & _ & E & _).
    destruct (same_keys_back _ _ _ _ Hs Hpn') as (pn & Hpn & _ & El & Er & _).
    rewrite El, Er. apply (R2 a n p pn Hn); congruence.
Qed.

Lemma keyed_same_keys width h h' key_of :
  same_keys h h' →
  map_Forall (node_keyed width h key_of) h →
  map_Forall (node_keyed width h' key_of) h'.
Proof.
  intros Hs Hk a n' Hn'. simpl in *.
  destruct (same_keys_back _ _ _ _ Hs Hn') as (n & Hn & Eb & El & Er & Ep & Epf).
  destruct (Hk a n Hn) as (H1 & H2 & H3 & Hleaf & Hinner & Hdir).
  unfold node_keyed. rewrite Eb, El, Er.
  split; [exact H1|]. split; [exact H2|]. split; [exact H3|]. split; [|split].
  - intros p' Hp'. rewrite Hp' in Epf. simpl in Epf.
    destruct (n_prefix n) as [p|] eqn:E; [|discriminate]. injection Epf as E1 E2.
    destruct (Hleaf p eq_refl) as (? & ? & ? & ? & ?). rewrite E1, E2. auto.
  - intros Hp'. rewrite Hp' in Epf. simpl in Epf.
    destruct (n_prefix n) as [p|] eqn:E; [discriminate|]. apply Hinner. reflexivity.
  - intros b c nc' Hc Hnc'.
    destruct (same_keys_back _ _ _ _ Hs Hnc') as (nc & Hnc & Ebc & _).
    rewrite Ebc. apply (Hdir b c nc Hc Hnc).
Qed.

Lemma key_tree_same_keys width h h' head :
  same_keys h h' →
  key_tree width {| t_heap := h; t_head := head |} →
  key_tree width {| t_heap := h'; t_head := head |}.
Proof.
  intros Hs (Hlinked & Hrooted & key_of & Hk).
  split; [exact (linked_same_keys _ _ _ Hs Hlinked)|].
  split; [exact (rooted_same_keys _ _ _ Hs Hrooted)|].
  exists key_of. exact (keyed_same_keys _ _ _ _ Hs Hk).
Qed.


(** ** How an insertion into a tree of keys goes on *)

Lemma descent_inv h stream bitlen k a x :
  descent h stream bitlen k a x →
  (k = O ∧ x = a)
  ∨ ∃ k' n b c, k = S k' ∧ h !! a = Some n ∧ n_bit n < bitlen
                ∧ bit_test stream (n_bit n) = Done b
                ∧ (if b : bool then n_right n else n_left n) = Some c
                ∧ descent h stream bitlen k' c x.
Proof.
  intros Hd. destruct Hd as [a|k a n b c x Hn Hlt Hb Hc Hd]; [left; auto|].
  right. exists k, n, b, c. auto 10.
Qed.

(** In a tree of keys of one width the descent of the insertion ends at a
    leaf. *)
Lemma add_walk_down_leaf width key_of fuel h stream a bottom :
  map_Forall (node_keyed width h key_of) h →
  add_walk_down fuel h stream width a = Done bottom →
  ∃ bn p, h !! bottom = Some bn ∧ n_prefix bn = Some p.
Proof.
  intros Hk. revert a. induction fuel as [|fuel IH]; intros a H; simpl in H.
  - inv_bind H as n Hn. apply load_Done in Hn.
    destruct (n_prefix n) as [p|] eqn:Ep.
    + destruct (_ || _); [discriminate|]. injection H as <-. eauto.
    + rewrite bool_decide_eq_true_2, orb_true_r in H by reflexivity. discriminate.
  - inv_bind H as n Hn. apply load_Done in Hn.
    destruct (Hk a n Hn) as (_ & _ & _ & Hleaf & Hinner & _).
    destruct (n_prefix n) as [p|] eqn:Ep.
    + destruct (Hleaf p eq_refl) as (Hbit & _).
      rewrite Hbit, Z.ltb_irrefl in H. rewrite bool_decide_eq_false_2 in H by discriminate.
      simpl in H. injection H as <-. eauto.
    + destruct (Hinner eq_refl) as (Hbit & (l & El) & (r & Er)).
      rewrite bool_decide_eq_true_2, orb_true_r in H by reflexivity.
      destruct (Z.ltb_spec width (n_bit n)); [lia|].
      inv_bind H as b Hb. rewrite El, Er in H. destruct b; apply (IH _ H).
Qed.

(** The walk up from the end [x] of a descent out of [a] stops at a node
    of the descent, below a node that the condition fails at, or it comes
    back to [a] and goes on from there. *)
Lemma walk_up_split h rank stream bitlen cond fuel k a x na nx node :
  map_Forall (node_linked h rank) h →
  descent h stream bitlen k a x →
  h !! a = Some na → h !! x = Some nx →
  walk_up fuel h cond x (n_parent nx) = Done node →
  (∃ j pred pn b,
      descent h stream bitlen j a pred ∧ (S j ≤ k)%nat
      ∧ h !! pred = Some pn ∧ n_bit pn < bitlen
      ∧ bit_test stream (n_bit pn) = Done b
      ∧ (if b : bool then n_right pn else n_left pn) = Some node
      ∧ cond (n_bit pn) = false
      ∧ descent h stream bitlen (k - S j) node x)
  ∨ (∃ fuel', walk_up fuel' h cond a (n_parent na) = Done node).
Proof.
  intros Hl Hd. revert na nx fuel.
  induction Hd as [a|k a n b c x Hn Hlt Hb Hc Hd IH]; intros na nx fuel Hna Hnx Hw.
  - right. exists fuel. congruence.
  - destruct (Hl a n Hn) as (Hch & _).
    destruct (Hch c) as (nc & Hnc & Hpar & Hr); [destruct b; auto|].
    destruct (IH nc nx fuel Hnc Hnx Hw)
      as [(j & pred & pn & b' & Hj & Hle & Hp & Hplt & Hpb & Hpc & Hcond & Hsub)|(fuel' & Hw')].
    + left. exists (S j), pred, pn, b'.
      split; [exact (descent_child h stream bitlen j a n b c pred Hn Hlt Hb Hc Hj)|].
      split; [lia|]. do 5 (split; [assumption|]).
      replace (S k - S (S j))%nat with (k - S j)%nat by lia. exact Hsub.
    + rewrite Hpar in Hw'. assert (na = n) as -> by congruence.
      assert (cond (n_bit n) = false → node = c) as Hstop.
      { intros Ec. destruct fuel' as [|f]; simpl in Hw'; unfold load in Hw';
          rewrite Hn in Hw'; simpl in Hw'; rewrite Ec in Hw'; congruence. }
      destruct (cond (n_bit n)) eqn:Ec.
      * right. destruct fuel' as [|f]; simpl in Hw'; unfold load in Hw';
          rewrite Hn in Hw'; simpl in Hw'; rewrite Ec in Hw'; [discriminate|].
        exists f. exact Hw'.
      * rewrite (Hstop eq_refl). left. exists O, a, n, b.
        split; [constructor|]. split; [lia|]. do 5 (split; [assumption|]).
        replace (S k - 1)%nat with k by lia. exact Hd.
Qed.

(** When the loop over the bytes runs to [check_bit], the bytes compared
    are the same. *)
Lemma differ_loop_full n i check_bit stream p d :
  0 ≤ i → check_bit mod 8 = 0 →
  differ_loop n i check_bit stream (Some p) (i * 8) = Done d →
  check_bit ≤ d →
  ∀ j, i ≤ j → j * 8 < check_bit →
       stream !! Z.to_nat j = pfx_stream p !! Z.to_nat j.
Proof.
  intros Hi Hmod. revert i Hi d.
  induction n as [|n IH]; intros i Hi d H Hd j Hj Hjc; simpl in H.
  - destruct (Z.ltb_spec (i * 8) check_bit); [discriminate|]. lia.
  - destruct (Z.ltb_spec (i * 8) check_bit) as [Hlt|Hge]; [|lia].
    inv_bind H as a Ha. simpl in H. inv_bind H as b Hb.
    unfold byte_at in Ha, Hb. destruct (Z.ltb_spec i 0); [lia|].
    destruct (stream !! Z.to_nat i) as [a'|] eqn:Ea; [|discriminate]. injection Ha as ->.
    destruct (pfx_stream p !! Z.to_nat i) as [b'|] eqn:Eb; [|discriminate]. injection Hb as ->.
    destruct (Z.eqb_spec (Z.lxor a b) 0) as [E|E].
    + apply Z.lxor_eq in E. subst b.
      destruct (Z.eq_dec j i) as [->|Hne]; [congruence|].
      apply (IH (i + 1) ltac:(lia) d); (lia || assumption).
    + injection H as <-.
      assert (differ_offset (Z.lxor a b) < 8) as Ho.
      { unfold differ_offset. repeat (destruct (_ >=? _); [lia|]). lia. }
      assert (i * 8 + 8 ≤ check_bit) by (clear -Hlt Hmod; Z.div_mod_to_equations; lia).
      lia.
Qed.

Lemma byte_land b m : 0 ≤ b < 256 → 0 ≤ Z.land b m < 256.
Proof.
  intros Hb.
  assert (Z.land b (Z.ones 8) = b) as E
    by (rewrite Z.land_ones by lia; apply Z.mod_small; exact Hb).
  assert (Z.land b m = Z.land (Z.land b m) (Z.ones 8)) as ->.
  { rewrite <- Z.land_assoc, (Z.land_comm m), Z.land_assoc, E. reflexivity. }
  rewrite Z.land_ones by lia. apply Z.mod_pos_bound. reflexivity.
Qed.

Lemma chop_loop_bytes n i netmask s s' :
  chop_loop n i netmask s = Done s' → is_bytes s → is_bytes s'.
Proof.
  revert i s s'. induction n as [|n IH]; intros i s s' H Hs; simpl in H.
  - injection H as <-. exact Hs.
  - destruct s as [|b rest]; [discriminate|]. inv_bind H as rest' Hr. injection H as <-.
    apply Forall_cons in Hs as (Hb & Hrest). apply Forall_cons. split.
    + apply byte_land, Hb.
    + apply (IH _ _ _ Hr Hrest).
Qed.

(** Where the key of an insertion goes in a tree of keys: [bottom] is
    the leaf that the descent ends at, [d0] the result of the loop over the
    bytes, and [node] the node that the walk up from [bottom] ends at.
    Either the key is the key of [bottom], or it differs from the keys
    below [node] at a bit [d] below the bit of [node] and above the bit of
    the parent of [node]. *)
Lemma add_key_position width key_of h rank hd nh stream fuel bottom bn bp d0 node n :
  0 < width → width mod 8 = 0 →
  map_Forall (node_linked h rank) h →
  map_Forall (node_keyed width h key_of) h →
  h !! hd = Some nh → n_parent nh = None →
  is_bytes stream → Z.of_nat (length stream) = width / 8 →
  add_walk_down fuel h stream width hd = Done bottom →
  h !! bottom = Some bn → n_prefix bn = Some bp →
  differ_loop (Z.to_nat width) 0 width stream (Some bp) 0 = Done d0 →
  walk_up fuel h (fun bit => (if width <? d0 then width else d0) <=? bit) bottom
    (n_parent bn) = Done node →
  h !! node = Some n →
  let d := if width <? d0 then width else d0 in
  if (d =? width) && (n_bit n =? width)
  then node = bottom ∧ pfx_stream bp = stream
  else 0 ≤ d < width ∧ d < n_bit n
       ∧ agree_below stream (key_of node) d
       ∧ (∀ b, bit_test stream d = Done b → bit_test (key_of node) d = Done (negb b))
       ∧ (∀ p pn, n_parent n = Some p → h !! p = Some pn → n_bit pn < d).
Proof.
  intros HW Hmod Hl Hk Hnh Hnhp Hsb Hls Hdown Hbn Hbp Hdiff Hup Hn d.
  fold d in Hup.
  destruct (Hk bottom bn Hbn) as (Hkb & Hkl & _ & Hleafb & _ & _).
  destruct (Hleafb bp Hbp) as (Hbbit & Hbpl & Hbps & _ & _).
  assert (is_bytes (pfx_stream bp)) as Hbpb by (rewrite Hbps; exact Hkb).
  destruct (differ_loop_spec _ 0 width stream bp d0 Hsb Hbpb ltac:(lia) Hdiff)
    as (Hd0 & Hsame & Hdiffer).
  assert (0 ≤ d ≤ width) as Hdr by (unfold d; destruct (Z.ltb_spec width d0); lia).
  assert (width_bounded h width) as Hw.
  { intros a m Hm. simpl. destruct (Hk a m Hm) as (_ & _ & _ & Hleaf & Hinner & _).
    destruct (n_prefix m) as [p|]; [destruct (Hleaf p eq_refl); lia|].
    destruct (Hinner eq_refl); lia. }
  assert (0 ≤ width) as Hw0 by lia.
  assert (Z.of_nat (length stream) ≤ width / 8) as Hls' by (rewrite Hls; reflexivity).
  destruct (add_walk_down_descent _ _ _ _ _ _ Hw Hw0 Hls' Hdown) as (k & Hkf & Hdesc).
  assert (∃ m, descent h stream width m node bottom
               ∧ ∀ p pn, n_parent n = Some p → h !! p = Some pn → n_bit pn < d)
    as (m & Hsub & Hparent).
  { destruct (walk_up_split _ _ _ _ _ _ _ _ _ _ _ _ Hl Hdesc Hnh Hbn Hup)
      as [(j & pred & pn & b' & Hj & Hle & Hp & Hplt & Hpb & Hpc & Hcond & Hsub)
         |(fuel' & Hw')].
    - exists (k - S j)%nat. split; [exact Hsub|]. intros p pn' Ep Hpn'.
      destruct (Hl pred pn Hp) as (Hch & _).
      destruct (Hch node) as (nc & Hnc & Hncp & _); [destruct b'; auto|].
      assert (nc = n) as -> by congruence.
      assert (p = pred) as -> by congruence. assert (pn' = pn) as -> by congruence.
      apply Z.leb_gt in Hcond. exact Hcond.
    - rewrite Hnhp in Hw'.
      assert (node = hd) as -> by (destruct fuel'; simpl in Hw'; congruence).
      assert (n = nh) as -> by congruence.
      exists k. split; [exact Hdesc|]. intros p pn' Ep. congruence. }
  destruct (descent_key_of _ _ _ _ _ _ _ _ _ _ Hl Hk Hsub Hn) as (bn2 & Hbn2 & Hnle & Hag).
  assert (bn2 = bn) as -> by congruence. rewrite Hbbit in Hnle.
  assert (d ≤ n_bit n) as Hdn.
  { destruct (walk_up_result _ _ _ _ _ _ Hup) as [->|(n' & Hn' & Hc)].
    - assert (n = bn) as -> by congruence. lia.
    - assert (n' = n) as -> by congruence. apply Z.leb_le in Hc. exact Hc. }
  destruct ((d =? width) && (n_bit n =? width)) eqn:Ecase.
  - (* the key is in the tree *)
    apply andb_prop in Ecase as (Ed & En). apply Z.eqb_eq in Ed, En.
    split.
    { destruct (descent_inv _ _ _ _ _ _ Hsub)
        as [(_ & E)|(k' & n1 & b1 & c & _ & Hn1 & Hlt1 & _)]; [congruence|].
      assert (n1 = n) as -> by congruence. lia. }
    assert (width ≤ d0) as Hwd by (unfold d in Ed; destruct (Z.ltb_spec width d0); lia).
    pose proof (differ_loop_full _ 0 width stream bp d0 ltac:(lia) Hmod Hdiff Hwd) as Heq.
    symmetry. apply list_eq. intros i.
    destruct (decide (Z.of_nat i < width / 8)) as [Hi|Hi].
    + specialize (Heq (Z.of_nat i) ltac:(lia)). rewrite Nat2Z.id in Heq. apply Heq.
      clear -Hi Hmod. Z.div_mod_to_equations. lia.
    + rewrite (proj2 (lookup_ge_None stream i)) by lia.
      symmetry. apply lookup_ge_None. rewrite Hbps. lia.
  - (* the key is new *)
    assert (d ≠ width) as Hd.
    { intros E. rewrite E, Z.eqb_refl in Ecase. simpl in Ecase.
      apply Z.eqb_neq in Ecase. lia. }
    assert (d = d0) as Hdd by (unfold d in *; destruct (Z.ltb_spec width d0); lia).
    destruct (Hdiffer ltac:(lia)) as (x & y & Hx & Hy & Hxy).
    rewrite <- Hdd in Hx, Hy.
    assert (bit_test stream d = Done x) as Hbx
      by (rewrite bit_test_key_bit, Hx by lia; reflexivity).
    assert (bit_test (key_of bottom) d = Done y) as Hby
      by (rewrite <- Hbps, bit_test_key_bit, Hy by lia; reflexivity).
    assert (agree_below stream (key_of bottom) d) as Hsbot.
    { intros pos Hpos. rewrite <- Hbps. apply key_bit_bit_test; [lia|].
      apply Hsame; lia. }
    assert (d < n_bit n) as Hdlt.
    { destruct (decide (d = n_bit n)) as [E|E]; [exfalso|lia].
      destruct (descent_inv _ _ _ _ _ _ Hsub)
        as [(_ & Eb)|(k' & n1 & b1 & c & _ & Hn1 & Hlt1 & Hb1 & Hc1 & Hd1)].
      - assert (n = bn) as -> by congruence. lia.
      - assert (n1 = n) as -> by congruence.
        destruct (Hl node n Hn) as (Hch & _).
        destruct (Hch c) as (nc & Hnc & _); [destruct b1; auto|].
        destruct (Hk node n Hn) as (_ & _ & _ & _ & _ & Hdir).
        destruct (Hdir b1 c nc Hc1 Hnc) as (Hcb & _ & Hcbit).
        destruct (descent_key_of _ _ _ _ _ _ _ _ _ _ Hl Hk Hd1 Hnc)
          as (bn' & Hbn'' & _ & Hagc).
        rewrite <- E in Hb1, Hcbit, Hcb.
        rewrite <- (Hagc d) in Hcbit by lia. congruence. }
    split; [lia|]. split; [exact Hdlt|]. split.
    { apply (agree_below_trans _ _ _ _ _ _ Hsbot Hag); lia. }
    split; [|exact Hparent].
    intros b Hb. rewrite <- (Hag d) by lia. rewrite Hby.
    rewrite Hbx in Hb. injection Hb as <-. f_equal. destruct x, y; simpl; congruence.
Qed.

(** The three ways in which an insertion into a tree of keys of one width
    goes on after the prefix was made: the tree is empty; the key is at a
    leaf of the tree; or the key differs from the keys below [node] at the
    bit [d], which is below the bit of [node] and above the bit of the
    parent of [node]. *)
Lemma add_key_normal width key_of fuel key tree user netmask tree' r :
  0 < width < 256 →
  tree_linked tree → rooted tree →
  map_Forall (node_keyed width (t_heap tree) key_of) (t_heap tree) →
  is_bytes key →
  SCRadixAddKey fuel (Some key) width tree user netmask = Done (tree', r) →
  (width mod 8 ≠ 0 ∧ tree' = tree)
  ∨ ∃ key' prefix,
      SCRadixChopIPAddressAgainstNetmask (Some key) netmask width = Done (Some key')
      ∧ width mod 8 = 0
      ∧ prefix = prefix_of width key' user netmask
      ∧ is_bytes (pfx_stream prefix)
      ∧ Z.of_nat (length (pfx_stream prefix)) = width / 8
      ∧ let h0 := t_heap tree in
        let new := fresh (dom h0) in
        ((t_head tree = None ∧ h0 = ∅ ∧ r = Some new
          ∧ ∃ nn, tree' = {| t_heap := <[new := nn]> h0; t_head := Some new |}
                  ∧ key_view nn = key_view (leaf_of prefix)
                  ∧ n_prefix nn = Some prefix)
         ∨ (∃ node n np,
              h0 !! node = Some n ∧ n_prefix n = Some np
              ∧ pfx_stream np = pfx_stream prefix
              ∧ add_existing fuel tree node n prefix user netmask = Done (tree', r))
         ∨ (∃ hd node n d h2 head2 h3,
              t_head tree = Some hd ∧ h0 !! node = Some n
              ∧ 0 ≤ d < width ∧ d < n_bit n
              ∧ agree_below (pfx_stream prefix) (key_of node) d
              ∧ (∀ b, bit_test (pfx_stream prefix) d = Done b →
                      bit_test (key_of node) d = Done (negb b))
              ∧ (∀ p pn, n_parent n = Some p → h0 !! p = Some pn → n_bit pn < d)
              ∧ add_split (<[new := leaf_of prefix]> h0) (Some hd) node n new
                  (pfx_stream prefix) d = Done (h2, head2)
              ∧ (h3 = h2 ∨ ∃ target first,
                            register_netmask fuel h2 new netmask = Done (h3, target, first))
              ∧ tree' = {| t_heap := h3; t_head := head2 |}
              ∧ r = Some new)).
Proof.
  intros HW (Hhead & rank & Hl) (R0 & R1 & R2) Hk Hbytes Hadd.
  unfold SCRadixAddKey in Hadd.
  inv_bind Hadd as ks Hchop. inv_bind Hadd as created Hcreate.
  unfold SCRadixChopIPAddressAgainstNetmask in Hchop.
  inv_bind Hchop as key' Hloop. injection Hchop as <-.
  pose proof (chop_loop_bytes _ _ _ _ _ Hloop Hbytes) as Hbytes'.
  unfold SCRadixCreatePrefix in Hcreate.
  destruct (Z.eqb_spec (width mod 8) 0) as [Hmod|Hmod]; simpl in Hcreate;
    [|injection Hcreate as <-; injection Hadd as <- <-; left; auto].
  destruct (Z.eqb_spec width 0) as [|_]; [lia|].
  destruct (Z.ltb_spec (Z.of_nat (length key')) (width / 8)) as [|Hlen]; [discriminate|].
  injection Hcreate as <-. fold (prefix_of width key' user netmask) in Hadd.
  right. exists key', (prefix_of width key' user netmask).
  split; [unfold SCRadixChopIPAddressAgainstNetmask; rewrite Hloop; reflexivity|].
  split; [exact Hmod|]. split; [reflexivity|].
  assert (0 ≤ width / 8) as Hdiv by (apply Z.div_pos; lia).
  set (prefix := prefix_of width key' user netmask) in *.
  set (stream := pfx_stream prefix) in *.
  assert (is_bytes stream) as Hsb by (apply Forall_take, Hbytes').
  assert (Z.of_nat (length stream) = width / 8) as Hls
    by (unfold stream, prefix, prefix_of; simpl; rewrite length_take; lia).
  split; [exact Hsb|]. split; [exact Hls|].
  destruct tree as [h0 head0]. simpl in Hadd, Hhead, Hl, Hk, R0, R1, R2.
  cbv zeta. cbn [t_heap t_head]. set (new := fresh (dom h0)) in *.
  assert (h0 !! new = None) as Hnewfresh by (apply not_elem_of_dom, is_fresh).
  destruct head0 as [hd|].
  - right. change (pfx_bitlen prefix) with width in Hadd.
    rewrite (Z.mod_small width 256) in Hadd by lia.
    inv_bind Hadd as bottom Hdown. inv_bind Hadd as bn Hbn. inv_bind Hadd as d0 Hdiff.
    apply load_Done in Hbn.
    destruct (add_walk_down_leaf _ _ _ _ _ _ _ Hk Hdown) as (bn' & bp & Hbn' & Hbp).
    assert (bn' = bn) as -> by congruence.
    destruct (Hk bottom bn Hbn) as (_ & _ & _ & Hleafb & _ & _).
    destruct (Hleafb bp Hbp) as (Hbbit & _).
    rewrite Hbbit, Z.ltb_irrefl in Hdiff, Hadd. rewrite Hbp in Hdiff.
    inv_bind Hadd as node Hup. inv_bind Hadd as n Hn. apply load_Done in Hn.
    destruct (Hhead hd eq_refl) as (nh & Hnh & Hnhp).
    pose proof (add_key_position _ _ _ _ _ _ _ _ _ _ _ _ _ _ (proj1 HW) Hmod Hl Hk Hnh Hnhp
                  Hsb Hls Hdown Hbn Hbp Hdiff Hup Hn) as Hpos.
    cbv zeta in Hpos.
    set (d := if width <? d0 then width else d0) in *.
    destruct ((d =? width) && (n_bit n =? width)) eqn:Ecase.
    + (* the key is in the tree *)
      left. destruct Hpos as (-> & Hstream). assert (n = bn) as -> by congruence.
      exists bottom, bn, bp. auto.
    + (* a new leaf *)
      right. destruct Hpos as (Hd & Hdlt & Hag & Hflip & Hparent).
      exists hd, node, n, d.
      rewrite (proj2 (Z.eqb_neq d width) ltac:(lia)) in Hadd.
      inv_bind Hadd as h1 Hs1.
      apply store_Done in Hs1 as (z & Hz & ->). rewrite lookup_insert_eq in Hz.
      injection Hz as <-. rewrite insert_insert_eq in Hadd.
      change (with_bit (pfx_bitlen prefix) (with_prefix (Some prefix) zero_node))
        with (leaf_of prefix) in Hadd.
      inv_bind Hadd as res Hsplit. destruct res as [h2 head2].
      assert (∃ h3, (h3 = h2 ∨ ∃ target first,
                       register_netmask fuel h2 new netmask = Done (h3, target, first))
                    ∧ tree' = {| t_heap := h3; t_head := head2 |} ∧ r = Some new)
        as (h3 & Hh3 & -> & ->).
      { destruct (netmask_is_host netmask).
        - injection Hadd as <- <-. exists h2. auto.
        - inv_bind Hadd as res Hreg. destruct res as [[h3 target] first].
          injection Hadd as <- <-. exists h3. split; [right; eauto|auto]. }
      exists h2, head2, h3. auto 12.
  - (* the first node of the tree *)
    left. pose proof (R0 eq_refl) as ->. split; [reflexivity|]. split; [reflexivity|].
    inv_bind Hadd as h1 Hs1.
    apply store_Done in Hs1 as (z & Hz & ->). rewrite lookup_insert_eq in Hz.
    injection Hz as <-. rewrite insert_insert_eq in Hadd.
    change (with_bit (pfx_bitlen prefix) (with_prefix (Some prefix) zero_node))
      with (leaf_of prefix) in Hadd.
    destruct (netmask_is_host netmask).
    + injection Hadd as <- <-. split; [reflexivity|]. exists (leaf_of prefix). auto.
    + inv_bind Hadd as h2 Hs2. injection Hadd as <- <-.
      apply store_Done in Hs2 as (z & Hz & ->). rewrite lookup_insert_eq in Hz.
      injection Hz as <-. rewrite insert_insert_eq. split; [reflexivity|].
      eexists. split; [reflexivity|]. auto.
Qed.


(** ** The tree of keys after a split *)

Lemma add_split_lookup h0 rank hd node n new leaf stream d h2 head2 :
  map_Forall (node_linked h0 rank) h0 →
  h0 !! node = Some n → h0 !! new = None →
  add_split (<[new := leaf]> h0) (Some hd) node n new stream d = Done (h2, head2) →
  ∃ b inter keep moved,
    bit_test stream d = Done b
    ∧ h0 !! inter = None ∧ inter ≠ new
    ∧ head2 = Some (match n_parent n with Some _ => hd | None => inter end)
    ∧ ∀ x, h2 !! x = split_heap h0 node n new leaf inter d b keep moved x.
Proof.
  intros Hl Hn Hnew Hsplit.
  assert (node ≠ new) as Hnn by (intros ->; congruence).
  destruct (Hl node n Hn) as (_ & Hnpar & _).
  destruct (add_split_heap (<[new:=leaf]> h0) hd node n new leaf stream d h2 head2)
    as (b & inter & keep & moved & Hb & Es & Hifresh & Hi2 & Hnode2 & Hnew2 & Hother2 & HP2).
  { rewrite lookup_insert_ne by congruence. exact Hn. }
  { apply lookup_insert_eq. }
  { exact Hnn. }
  { intros p Ep. destruct (Hnpar p Ep) as ((np & Hnp) & Hr).
    split; [intros ->; lia|]. split; [intros ->; congruence|].
    rewrite lookup_insert_ne by (intros ->; congruence). eauto. }
  { exact Hsplit. }
  assert (inter ≠ new) as Hiw
    by (intros ->; rewrite lookup_insert_eq in Hifresh; discriminate).
  rewrite lookup_insert_ne in Hifresh by congruence.
  exists b, inter, keep, moved. split; [exact Hb|]. split; [exact Hifresh|].
  split; [exact Hiw|]. split.
  { destruct (n_parent n); [destruct HP2 as (-> & _); reflexivity|exact HP2]. }
  intros x. unfold split_heap.
  destruct (decide (x = inter)) as [->|Hxi]; [exact Hi2|].
  destruct (decide (x = node)) as [->|Hxn]; [exact Hnode2|].
  destruct (decide (x = new)) as [->|Hxw]; [exact Hnew2|].
  destruct (decide (n_parent n = Some x)) as [Ep|Ep].
  - rewrite Ep in HP2. destruct HP2 as (_ & pn & Hp & Hp2).
    rewrite lookup_insert_ne in Hp by congruence. rewrite Hp2, Hp. reflexivity.
  - rewrite Hother2 by assumption. apply lookup_insert_ne. congruence.
Qed.

(** The tree after the split is a tree of keys again. *)
Lemma add_split_keyed width key_of h0 rank hd node n new prefix d h2 head2 :
  map_Forall (node_linked h0 rank) h0 →
  rooted {| t_heap := h0; t_head := Some hd |} →
  map_Forall (node_keyed width h0 key_of) h0 →
  h0 !! node = Some n → h0 !! new = None →
  pfx_bitlen prefix = width →
  is_bytes (pfx_stream prefix) →
  Z.of_nat (length (pfx_stream prefix)) = width / 8 →
  0 ≤ d < width → d < n_bit n →
  agree_below (pfx_stream prefix) (key_of node) d →
  (∀ b, bit_test (pfx_stream prefix) d = Done b →
        bit_test (key_of node) d = Done (negb b)) →
  (∀ p pn, n_parent n = Some p → h0 !! p = Some pn → n_bit pn < d) →
  add_split (<[new := leaf_of prefix]> h0) (Some hd) node n new (pfx_stream prefix) d
  = Done (h2, head2) →
  rooted {| t_heap := h2; t_head := head2 |}
  ∧ ∃ key_of', map_Forall (node_keyed width h2 key_of') h2.
Proof.
  intros Hl (_ & R1 & R2) Hk Hn Hnew Hpb Hsb Hsl Hd Hdn Hag Hflip Hpar Hsplit.
  simpl in R1, R2.
  destruct (add_split_lookup _ _ _ _ _ _ _ _ _ _ _ Hl Hn Hnew Hsplit)
    as (b & inter & keep & moved & Hb & Hifresh & Hiw & -> & Hlook).
  assert (node ≠ new) as Hnn by (intros ->; congruence).
  assert (node ≠ inter) as Hni by (intros ->; congruence).
  set (stream := pfx_stream prefix) in *.
  set (leaf := leaf_of prefix) in *.
  (* the nodes of the tree before the split, after it *)
  assert (∀ x nx, h0 !! x = Some nx →
            x ≠ new ∧ x ≠ inter
            ∧ ∃ nx', h2 !! x = Some nx' ∧ n_bit nx' = n_bit nx
                     ∧ n_prefix nx' = n_prefix nx) as Hold.
  { intros x nx Hx. split; [intros ->; congruence|]. split; [intros ->; congruence|].
    rewrite Hlook. unfold split_heap.
    destruct (decide (x = inter)) as [->|_]; [congruence|].
    destruct (decide (x = node)) as [->|_].
    { eexists. split; [reflexivity|]. assert (nx = n) as -> by congruence. auto. }
    destruct (decide (x = new)) as [->|_]; [congruence|].
    destruct (decide (n_parent n = Some x)) as [_|_].
    - rewrite Hx. simpl. eexists. split; [reflexivity|].
      unfold reparent. case_bool_decide; auto.
    - eauto. }
  assert (∀ x nx', h2 !! x = Some nx' → x ≠ new → x ≠ inter →
            ∃ nx, h0 !! x = Some nx ∧ n_bit nx' = n_bit nx) as Hback.
  { intros x nx' Hx Hxw Hxi. rewrite Hlook in Hx. unfold split_heap in Hx.
    destruct (decide (x = inter)) as [->|_]; [congruence|].
    destruct (decide (x = node)) as [->|_].
    { injection Hx as <-. eauto. }
    destruct (decide (x = new)) as [->|_]; [congruence|].
    destruct (decide (n_parent n = Some x)) as [_|_]; [|eauto].
    destruct (h0 !! x) as [nx|]; [|discriminate]. injection Hx as <-.
    exists nx. split; [reflexivity|]. unfold reparent. case_bool_decide; reflexivity. }
  (* the children of an old node are old nodes *)
  assert (∀ x nx (b' : bool) c, h0 !! x = Some nx →
            (if b' then n_right nx else n_left nx) = Some c →
            ∃ nc, h0 !! c = Some nc ∧ n_parent nc = Some x) as Hchild.
  { intros x nx b' c Hx Hc. destruct (Hl x nx Hx) as (Hch & _).
    destruct (Hch c) as (nc & Hnc & Hp & _); [destruct b'; auto|]. eauto. }
  (* an old node keeps what held of its children *)
  assert (∀ x nx, h0 !! x = Some nx →
            ∀ (b' : bool) c nc', (if b' then n_right nx else n_left nx) = Some c →
              h2 !! c = Some nc' →
              n_bit nx < n_bit nc'
              ∧ agree_below (split_key_of key_of node new inter stream c)
                  (split_key_of key_of node new inter stream x) (n_bit nx)
              ∧ bit_test (split_key_of key_of node new inter stream c) (n_bit nx) = Done b')
    as Hdirold.
  { intros x nx Hx b' c nc' Hc Hc2.
    destruct (Hchild x nx b' c Hx Hc) as (nc & Hnc & _).
    destruct (Hold c nc Hnc) as (Hcw & Hci & nc2 & Hnc2 & Ebit & _).
    assert (nc2 = nc') as -> by congruence.
    destruct (Hold x nx Hx) as (Hxw & Hxi & _).
    destruct (Hk x nx Hx) as (_ & _ & _ & _ & _ & Hdir).
    unfold split_key_of.
    rewrite !decide_False by assumption.
    rewrite Ebit. apply (Hdir b' c nc Hc Hnc). }
  destruct (Hk node n Hn) as (Hnb & Hnl & Hn0 & Hnleaf & Hninner & Hndir).
  split.
  - (* every node hangs in the tree *)
    split; [discriminate|]. split; simpl.
    + intros x nx Hx Hp. rewrite Hlook in Hx. unfold split_heap in Hx.
      destruct (decide (x = inter)) as [->|Hxi].
      { injection Hx as <-. simpl in Hp. rewrite Hp. reflexivity. }
      destruct (decide (x = node)) as [->|Hxn]; [injection Hx as <-; discriminate|].
      destruct (decide (x = new)) as [->|Hxw]; [injection Hx as <-; discriminate|].
      assert (∃ nx0, h0 !! x = Some nx0 ∧ n_parent nx0 = None) as (nx0 & Hx0 & Hp0).
      { destruct (decide (n_parent n = Some x)) as [_|_]; [|eauto].
        destruct (h0 !! x) as [nx0|]; [|discriminate]. injection Hx as <-.
        exists nx0. split; [reflexivity|]. unfold reparent in Hp.
        case_bool_decide; exact Hp. }
      pose proof (R1 x nx0 Hx0 Hp0) as Ehd. injection Ehd as ->.
      destruct (n_parent n) as [p|] eqn:Ep; [reflexivity|].
      pose proof (R1 node n Hn Ep) as Ehd. congruence.
    + intros x nx q qn Hx Hq Hqn.
      rewrite Hlook in Hx, Hqn. unfold split_heap in Hx, Hqn.
      destruct (decide (x = inter)) as [->|Hxi].
      { injection Hx as <-. simpl in Hq.
        destruct (decide (q = inter)) as [->|_].
        { destruct (Hl node n Hn) as (_ & Hnp & _).
          destruct (Hnp inter Hq) as ((z & Hz) & _). congruence. }
        destruct (decide (q = node)) as [->|_].
        { destruct (Hl node n Hn) as (_ & Hnp & _). destruct (Hnp node Hq). lia. }
        destruct (decide (q = new)) as [->|_].
        { destruct (Hl node n Hn) as (_ & Hnp & _).
          destruct (Hnp new Hq) as ((z & Hz) & _). congruence. }
        rewrite decide_True in Hqn by exact Hq.
        destruct (h0 !! q) as [qn0|]; [|discriminate]. injection Hqn as <-.
        unfold reparent. case_bool_decide; simpl; auto. }
      destruct (decide (x = node)) as [->|Hxn].
      { injection Hx as <-. simpl in Hq. injection Hq as <-.
        rewrite decide_True in Hqn by reflexivity. injection Hqn as <-.
        unfold inter_node_of. simpl. destruct b; auto. }
      destruct (decide (x = new)) as [->|Hxw].
      { injection Hx as <-. simpl in Hq. injection Hq as <-.
        rewrite decide_True in Hqn by reflexivity. injection Hqn as <-.
        unfold inter_node_of. simpl. destruct b; auto. }
      assert (∃ nx0, h0 !! x = Some nx0 ∧ n_parent nx0 = Some q) as (nx0 & Hx0 & Hq0).
      { destruct (decide (n_parent n = Some x)) as [_|_]; [|eauto].
        destruct (h0 !! x) as [nx0|]; [|discriminate]. injection Hx as <-.
        exists nx0. split; [reflexivity|]. unfold reparent in Hq.
        case_bool_decide; exact Hq. }
      destruct (Hl x nx0 Hx0) as (_ & Hxp & _).
      destruct (Hxp q Hq0) as ((qn0 & Hqn0) & _).
      pose proof (R2 x nx0 q qn0 Hx0 Hq0 Hqn0) as Hc.
      destruct (Hold q qn0 Hqn0) as (Hqw & Hqi & _).
      rewrite decide_False in Hqn by exact Hqi.
      destruct (decide (q = node)) as [->|Hqnode].
      { injection Hqn as <-. simpl. assert (qn0 = n) as -> by congruence. exact Hc. }
      rewrite decide_False in Hqn by exact Hqw.
      destruct (decide (n_parent n = Some q)) as [Eq|_];
        [|assert (qn = qn0) as -> by congruence; exact Hc].
      rewrite Hqn0 in Hqn. injection Hqn as <-.
      unfold reparent. case_bool_decide as Er; simpl.
      * destruct Hc as [Hc|Hc]; [auto|congruence].
      * destruct Hc as [Hc|Hc]; [|auto].
        destruct (R2 node n q qn0 Hn Eq Hqn0) as [Hc'|Hc']; congruence.
  - exists (split_key_of key_of node new inter stream).
    intros x nx Hx. pose proof Hx as Hx2. rewrite Hlook in Hx. unfold split_heap in Hx.
    destruct (decide (x = inter)) as [->|Hxi].
    { (* the intermediate node *)
      injection Hx as <-. unfold node_keyed, split_key_of.
      rewrite (decide_False (P := inter = new)) by exact Hiw.
      rewrite (decide_True (P := inter = inter)) by reflexivity.
      split; [exact Hnb|]. split; [exact Hnl|]. simpl. split; [lia|].
      split; [discriminate|]. split; [intros _; split; [lia|]; destruct b; eauto|].
      intros b' c nc' Hc Hc2.
      assert (c = if eqb b' b then new else node) as Ec
        by (destruct b, b'; simpl in Hc |- *; congruence).
      destruct (eqb b' b) eqn:Ebb.
      - apply eqb_prop in Ebb. subst b' c.
        rewrite Hlook in Hc2. unfold split_heap in Hc2.
        rewrite decide_False in Hc2 by congruence.
        rewrite decide_False in Hc2 by congruence.
        rewrite decide_True in Hc2 by reflexivity. injection Hc2 as <-.
        rewrite (decide_True (P := new = new)) by reflexivity. simpl.
        rewrite Hpb. split; [lia|]. split; [exact Hag|exact Hb].
      - subst c. rewrite Hlook in Hc2. unfold split_heap in Hc2.
        rewrite decide_False in Hc2 by congruence.
        rewrite decide_True in Hc2 by reflexivity. injection Hc2 as <-.
        rewrite (decide_False (P := node = new)) by exact Hnn.
        rewrite (decide_False (P := node = inter)) by exact Hni. simpl.
        split; [exact Hdn|]. split; [apply agree_below_refl|].
        rewrite (Hflip b Hb). f_equal. destruct b, b'; simpl in Ebb |- *; congruence. }
    destruct (decide (x = node)) as [->|Hxn].
    { (* the node, which keeps its bit, its children and its prefix *)
      injection Hx as <-. unfold node_keyed.
      change (n_bit (with_parent _ _)) with (n_bit n).
      change (n_prefix (with_parent _ _)) with (n_prefix n).
      change (n_left (with_parent _ _)) with (n_left n).
      change (n_right (with_parent _ _)) with (n_right n).
      assert (split_key_of key_of node new inter stream node = key_of node) as ->
        by (unfold split_key_of; rewrite !decide_False by assumption; reflexivity).
      split; [exact Hnb|]. split; [exact Hnl|]. split; [exact Hn0|].
      split; [exact Hnleaf|]. split; [exact Hninner|].
      intros b' c nc' Hc Hc2. 
      pose proof (Hdirold node n Hn b' c nc' Hc Hc2) as Hdo.
      unfold split_key_of in Hdo at 2.
      rewrite !decide_False in Hdo by assumption. exact Hdo. }
    destruct (decide (x = new)) as [->|Hxw].
    { (* the new leaf *)
      injection Hx as <-. unfold node_keyed, split_key_of.
      rewrite (decide_True (P := new = new)) by reflexivity. simpl.
      split; [exact Hsb|]. split; [exact Hsl|]. rewrite Hpb. split; [lia|].
      split; [intros p [= <-]; auto|]. split; [discriminate|].
      intros b' c nc' Hc. destruct b'; discriminate. }
    assert (split_key_of key_of node new inter stream x = key_of x) as Ekx
      by (unfold split_key_of; rewrite !decide_False by assumption; reflexivity).
    destruct (decide (n_parent n = Some x)) as [Ep|Ep].
    + (* the parent of the node *)
      destruct (h0 !! x) as [pn|] eqn:Hpn; [|discriminate]. injection Hx as <-.
      destruct (Hk x pn Hpn) as (Hpb1 & Hpl & Hp0 & Hpleaf & Hpinner & Hpdir).
      pose proof (R2 node n x pn Hn Ep Hpn) as Hside.
      destruct (Hl x pn Hpn) as (_ & _ & Hlr).
      assert (n_prefix pn = None) as Hpp.
      { destruct (n_prefix pn) as [pp|] eqn:E; [|reflexivity].
        destruct (Hpleaf pp eq_refl) as (_ & _ & _ & El & Er).
        destruct Hside; congruence. }
      destruct (Hpinner Hpp) as (Hpw & Hpleft & Hpright).
      unfold node_keyed. rewrite Ekx.
      assert (n_bit (reparent node inter pn) = n_bit pn) as ->
        by (unfold reparent; case_bool_decide; reflexivity).
      assert (n_prefix (reparent node inter pn) = None) as Hpp'
        by (unfold reparent; case_bool_decide; exact Hpp).
      split; [exact Hpb1|]. split; [exact Hpl|]. split; [exact Hp0|].
      split; [intros pp Hpp2; congruence|].
      split.
      { intros _. split; [exact Hpw|]. unfold reparent. case_bool_decide; simpl; eauto. }
      intros b' c nc' Hc Hc2.
      destruct (decide (c = inter)) as [->|Hci].
      * (* the intermediate node, in the place of the node *)
        rewrite Hlook in Hc2. unfold split_heap in Hc2.
        rewrite decide_True in Hc2 by reflexivity. injection Hc2 as <-.
        assert ((if b' then n_right pn else n_left pn) = Some node) as Hcn.
        { unfold reparent in Hc. case_bool_decide as Er; destruct b'; simpl in Hc.
          - exact Er.
          - destruct (Hchild x pn false inter Hpn Hc) as (z & Hz & _). congruence.
          - destruct (Hchild x pn true inter Hpn Hc) as (z & Hz & _). congruence.
          - destruct Hside; [assumption|congruence]. }
        destruct (Hpdir b' node n Hcn Hn) as (_ & Hag1 & Hbit1).
        unfold split_key_of.
        rewrite (decide_False (P := inter = new)) by exact Hiw.
        rewrite (decide_True (P := inter = inter)) by reflexivity.
        simpl. split; [exact (Hpar x pn Ep Hpn)|]. auto.
      * (* the other child *)
        assert ((if b' then n_right pn else n_left pn) = Some c) as Hc0.
        { unfold reparent in Hc. case_bool_decide as Er; destruct b'; simpl in Hc;
            congruence. }
        pose proof (Hdirold x pn Hpn b' c nc' Hc0 Hc2) as Hdo.
        rewrite Ekx in Hdo. exact Hdo.
    + (* any other node *)
      destruct (Hk x nx Hx) as (Hxb & Hxl & Hx0 & Hxleaf & Hxinner & Hxdir).
      unfold node_keyed. rewrite Ekx.
      split; [exact Hxb|]. split; [exact Hxl|]. split; [exact Hx0|].
      split; [exact Hxleaf|]. split; [exact Hxinner|].
      intros b' c nc' Hc Hc2. pose proof (Hdirold x nx Hx b' c nc' Hc Hc2) as Hdo.
      rewrite Ekx in Hdo. exact Hdo.
Qed.


(** ** Insertion keeps a tree of keys *)

Lemma register_netmask_same_keys fuel h node netmask h' target first :
  register_netmask fuel h node netmask = Done (h', target, first) → same_keys h h'.
Proof.
  intros H. unfold register_netmask in H.
  inv_bind H as n Hn. inv_bind H as t Ht. inv_bind H as tn Htn. inv_bind H as h1 Hs.
  injection H as <- <- <-. eapply same_keys_store; [|exact Hs]. intros m. reflexivity.
Qed.

Lemma add_existing_same_keys fuel tree node n np prefix user netmask tree' r :
  n_prefix n = Some np → t_heap tree !! node = Some n →
  add_existing fuel tree node n prefix user netmask = Done (tree', r) →
  t_head tree' = t_head tree ∧ same_keys (t_heap tree) (t_heap tree').
Proof.
  intros Hnp Hn H. unfold add_existing in H. rewrite Hnp in H.
  destruct (SCRadixPrefixContainNetmask _ _);
    [injection H as <- <-; split; [reflexivity|apply same_keys_refl]|].
  inv_bind H as np' Hadd. inv_bind H as h1 Hs.
  assert (same_keys (t_heap tree) h1) as H1.
  { apply store_Done in Hs as (m & Hm & ->). rewrite Hn in Hm. injection Hm as <-.
    intros x. destruct (decide (x = node)) as [->|Hne].
    - rewrite lookup_insert_eq, Hn. simpl. f_equal. unfold key_view. simpl.
      rewrite Hnp. simpl. unfold SCRadixAddNetmaskUserDataToPrefix in Hadd.
      destruct (user =? 0); [discriminate|]. injection Hadd as <-. reflexivity.
    - rewrite lookup_insert_ne by congruence. reflexivity. }
  destruct (netmask_is_host netmask); [injection H as <- <-; auto|].
  inv_bind H as res Hreg. destruct res as [[h2 target] first]. injection H as <- <-.
  simpl. split; [reflexivity|].
  exact (same_keys_trans _ _ _ H1 (register_netmask_same_keys _ _ _ _ _ _ _ Hreg)).
Qed.

(** An insertion of a key of [width] bits into a tree of keys of [width]
    bits gives such a tree again. *)
Lemma add_key_key_tree width fuel key tree user netmask tree' r :
  0 < width < 256 →
  key_tree width tree → is_bytes key →
  SCRadixAddKey fuel (Some key) width tree user netmask = Done (tree', r) →
  key_tree width tree'.
Proof.
  intros HW Hkt Hbytes Hadd.
  pose proof (add_key_linked _ _ _ _ _ _ _ _ (proj1 Hkt) Hadd) as Hlinked'.
  destruct Hkt as (Hlinked & Hrooted & key_of & Hk).
  destruct (add_key_normal _ _ _ _ _ _ _ _ _ HW Hlinked Hrooted Hk Hbytes Hadd)
    as [(_ & ->)|(key' & prefix & Hchop & Hmod & Eprefix & Hsb & Hsl & Hcases)].
  { split; [exact Hlinked|]. split; [exact Hrooted|]. eauto. }
  assert (pfx_bitlen prefix = width) as Hpb by (rewrite Eprefix; reflexivity).
  cbv zeta in Hcases.
  destruct Hcases as [(Hhead & Hempty & _ & nn & -> & Hview & Hnnp)
                     |[(node & n & np & Hn & Hnp & Hstream & Hex)
                      |(hd & node & n & d & h2 & head2 & h3 & Hhead & Hn & Hd & Hdn & Hag
                        & Hflip & Hpar & Hsplit & Hh3 & -> & _)]].
  - (* the first node *)
    split; [exact Hlinked'|]. rewrite Hempty in *.
    apply key_view_fields in Hview as (Ebit & El & Er & Ep & _).
    simpl in Ebit, El, Er, Ep.
    split.
    + split; [discriminate|]. split; simpl.
      * intros a m Hm _. apply lookup_insert_Some in Hm as [(<- & _)|(_ & Hm)];
          [reflexivity|]. rewrite lookup_empty in Hm. discriminate.
      * intros a m p pn Hm Hp. apply lookup_insert_Some in Hm as [(<- & <-)|(_ & Hm)];
          [congruence|]. rewrite lookup_empty in Hm. discriminate.
    + exists (λ _, pfx_stream prefix). intros a m Hm. simpl in Hm.
      apply lookup_insert_Some in Hm as [(<- & <-)|(_ & Hm)];
        [|rewrite lookup_empty in Hm; discriminate].
      unfold node_keyed. rewrite Ebit, El, Er, Hnnp, Hpb.
      split; [exact Hsb|]. split; [exact Hsl|]. split; [lia|].
      split; [intros p [= <-]; auto|]. split; [discriminate|].
      intros b c nc Hc. destruct b; discriminate.
  - (* the key is in the tree *)
    destruct (add_existing_same_keys _ _ _ _ _ _ _ _ _ _ Hnp Hn Hex) as (Eh & Hs).
    destruct tree as [h0 head0], tree' as [h' head']. simpl in *. subst head'.
    apply (key_tree_same_keys _ _ _ _ Hs).
    split; [exact Hlinked|]. split; [exact Hrooted|]. eauto.
  - (* a new leaf *)
    destruct tree as [h0 head0]. simpl in *. subst head0.
    destruct Hlinked as (Hhd & rank & Hl). simpl in Hhd, Hl.
    assert (h0 !! fresh (dom h0) = None) as Hfresh by (apply not_elem_of_dom, is_fresh).
    destruct (add_split_keyed _ _ _ _ _ _ _ _ _ _ _ _ Hl Hrooted Hk Hn Hfresh Hpb Hsb Hsl
                Hd Hdn Hag Hflip Hpar Hsplit) as (Hrooted2 & key_of2 & Hk2).
    assert (same_keys h2 h3) as Hs.
    { destruct Hh3 as [->|(target & first & Hreg)]; [apply same_keys_refl|].
      exact (register_netmask_same_keys _ _ _ _ _ _ _ Hreg). }
    split; [exact Hlinked'|]. split; [exact (rooted_same_keys _ _ _ Hs Hrooted2)|].
    exists key_of2. exact (keyed_same_keys _ _ _ _ Hs Hk2).
Qed.


(** ** Lookups and descents in a tree of keys *)

Lemma result_only_same_keys h h' result : result_only h h' result → same_keys h h'.
Proof.
  intros (_ & Hf & _) a. specialize (Hf a).
  destruct (h' !! a) as [n'|], (h !! a) as [n|]; try discriminate; [|reflexivity].
  cbn [fmap option_fmap option_map] in Hf |- *. apply (inj Some) in Hf. f_equal.
  pose proof (f_equal n_bit Hf) as Hb. pose proof (f_equal n_left Hf) as Hl.
  pose proof (f_equal n_right Hf) as Hr. pose proof (f_equal n_parent Hf) as Hp.
  pose proof (f_equal n_prefix Hf) as Hpf. unfold forget_result in Hb, Hl, Hr, Hp, Hpf.
  simpl in Hb, Hl, Hr, Hp, Hpf. unfold key_view. rewrite Hb, Hl, Hr, Hp. f_equal.
  destruct (n_prefix n') as [p'|], (n_prefix n) as [p|]; try discriminate; [|reflexivity].
  simpl in Hpf |- *. injection Hpf as E1 E2 _. rewrite E1, E2. reflexivity.
Qed.

Lemma find_key_key_tree width fuel key_stream key_bitlen tree exact_match tree' r :
  key_tree width tree →
  SCRadixFindKey fuel key_stream key_bitlen tree exact_match = Done (tree', r) →
  key_tree width tree'.
Proof.
  intros Hkt H. apply find_key_frame in H as (Eh & Hr).
  destruct tree as [h head], tree' as [h' head']. simpl in *. subst head'.
  exact (key_tree_same_keys _ _ _ _ (result_only_same_keys _ _ _ Hr) Hkt).
Qed.

Lemma key_tree_empty width : key_tree width SCRadixCreateRadixTree.
Proof.
  split; [|split].
  - split; [discriminate|]. exists (λ _, O). apply map_Forall_empty.
  - split; [reflexivity|]. split; intros a n; simpl; rewrite lookup_empty; discriminate.
  - exists (λ _, []). apply map_Forall_empty.
Qed.

(** In a tree of keys every leaf is at the end of the descent from the
    head by the bits of its key, which takes at most [width] steps. *)
Lemma key_tree_leaf_descent width tree a n p :
  key_tree width tree →
  t_heap tree !! a = Some n → n_prefix n = Some p →
  ∃ head k, t_head tree = Some head
            ∧ descent (t_heap tree) (pfx_stream p) width k head a
            ∧ Z.of_nat k ≤ width.
Proof.
  intros ((Hhead & rank & Hl) & (R0 & R1 & R2) & key_of & Hk) Hn Hp.
  destruct (Hk a n Hn) as (_ & _ & Hn0 & Hleaf & _).
  destruct (Hleaf p Hp) as (Hbit & _ & Hstream & _). rewrite Hstream.
  assert (∀ m x nx k,
            (Z.to_nat (n_bit nx) ≤ m)%nat → t_heap tree !! x = Some nx →
            descent (t_heap tree) (key_of a) width k x a →
            agree_below (key_of a) (key_of x) (n_bit nx) →
            Z.of_nat k + n_bit nx ≤ width →
            ∃ head k', t_head tree = Some head
                       ∧ descent (t_heap tree) (key_of a) width k' head a
                       ∧ Z.of_nat k' ≤ width) as Hclimb.
  { induction m as [|m IH]; intros x nx k Hm Hx Hd Hag Hkb;
      destruct (Hk x nx Hx) as (_ & _ & Hx0 & _);
      (destruct (n_parent nx) as [q|] eqn:Eq;
        [|exists x, k; split; [exact (R1 x nx Hx Eq)|]; split; [exact Hd|lia]]);
      destruct (Hl x nx Hx) as (_ & Hxp & _);
      destruct (Hxp q Eq) as ((qn & Hq) & _);
      destruct (Hk q qn Hq) as (_ & _ & Hq0 & _ & _ & Hdir);
      assert (∃ b : bool, (if b then n_right qn else n_left qn) = Some x) as (b & Hb)
        by (destruct (R2 x nx q qn Hx Eq Hq); [exists false|exists true]; assumption);
      destruct (Hdir b x nx Hb Hx) as (Hlt & Hagq & Hbit').
    - lia.
    - apply (IH q qn (S k)).
      + lia.
      + exact Hq.
      + apply (descent_child _ _ _ k q qn b x a Hq); [lia| |exact Hb|exact Hd].
        rewrite (Hag (n_bit qn)) by lia. exact Hbit'.
      + apply (agree_below_trans _ _ _ _ _ _ Hag Hagq); lia.
      + lia. }
  apply (Hclimb (Z.to_nat (n_bit n)) a n O); [lia|exact Hn|constructor| |lia].
  apply agree_below_refl.
Qed.

(** The lookup follows a descent. *)
Lemma find_walk_down_descent h rank stream bitlen k a x nx fuel :
  map_Forall (node_linked h rank) h →
  descent h stream bitlen k a x →
  h !! x = Some nx → bitlen ≤ n_bit nx → (k ≤ fuel)%nat →
  find_walk_down fuel h stream bitlen a = Done (Some x).
Proof.
  intros Hl Hd Hx Hb Hk. replace fuel with (k + (fuel - k))%nat by lia.
  rewrite (find_along_descent h h rank stream bitlen k a x Hl Hd).
  - apply (find_walk_down_stop _ _ _ _ _ nx Hx Hb).
  - intros y ny Hy _. exists ny. auto.
Qed.

(** In a tree of keys the descent of the lookup ends at a leaf. *)
Lemma find_walk_down_leaf width key_of h rank stream fuel a na :
  map_Forall (node_linked h rank) h →
  map_Forall (node_keyed width h key_of) h →
  0 ≤ width → width ≤ 8 * Z.of_nat (length stream) →
  h !! a = Some na → (Z.to_nat (width - n_bit na) ≤ fuel)%nat →
  ∃ x nx p, find_walk_down fuel h stream width a = Done (Some x)
            ∧ h !! x = Some nx ∧ n_prefix nx = Some p.
Proof.
  intros Hl Hk HW Hlen. revert a na.
  induction fuel as [|fuel IH]; intros a na Ha Hf;
    destruct (Hk a na Ha) as (_ & _ & Ha0 & Hleaf & Hinner & Hdir);
    (destruct (n_prefix na) as [p|] eqn:Ep;
      [destruct (Hleaf p eq_refl) as (Hbit & _); exists a, na, p;
       split; [apply (find_walk_down_stop _ _ _ _ _ na Ha); lia|auto]|]);
    destruct (Hinner eq_refl) as (Hlt & (l & El) & (r & Er)).
  - lia.
  - destruct (bit_test_Done stream (n_bit na)) as (b & Hb); [lia|lia|].
    assert (∃ c, (if b then n_right na else n_left na) = Some c) as (c & Hc)
      by (destruct b; eauto).
    destruct (Hl a na Ha) as (Hch & _).
    destruct (Hch c) as (nc & Hnc & _); [destruct b; auto|].
    destruct (Hdir b c nc Hc Hnc) as (Hcb & _).
    rewrite (find_walk_down_step _ _ _ _ _ na b c Ha Hlt Hb Hc).
    apply (IH c nc Hnc). lia.
Qed.


(** ** The entries that an insertion stores *)

Lemma entries_of_store f a h h' x :
  (∀ n, n_prefix (f n) = n_prefix n) → store f a h = Done h' →
  entries_of h' x = entries_of h x.
Proof.
  intros Hf Hs. apply store_Done in Hs as (n & Hn & ->). unfold entries_of.
  destruct (decide (x = a)) as [->|Hne].
  - rewrite lookup_insert_eq, Hn. simpl. rewrite Hf. reflexivity.
  - rewrite lookup_insert_ne by congruence. reflexivity.
Qed.

Lemma register_netmask_entries fuel h node netmask h' target first x :
  register_netmask fuel h node netmask = Done (h', target, first) →
  entries_of h' x = entries_of h x.
Proof.
  intros H. unfold register_netmask in H.
  inv_bind H as n Hn. inv_bind H as t Ht. inv_bind H as tn Htn. inv_bind H as h1 Hs.
  injection H as <- <- <-. eapply entries_of_store; [|exact Hs]. intros m. reflexivity.
Qed.

(** What an insertion into a tree of keys of one width stores: the
    entries of one node [a] change, which either is a new leaf with the
    one entry of the insertion, or is the leaf of the key, whose list
    gains the entry unless it has one for the netmask. *)
Lemma add_key_entries width fuel key tree user netmask tree' r :
  0 < width < 256 →
  key_tree width tree → is_bytes key →
  SCRadixAddKey fuel (Some key) width tree user netmask = Done (tree', r) →
  (width mod 8 ≠ 0 ∧ tree' = tree)
  ∨ ∃ key' a,
      SCRadixChopIPAddressAgainstNetmask (Some key) netmask width = Done (Some key')
      ∧ width mod 8 = 0
      ∧ (∀ x, x ≠ a → entries_of (t_heap tree') x = entries_of (t_heap tree) x)
      ∧ let s := take (Z.to_nat (width / 8)) key' in
        let e := SCRadixAllocSCRadixUserData netmask user in
        (entries_of (t_heap tree) a = None ∧ entries_of (t_heap tree') a = Some (s, [e]))
        ∨ ∃ l, entries_of (t_heap tree) a = Some (s, l)
               ∧ entries_of (t_heap tree') a
                 = Some (s, if existsb (λ ud, ud_netmask ud =? netmask) l then l
                            else SCRadixAppendToSCRadixUserDataList e l).
Proof.
  intros HW (Hlinked & Hrooted & key_of & Hk) Hbytes Hadd.
  destruct (add_key_normal _ _ _ _ _ _ _ _ _ HW Hlinked Hrooted Hk Hbytes Hadd)
    as [(Hmod & ->)|(key' & prefix & Hchop & Hmod & Eprefix & Hsb & Hsl & Hcases)];
    [left; auto|right].
  cbv zeta in Hcases.
  assert (pfx_stream prefix = take (Z.to_nat (width / 8)) key') as Hps
    by (rewrite Eprefix; reflexivity).
  assert (pfx_user_data prefix = [SCRadixAllocSCRadixUserData netmask user]) as Hpu
    by (rewrite Eprefix; reflexivity).
  destruct Hcases as [(Hhead & Hempty & _ & nn & -> & Hview & Hnnp)
                     |[(node & n & np & Hn & Hnp & Hstream & Hex)
                      |(hd & node & n & d & h2 & head2 & h3 & Hhead & Hn & Hd & Hdn & Hag
                        & Hflip & Hpar & Hsplit & Hh3 & -> & _)]].
  - (* the first node *)
    exists key', (fresh (dom (t_heap tree))). split; [exact Hchop|]. split; [exact Hmod|].
    rewrite Hempty. cbn [t_heap]. split.
    + intros x Hx. unfold entries_of. rewrite lookup_insert_ne by congruence. reflexivity.
    + left. unfold entries_of. rewrite lookup_empty, lookup_insert_eq. simpl.
      rewrite Hnnp. simpl. rewrite Hps, Hpu. auto.
  - (* the key is in the tree *)
    exists key', node. split; [exact Hchop|]. split; [exact Hmod|].
    assert (entries_of (t_heap tree) node = Some (pfx_stream prefix, pfx_user_data np)) as He
      by (unfold entries_of; rewrite Hn; simpl; rewrite Hnp; simpl; rewrite Hstream; reflexivity).
    rewrite Hps in He.
    unfold add_existing in Hex. rewrite Hnp in Hex.
    unfold SCRadixPrefixContainNetmask in Hex.
    destruct (existsb _ (pfx_user_data np)) eqn:Ec.
    { injection Hex as <- <-. split; [reflexivity|]. right.
      exists (pfx_user_data np). rewrite Ec. auto. }
    inv_bind Hex as np' Hnp'. inv_bind Hex as h1 Hs.
    unfold SCRadixAddNetmaskUserDataToPrefix in Hnp'.
    destruct (user =? 0); [discriminate|]. injection Hnp' as <-.
    apply store_Done in Hs as (m & Hm & ->). rewrite Hn in Hm. injection Hm as <-.
    assert (∀ h', (∀ x, entries_of h' x = entries_of (<[node := with_prefix (Some
              {| pfx_bitlen := pfx_bitlen np; pfx_stream := pfx_stream np;
                 pfx_user_data := SCRadixAppendToSCRadixUserDataList
                                    (SCRadixAllocSCRadixUserData netmask user)
                                    (pfx_user_data np);
                 pfx_user_data_result := pfx_user_data_result np |}) n]> (t_heap tree)) x) →
            (∀ x, x ≠ node → entries_of h' x = entries_of (t_heap tree) x)
            ∧ ((entries_of (t_heap tree) node = None
                ∧ entries_of h' node
                  = Some (take (Z.to_nat (width / 8)) key',
                          [SCRadixAllocSCRadixUserData netmask user]))
               ∨ ∃ l, entries_of (t_heap tree) node
                      = Some (take (Z.to_nat (width / 8)) key', l)
                      ∧ entries_of h' node
                        = Some (take (Z.to_nat (width / 8)) key',
                                if existsb (λ ud, ud_netmask ud =? netmask) l then l
                                else SCRadixAppendToSCRadixUserDataList
                                       (SCRadixAllocSCRadixUserData netmask user) l)))
      as Hfin.
    { intros h' Hh'. split.
      - intros x Hx. rewrite Hh'. unfold entries_of.
        rewrite lookup_insert_ne by congruence. reflexivity.
      - right. exists (pfx_user_data np). split; [exact He|]. rewrite Ec, Hh'.
        unfold entries_of. rewrite lookup_insert_eq. simpl. rewrite Hstream, Hps.
        reflexivity. }
    destruct (netmask_is_host netmask).
    + injection Hex as <- <-. cbn [t_heap]. apply Hfin. reflexivity.
    + inv_bind Hex as res Hreg. destruct res as [[h2 target] first].
      injection Hex as <- <-. cbn [t_heap]. apply Hfin.
      intros x. exact (register_netmask_entries _ _ _ _ _ _ _ x Hreg).
  - (* a new leaf *)
    exists key', (fresh (dom (t_heap tree))). split; [exact Hchop|]. split; [exact Hmod|].
    destruct Hlinked as (_ & rank & Hl).
    assert (t_heap tree !! fresh (dom (t_heap tree)) = None) as Hfresh
      by (apply not_elem_of_dom, is_fresh).
    set (new := fresh (dom (t_heap tree))) in *.
    destruct (add_split_lookup _ _ _ _ _ _ _ _ _ _ _ Hl Hn Hfresh Hsplit)
      as (b & inter & keep & moved & Hb & Hifresh & Hiw & _ & Hlook).
    assert (∀ x, entries_of h3 x = entries_of h2 x) as H32.
    { intros x. destruct Hh3 as [->|(target & first & Hreg)]; [reflexivity|].
      exact (register_netmask_entries _ _ _ _ _ _ _ x Hreg). }
    cbn [t_heap]. split.
    + intros x Hx. rewrite H32. unfold entries_of at 1. rewrite Hlook. unfold split_heap.
      destruct (decide (x = inter)) as [->|_].
      { simpl. unfold entries_of. rewrite Hifresh. reflexivity. }
      destruct (decide (x = node)) as [->|_].
      { simpl. unfold entries_of. rewrite Hn. reflexivity. }
      rewrite decide_False by exact Hx.
      destruct (decide (n_parent n = Some x)) as [_|_]; [|reflexivity].
      unfold entries_of. destruct (t_heap tree !! x) as [pn|]; [|reflexivity]. simpl.
      unfold reparent. case_bool_decide; reflexivity.
    + left. split; [unfold entries_of; rewrite Hfresh; reflexivity|].
      rewrite H32. unfold entries_of. rewrite Hlook. unfold split_heap.
      rewrite decide_False by congruence.
      rewrite decide_False by (intros E; rewrite <- E in Hn; congruence).
      rewrite decide_True by reflexivity. simpl. rewrite Hps, Hpu. reflexivity.
Qed.


Lemma result_only_entries h h' result x :
  result_only h h' result → entries_of h' x = entries_of h x.
Proof.
  intros (_ & Hf & _). specialize (Hf x). unfold entries_of.
  destruct (h' !! x) as [n'|], (h !! x) as [n|]; try discriminate; [|reflexivity].
  cbn [fmap option_fmap option_map] in Hf. apply (inj Some) in Hf.
  apply (f_equal n_prefix) in Hf. unfold forget_result in Hf. simpl in Hf |- *.
  destruct (n_prefix n') as [p'|], (n_prefix n) as [p|]; try discriminate; [|reflexivity].
  simpl in Hf |- *. injection Hf as _ E1 E2. rewrite E1, E2. reflexivity.
Qed.

Lemma find_key_entries fuel key_stream key_bitlen tree exact_match tree' r x :
  SCRadixFindKey fuel key_stream key_bitlen tree exact_match = Done (tree', r) →
  entries_of (t_heap tree') x = entries_of (t_heap tree) x.
Proof.
  intros H. apply find_key_frame in H as (_ & Hr). exact (result_only_entries _ _ _ _ Hr).
Qed.

Lemma existsb_netmask netmask l :
  existsb (λ ud, ud_netmask ud =? netmask) l = true ↔ netmask ∈ ud_netmasks l.
Proof.
  unfold ud_netmasks. rewrite existsb_exists, list_elem_of_fmap. split.
  - intros (x & Hx & E). apply Z.eqb_eq in E. exists x. split; [auto|].
    apply list_elem_of_In, Hx.
  - intros (x & E & Hx). exists x. split; [apply list_elem_of_In, Hx|]. apply Z.eqb_eq. auto.
Qed.

(** The entry for the largest netmask is the head of the list. *)
Lemma widest_entry_first width netmask user l :
  ud_strictly_descending l → Forall (λ ud, ud_netmask ud ≤ width) l →
  SCRadixAllocSCRadixUserData netmask user ∈ l → netmask = width →
  ∃ tl, l = SCRadixAllocSCRadixUserData netmask user :: tl.
Proof.
  intros Hs Hf Hin ->. destruct l as [|hd tl]; [inversion Hin|]. exists tl. f_equal.
  apply elem_of_cons in Hin as [Hin|Hin]; [congruence|exfalso].
  unfold ud_strictly_descending, ud_netmasks in Hs. simpl in Hs.
  apply StronglySorted_inv in Hs as (_ & Hhd).
  rewrite Forall_forall in Hhd.
  specialize (Hhd width). rewrite list_elem_of_fmap in Hhd.
  apply Forall_cons in Hf as (Hle & _).
  assert (ud_netmask hd > width); [|lia]. apply Hhd. eexists. split; [|exact Hin]. reflexivity.
Qed.


(** ** Removal keeps a tree of keys *)

(** A lookup that returns, returns the end of the descent. *)
Lemma find_walk_down_end h stream bitlen k a x nx fuel r :
  descent h stream bitlen k a x →
  h !! x = Some nx → bitlen ≤ n_bit nx →
  find_walk_down fuel h stream bitlen a = Done r → r = Some x.
Proof.
  intros Hd Hx Hb. revert fuel.
  induction Hd as [a|k a n b c x Hn Hlt Hbit Hc Hd IH]; intros fuel H.
  - rewrite (find_walk_down_stop _ _ _ _ _ nx Hx Hb) in H. congruence.
  - destruct fuel as [|fuel].
    + simpl in H. rewrite (load_lookup _ _ _ Hn) in H. simpl in H.
      destruct (Z.ltb_spec (n_bit n) bitlen); [discriminate|lia].
    + rewrite (find_walk_down_step _ _ _ _ _ n b c Hn Hlt Hbit Hc) in H.
      exact (IH Hx fuel H).
Qed.

(** In a tree of keys every node is at the end of a descent from the
    head. *)
Lemma key_tree_node_descent width tree x nx :
  key_tree width tree →
  t_heap tree !! x = Some nx →
  ∃ head k stream, t_head tree = Some head
                   ∧ descent (t_heap tree) stream width k head x.
Proof.
  intros ((Hhead & rank & Hl) & (R0 & R1 & R2) & key_of & Hk) Hx0.
  assert (∀ m y ny k,
            (Z.to_nat (n_bit ny) ≤ m)%nat → t_heap tree !! y = Some ny →
            descent (t_heap tree) (key_of x) width k y x →
            agree_below (key_of x) (key_of y) (n_bit ny) →
            ∃ head k', t_head tree = Some head
                       ∧ descent (t_heap tree) (key_of x) width k' head x) as Hclimb.
  { induction m as [|m IH]; intros y ny k Hm Hy Hd Hag;
      destruct (Hk y ny Hy) as (_ & _ & Hy0 & Hyleaf & Hyinner & _);
      (destruct (n_parent ny) as [q|] eqn:Eq;
        [|exists y, k; split; [exact (R1 y ny Hy Eq)|exact Hd]]);
      destruct (Hl y ny Hy) as (_ & Hyp & _);
      destruct (Hyp q Eq) as ((qn & Hq) & _);
      destruct (Hk q qn Hq) as (_ & _ & Hq0 & Hqleaf & Hqinner & Hdir);
      assert (∃ b : bool, (if b then n_right qn else n_left qn) = Some y) as (b & Hb)
        by (destruct (R2 y ny q qn Hy Eq Hq); [exists false|exists true]; assumption);
      destruct (Hdir b y ny Hb Hy) as (Hlt & Hagq & Hbit').
    - lia.
    - apply (IH q qn (S k)).
      + lia.
      + exact Hq.
      + apply (descent_child _ _ _ k q qn b y x Hq); [| |exact Hb|exact Hd].
        * destruct (n_prefix qn) as [pq|] eqn:Epq; [|destruct (Hqinner eq_refl); lia].
          destruct (Hqleaf pq eq_refl) as (_ & _ & _ & El & Er). destruct b; congruence.
        * rewrite (Hag (n_bit qn)) by lia. exact Hbit'.
      + apply (agree_below_trans _ _ _ _ _ _ Hag Hagq); lia. }
  destruct (Hclimb (Z.to_nat (n_bit nx)) x nx O) as (head & k & Hh & Hd);
    [lia|exact Hx0|constructor|apply agree_below_refl|].
  exists head, k, (key_of x). auto.
Qed.

(** A tree of keys whose head is a leaf has no other node. *)
Lemma key_tree_head_leaf width tree hd n p :
  key_tree width tree →
  t_head tree = Some hd → t_heap tree !! hd = Some n → n_prefix n = Some p →
  delete hd (t_heap tree) = ∅.
Proof.
  intros Hkt Hh Hn Hp. apply map_eq. intros x. rewrite lookup_empty.
  destruct (decide (x = hd)) as [->|Hne]; [apply lookup_delete_eq|].
  rewrite lookup_delete_ne by congruence.
  destruct (t_heap tree !! x) as [nx|] eqn:Hx; [exfalso|reflexivity].
  destruct (key_tree_node_descent _ _ _ _ Hkt Hx) as (head & k & stream & Hh' & Hd).
  assert (head = hd) as -> by congruence.
  destruct Hkt as (_ & _ & key_of & Hk).
  destruct (Hk hd n Hn) as (_ & _ & _ & Hleaf & _).
  destruct (Hleaf p Hp) as (Hbit & _).
  destruct (descent_inv _ _ _ _ _ _ Hd) as [(_ & E)|(k' & n1 & b1 & c & _ & Hn1 & Hlt1 & _)];
    [congruence|].
  assert (n1 = n) as -> by congruence. lia.
Qed.


Lemma transfer_netmasks_lookup h dest src dn h' :
  h !! dest = Some dn →
  SCRadixTransferNetmasksBWNodes h (Some dest) (Some src) = Done h' →
  ∃ masks, h' = <[dest := with_netmasks masks dn]> h.
Proof.
  intros Hd H. unfold SCRadixTransferNetmasksBWNodes in H.
  inv_bind H as sn Hsn. destruct (n_netmasks sn).
  - inv_bind H as dn' Hdn. apply load_Done in Hdn. assert (dn' = dn) as -> by congruence.
    destruct (_ && _); [discriminate|].
    apply store_Done in H as (m & Hm & ->). assert (m = dn) as -> by congruence. eauto.
  - injection H as <-. exists (n_netmasks dn). symmetry. apply insert_id.
    rewrite Hd. destruct dn; reflexivity.
Qed.

(** The arena after the removal of a leaf that is not the head. *)
Lemma unlink_lookup width key_of h rank head node n p tree' :
  map_Forall (node_linked h rank) h →
  rooted {| t_heap := h; t_head := Some head |} →
  map_Forall (node_keyed width h key_of) h →
  h !! node = Some n → n_prefix n = Some p → node ≠ head →
  unlink_node h head node n = Done tree' →
  ∃ parent pn sib sn sn',
    n_parent n = Some parent ∧ h !! parent = Some pn ∧ n_prefix pn = None
    ∧ h !! sib = Some sn ∧ n_parent sn = Some parent
    ∧ sib ≠ node ∧ sib ≠ parent ∧ node ≠ parent
    ∧ (∃ b : bool, (if b then n_right pn else n_left pn) = Some sib
                   ∧ (if b then n_left pn else n_right pn) = Some node)
    ∧ n_bit sn' = n_bit sn ∧ n_left sn' = n_left sn ∧ n_right sn' = n_right sn
    ∧ n_prefix sn' = n_prefix sn ∧ n_parent sn' = n_parent pn
    ∧ t_head tree' = Some (match n_parent pn with Some _ => head | None => sib end)
    ∧ ∀ x, t_heap tree' !! x = unlink_heap h node parent sib sn' (n_parent pn) x.
Proof.
  intros Hl (_ & R1 & R2) Hk Hn Hp Hnh Hun. simpl in R1, R2.
  unfold unlink_node in Hun.
  destruct (n_parent n) as [parent|] eqn:Epar;
    [|pose proof (R1 node n Hn Epar); congruence].
  inv_bind Hun as pn Hpn. apply load_Done in Hpn.
  pose proof (R2 node n parent pn Hn Epar Hpn) as Hside.
  destruct (Hk parent pn Hpn) as (_ & _ & _ & Hpleaf & Hpinner & _).
  assert (n_prefix pn = None) as Hpp.
  { destruct (n_prefix pn) as [pp|] eqn:E; [|reflexivity].
    destruct (Hpleaf pp eq_refl) as (_ & _ & _ & El & Er). destruct Hside; congruence. }
  destruct (Hpinner Hpp) as (_ & (l & El) & (r & Er)).
  destruct (Hl parent pn Hpn) as (Hpch & Hppar & Hplr).
  destruct (Hl node n Hn) as (_ & Hnpar & _).
  destruct (Hnpar parent Epar) as (_ & Hrank).
  assert (node ≠ parent) as Hnp by (intros ->; lia).
  assert (∃ (b : bool) sib, (if b then n_right pn else n_left pn) = Some sib
            ∧ (if b then n_left pn else n_right pn) = Some node
            ∧ sibling_of pn pn node = Some sib ∧ sib ≠ node) as (b & sib & Hsib & Hnode & Hsof & Hsn).
  { unfold sibling_of. destruct Hside as [Hs|Hs].
    - exists true, r. rewrite bool_decide_eq_true_2 by exact Hs.
      split; [exact Er|]. split; [exact Hs|]. split; [exact Er|].
      intros ->. exact (Hplr node Hs Er).
    - exists false, l. rewrite bool_decide_eq_false_2 by (intros E; exact (Hplr node E Hs)).
      split; [exact El|]. split; [exact Hs|]. split; [exact El|].
      intros ->. exact (Hplr node El Hs). }
  destruct (Hpch sib) as (sn & Hsnode & Hspar & Hsrank); [destruct b; auto|].
  assert (sib ≠ parent) as Hsp by (intros ->; lia).
  inv_bind Hun as res Hres. destruct res as [[h2 new_head] temp_dest].
  inv_bind Hun as h3 Htr. injection Hun as <-. cbn [t_heap t_head].
  assert (∃ sn2, h2 = <[sib := sn2]> (match n_parent pn with
                                     | Some gp => alter (regrand parent sib) gp h
                                     | None => h
                                     end)
                 ∧ sn2 = with_parent (n_parent pn) sn
                 ∧ new_head = Some (match n_parent pn with Some _ => head | None => sib end)
                 ∧ temp_dest = sib
                 ∧ ∀ gp, n_parent pn = Some gp → gp ≠ sib ∧ gp ≠ parent ∧ gp ≠ node)
    as (sn2 & -> & Esn2 & -> & -> & Hgp).
  { destruct (n_parent pn) as [gp|] eqn:Egp.
    - inv_bind Hres as gn Hgn. apply load_Done in Hgn. rewrite Hsof in Hres.
      inv_bind Hres as h1 Hs1. inv_bind Hres as h2' Hs2. injection Hres as <- <- <-.
      destruct (Hppar gp eq_refl) as (_ & Hgrank).
      assert (gp ≠ sib) as Hgs by (intros ->; lia).
      apply store_Done in Hs1 as (m1 & Hm1 & ->). assert (m1 = gn) as -> by congruence.
      apply store_Done in Hs2 as (m2 & Hm2 & ->).
      rewrite lookup_insert_ne in Hm2 by exact Hgs. assert (m2 = sn) as -> by congruence.
      eexists. split; [|split; [reflexivity|split; [reflexivity|split; [reflexivity|]]]].
      + f_equal. apply map_eq. intros x. destruct (decide (x = gp)) as [->|Hne].
        * rewrite lookup_insert_eq, lookup_alter_eq, Hgn. simpl. f_equal.
          unfold regrand. case_bool_decide; reflexivity.
        * rewrite lookup_insert_ne, lookup_alter_ne by congruence. reflexivity.
      + intros gp' [= <-]. split; [exact Hgs|]. split; intros ->; lia.
    - inv_bind Hres as hn Hhn. apply load_Done in Hhn.
      pose proof (R1 parent pn Hpn Egp) as Eh. injection Eh as <-.
      assert (hn = pn) as -> by congruence. rewrite Hsof in Hres.
      inv_bind Hres as h1 Hs1. injection Hres as <- <- <-.
      apply store_Done in Hs1 as (m1 & Hm1 & ->). assert (m1 = sn) as -> by congruence.
      eexists. split; [reflexivity|]. split; [reflexivity|]. split; [reflexivity|].
      split; [reflexivity|]. discriminate. }
  destruct (transfer_netmasks_lookup _ sib parent sn2 h3 (lookup_insert_eq _ _ _) Htr)
    as (masks & ->).
  rewrite insert_insert_eq.
  exists parent, pn, sib, sn, (with_netmasks masks sn2).
  split; [reflexivity|]. split; [exact Hpn|]. split; [exact Hpp|]. split; [exact Hsnode|].
  split; [exact Hspar|]. split; [exact Hsn|]. split; [exact Hsp|]. split; [exact Hnp|].
  split; [exists b; auto|]. rewrite Esn2. simpl.
  do 5 (split; [reflexivity|]). split; [reflexivity|].
  intros x. unfold unlink_heap.
  destruct (decide (x = node)) as [->|Hxn]; [apply lookup_delete_eq|].
  rewrite lookup_delete_ne by congruence.
  destruct (decide (x = parent)) as [->|Hxp]; [apply lookup_delete_eq|].
  rewrite lookup_delete_ne by congruence.
  destruct (decide (x = sib)) as [->|Hxs]; [apply lookup_insert_eq|].
  rewrite lookup_insert_ne by congruence.
  destruct (n_parent pn) as [gp|] eqn:Egp.
  - destruct (decide (Some gp = Some x)) as [[= ->]|Hne].
    + rewrite lookup_alter_eq. reflexivity.
    + rewrite lookup_alter_ne by congruence. reflexivity.
  - rewrite decide_False by discriminate. reflexivity.
Qed.


(** The children of the grandparent after the removal. *)
Lemma regrand_children parent sib gn :
  n_left gn = Some parent ∨ n_right gn = Some parent →
  (∀ c, n_left gn = Some c → n_right gn ≠ Some c) →
  ∃ bg : bool,
    (if bg then n_right gn else n_left gn) = Some parent
    ∧ (if bg then n_right (regrand parent sib gn) else n_left (regrand parent sib gn))
      = Some sib
    ∧ (if bg then n_left (regrand parent sib gn) else n_right (regrand parent sib gn))
      = (if bg then n_left gn else n_right gn).
Proof.
  intros Hside Hlr. unfold regrand. destruct Hside as [Hs|Hs].
  - exists false. rewrite bool_decide_eq_true_2 by exact Hs. auto.
  - exists true. rewrite bool_decide_eq_false_2 by (intros E; exact (Hlr parent E Hs)). auto.
Qed.

Lemma regrand_fields parent sib gn :
  n_bit (regrand parent sib gn) = n_bit gn
  ∧ n_prefix (regrand parent sib gn) = n_prefix gn
  ∧ n_parent (regrand parent sib gn) = n_parent gn.
Proof. unfold regrand. case_bool_decide; auto. Qed.

(** The tree after the removal of a leaf that is not the head is a tree of
    keys again. *)
Lemma unlink_key_tree width h head node n p tree' :
  key_tree width {| t_heap := h; t_head := Some head |} →
  h !! node = Some n → n_prefix n = Some p → node ≠ head →
  unlink_node h head node n = Done tree' →
  key_tree width tree'.
Proof.
  intros ((Hhead & rank & Hl) & Hrooted & key_of & Hk) Hn Hp Hnh Hun.
  simpl in Hhead, Hl, Hk.
  destruct (unlink_lookup _ _ _ _ _ _ _ _ _ Hl Hrooted Hk Hn Hp Hnh Hun)
    as (parent & pn & sib & sn & sn' & Epar & Hpn & Hpp & Hsn & Hspar & Hsnode & Hsp & Hnp
        & (b & Hsib & Hnode) & Esb & Esl & Esr & Esp & Espar & Ehead & Hlook).
  destruct Hrooted as (_ & R1 & R2). simpl in R1, R2.
  destruct tree' as [h' head']. simpl in Ehead, Hlook. subst head'.
  destruct (Hk node n Hn) as (_ & _ & _ & Hnleaf & _).
  destruct (Hnleaf p Hp) as (Hnbit & _ & _ & Hnl & Hnr).
  destruct (Hl parent pn Hpn) as (Hpch & Hppar & Hplr).
  destruct (Hk parent pn Hpn) as (_ & _ & Hp0 & _ & _ & Hpdir).
  destruct (Hpdir b sib sn Hsib Hsn) as (Hpsbit & Hpsag & Hpsbt).
  (* a child pointer to the leaf or to its parent starts at the parent or
     at the grandparent *)
  assert (∀ x nx c, h !! x = Some nx → n_left nx = Some c ∨ n_right nx = Some c →
            (c = node → x = parent) ∧ (c = sib → x = parent)
            ∧ (c = parent → n_parent pn = Some x)) as Hptr.
  { intros x nx c Hx Hc. destruct (Hl x nx Hx) as (Hch & _).
    destruct (Hch c Hc) as (nc & Hnc & Hcp & _).
    split; [|split]; intros ->; congruence. }
  (* a parent pointer does not lead to the leaf or to its parent *)
  assert (∀ x nx q, h !! x = Some nx → n_parent nx = Some q → x ≠ node → x ≠ sib →
            q ≠ node ∧ q ≠ parent) as Hup.
  { intros x nx q Hx Hq Hxn Hxs. split; intros ->.
    - destruct (R2 x nx node n Hx Hq Hn); congruence.
    - destruct (R2 x nx parent pn Hx Hq Hpn) as [E|E]; destruct b; congruence. }
  assert (∀ gp, n_parent pn = Some gp →
            gp ≠ node ∧ gp ≠ parent ∧ gp ≠ sib
            ∧ ∃ gn, h !! gp = Some gn ∧ h' !! gp = Some (regrand parent sib gn)
                    ∧ (n_left gn = Some parent ∨ n_right gn = Some parent)
                    ∧ (rank parent < rank gp)%nat) as Hgp.
  { intros gp Egp. destruct (Hppar gp Egp) as ((gn & Hgn) & Hr).
    destruct (Hl node n Hn) as (_ & Hnpar & _). destruct (Hnpar parent Epar) as (_ & Hr1).
    destruct (Hpch sib) as (sn1 & Hsn1 & _ & Hr2); [destruct b; auto|].
    assert (gp ≠ node) as H1 by (intros ->; lia).
    assert (gp ≠ parent) as H2 by (intros ->; lia).
    assert (gp ≠ sib) as H3 by (intros ->; lia).
    split; [exact H1|]. split; [exact H2|]. split; [exact H3|].
    exists gn. split; [exact Hgn|]. split.
    - rewrite Hlook. unfold unlink_heap. rewrite !decide_False by assumption.
      rewrite decide_True by exact Egp. rewrite Hgn. reflexivity.
    - split; [exact (R2 parent pn gp gn Hpn Egp Hgn)|exact Hr]. }
  (* the nodes after the removal are nodes before it *)
  assert (∀ x nx', h' !! x = Some nx' →
            x ≠ node ∧ x ≠ parent
            ∧ ∃ nx, h !! x = Some nx ∧ n_bit nx' = n_bit nx ∧ n_prefix nx' = n_prefix nx
                    ∧ n_parent nx' = (if decide (x = sib) then n_parent pn else n_parent nx)
                    ∧ (n_parent pn ≠ Some x →
                       n_left nx' = n_left nx ∧ n_right nx' = n_right nx)) as Hback.
  { intros x nx' Hx. rewrite Hlook in Hx. unfold unlink_heap in Hx.
    destruct (decide (x = node)) as [->|Hxn]; [discriminate|].
    destruct (decide (x = parent)) as [->|Hxp]; [discriminate|].
    split; [exact Hxn|]. split; [exact Hxp|].
    destruct (decide (x = sib)) as [->|Hxs].
    { injection Hx as <-. exists sn. auto 10. }
    destruct (decide (n_parent pn = Some x)) as [Egp|Egp].
    - destruct (h !! x) as [gn|] eqn:Hgn; [|discriminate]. injection Hx as <-.
      exists gn. split; [reflexivity|].
      destruct (regrand_fields parent sib gn) as (-> & -> & ->). tauto.
    - exists nx'. auto 10. }
  (* and the nodes before it other than the two are nodes after it *)
  assert (∀ x nx, h !! x = Some nx → x ≠ node → x ≠ parent →
            ∃ nx', h' !! x = Some nx' ∧ n_bit nx' = n_bit nx
                   ∧ n_parent nx' = (if decide (x = sib) then n_parent pn else n_parent nx))
    as Hold.
  { intros x nx Hx Hxn Hxp. rewrite Hlook. unfold unlink_heap.
    rewrite !decide_False by assumption.
    destruct (decide (x = sib)) as [->|Hxs].
    { exists sn'. assert (nx = sn) as -> by congruence. auto. }
    destruct (decide (n_parent pn = Some x)) as [Egp|Egp].
    - rewrite Hx. simpl. eexists. split; [reflexivity|].
      destruct (regrand_fields parent sib nx) as (-> & _ & ->). auto.
    - eauto. }
  (* the children after the removal *)
  assert (∀ x nx' (b' : bool) c, h' !! x = Some nx' →
            (if b' then n_right nx' else n_left nx') = Some c →
            ∃ nx nc nc',
              h !! x = Some nx ∧ h !! c = Some nc ∧ h' !! c = Some nc'
              ∧ n_bit nx' = n_bit nx ∧ n_bit nc' = n_bit nc
              ∧ n_parent nc' = Some x ∧ (rank c < rank x)%nat
              ∧ n_bit nx < n_bit nc
              ∧ agree_below (key_of c) (key_of x) (n_bit nx)
              ∧ bit_test (key_of c) (n_bit nx) = Done b') as Hchild.
  { intros x nx' b' c Hx Hc.
    destruct (Hback x nx' Hx) as (Hxn & Hxp & nx & Hx0 & Ebit & _ & _ & Hsame).
    destruct (Hl x nx Hx0) as (Hch & _ & Hlr).
    destruct (Hk x nx Hx0) as (_ & _ & Hx00 & _ & _ & Hdir).
    destruct (decide (n_parent pn = Some x)) as [Egp|Egp].
    - (* the grandparent *)
      destruct (Hgp x Egp) as (_ & _ & Hxs & gn & Hgn & Hgn' & Hgside & Hgrank).
      assert (gn = nx) as -> by congruence.
      assert (nx' = regrand parent sib nx) as -> by congruence.
      destruct (regrand_children parent sib nx Hgside Hlr) as (bg & Hbg & Hbgs & Hbgo).
      destruct (Hdir bg parent pn Hbg Hpn) as (Hgpbit & Hgpag & Hgpbt).
      destruct (Hch parent) as (_ & _ & _ & Hrp); [destruct bg; auto|].
      destruct (Hpch sib) as (_ & _ & _ & Hrs); [destruct b; auto|].
      destruct (decide (b' = bg)) as [->|Hbb].
      + assert (c = sib) as -> by (destruct bg; congruence).
        exists nx, sn, sn'. split; [exact Hx0|]. split; [exact Hsn|]. split.
        { rewrite Hlook. unfold unlink_heap. rewrite !decide_False by assumption.
          rewrite decide_True by reflexivity. reflexivity. }
        split; [exact Ebit|]. split; [exact Esb|]. split; [congruence|].
        split; [lia|]. split; [lia|]. split.
        * apply (agree_below_trans _ _ _ _ _ _ Hpsag Hgpag); lia.
        * rewrite (Hpsag (n_bit nx)) by lia. exact Hgpbt.
      + assert ((if b' then n_right nx else n_left nx) = Some c) as Hc0
          by (destruct b', bg; simpl in *; congruence).
        destruct (Hch c) as (nc & Hnc & Hcp & Hrc); [destruct b'; auto|].
        assert (c ≠ parent) as Hcpar.
        { intros ->. destruct b', bg; simpl in Hc0, Hbg; try congruence.
          - exact (Hlr parent Hbg Hc0).
          - exact (Hlr parent Hc0 Hbg). }
        assert (c ≠ node) as Hcn by (intros ->; congruence).
        assert (c ≠ sib) as Hcs by (intros ->; congruence).
        destruct (Hold c nc Hnc Hcn Hcpar) as (nc' & Hnc' & Ecb & Ecp).
        rewrite decide_False in Ecp by exact Hcs.
        exists nx, nc, nc'. split; [exact Hx0|]. split; [exact Hnc|]. split; [exact Hnc'|].
        split; [exact Ebit|]. split; [exact Ecb|]. split; [congruence|]. split; [exact Hrc|].
        exact (Hdir b' c nc Hc0 Hnc).
    - (* any other node *)
      destruct (Hsame Egp) as (El & Er).
      assert ((if b' then n_right nx else n_left nx) = Some c) as Hc0
        by (destruct b'; congruence).
      destruct (Hch c) as (nc & Hnc & Hcp & Hrc); [destruct b'; auto|].
      assert (n_left nx = Some c ∨ n_right nx = Some c) as Hc1 by (destruct b'; auto).
      destruct (Hptr x nx c Hx0 Hc1) as (H1 & H2 & H3).
      assert (c ≠ node) as Hcn by (intros E; apply Hxp, H1, E).
      assert (c ≠ sib) as Hcs by (intros E; apply Hxp, H2, E).
      assert (c ≠ parent) as Hcpar by (intros E; apply Egp, H3, E).
      destruct (Hold c nc Hnc Hcn Hcpar) as (nc' & Hnc' & Ecb & Ecp).
      rewrite decide_False in Ecp by exact Hcs.
      exists nx, nc, nc'. split; [exact Hx0|]. split; [exact Hnc|]. split; [exact Hnc'|].
      split; [exact Ebit|]. split; [exact Ecb|]. split; [congruence|]. split; [exact Hrc|].
      exact (Hdir b' c nc Hc0 Hnc). }
  split; [|split].
  - (* the links *)
    split; simpl.
    + intros a [= <-]. destruct (n_parent pn) as [gp|] eqn:Egp.
      * destruct (Hhead head eq_refl) as (nh & Hhd & Hhp).
        assert (head ≠ parent) as Hhpar by (intros ->; congruence).
        destruct (Hold head nh Hhd ltac:(congruence) Hhpar) as (nh' & Hhd' & _ & Ehp).
        rewrite decide_False in Ehp by (intros ->; congruence).
        exists nh'. split; [exact Hhd'|congruence].
      * exists sn'. split; [|congruence].
        rewrite Hlook. unfold unlink_heap. rewrite !decide_False by assumption.
        rewrite decide_True by reflexivity. reflexivity.
    + exists rank. intros x nx' Hx.
      destruct (Hback x nx' Hx) as (Hxn & Hxp & nx & Hx0 & _ & _ & Exp & Hsame).
      destruct (Hl x nx Hx0) as (Hch & Hpar & Hlr).
      split; [|split].
      * intros c Hc.
        assert (∃ b' : bool, (if b' then n_right nx' else n_left nx') = Some c) as (b' & Hb')
          by (destruct Hc; [exists false|exists true]; assumption).
        destruct (Hchild x nx' b' c Hx Hb')
          as (_ & _ & nc' & _ & _ & Hnc' & _ & _ & Hcp & Hrc & _). eauto.
      * intros q Hq. rewrite Hq in Exp.
        destruct (decide (x = sib)) as [->|Hxs].
        -- destruct (Hgp q (eq_sym Exp)) as (_ & _ & _ & gn & _ & Hgn' & _ & Hr).
           split; [eauto|]. destruct (Hpch sib) as (_ & _ & _ & Hrs); [destruct b; auto|]. lia.
        -- destruct (Hpar q (eq_sym Exp)) as ((qn & Hqn) & Hr).
           destruct (Hup x nx q Hx0 (eq_sym Exp) Hxn Hxs) as (Hqn1 & Hqn2).
           destruct (Hold q qn Hqn Hqn1 Hqn2) as (qn' & Hqn' & _). split; [eauto|exact Hr].
      * intros c Hc Hc'.
        destruct (Hchild x nx' false c Hx Hc)
          as (nx1 & _ & _ & Hx1 & _ & _ & _ & _ & _ & _ & _ & _ & H1).
        destruct (Hchild x nx' true c Hx Hc')
          as (nx2 & _ & _ & Hx2 & _ & _ & _ & _ & _ & _ & _ & _ & H2).
        congruence.
  - (* every node hangs in the tree *)
    split; [discriminate|]. split; simpl.
    + intros x nx' Hx Hxp'.
      destruct (Hback x nx' Hx) as (Hxn & Hxp & nx & Hx0 & _ & _ & Exp & _).
      rewrite Hxp' in Exp. destruct (decide (x = sib)) as [->|Hxs].
      * rewrite <- Exp. reflexivity.
      * pose proof (R1 x nx Hx0 (eq_sym Exp)) as Eh. injection Eh as ->.
        destruct (n_parent pn) as [gp|] eqn:Egp; [reflexivity|].
        pose proof (R1 parent pn Hpn Egp). congruence.
    + intros x nx' q qn' Hx Hq Hqn'.
      destruct (Hback x nx' Hx) as (Hxn & Hxp & nx & Hx0 & _ & _ & Exp & _).
      destruct (Hback q qn' Hqn') as (Hqn & Hqp & qn & Hq0 & _ & _ & _ & Hqsame).
      rewrite Hq in Exp. destruct (decide (x = sib)) as [->|Hxs].
      * destruct (Hgp q (eq_sym Exp)) as (_ & _ & _ & gn & Hgn & Hgn' & Hgside & _).
        assert (qn' = regrand parent sib gn) as -> by congruence.
        destruct (Hl q gn Hgn) as (_ & _ & Hglr).
        destruct (regrand_children parent sib gn Hgside Hglr) as (bg & _ & Hbgs & _).
        destruct bg; auto.
      * pose proof (R2 x nx q qn Hx0 (eq_sym Exp) Hq0) as Hc.
        destruct (decide (n_parent pn = Some q)) as [Egp|Egp].
        -- destruct (Hgp q Egp) as (_ & _ & _ & gn & Hgn & Hgn' & Hgside & _).
           assert (gn = qn) as -> by congruence.
           assert (qn' = regrand parent sib qn) as -> by congruence.
           destruct (Hl q qn Hq0) as (_ & _ & Hglr).
           destruct (regrand_children parent sib qn Hgside Hglr) as (bg & Hbg & _ & Hbgo).
           destruct bg; simpl in *; destruct Hc as [Hc|Hc]; try (left; congruence);
             try (right; congruence); congruence.
        -- destruct (Hqsame Egp) as (El & Er). rewrite El, Er. exact Hc.
  - (* the keys *)
    exists key_of. intros x nx' Hx. simpl in Hx |- *.
    destruct (Hback x nx' Hx) as (Hxn & Hxp & nx & Hx0 & Ebit & Epf & _ & Hsame).
    destruct (Hk x nx Hx0) as (Hxb & Hxl & Hx00 & Hleaf & Hinner & _).
    unfold node_keyed. rewrite Ebit, Epf.
    split; [exact Hxb|]. split; [exact Hxl|]. split; [exact Hx00|]. split; [|split].
    + intros px Hpx. destruct (Hleaf px Hpx) as (H1 & H2 & H3 & H4 & H5).
      assert (n_parent pn ≠ Some x) as Egp.
      { intros Egp. destruct (Hgp x Egp) as (_ & _ & _ & gn & Hgn & _ & Hgside & _).
        assert (gn = nx) as -> by congruence. destruct Hgside; congruence. }
      destruct (Hsame Egp) as (-> & ->). auto.
    + intros Hnone. destruct (Hinner Hnone) as (H1 & H2 & H3). split; [exact H1|].
      destruct (decide (n_parent pn = Some x)) as [Egp|Egp].
      * destruct (Hgp x Egp) as (_ & _ & _ & gn & Hgn & Hgn' & _).
        assert (gn = nx) as -> by congruence.
        assert (nx' = regrand parent sib nx) as -> by congruence.
        unfold regrand. case_bool_decide; simpl; eauto.
      * destruct (Hsame Egp) as (-> & ->). auto.
    + intros b' c nc' Hc Hc'.
      destruct (Hchild x nx' b' c Hx Hc)
        as (nx2 & nc & nc2 & Hx2 & Hnc & Hnc2 & _ & Ecb & _ & _ & Hdir).
      assert (nx2 = nx) as -> by congruence. assert (nc2 = nc') as -> by congruence.
      rewrite Ecb. exact Hdir.
Qed.


(** In a tree of keys the descent by the bits of a key that the tree
    holds ends at the node of the key. *)
Lemma walk_finds_key width tree a s l hd fuel r :
  key_tree width tree →
  entries_of (t_heap tree) a = Some (s, l) →
  t_head tree = Some hd →
  find_walk_down fuel (t_heap tree) s width hd = Done r → r = Some a.
Proof.
  intros Hkt He Hh Hfind. unfold entries_of in He.
  destruct (t_heap tree !! a) as [n|] eqn:Hn; [|discriminate]. simpl in He.
  destruct (n_prefix n) as [p|] eqn:Hp; [|discriminate]. injection He as Hps _.
  destruct (key_tree_leaf_descent _ _ _ _ _ Hkt Hn Hp) as (hd' & k & Hh' & Hd & _).
  assert (hd' = hd) as -> by congruence. rewrite Hps in Hd.
  destruct Hkt as (_ & _ & key_of & Hk).
  destruct (Hk a n Hn) as (_ & _ & _ & Hleaf & _). destruct (Hleaf p Hp) as (Hbit & _).
  apply (find_walk_down_end _ _ _ _ _ _ n fuel r Hd Hn); [lia|exact Hfind].
Qed.

(** In a tree of keys each key is at one node only. *)
Lemma key_tree_key_unique width tree a1 a2 s l1 l2 :
  key_tree width tree →
  entries_of (t_heap tree) a1 = Some (s, l1) →
  entries_of (t_heap tree) a2 = Some (s, l2) →
  a1 = a2.
Proof.
  intros Hkt H1 H2.
  destruct (t_head tree) as [hd|] eqn:Hh.
  - pose proof Hkt as ((Hhead & rank & Hl) & _ & key_of & Hk).
    destruct (Hhead hd Hh) as (nh & Hnh & _).
    assert (∃ n1 p1, t_heap tree !! a1 = Some n1 ∧ n_prefix n1 = Some p1
                     ∧ pfx_stream p1 = s) as (n1 & p1 & Hn1 & Hp1 & Hs1).
    { unfold entries_of in H1. destruct (t_heap tree !! a1) as [n|]; [|discriminate].
      simpl in H1. destruct (n_prefix n) as [p|] eqn:Hp; [|discriminate].
      injection H1 as E _. eauto. }
    destruct (key_tree_leaf_descent _ _ _ _ _ Hkt Hn1 Hp1) as (hd' & k & Hh' & Hd & Hkw).
    assert (hd' = hd) as -> by congruence. rewrite Hs1 in Hd.
    destruct (Hk a1 n1 Hn1) as (_ & _ & _ & Hleaf & _). destruct (Hleaf p1 Hp1) as (Hbit & _).
    pose proof (find_walk_down_descent _ _ _ _ _ _ _ _ k Hl Hd Hn1 ltac:(lia) ltac:(lia)) as F.
    pose proof (walk_finds_key _ _ _ _ _ _ _ _ Hkt H2 Hh F). congruence.
  - destruct Hkt as (_ & (R0 & _) & _). unfold entries_of in H1.
    rewrite (R0 Hh), lookup_empty in H1. discriminate.
Qed.

Lemma remove_netblock_entry_effect fuel h node n p netmask h' :
  h !! node = Some n → n_prefix n = Some p →
  SCRadixRemoveNetblockEntry fuel h node netmask = Done h' →
  same_keys h h'
  ∧ ∀ x, entries_of h' x
         = if decide (x = node)
           then Some (pfx_stream p, remove_user_data netmask (pfx_user_data p))
           else entries_of h x.
Proof.
  intros Hn Hp H. unfold SCRadixRemoveNetblockEntry in H.
  rewrite (load_lookup _ _ _ Hn) in H. simpl in H. rewrite Hp in H. simpl in H.
  rewrite (store_lookup _ _ _ _ Hn) in H. simpl in H.
  set (h1 := <[node := with_prefix (Some (SCRadixRemoveNetmaskUserDataFromPrefix p netmask)) n]> h)
    in *.
  assert (same_keys h h1) as Hs1.
  { intros x. unfold h1. destruct (decide (x = node)) as [->|Hne].
    - rewrite lookup_insert_eq, Hn. simpl. f_equal. unfold key_view. simpl. rewrite Hp.
      reflexivity.
    - rewrite lookup_insert_ne by congruence. reflexivity. }
  assert (∀ x, entries_of h1 x
               = if decide (x = node)
                 then Some (pfx_stream p, remove_user_data netmask (pfx_user_data p))
                 else entries_of h x) as He1.
  { intros x. unfold entries_of, h1. destruct (decide (x = node)) as [->|Hne].
    - rewrite lookup_insert_eq. reflexivity.
    - rewrite lookup_insert_ne by congruence. reflexivity. }
  destruct (_ || _); [injection H as <-; auto|].
  inv_bind H as local_node Hwalk.
  destruct (bool_decide _); [injection H as <-; auto|].
  split.
  - apply (same_keys_trans _ _ _ Hs1). eapply same_keys_store; [|exact H].
    intros m. reflexivity.
  - intros x. rewrite <- He1. eapply entries_of_store; [|exact H]. intros m. reflexivity.
Qed.


(** The comparison of two keys of [bitlen / 8] bytes. *)
Lemma stream_match_spec stored query :
  0 ≤ pfx_bitlen query → pfx_bitlen query mod 8 = 0 →
  Z.of_nat (length (pfx_stream stored)) = pfx_bitlen query / 8 →
  Z.of_nat (length (pfx_stream query)) = pfx_bitlen query / 8 →
  stream_match stored query = Done (bool_decide (pfx_stream stored = pfx_stream query)).
Proof.
  intros H0 Hmod H1 H2. unfold stream_match, memcmp_eq.
  rewrite H1, H2, Z.ltb_irrefl. simpl. rewrite !take_ge by lia.
  case_bool_decide; [|reflexivity]. rewrite (proj2 (Z.eqb_eq _ _) Hmod). reflexivity.
Qed.

Lemma unlink_entries width key_of h rank head node n p tree' x :
  map_Forall (node_linked h rank) h →
  rooted {| t_heap := h; t_head := Some head |} →
  map_Forall (node_keyed width h key_of) h →
  h !! node = Some n → n_prefix n = Some p → node ≠ head →
  unlink_node h head node n = Done tree' →
  entries_of (t_heap tree') x = if decide (x = node) then None else entries_of h x.
Proof.
  intros Hl Hrooted Hk Hn Hp Hnh Hun.
  destruct (unlink_lookup _ _ _ _ _ _ _ _ _ Hl Hrooted Hk Hn Hp Hnh Hun)
    as (parent & pn & sib & sn & sn' & Epar & Hpn & Hpp & Hsn & Hspar & Hsnode & Hsp & Hnp
        & _ & Esb & Esl & Esr & Esp & Espar & Ehead & Hlook).
  unfold entries_of at 1. rewrite Hlook. unfold unlink_heap.
  destruct (decide (x = node)) as [->|Hxn]; [reflexivity|].
  destruct (decide (x = parent)) as [->|Hxp].
  { unfold entries_of. rewrite Hpn. simpl. rewrite Hpp. reflexivity. }
  destruct (decide (x = sib)) as [->|Hxs].
  { unfold entries_of. rewrite Hsn. simpl. rewrite Esp. reflexivity. }
  destruct (decide (n_parent pn = Some x)) as [_|_]; [|reflexivity].
  unfold entries_of. destruct (h !! x) as [gn|]; [|reflexivity]. simpl.
  destruct (regrand_fields parent sib gn) as (_ & -> & _). reflexivity.
Qed.

(** What a removal does in a tree of keys of [width] bits: the tree is a
    tree of keys afterwards; it is left as it was when it holds no entry
    for the key and the netmask, and otherwise the node of the key loses
    the entry, and goes with its last entry. *)
Lemma remove_key_effect width fuel key tree netmask tree' :
  0 < width → width mod 8 = 0 →
  key_tree width tree →
  SCRadixRemoveKey fuel (Some key) width tree netmask = Done tree' →
  let s := take (Z.to_nat (width / 8)) key in
  key_tree width tree'
  ∧ ((tree' = tree
      ∧ ∀ a l, entries_of (t_heap tree) a = Some (s, l) →
               existsb (λ ud, ud_netmask ud =? netmask) l = false)
     ∨ ∃ node l,
         entries_of (t_heap tree) node = Some (s, l)
         ∧ existsb (λ ud, ud_netmask ud =? netmask) l = true
         ∧ ∀ x, entries_of (t_heap tree') x
                = if decide (x = node)
                  then (if Z.of_nat (length l) >? 1
                        then Some (s, remove_user_data netmask l) else None)
                  else entries_of (t_heap tree) x).
Proof.
  intros HW Hmod Hkt H s.
  pose proof Hkt as ((Hhead & rank & Hl) & Hrooted & key_of & Hk).
  pose proof Hrooted as (R0 & R1 & R2).
  assert (0 ≤ width / 8) as Hdiv by (apply Z.div_pos; lia).
  unfold SCRadixRemoveKey in H.
  destruct (t_head tree) as [hd|] eqn:Hh.
  2:{ injection H as <-. split; [exact Hkt|]. left. split; [reflexivity|].
      intros a l He. unfold entries_of in He. rewrite (R0 eq_refl), lookup_empty in He.
      discriminate. }
  inv_bind H as created Hcreate. unfold SCRadixCreatePrefix in Hcreate.
  rewrite (proj2 (Z.eqb_eq _ _) Hmod) in Hcreate. simpl in Hcreate.
  destruct (Z.eqb_spec width 0) as [|_]; [lia|].
  destruct (Z.ltb_spec (Z.of_nat (length key)) (width / 8)) as [|Hlen]; [discriminate|].
  injection Hcreate as <-. cbn [pfx_stream pfx_bitlen] in H. fold s in H.
  assert (Z.of_nat (length s) = width / 8) as Hls by (unfold s; rewrite length_take; lia).
  inv_bind H as found Hfind.
  assert (∀ a l, entries_of (t_heap tree) a = Some (s, l) →
            found = Some a
            ∧ ∃ na pa, t_heap tree !! a = Some na ∧ n_prefix na = Some pa
                       ∧ pfx_stream pa = s ∧ pfx_user_data pa = l) as Hkey.
  { intros a l He. split; [exact (walk_finds_key _ _ _ _ _ _ _ _ Hkt He Hh Hfind)|].
    unfold entries_of in He. destruct (t_heap tree !! a) as [na|]; [|discriminate].
    simpl in He. destruct (n_prefix na) as [pa|] eqn:Epa; [|discriminate].
    injection He as E1 E2. eauto 10. }
  destruct found as [node|].
  2:{ injection H as <-. split; [exact Hkt|]. left. split; [reflexivity|].
      intros a l He. destruct (Hkey a l He) as (E & _). discriminate. }
  inv_bind H as n Hn. apply load_Done in Hn.
  destruct (Hk node n Hn) as (_ & Hkl & _ & Hleaf & _).
  destruct (n_prefix n) as [p|] eqn:Hp.
  2:{ rewrite bool_decide_eq_true_2, orb_true_r in H by reflexivity.
      injection H as <-. split; [exact Hkt|]. left. split; [reflexivity|].
      intros a l He. destruct (Hkey a l He) as ([= <-] & na & pa & Hna & Hpa & _).
      congruence. }
  destruct (Hleaf p eq_refl) as (Hbit & Hpbl & Hps & _).
  rewrite Hbit, Z.eqb_refl in H. rewrite bool_decide_eq_false_2 in H by discriminate.
  simpl in H.
  rewrite stream_match_spec in H by (simpl; rewrite <- ?Hps in Hkl; (lia || assumption)).
  simpl in H.
  destruct (decide (pfx_stream p = s)) as [Es|Es].
  2:{ rewrite bool_decide_eq_false_2 in H by exact Es. simpl in H.
      injection H as <-. split; [exact Hkt|]. left. split; [reflexivity|].
      intros a l He. destruct (Hkey a l He) as ([= <-] & na & pa & Hna & Hpa & Hsa & _).
      congruence. }
  rewrite bool_decide_eq_true_2 in H by exact Es. simpl in H.
  assert (entries_of (t_heap tree) node = Some (s, pfx_user_data p)) as Henode
    by (unfold entries_of; rewrite Hn; simpl; rewrite Hp; simpl; rewrite Es; reflexivity).
  destruct (existsb _ (pfx_user_data p)) eqn:Ec; simpl in H.
  2:{ injection H as <-. split; [exact Hkt|]. left. split; [reflexivity|].
      intros a l He. destruct (Hkey a l He) as ([= <-] & na & pa & Hna & Hpa & Hsa & Hla).
      assert (pa = p) as -> by congruence. rewrite <- Hla. exact Ec. }
  destruct (Z.of_nat (length (pfx_user_data p)) >? 1) eqn:Ecount.
  - (* the node keeps other entries *)
    inv_bind H as h1 Hentry. injection H as <-.
    destruct (remove_netblock_entry_effect _ _ _ _ _ _ _ Hn Hp Hentry) as (Hsame & Hent).
    split.
    + destruct tree as [h head]. simpl in *. subst head.
      exact (key_tree_same_keys _ _ _ _ Hsame Hkt).
    + right. exists node, (pfx_user_data p). split; [exact Henode|]. split; [exact Ec|].
      intros x. cbn [t_heap]. rewrite Hent, Ecount, Es. reflexivity.
  - destruct (decide (hd = node)) as [->|Hne].
    + (* the head is the leaf *)
      rewrite bool_decide_eq_true_2 in H by reflexivity. injection H as <-.
      split.
      * rewrite (key_tree_head_leaf _ _ _ _ _ Hkt Hh Hn Hp). apply key_tree_empty.
      * right. exists node, (pfx_user_data p). split; [exact Henode|]. split; [exact Ec|].
        intros x. cbn [t_heap]. rewrite Ecount. unfold entries_of at 1.
        destruct (decide (x = node)) as [->|Hx].
        -- rewrite lookup_delete_eq. reflexivity.
        -- rewrite lookup_delete_ne by congruence. reflexivity.
    + rewrite bool_decide_eq_false_2 in H by exact Hne.
      destruct tree as [h head]. simpl in *. subst head.
      split.
      * exact (unlink_key_tree _ _ _ _ _ _ _ Hkt Hn Hp ltac:(congruence) H).
      * right. exists node, (pfx_user_data p). split; [exact Henode|]. split; [exact Ec|].
        intros x. rewrite Ecount.
        exact (unlink_entries _ _ _ _ _ _ _ _ _ x Hl Hrooted Hk Hn Hp ltac:(congruence) H).
Qed.


(** ** Trees built by insertions, removals and lookups *)

Lemma built_key_tree width tree :
  0 < width < 256 → width mod 8 = 0 → built width tree → key_tree width tree.
Proof.
  intros HW Hmod.
  induction 1 as [|fuel key tree user netmask tree' node _ IH Hb _ Hadd
                  |fuel key tree netmask tree' _ IH Hrem
                  |fuel key tree exact_match tree' node _ IH Hfind].
  - apply key_tree_empty.
  - exact (add_key_key_tree _ _ _ _ _ _ _ _ HW IH Hb Hadd).
  - exact (proj1 (remove_key_effect _ _ _ _ _ _ (proj1 HW) Hmod IH Hrem)).
  - exact (find_key_key_tree _ _ _ _ _ _ _ _ IH Hfind).
Qed.

Lemma built_entries_ok width tree :
  0 < width < 256 → width mod 8 = 0 → built width tree → entries_ok width tree.
Proof.
  intros HW Hmod Hb. unfold entries_ok.
  induction Hb as [|fuel key tree user netmask tree' node Hb IH Hbytes Hnm Hadd
                   |fuel key tree netmask tree' Hb IH Hrem
                   |fuel key tree exact_match tree' node Hb IH Hfind]; intros a s l He.
  - unfold entries_of in He. simpl in He. rewrite lookup_empty in He. discriminate.
  - destruct (add_key_entries _ _ _ _ _ _ _ _ HW (built_key_tree _ _ HW Hmod Hb) Hbytes Hadd)
      as [(_ & ->)|(key' & a0 & _ & _ & Hother & Ha0)]; [exact (IH a s l He)|].
    destruct (decide (a = a0)) as [->|Hne]; [|rewrite Hother in He by exact Hne; eauto].
    cbv zeta in Ha0. destruct Ha0 as [(_ & He')|(l0 & He0 & He')]; rewrite He' in He.
    + injection He as _ <-. split; [discriminate|]. split; [repeat constructor|].
      repeat constructor. simpl. lia.
    + destruct (IH _ _ _ He0) as (Hne & Hs & Hf).
      destruct (existsb _ l0) eqn:Ec; injection He as _ <-; [auto|].
      pose proof (append_perm (SCRadixAllocSCRadixUserData netmask user) l0) as Hp.
      split; [|split].
      * intros E. rewrite E in Hp. apply Permutation_nil_cons in Hp. exact Hp.
      * apply append_strictly_descending; [exact Hs|]. simpl. intros Hin.
        apply existsb_netmask in Hin. congruence.
      * rewrite Hp. constructor; [simpl; lia|exact Hf].
  - destruct (remove_key_effect _ _ _ _ _ _ (proj1 HW) Hmod (built_key_tree _ _ HW Hmod Hb) Hrem)
      as (_ & [(-> & _)|(node & l0 & He0 & _ & Hent)]); [exact (IH a s l He)|].
    rewrite Hent in He. destruct (decide (a = node)) as [->|Hne]; [|exact (IH a s l He)].
    destruct (Z.gtb_spec (Z.of_nat (length l0)) 1) as [Hc|Hc]; [|discriminate].
    injection He as _ <-. destruct (IH _ _ _ He0) as (_ & Hs & Hf).
    split; [apply remove_user_data_nonempty; lia|].
    split; [apply remove_strictly_descending, Hs|apply remove_user_data_forall, Hf].
  - rewrite (find_key_entries _ _ _ _ _ _ _ a Hfind) in He. eauto.
Qed.


(** ** Insertion, removal and exact lookup in a built tree *)

(** The entries of a tree of keys after an insertion. *)
Lemma key_tree_add_stored width fuel key key' tree user netmask tree' node :
  0 < width < 256 → width mod 8 = 0 →
  key_tree width tree → is_bytes key →
  SCRadixChopIPAddressAgainstNetmask (Some key) netmask width = Done (Some key') →
  SCRadixAddKey fuel (Some key) width tree user netmask = Done (tree', node) →
  let s := take (Z.to_nat (width / 8)) key' in
  (∀ s' m u, stored tree s' m u → stored tree' s' m u)
  ∧ (∀ s' m u, stored tree' s' m u →
       stored tree s' m u ∨ (s' = s ∧ m = netmask ∧ u = user))
  ∧ ∃ u, stored tree' s netmask u.
Proof.
  intros HW Hmod Hkt Hbytes Hchop Hadd s.
  destruct (add_key_entries _ _ _ _ _ _ _ _ HW Hkt Hbytes Hadd)
    as [(Hmod' & _)|(key2 & a & Hchop2 & _ & Hother & Ha)]; [congruence|].
  assert (key2 = key') as -> by congruence. cbv zeta in Ha. fold s in Ha.
  set (e := SCRadixAllocSCRadixUserData netmask user) in *.
  split; [|split].
  - intros s' m u (x & l & Hx & Hin).
    destruct (decide (x = a)) as [->|Hne];
      [|exists x, l; rewrite Hother by exact Hne; auto].
    destruct Ha as [(Hnone & _)|(l0 & He0 & He')]; [congruence|].
    rewrite He0 in Hx. injection Hx as <- <-.
    exists a. eexists. split; [exact He'|].
    destruct (existsb _ l0); [exact Hin|].
    rewrite (append_perm e l0). right. exact Hin.
  - intros s' m u (x & l & Hx & Hin).
    destruct (decide (x = a)) as [->|Hne];
      [|left; exists x, l; rewrite <- Hother by exact Hne; auto].
    destruct Ha as [(_ & He')|(l0 & He0 & He')]; rewrite He' in Hx.
    + injection Hx as <- <-. right. apply list_elem_of_singleton in Hin.
      injection Hin as -> ->. auto.
    + injection Hx as <- Hl.
      assert (SCRadixAllocSCRadixUserData m u ∈ l0 ∨ SCRadixAllocSCRadixUserData m u = e)
        as [Hold|Hnew].
      { destruct (existsb _ l0); subst l; [auto|].
        rewrite (append_perm e l0) in Hin. apply elem_of_cons in Hin as [?|?]; auto. }
      * left. exists a, l0. auto.
      * right. injection Hnew as -> ->. auto.
  - destruct Ha as [(_ & He')|(l0 & He0 & He')].
    + exists user, a. eexists. split; [exact He'|]. apply list_elem_of_singleton. reflexivity.
    + destruct (existsb _ l0) eqn:Ec.
      * apply existsb_exists in Ec as (ud & Hud & E). apply Z.eqb_eq in E.
        exists (ud_user ud), a, l0. split; [exact He'|].
        apply list_elem_of_In in Hud. destruct ud as [m u]. simpl in E. subst m. exact Hud.
      * exists user, a. eexists. split; [exact He'|].
        rewrite (append_perm e l0). left.
Qed.

(** X15.  An insertion into a tree built from keys of [width] bits keeps
    every entry of the tree, and adds at most the entry of the key, as it
    is after the chop, with the netmask and the user data given; after it
    the tree holds an entry for this key and netmask. *)
Theorem add_key_stored (width : Z) (fuel : nat) (key key' : list Z) (tree : SCRadixTree)
    (user netmask : Z) (tree' : SCRadixTree) (node : option addr) :
  0 < width < 256 → width mod 8 = 0 →
  built width tree → is_bytes key →
  SCRadixChopIPAddressAgainstNetmask (Some key) netmask width = Done (Some key') →
  SCRadixAddKey fuel (Some key) width tree user netmask = Done (tree', node) →
  let s := take (Z.to_nat (width / 8)) key' in
  (∀ s' m u, stored tree s' m u → stored tree' s' m u)
  ∧ (∀ s' m u, stored tree' s' m u →
       stored tree s' m u ∨ (s' = s ∧ m = netmask ∧ u = user))
  ∧ ∃ u, stored tree' s netmask u.
Proof.
  intros HW Hmod Hb Hbytes Hchop Hadd.
  exact (key_tree_add_stored _ _ _ _ _ _ _ _ _ HW Hmod (built_key_tree _ _ HW Hmod Hb)
           Hbytes Hchop Hadd).
Qed.

Lemma netblock_and_hosts_built : built 32 netblock_and_hosts.
Proof.
  eapply (built_add 32 scenario_fuel [10; 1; 2; 3] _ 2032 32).
  - eapply (built_add 32 scenario_fuel [192; 168; 1; 1] _ 1032 32).
    + eapply (built_add 32 scenario_fuel [192; 168; 0; 0] _ 1016 16).
      * apply built_create.
      * repeat constructor; lia.
      * lia.
      * vm_compute. reflexivity.
    + repeat constructor; lia.
    + lia.
    + vm_compute. reflexivity.
  - repeat constructor; lia.
  - lia.
  - vm_compute. reflexivity.
Qed.

Lemma add_key_stored_witness :
  ∃ t' node,
    SCRadixAddKey scenario_fuel (Some [192; 168; 77; 5]) 32 netblock_and_hosts 3024 24
    = Done (t', node)
    ∧ (∀ s' m u, stored netblock_and_hosts s' m u → stored t' s' m u)
    ∧ (∀ s' m u, stored t' s' m u →
         stored netblock_and_hosts s' m u ∨ (s' = [192; 168; 77; 0] ∧ m = 24 ∧ u = 3024))
    ∧ ∃ u, stored t' [192; 168; 77; 0] 24 u.
Proof.
  eexists _, _. split; [vm_compute; reflexivity|].
  eapply (add_key_stored 32 scenario_fuel [192; 168; 77; 5] [192; 168; 77; 0]
            netblock_and_hosts 3024 24).
  - lia.
  - reflexivity.
  - exact netblock_and_hosts_built.
  - repeat constructor; lia.
  - reflexivity.
  - vm_compute. reflexivity.
Defined.

(** X16.  In a tree built from keys of [width] bits, each key is stored at
    one node only. *)
Theorem built_key_unique (width : Z) (tree : SCRadixTree) (a1 a2 : addr) (s : list Z)
    (l1 l2 : list SCRadixUserData) :
  0 < width < 256 → width mod 8 = 0 → built width tree →
  entries_of (t_heap tree) a1 = Some (s, l1) →
  entries_of (t_heap tree) a2 = Some (s, l2) →
  a1 = a2.
Proof.
  intros HW Hmod Hb H1 H2.
  exact (key_tree_key_unique _ _ _ _ _ _ _ (built_key_tree _ _ HW Hmod Hb) H1 H2).
Qed.

Lemma built_key_unique_witness :
  entries_of (t_heap netblock_and_hosts) 1%nat
  = Some ([192; 168; 1; 1], [SCRadixAllocSCRadixUserData 32 1032])
  ∧ ∀ a l, entries_of (t_heap netblock_and_hosts) a = Some ([192; 168; 1; 1], l) → a = 1%nat.
Proof.
  split; [vm_compute; reflexivity|]. intros a l Ha.
  apply (built_key_unique 32 netblock_and_hosts a 1%nat [192; 168; 1; 1] l
           [SCRadixAllocSCRadixUserData 32 1032]).
  - lia.
  - reflexivity.
  - exact netblock_and_hosts_built.
  - exact Ha.
  - vm_compute. reflexivity.
Defined.

(** The lookup of a key in a tree of keys whose lists of entries are in
    order. *)
Lemma key_tree_lookup width fuel key tree :
  0 < width < 256 → width mod 8 = 0 →
  key_tree width tree → entries_ok width tree →
  (Z.to_nat width ≤ fuel)%nat →
  width / 8 ≤ Z.of_nat (length key) →
  let s := take (Z.to_nat (width / 8)) key in
  (∀ user exact_match, stored tree s width user →
     ∃ tree' node l,
       SCRadixFindKey fuel (Some key) width tree exact_match = Done (tree', Some node)
       ∧ user_data_result_at tree' node = Some user
       ∧ entries_of (t_heap tree) node = Some (s, l)
       ∧ entries_of (t_heap tree') node = Some (s, l)
       ∧ SCRadixAllocSCRadixUserData width user ∈ l)
  ∧ ((∀ user, ¬ stored tree s width user) →
     SCRadixFindKey fuel (Some key) width tree true = Done (tree, None)).
Proof.
  intros HW Hmod Hkt Hok Hfuel Hlen s.
  pose proof Hkt as ((Hhead & rank & Hl) & (R0 & _) & key_of & Hk).
  assert (0 ≤ width / 8) as Hdiv by (apply Z.div_pos; lia).
  assert (Z.of_nat (length s) = width / 8) as Hls
    by (unfold s; rewrite length_take; lia).
  assert (∀ p, pfx_stream p = s → Z.of_nat (length (pfx_stream p)) = width / 8 →
            stream_match p {| pfx_bitlen := width; pfx_stream := s;
                              pfx_user_data := [SCRadixAllocSCRadixUserData 255 0];
                              pfx_user_data_result := 0 |} = Done true) as Hmatch.
  { intros p Hp Hpl. unfold stream_match, memcmp_eq. simpl.
    rewrite Hpl, Hls, Z.ltb_irrefl. simpl. rewrite Hp.
    rewrite bool_decide_eq_true_2 by reflexivity.
    rewrite (proj2 (Z.eqb_eq _ _) Hmod). reflexivity. }
  split.
  - intros user exact_match (a & l & He & Hin). pose proof He as He'.
    unfold entries_of in He.
    destruct (t_heap tree !! a) as [n|] eqn:Hn; [|discriminate]. simpl in He.
    destruct (n_prefix n) as [p|] eqn:Hp; [|discriminate]. injection He as Hps Hpl.
    destruct (key_tree_leaf_descent _ _ _ _ _ Hkt Hn Hp) as (hd & k & Hh & Hd & Hkw).
    destruct (Hk a n Hn) as (_ & Hkl & _ & Hleaf & _).
    destruct (Hleaf p Hp) as (Hbit & _ & Hstream & _).
    destruct (Hok a s l) as (_ & Hsorted & Hbound).
    { unfold entries_of. rewrite Hn. simpl. rewrite Hp. simpl. congruence. }
    destruct (widest_entry_first _ _ _ _ Hsorted Hbound Hin eq_refl) as (tl & El).
    unfold SCRadixFindKey. rewrite Hh. rewrite create_prefix_Done by lia. simpl.
    fold s. rewrite <- Hps.
    rewrite (find_walk_down_descent _ _ _ _ _ _ _ _ fuel Hl Hd Hn) by lia. simpl.
    unfold load. rewrite Hn. simpl. rewrite Hbit, Z.eqb_refl, Hp. simpl.
    rewrite ?bool_decide_eq_false_2 by discriminate. simpl.
    rewrite Hps. rewrite (Hmatch p Hps) by (rewrite Hstream; exact Hkl). simpl.
    rewrite Hpl, El. simpl. rewrite Z.eqb_refl. simpl.
    rewrite (store_lookup _ _ _ _ Hn). simpl. eexists _, a, l. split; [reflexivity|].
    split; [unfold user_data_result_at; simpl; rewrite lookup_insert_eq; reflexivity|].
    split; [exact He'|]. split; [|exact Hin].
    unfold entries_of. simpl. rewrite lookup_insert_eq. simpl. congruence.
  - intros Hnone. unfold SCRadixFindKey.
    destruct (t_head tree) as [hd|] eqn:Hh; [|reflexivity].
    rewrite create_prefix_Done by lia. simpl. fold s.
    destruct (Hhead hd eq_refl) as (nh & Hnh & _).
    destruct (Hk hd nh Hnh) as (_ & _ & Hh0 & _).
    destruct (find_walk_down_leaf width key_of (t_heap tree) rank s fuel hd nh Hl Hk)
      as (x & nx & px & Hfind & Hx & Hpx).
    { lia. }
    { rewrite Hls. clear -Hmod. Z.div_mod_to_equations. lia. }
    { exact Hnh. }
    { lia. }
    rewrite Hfind. simpl. unfold load. rewrite Hx. simpl.
    destruct (Hk x nx Hx) as (_ & Hkl & _ & Hleaf & _).
    destruct (Hleaf px Hpx) as (Hbit & _ & Hstream & _).
    rewrite Hbit, Z.eqb_refl, Hpx. simpl.
    rewrite ?bool_decide_eq_false_2 by discriminate. simpl.
    destruct (decide (pfx_stream px = s)) as [Es|Es].
    + rewrite (Hmatch px Es) by (rewrite Hstream; exact Hkl). simpl.
      destruct (Hok x s (pfx_user_data px)) as (Hne & _).
      { unfold entries_of. rewrite Hx. simpl. rewrite Hpx. simpl. congruence. }
      destruct (pfx_user_data px) as [|ud tl] eqn:Eud; [congruence|].
      destruct (Z.eqb_spec (ud_netmask ud) width) as [E|E]; [exfalso|reflexivity].
      apply (Hnone (ud_user ud)). exists x, (ud :: tl). split.
      * unfold entries_of. rewrite Hx. simpl. rewrite Hpx. simpl. congruence.
      * destruct ud as [m u]. simpl in E. subst m. left.
    + unfold stream_match, memcmp_eq. simpl.
      rewrite Hstream, Hkl, Hls, Z.ltb_irrefl. simpl.
      rewrite bool_decide_eq_false_2; [reflexivity|].
      rewrite !take_ge by lia. congruence.
Qed.

(** X17.  In a tree built from keys of [width] bits, the lookup of a key for
    which the tree holds an entry with the netmask [width] returns the
    node of the key, in exact and in best-match mode: the node whose prefix
    holds the stream of the key and that entry, before and after the
    lookup, and whose [user_data_result] is the user of that entry
    afterwards.  When the tree holds no such entry, the exact lookup
    returns [NULL] and leaves the tree as it is. *)
Theorem exact_lookup_stored (width : Z) (fuel : nat) (key : list Z) (tree : SCRadixTree) :
  0 < width < 256 → width mod 8 = 0 →
  built width tree →
  (Z.to_nat width ≤ fuel)%nat →
  width / 8 ≤ Z.of_nat (length key) →
  let s := take (Z.to_nat (width / 8)) key in
  (∀ user exact_match, stored tree s width user →
     ∃ tree' node l,
       SCRadixFindKey fuel (Some key) width tree exact_match = Done (tree', Some node)
       ∧ user_data_result_at tree' node = Some user
       ∧ entries_of (t_heap tree) node = Some (s, l)
       ∧ entries_of (t_heap tree') node = Some (s, l)
       ∧ SCRadixAllocSCRadixUserData width user ∈ l)
  ∧ ((∀ user, ¬ stored tree s width user) →
     SCRadixFindKey fuel (Some key) width tree true = Done (tree, None)).
Proof.
  intros HW Hmod Hb Hfuel Hlen.
  exact (key_tree_lookup _ _ _ _ HW Hmod (built_key_tree _ _ HW Hmod Hb)
           (built_entries_ok _ _ HW Hmod Hb) Hfuel Hlen).
Qed.

Lemma exact_lookup_stored_witness :
  (∀ user exact_match, stored netblock_and_hosts [10; 1; 2; 3] 32 user →
     ∃ tree' node l,
       SCRadixFindKey 32 (Some [10; 1; 2; 3]) 32 netblock_and_hosts exact_match
       = Done (tree', Some node)
       ∧ user_data_result_at tree' node = Some user
       ∧ entries_of (t_heap netblock_and_hosts) node
         = Some (take (Z.to_nat (32 / 8)) [10; 1; 2; 3], l)
       ∧ entries_of (t_heap tree') node = Some (take (Z.to_nat (32 / 8)) [10; 1; 2; 3], l)
       ∧ SCRadixAllocSCRadixUserData 32 user ∈ l)
  ∧ ((∀ user, ¬ stored netblock_and_hosts [10; 1; 2; 3] 32 user) →
     SCRadixFindKey 32 (Some [10; 1; 2; 3]) 32 netblock_and_hosts true
     = Done (netblock_and_hosts, None)).
Proof.
  apply (exact_lookup_stored 32 32 [10; 1; 2; 3] netblock_and_hosts).
  - lia.
  - reflexivity.
  - exact netblock_and_hosts_built.
  - vm_compute. lia.
  - vm_compute. discriminate.
Defined.

Lemma remove_user_data_elem netmask e l :
  ud_strictly_descending l →
  e ∈ remove_user_data netmask l ↔ e ∈ l ∧ ud_netmask e ≠ netmask.
Proof.
  intros Hs. destruct (decide (netmask ∈ ud_netmasks l)) as [Hin|Hn].
  - destruct (remove_present _ _ Hin) as (pre & x & suf & -> & Hx & Hpre & ->).
    unfold ud_strictly_descending, ud_netmasks in Hs. rewrite fmap_app, fmap_cons in Hs.
    apply StronglySorted_app in Hs as (H3 & H1 & H2).
    apply StronglySorted_inv in H2 as (H2 & H4). rewrite Forall_forall in H4.
    assert (∀ y, y ∈ pre ++ suf → ud_netmask y ≠ netmask) as Hne.
    { intros y Hy E. apply elem_of_app in Hy as [Hy|Hy].
      - apply Hpre. unfold ud_netmasks. apply list_elem_of_fmap. eauto.
      - assert (ud_netmask x > ud_netmask y); [|lia].
        apply H4. apply list_elem_of_fmap. eauto. }
    rewrite !elem_of_app, elem_of_cons. split.
    + intros Hy. split; [tauto|]. apply Hne. apply elem_of_app. exact Hy.
    + intros ([Hy|[->|Hy]] & Hm); [auto|congruence|auto].
  - rewrite remove_absent by exact Hn. split; [|tauto]. intros He. split; [exact He|].
    intros E. apply Hn. unfold ud_netmasks. apply list_elem_of_fmap. eauto.
Qed.

(** The entries of a tree of keys after a removal. *)
Lemma key_tree_remove_stored width fuel key tree netmask tree' :
  0 < width < 256 → width mod 8 = 0 →
  key_tree width tree → entries_ok width tree →
  SCRadixRemoveKey fuel (Some key) width tree netmask = Done tree' →
  let s := take (Z.to_nat (width / 8)) key in
  ∀ s' m u, stored tree' s' m u ↔ stored tree s' m u ∧ ¬ (s' = s ∧ m = netmask).
Proof.
  intros HW Hmod Hkt Hok Hrem s s' m u.
  destruct (remove_key_effect _ _ _ _ _ _ (proj1 HW) Hmod Hkt Hrem)
    as (_ & [(-> & Hnone)|(node & l0 & He0 & Hc & Hent)]); fold s in Hnone || fold s in He0, Hent.
  - split; [|tauto]. intros Hst. split; [exact Hst|]. intros (-> & ->).
    destruct Hst as (a & l & Ha & Hin). specialize (Hnone a l Ha).
    assert (existsb (λ ud, ud_netmask ud =? netmask) l = true); [|congruence].
    apply existsb_exists. eexists. split; [apply list_elem_of_In, Hin|].
    simpl. apply Z.eqb_refl.
  - destruct (Hok _ _ _ He0) as (Hne & Hs & _).
    split.
    + intros (x & l & Hx & Hin). rewrite Hent in Hx.
      destruct (decide (x = node)) as [->|Hxn].
      * destruct (Z.of_nat (length l0) >? 1); [|discriminate]. injection Hx as <- <-.
        apply (remove_user_data_elem _ _ _ Hs) in Hin as (Hin & Hm). simpl in Hm.
        split; [exists node, l0; auto|]. intros (_ & ->). congruence.
      * split; [exists x, l; auto|]. intros (-> & ->).
        apply Hxn. exact (key_tree_key_unique _ _ _ _ _ _ _ Hkt Hx He0).
    + intros ((x & l & Hx & Hin) & Hnot).
      destruct (decide (x = node)) as [->|Hxn].
      * rewrite He0 in Hx. injection Hx as <- <-.
        assert (m ≠ netmask) as Hm by (intros ->; apply Hnot; auto).
        exists node, (remove_user_data netmask l0). split.
        -- rewrite Hent, decide_True by reflexivity.
           destruct (Z.gtb_spec (Z.of_nat (length l0)) 1) as [_|Hlen]; [reflexivity|exfalso].
           destruct l0 as [|e0 [|e1 tl]]; [congruence| |simpl in Hlen; lia].
           apply list_elem_of_singleton in Hin. subst e0. simpl in Hc.
           rewrite orb_false_r in Hc. apply Z.eqb_eq in Hc. congruence.
        -- apply (remove_user_data_elem _ _ _ Hs). split; [exact Hin|exact Hm].
      * exists x, l. rewrite Hent, decide_False by exact Hxn. auto.
Qed.

(** X18.  A removal from a built tree takes away the entries of the key with
    the netmask, and nothing else: the tree holds afterwards the entries
    it held before, but for those. *)
Theorem remove_key_stored (width : Z) (fuel : nat) (key : list Z) (tree : SCRadixTree)
    (netmask : Z) (tree' : SCRadixTree) :
  0 < width < 256 → width mod 8 = 0 →
  built width tree →
  SCRadixRemoveKey fuel (Some key) width tree netmask = Done tree' →
  let s := take (Z.to_nat (width / 8)) key in
  ∀ s' m u, stored tree' s' m u ↔ stored tree s' m u ∧ ¬ (s' = s ∧ m = netmask).
Proof.
  intros HW Hmod Hb Hrem.
  exact (key_tree_remove_stored _ _ _ _ _ _ HW Hmod (built_key_tree _ _ HW Hmod Hb)
           (built_entries_ok _ _ HW Hmod Hb) Hrem).
Qed.

Lemma remove_key_stored_witness :
  ∃ t',
    SCRadixRemoveKey scenario_fuel (Some [192; 168; 1; 1]) 32 netblock_and_hosts 32 = Done t'
    ∧ ∀ s' m u, stored t' s' m u
                ↔ stored netblock_and_hosts s' m u ∧ ¬ (s' = [192; 168; 1; 1] ∧ m = 32).
Proof.
  eexists. split; [vm_compute; reflexivity|].
  eapply (remove_key_stored 32 scenario_fuel [192; 168; 1; 1] netblock_and_hosts 32).
  - lia.
  - reflexivity.
  - exact netblock_and_hosts_built.
  - vm_compute. reflexivity.
Defined.



(** ** Insertion, removal and lookup, one after the other *)

(** The chop against a netmask that is not below the bit length leaves the
    key as it is. *)
Lemma chop_loop_full n i netmask s s' :
  (i + Z.of_nat n) * 8 ≤ netmask → 0 ≤ i →
  chop_loop n i netmask s = Done s' → s' = s.
Proof.
  revert i s s'. induction n as [|n IH]; intros i s s' Hm Hi H; simpl in H.
  - congruence.
  - destruct s as [|b rest]; [discriminate|]. inv_bind H as rest' Hr. injection H as <-.
    rewrite (IH (i + 1) rest rest') by (lia || assumption).
    unfold chop_mask. destruct (Z.gtb_spec ((i + 1) * 8) netmask); [lia|].
    rewrite Z.land_m1_r. reflexivity.
Qed.

Lemma chop_full key width netmask key' :
  0 ≤ width → width ≤ netmask →
  SCRadixChopIPAddressAgainstNetmask (Some key) netmask width = Done (Some key') →
  key' = key ∧ width / 8 ≤ Z.of_nat (length key).
Proof.
  intros HW Hm H. unfold SCRadixChopIPAddressAgainstNetmask in H.
  inv_bind H as s' Hs. injection H as <-.
  assert (0 ≤ width / 8) by (apply Z.div_pos; lia).
  split.
  - apply (chop_loop_full _ _ _ _ _) in Hs; [exact Hs| |lia].
    rewrite Z2Nat.id by assumption. Z.div_mod_to_equations. lia.
  - apply chop_loop_length in Hs as (Hn & _). lia.
Qed.

(** X19.  In a built tree, a key that was inserted with the netmask [width]
    is found by the lookup, in exact and in best-match mode: the lookup
    returns the node of the key, whose prefix holds the stream of the key
    and an entry with the netmask [width] for the selected user, with the
    user data of the insertion selected, or, when the tree held an entry
    for the key and the netmask [width] before, with the user data of that
    entry. *)
Theorem lookup_after_insert (width : Z) (fuel fuel' : nat) (key : list Z)
    (tree : SCRadixTree) (user : Z) (tree' : SCRadixTree) (r : option addr)
    (exact_match : bool) :
  0 < width < 256 → width mod 8 = 0 →
  built width tree → is_bytes key →
  SCRadixAddKey fuel (Some key) width tree user width = Done (tree', r) →
  (Z.to_nat width ≤ fuel')%nat →
  ∃ u tree'' node l,
    SCRadixFindKey fuel' (Some key) width tree' exact_match = Done (tree'', Some node)
    ∧ user_data_result_at tree'' node = Some u
    ∧ entries_of (t_heap tree') node = Some (take (Z.to_nat (width / 8)) key, l)
    ∧ entries_of (t_heap tree'') node = Some (take (Z.to_nat (width / 8)) key, l)
    ∧ SCRadixAllocSCRadixUserData width u ∈ l
    ∧ (u = user ∨ stored tree (take (Z.to_nat (width / 8)) key) width u).
Proof.
  intros HW Hmod Hb Hbytes Hadd Hfuel.
  pose proof (built_key_tree _ _ HW Hmod Hb) as Hkt.
  assert (0 ≤ width ≤ width) as Hnm by lia.
  pose proof (built_add width fuel key tree user width tree' r Hb Hbytes Hnm Hadd) as Hb'.
  assert (∃ key', SCRadixChopIPAddressAgainstNetmask (Some key) width width
                  = Done (Some key')) as (key' & Hchop).
  { unfold SCRadixAddKey in Hadd. inv_bind Hadd as ks Hchop.
    unfold SCRadixChopIPAddressAgainstNetmask in Hchop |- *.
    inv_bind Hchop as s' Hs. rewrite Hs. simpl. eauto. }
  destruct (chop_full _ _ _ _ (proj1 Hnm) (proj2 Hnm) Hchop) as (-> & Hlen).
  destruct (key_tree_add_stored _ _ _ _ _ _ _ _ _ HW Hmod Hkt Hbytes Hchop Hadd)
    as (_ & Hnew & u & Hu).
  destruct (key_tree_lookup _ fuel' key _ HW Hmod (built_key_tree _ _ HW Hmod Hb')
              (built_entries_ok _ _ HW Hmod Hb') Hfuel Hlen) as (Hfound & _).
  destruct (Hfound u exact_match Hu) as (tree'' & node & l & Hfind & Hres & He & He' & Hin).
  exists u, tree'', node, l. split; [exact Hfind|]. split; [exact Hres|].
  split; [exact He|]. split; [exact He'|]. split; [exact Hin|].
  destruct (Hnew _ _ _ Hu) as [Hold|(_ & _ & ->)]; auto.
Qed.

Lemma lookup_after_insert_witness :
  ∃ t' r,
    SCRadixAddKey scenario_fuel (Some [172; 16; 5; 5]) 32 netblock_and_hosts 4032 32
    = Done (t', r)
    ∧ ∃ u t'' node l,
        SCRadixFindKey 32 (Some [172; 16; 5; 5]) 32 t' true = Done (t'', Some node)
        ∧ user_data_result_at t'' node = Some u
        ∧ entries_of (t_heap t') node = Some (take (Z.to_nat (32 / 8)) [172; 16; 5; 5], l)
        ∧ entries_of (t_heap t'') node = Some (take (Z.to_nat (32 / 8)) [172; 16; 5; 5], l)
        ∧ SCRadixAllocSCRadixUserData 32 u ∈ l
        ∧ (u = 4032 ∨ stored netblock_and_hosts [172; 16; 5; 5] 32 u).
Proof.
  eexists _, _. split; [vm_compute; reflexivity|].
  eapply (lookup_after_insert 32 scenario_fuel 32 [172; 16; 5; 5] netblock_and_hosts 4032).
  - lia.
  - reflexivity.
  - exact netblock_and_hosts_built.
  - repeat constructor; lia.
  - vm_compute. reflexivity.
  - vm_compute. lia.
Defined.

(** X20.  In a built tree, after the removal of a key with the netmask
    [width] the exact lookup of the key returns [NULL]. *)
Theorem lookup_after_remove (width : Z) (fuel fuel' : nat) (key : list Z)
    (tree tree' : SCRadixTree) :
  0 < width < 256 → width mod 8 = 0 →
  built width tree →
  width / 8 ≤ Z.of_nat (length key) →
  SCRadixRemoveKey fuel (Some key) width tree width = Done tree' →
  (Z.to_nat width ≤ fuel')%nat →
  SCRadixFindKey fuel' (Some key) width tree' true = Done (tree', None).
Proof.
  intros HW Hmod Hb Hlen Hrem Hfuel.
  pose proof (built_remove width fuel key tree width tree' Hb Hrem) as Hb'.
  destruct (key_tree_lookup _ fuel' key _ HW Hmod (built_key_tree _ _ HW Hmod Hb')
              (built_entries_ok _ _ HW Hmod Hb') Hfuel Hlen) as (_ & Hmiss).
  apply Hmiss. intros u Hu.
  apply (key_tree_remove_stored _ _ _ _ _ _ HW Hmod (built_key_tree _ _ HW Hmod Hb)
           (built_entries_ok _ _ HW Hmod Hb) Hrem) in Hu as (_ & Hnot).
  apply Hnot. auto.
Qed.

Lemma lookup_after_remove_witness :
  ∃ t',
    SCRadixRemoveKey scenario_fuel (Some [10; 1; 2; 3]) 32 netblock_and_hosts 32 = Done t'
    ∧ SCRadixFindKey 32 (Some [10; 1; 2; 3]) 32 t' true = Done (t', None).
Proof.
  eexists. split; [vm_compute; reflexivity|].
  eapply (lookup_after_remove 32 scenario_fuel 32 [10; 1; 2; 3] netblock_and_hosts).
  - lia.
  - reflexivity.
  - exact netblock_and_hosts_built.
  - vm_compute. discriminate.
  - vm_compute. reflexivity.
  - vm_compute. lia.
Defined.

(** X21.  In a built tree, the insertion of an entry for a key and a netmask
    that the tree holds no entry for, followed by the removal of the key,
    as the insertion stored it, with that netmask, leaves the entries of
    the tree as they were. *)
Theorem insert_then_remove_stored (width : Z) (fuel fuel' : nat) (key key' : list Z)
    (tree : SCRadixTree) (user netmask : Z) (tree1 tree2 : SCRadixTree)
    (r : option addr) :
  0 < width < 256 → width mod 8 = 0 →
  built width tree → is_bytes key → 0 ≤ netmask ≤ width →
  SCRadixChopIPAddressAgainstNetmask (Some key) netmask width = Done (Some key') →
  (∀ u, ¬ stored tree (take (Z.to_nat (width / 8)) key') netmask u) →
  SCRadixAddKey fuel (Some key) width tree user netmask = Done (tree1, r) →
  SCRadixRemoveKey fuel' (Some key') width tree1 netmask = Done tree2 →
  ∀ s m u, stored tree2 s m u ↔ stored tree s m u.
Proof.
  intros HW Hmod Hb Hbytes Hnm Hchop Hfresh Hadd Hrem s m u.
  pose proof (built_add width fuel key tree user netmask tree1 r Hb Hbytes Hnm Hadd) as Hb1.
  destruct (key_tree_add_stored _ _ _ _ _ _ _ _ _ HW Hmod (built_key_tree _ _ HW Hmod Hb)
              Hbytes Hchop Hadd) as (Hkeep & Hnew & _).
  rewrite (key_tree_remove_stored _ _ _ _ _ _ HW Hmod (built_key_tree _ _ HW Hmod Hb1)
             (built_entries_ok _ _ HW Hmod Hb1) Hrem s m u).
  split.
  - intros (H1 & Hnot). destruct (Hnew _ _ _ H1) as [Hold|(-> & -> & _)]; [exact Hold|].
    exfalso. apply Hnot. auto.
  - intros Hold. split; [exact (Hkeep _ _ _ Hold)|]. intros (-> & ->).
    exact (Hfresh u Hold).
Qed.

Lemma netblock_and_hosts_no_24 u : ¬ stored netblock_and_hosts [192; 168; 77; 0] 24 u.
Proof.
  intros (a & l & Ha & Hin). unfold entries_of in Ha.
  destruct (t_heap netblock_and_hosts !! a) as [n|] eqn:Hn; [|discriminate].
  apply elem_of_map_to_list in Hn. vm_compute in Hn.
  repeat (apply elem_of_cons in Hn as [Hn|Hn];
          [injection Hn as -> ->; vm_compute in Ha; discriminate|]).
  inversion Hn.
Qed.

Lemma insert_then_remove_stored_witness :
  ∃ t1 r t2,
    SCRadixAddKey scenario_fuel (Some [192; 168; 77; 5]) 32 netblock_and_hosts 3024 24
    = Done (t1, r)
    ∧ SCRadixRemoveKey scenario_fuel (Some [192; 168; 77; 0]) 32 t1 24 = Done t2
    ∧ ∀ s m u, stored t2 s m u ↔ stored netblock_and_hosts s m u.
Proof.
  eexists _, _, _. split; [vm_compute; reflexivity|]. split; [vm_compute; reflexivity|].
  eapply (insert_then_remove_stored 32 scenario_fuel scenario_fuel [192; 168; 77; 5]
            [192; 168; 77; 0] netblock_and_hosts 3024 24).
  - lia.
  - reflexivity.
  - exact netblock_and_hosts_built.
  - repeat constructor; lia.
  - lia.
  - reflexivity.
  - exact netblock_and_hosts_no_24.
  - vm_compute. reflexivity.
  - vm_compute. reflexivity.
Defined.



(** ** The loops and walks in a tree of keys end *)

(** A store through a pointer to a live node succeeds and keeps the set of
    live nodes. *)
Lemma store_total f a h :
  a ∈ dom h → ∃ h', store f a h = Done h' ∧ dom h' = dom h.
Proof.
  intros Ha. apply elem_of_dom in Ha as (n & Hn).
  exists (<[a := f n]> h). split; [apply store_lookup, Hn|].
  apply dom_insert_lookup_L. eauto.
Qed.

(** The loop over the bytes of the key ends when both streams hold the
    bytes that it reads. *)
Lemma differ_loop_total n i check_bit stream p d :
  0 ≤ i →
  check_bit ≤ 8 * Z.of_nat (length stream) →
  check_bit ≤ 8 * Z.of_nat (length (pfx_stream p)) →
  check_bit - 8 * i ≤ Z.of_nat n →
  ∃ r, differ_loop n i check_bit stream (Some p) d = Done r.
Proof.
  revert i d. induction n as [|n IH]; intros i d Hi Hs Hp Hn; simpl.
  - destruct (Z.ltb_spec (i * 8) check_bit); [lia|]. eauto.
  - destruct (Z.ltb_spec (i * 8) check_bit) as [Hlt|]; [|eauto].
    unfold byte_at. destruct (Z.ltb_spec i 0); [lia|].
    destruct (lookup_lt_is_Some_2 stream (Z.to_nat i) ltac:(lia)) as (a & ->).
    destruct (lookup_lt_is_Some_2 (pfx_stream p) (Z.to_nat i) ltac:(lia)) as (b & ->).
    simpl. destruct (Z.lxor a b =? 0); [|eauto].
    apply IH; lia.
Qed.

Section walks.
Context (width : Z) (key_of : addr → list Z) (h : gmap addr SCRadixNode)
        (rank : addr → nat) (head : option addr).
Hypothesis Hl : map_Forall (node_linked h rank) h.
Hypothesis Hr : rooted {| t_heap := h; t_head := head |}.
Hypothesis Hk : map_Forall (node_keyed width h key_of) h.

(** The parent of a node is a live node with a smaller bit index. *)
Lemma parent_bit a n p :
  h !! a = Some n → n_parent n = Some p →
  ∃ pn, h !! p = Some pn ∧ 0 ≤ n_bit pn < n_bit n.
Proof using Hl Hr Hk.
  intros Hn Hp. destruct (Hl a n Hn) as (_ & Hpar & _).
  destruct (Hpar p Hp) as ((pn & Hpn) & _). exists pn. split; [exact Hpn|].
  destruct Hr as (_ & _ & R2). simpl in R2.
  destruct (Hk p pn Hpn) as (_ & _ & H0 & _ & _ & Hdir).
  split; [exact H0|].
  destruct (R2 a n p pn Hn Hp Hpn) as [Hc|Hc].
  - exact (proj1 (Hdir false a n Hc Hn)).
  - exact (proj1 (Hdir true a n Hc Hn)).
Qed.

Lemma bit_bounds a n : h !! a = Some n → 0 ≤ n_bit n ≤ width.
Proof using Hk.
  intros Hn. destruct (Hk a n Hn) as (_ & _ & H0 & Hleaf & Hinner & _).
  split; [exact H0|]. destruct (n_prefix n) as [p|].
  - destruct (Hleaf p eq_refl). lia.
  - destruct (Hinner eq_refl). lia.
Qed.

(** A walk towards the head ends at a live node. *)
Lemma walk_up_total fuel cond node parent :
  is_Some (h !! node) →
  (∀ p, parent = Some p → ∃ pn, h !! p = Some pn ∧ n_bit pn < Z.of_nat fuel) →
  ∃ t, walk_up fuel h cond node parent = Done t ∧ is_Some (h !! t).
Proof using Hl Hr Hk.
  revert node parent. induction fuel as [|fuel IH]; intros node parent Hnode Hp.
  - destruct parent as [p|]; simpl; [|eauto].
    destruct (Hp p eq_refl) as (pn & Hpn & Hlt).
    destruct (bit_bounds _ _ Hpn). lia.
  - destruct parent as [p|]; simpl; [|eauto].
    destruct (Hp p eq_refl) as (pn & Hpn & Hlt).
    rewrite (load_lookup _ _ _ Hpn). simpl.
    destruct (cond (n_bit pn)); [|eauto].
    apply IH; [eauto|]. intros q Hq.
    destruct (parent_bit _ _ _ Hpn Hq) as (qn & Hqn & Hb). exists qn.
    split; [exact Hqn|]. lia.
Qed.

Lemma walk_up_from_total fuel cond a n :
  h !! a = Some n → n_bit n ≤ Z.of_nat fuel →
  ∃ t, walk_up fuel h cond a (n_parent n) = Done t ∧ is_Some (h !! t).
Proof using Hl Hr Hk.
  intros Hn Hf. apply walk_up_total; [eauto|]. intros p Hp.
  destruct (parent_bit _ _ _ Hn Hp) as (pn & Hpn & Hb). exists pn.
  split; [exact Hpn|]. lia.
Qed.

(** The registration of a netmask returns. *)
Lemma register_netmask_total fuel node netmask n :
  h !! node = Some n → n_bit n ≤ Z.of_nat fuel →
  ∃ h' target first, register_netmask fuel h node netmask = Done (h', target, first).
Proof using Hl Hr Hk.
  intros Hn Hf. unfold register_netmask. rewrite (load_lookup _ _ _ Hn). simpl.
  destruct (walk_up_from_total fuel (λ bit, netmask <? bit + 1) _ _ Hn Hf)
    as (t & -> & (tn & Htn)).
  simpl. rewrite (load_lookup _ _ _ Htn). simpl.
  rewrite (store_lookup _ _ _ _ Htn). simpl. eauto.
Qed.

(** The descent of a lookup ends at a leaf. *)
Lemma find_descent_total fuel stream a na :
  0 ≤ width → width ≤ 8 * Z.of_nat (length stream) →
  h !! a = Some na → width - n_bit na ≤ Z.of_nat fuel →
  ∃ x nx p, find_walk_down fuel h stream width a = Done (Some x)
            ∧ h !! x = Some nx ∧ n_prefix nx = Some p ∧ n_bit nx = width.
Proof using Hl Hk.
  intros HW Hs Ha Hf.
  destruct (find_walk_down_leaf _ _ _ _ stream fuel _ _ Hl Hk HW Hs Ha ltac:(lia))
    as (x & nx & p & Hfind & Hx & Hp).
  exists x, nx, p. split; [exact Hfind|]. split; [exact Hx|]. split; [exact Hp|].
  destruct (Hk x nx Hx) as (_ & _ & _ & Hleaf & _). exact (proj1 (Hleaf p Hp)).
Qed.

(** The descent of an insertion ends at a leaf. *)
Lemma add_descent_total fuel stream a na :
  0 ≤ width → width ≤ 8 * Z.of_nat (length stream) →
  h !! a = Some na → width - n_bit na ≤ Z.of_nat fuel →
  ∃ x nx p, add_walk_down fuel h stream width a = Done x
            ∧ h !! x = Some nx ∧ n_prefix nx = Some p ∧ n_bit nx = width.
Proof using Hl Hk.
  intros HW Hs Ha Hf.
  destruct (find_descent_total fuel stream a na HW Hs Ha Hf)
    as (x & nx & p & Hfind & Hx & Hp & Hb).
  exists x, nx, p. split; [|auto].
  apply (add_follows_find _ _ _ _ _ _ _ Hfind Hx Hb). congruence.
Qed.

End walks.

(** The list of netmasks of a node is found by a walk towards the head. *)
Lemma netmask_node_of_total width key_of h rank head fuel a n :
  map_Forall (node_linked h rank) h →
  rooted {| t_heap := h; t_head := head |} →
  map_Forall (node_keyed width h key_of) h →
  h !! a = Some n → n_bit n < Z.of_nat fuel →
  ∃ r, netmask_node_of fuel h (Some a) = Done r
       ∧ ∀ m, r = Some m → ∃ nm, h !! m = Some nm ∧ n_bit nm ≤ n_bit n.
Proof.
  intros Hl Hr Hk. revert a n. induction fuel as [|fuel IH]; intros a n Hn Hf.
  - destruct (bit_bounds _ _ _ Hk _ _ Hn). lia.
  - simpl. rewrite (load_lookup _ _ _ Hn). simpl.
    destruct (n_netmasks n).
    { eexists. split; [reflexivity|]. intros m [= <-]. exists n. split; [exact Hn|lia]. }
    destruct (n_parent n) as [p|] eqn:Ep.
    + destruct (parent_bit _ _ _ _ _ Hl Hr Hk _ _ _ Hn Ep) as (pn & Hpn & Hb).
      destruct (IH p pn Hpn ltac:(lia)) as (r & Hrr & Hm).
      exists r. split; [exact Hrr|]. intros m Em.
      destruct (Hm m Em) as (nm & Hnm & Hle). exists nm. split; [exact Hnm|lia].
    + exists None. split; [destruct fuel; reflexivity|]. discriminate.
Qed.


(** ** A lookup returns *)

(** The loop over the netmasks of a node returns, and the stream it hands
    on is as long as the one it got. *)
Lemma netblock_loop_total width key_of h rank fuel netmasks stream node nn :
  map_Forall (node_linked h rank) h →
  map_Forall (node_keyed width h key_of) h →
  0 < width → width mod 8 = 0 →
  Z.of_nat (length stream) = width / 8 →
  h !! node = Some nn → width ≤ Z.of_nat fuel →
  ∃ step, netblock_loop fuel h netmasks width stream node = Done step
          ∧ ∀ s x, step = NetblockNext s x → length s = length stream.
Proof.
  intros Hl Hk HW Hmod. revert stream node nn.
  induction netmasks as [|netmask rest IH]; intros stream node nn Hls Hn Hf; simpl.
  { eexists. split; [reflexivity|]. intros s x [= <- _]. reflexivity. }
  destruct (chop_loop_Done (Z.to_nat (width / 8)) 0 netmask stream ltac:(lia))
    as (s' & -> & Hls').
  simpl.
  assert (0 ≤ n_bit nn) as Hb by (destruct (bit_bounds _ _ _ Hk _ _ Hn); lia).
  destruct (find_descent_total _ _ _ _ Hl Hk fuel s' node nn ltac:(lia)
              ltac:(rewrite Hls'; clear -Hls Hmod; Z.div_mod_to_equations; lia)
              Hn ltac:(lia)) as (x & nx & p & -> & Hx & Hp & Hbit).
  simpl. rewrite (load_lookup _ _ _ Hx). simpl.
  rewrite Hbit, Z.eqb_refl, Hp. simpl.
  destruct (Hk x nx Hx) as (_ & Hlen & _ & Hleaf & _).
  destruct (Hleaf p Hp) as (_ & _ & Hps & _).
  rewrite stream_match_spec; simpl; [|lia|exact Hmod|rewrite Hps; exact Hlen|lia].
  assert (∃ step, netblock_loop fuel h rest width s' x = Done step
                  ∧ ∀ s y, step = NetblockNext s y → length s = length stream)
    as (step & Hstep & Hnext).
  { destruct (IH s' x nx ltac:(lia) Hx Hf) as (step & Hstep & Hnext).
    exists step. split; [exact Hstep|]. intros s y E. rewrite (Hnext s y E). exact Hls'. }
  case_bool_decide; [|eauto].
  destruct (pfx_user_data p) as [|ud next]; simpl; [eauto|].
  assert (∃ step0, (h0 ← store (with_prefix (Some (with_user_data_result (ud_user ud) p))) x h;
                    mret (NetblockReturn h0 (Some x))) = Done step0
                   ∧ ∀ s y, step0 = NetblockNext s y → length s = length stream) as Hret.
  { rewrite (store_lookup _ _ _ _ Hx). simpl. eexists. split; [reflexivity|]. discriminate. }
  destruct (ud_netmask ud =? width); [|exact Hret].
  destruct next as [|second ?]; simpl; [eauto|].
  rewrite (store_lookup _ _ _ _ Hx). simpl. eexists. split; [reflexivity|]. discriminate.
Qed.

(** The search for a netblock above a node returns. *)
Lemma find_netblock_total width key_of h rank head fuel stream a n :
  map_Forall (node_linked h rank) h →
  rooted {| t_heap := h; t_head := head |} →
  map_Forall (node_keyed width h key_of) h →
  0 < width → width mod 8 = 0 →
  Z.of_nat (length stream) = width / 8 →
  h !! a = Some n → width + n_bit n < Z.of_nat fuel →
  ∃ r, SCRadixFindKeyIPNetblock fuel h width stream (Some a) = Done r.
Proof.
  intros Hl Hr Hk HW Hmod. revert stream a n.
  induction fuel as [|fuel IH]; intros stream a n Hls Hn Hf.
  { destruct (bit_bounds _ _ _ Hk _ _ Hn). lia. }
  destruct (bit_bounds _ _ _ Hk _ _ Hn) as (Hb0 & _).
  cbn [SCRadixFindKeyIPNetblock].
  destruct (netmask_node_of_total _ _ _ _ _ (S fuel) _ _ Hl Hr Hk Hn ltac:(lia))
    as (r & -> & Hm).
  simpl. destruct r as [m|]; [|eauto].
  destruct (Hm m eq_refl) as (nm & Hnm & Hle).
  rewrite (load_lookup _ _ _ Hnm). simpl.
  destruct (netblock_loop_total _ _ _ _ (S fuel) (default [] (n_netmasks nm)) _ _ _
              Hl Hk HW Hmod Hls Hnm ltac:(lia)) as (step & -> & Hnext).
  simpl. destruct step as [h' result|s x]; [eauto|].
  destruct (n_parent nm) as [q|] eqn:Eq.
  - destruct (parent_bit _ _ _ _ _ Hl Hr Hk _ _ _ Hnm Eq) as (qn & Hqn & Hb).
    apply (IH s q qn); [|exact Hqn|lia].
    rewrite (Hnext s x eq_refl). exact Hls.
  - destruct fuel; simpl; eauto.
Qed.

(** X22.  A lookup in a tree built by the operations returns.  With keys of
    [width] bits, a multiple of 8 below 256, a key buffer of at least
    [width / 8] bytes, and more than [2 * width] units of fuel for the
    loops, [SCRadixFindKey] comes back with a result in both modes: no
    pointer that it follows is invalid, no byte is read outside the
    streams, and the walks end. *)
Theorem find_key_returns width fuel key tree exact_match :
  0 < width < 256 → width mod 8 = 0 →
  built width tree →
  width / 8 ≤ Z.of_nat (length key) →
  2 * width < Z.of_nat fuel →
  ∃ tree' r, SCRadixFindKey fuel (Some key) width tree exact_match = Done (tree', r).
Proof.
  intros HW Hmod Hb Hlen Hf.
  pose proof (built_entries_ok _ _ HW Hmod Hb) as Hent.
  destruct (built_key_tree _ _ HW Hmod Hb) as ((Hhead & rank & Hl) & Hr & key_of & Hk).
  unfold SCRadixFindKey.
  destruct (t_head tree) as [hd|] eqn:Ehd; [|eauto].
  unfold SCRadixCreatePrefix.
  destruct (Z.eqb_spec (width mod 8) 0) as [_|]; [|lia].
  destruct (Z.eqb_spec width 0) as [|_]; [lia|].
  destruct (Z.ltb_spec (Z.of_nat (length key)) (width / 8)) as [|_]; [lia|].
  simpl.
  assert (0 ≤ width / 8) as Hdiv by (apply Z.div_pos; lia).
  set (stream := take (Z.to_nat (width / 8)) key).
  assert (Z.of_nat (length stream) = width / 8) as Hls
    by (unfold stream; rewrite length_take; lia).
  destruct (Hhead hd eq_refl) as (nh & Hnh & _).
  destruct (bit_bounds _ _ _ Hk _ _ Hnh) as (Hb0 & _).
  destruct (find_descent_total _ _ _ _ Hl Hk fuel stream hd nh ltac:(lia)
              ltac:(rewrite Hls; clear -Hmod; Z.div_mod_to_equations; lia)
              Hnh ltac:(lia)) as (x & nx & p & -> & Hx & Hp & Hbit).
  simpl. rewrite (load_lookup _ _ _ Hx). simpl.
  rewrite Hbit, Z.eqb_refl, Hp. simpl.
  destruct (Hk x nx Hx) as (_ & Hklen & _ & Hleaf & _).
  destruct (Hleaf p Hp) as (_ & _ & Hps & _).
  rewrite stream_match_spec; simpl; [|lia|exact Hmod|rewrite Hps; exact Hklen|exact Hls].
  assert (pfx_user_data p ≠ []) as Hne.
  { apply (Hent x (pfx_stream p) (pfx_user_data p)).
    unfold entries_of. rewrite Hx. simpl. rewrite Hp. reflexivity. }
  assert (∃ r, SCRadixFindKeyIPNetblock fuel (t_heap tree) width stream (Some x) = Done r)
    as (res & Hres).
  { destruct tree as [h0 head0]. simpl in *.
    apply (find_netblock_total _ _ _ _ _ _ _ _ _ Hl Hr Hk (proj1 HW) Hmod Hls Hx). lia. }
  assert (∃ tree' r,
            (if exact_match then Done (tree, None)
             else '(h, result) ← SCRadixFindKeyIPNetblock fuel (t_heap tree) width stream
                                   (Some x);
                  mret ({| t_heap := h; t_head := t_head tree |}, result))
            = Done (tree', r)) as Hmiss.
  { destruct exact_match; [eauto|]. rewrite Hres. destruct res. simpl. eauto. }
  rewrite Ehd in Hmiss.
  case_bool_decide; simpl; [|exact Hmiss].
  destruct (pfx_user_data p) as [|ud rest]; [congruence|].
  destruct (ud_netmask ud =? width); simpl; [|exact Hmiss].
  rewrite (store_lookup _ _ _ _ Hx). simpl. eauto.
Qed.

Lemma find_key_returns_witness :
  ∃ tree' r,
    SCRadixFindKey 65 (Some [192; 168; 200; 9]) 32 netblock_and_hosts false = Done (tree', r).
Proof.
  apply (find_key_returns 32 65 [192; 168; 200; 9] netblock_and_hosts false).
  - lia.
  - reflexivity.
  - exact netblock_and_hosts_built.
  - vm_compute. discriminate.
  - lia.
Defined.


(** ** A removal returns *)

Lemma load_total h a : a ∈ dom h → ∃ n, load h a = Done n.
Proof. intros Ha. apply elem_of_dom in Ha as (n & Hn). exists n. apply load_lookup, Hn. Qed.

(** The transfer of netmasks between two live nodes returns, or exits at
    the reallocation to size 0 of an array of no netmasks. *)
Lemma transfer_netmasks_total h dest src dn sn :
  h !! dest = Some dn → h !! src = Some sn →
  (∃ h', SCRadixTransferNetmasksBWNodes h (Some dest) (Some src) = Done h')
  ∨ (SCRadixTransferNetmasksBWNodes h (Some dest) (Some src) = Fault ExitFailure
     ∧ n_netmasks sn = Some [] ∧ n_netmasks dn = Some []).
Proof.
  intros Hd Hs. unfold SCRadixTransferNetmasksBWNodes.
  rewrite (load_lookup _ _ _ Hs). simpl.
  destruct (n_netmasks sn) as [sl|]; [|eauto].
  rewrite (load_lookup _ _ _ Hd). simpl.
  destruct (n_netmasks dn) as [dl|]; simpl.
  - destruct (Z.eqb_spec (Z.of_nat (length sl) + Z.of_nat (length dl)) 0) as [E|E].
    + right. split; [reflexivity|].
      destruct sl, dl; simpl in E; (reflexivity || lia || (split; [reflexivity|]; lia)
                                    || auto).
    + left. rewrite (store_lookup _ _ _ _ Hd). eauto.
  - left. rewrite (store_lookup _ _ _ _ Hd). eauto.
Qed.

(** The removal of one entry of a leaf that holds several returns. *)
Lemma remove_netblock_entry_total width key_of h rank head fuel node n p netmask :
  map_Forall (node_linked h rank) h →
  rooted {| t_heap := h; t_head := head |} →
  map_Forall (node_keyed width h key_of) h →
  h !! node = Some n → n_prefix n = Some p → n_bit n ≤ Z.of_nat fuel →
  ∃ h', SCRadixRemoveNetblockEntry fuel h node netmask = Done h'.
Proof.
  intros Hl Hr Hk Hn Hp Hf. unfold SCRadixRemoveNetblockEntry.
  rewrite (load_lookup _ _ _ Hn). simpl. rewrite Hp. simpl.
  rewrite (store_lookup _ _ _ _ Hn). simpl.
  destruct ((netmask =? 32) || (netmask =? 128)); [eauto|].
  set (n1 := with_prefix (Some (SCRadixRemoveNetmaskUserDataFromPrefix p netmask)) n).
  set (h1 := <[node := n1]> h).
  assert (same_keys h h1) as Hs.
  { intros x. unfold h1. destruct (decide (x = node)) as [->|Hne].
    - rewrite lookup_insert_eq, Hn. simpl. f_equal. unfold key_view. simpl.
      rewrite Hp. reflexivity.
    - rewrite lookup_insert_ne by congruence. reflexivity. }
  pose proof (rooted_same_keys _ _ _ Hs Hr) as Hr1.
  pose proof (keyed_same_keys _ _ _ _ Hs Hk) as Hk1.
  assert (tree_linked {| t_heap := h; t_head := None |}) as Hlink
    by (split; [discriminate|exists rank; exact Hl]).
  destruct (linked_same_keys _ _ _ Hs Hlink) as (_ & rank1 & Hl1). simpl in Hl1.
  assert (h1 !! node = Some n1) as Hn1 by (unfold h1; apply lookup_insert_eq).
  destruct (walk_up_from_total _ _ _ _ _ Hl1 Hr1 Hk1 fuel (λ bit, netmask <? bit + 1)
              node n1 Hn1 Hf) as (t & Ht & _).
  change (n_parent n1) with (n_parent n) in Ht. rewrite Ht. simpl.
  case_bool_decide; [eauto|].
  rewrite (store_lookup _ _ _ _ Hn1). eauto.
Qed.

(** The removal of a leaf that is not the head, with its parent, returns,
    or exits in the transfer of the netmasks of the parent. *)
Lemma unlink_node_total width key_of h rank head node n :
  map_Forall (node_linked h rank) h →
  rooted {| t_heap := h; t_head := Some head |} →
  map_Forall (node_keyed width h key_of) h →
  is_Some (h !! head) →
  h !! node = Some n → node ≠ head →
  (∃ tree', unlink_node h head node n = Done tree')
  ∨ (unlink_node h head node n = Fault ExitFailure ∧ empty_arrays_around h node).
Proof.
  intros Hl Hr Hk Hhd Hn Hne. unfold unlink_node.
  destruct (n_parent n) as [parent|] eqn:Ep.
  2: { destruct Hr as (_ & R1 & _). pose proof (R1 node n Hn Ep) as E. simpl in E.
       congruence. }
  destruct (parent_bit _ _ _ _ _ Hl Hr Hk _ _ _ Hn Ep) as (pn & Hpn & _).
  rewrite (load_lookup _ _ _ Hpn). cbn -[SCRadixTransferNetmasksBWNodes].
  (* the parent has two children, and the node is one of them *)
  assert (n_left pn = Some node ∨ n_right pn = Some node) as Hchild.
  { destruct Hr as (_ & _ & R2). exact (R2 node n parent pn Hn Ep Hpn). }
  destruct (Hk parent pn Hpn) as (_ & _ & _ & Hleaf & Hinner & _).
  assert (n_prefix pn = None) as Hpp.
  { destruct (n_prefix pn) as [pp|]; [|reflexivity].
    destruct (Hleaf pp eq_refl) as (_ & _ & _ & El & Er). rewrite El, Er in Hchild.
    destruct Hchild; discriminate. }
  destruct (Hinner Hpp) as (_ & (l & El) & (r & Er)).
  destruct (Hl parent pn Hpn) as (Hch & _ & Hlr).
  assert (∃ sib sn, sibling_of pn pn node = Some sib ∧ h !! sib = Some sn
                    ∧ (n_left pn = Some sib ∧ n_right pn = Some node
                       ∨ n_left pn = Some node ∧ n_right pn = Some sib))
    as (sib & sn & Hsib & Hsn & Hsides).
  { unfold sibling_of. case_bool_decide as Hleft.
    - destruct (Hch r (or_intror Er)) as (nc & Hnc & _). exists r, nc. auto.
    - destruct (Hch l (or_introl El)) as (nc & Hnc & _). exists l, nc.
      split; [exact El|]. split; [exact Hnc|]. left. split; [exact El|].
      destruct Hchild; [contradiction|assumption]. }
  (* what is left is the transfer, in an arena that holds the same netmasks *)
  assert (∀ h2 new_head,
            (∀ x, payload <$> h2 !! x = payload <$> h !! x) →
            (∃ tree', (h3 ← SCRadixTransferNetmasksBWNodes h2 (Some sib) (Some parent);
                       mret {| t_heap := delete node (delete parent h3);
                               t_head := new_head |}) = Done tree')
            ∨ ((h3 ← SCRadixTransferNetmasksBWNodes h2 (Some sib) (Some parent);
                mret {| t_heap := delete node (delete parent h3);
                        t_head := new_head |}) = Fault ExitFailure
               ∧ empty_arrays_around h node)) as Htransfer.
  { intros h2 new_head Hpay.
    pose proof (Hpay sib) as Es. pose proof (Hpay parent) as Epn.
    rewrite Hsn in Es. rewrite Hpn in Epn.
    destruct (h2 !! sib) as [sn2|] eqn:Hsn2; [|discriminate].
    destruct (h2 !! parent) as [pn2|] eqn:Hpn2; [|discriminate].
    simpl in Es, Epn. injection Es as _ Es _. injection Epn as _ Epn _.
    destruct (transfer_netmasks_total h2 sib parent sn2 pn2 Hsn2 Hpn2)
      as [(h3 & ->)|(-> & Hp0 & Hs0)].
    - left. simpl. eauto.
    - right. split; [reflexivity|].
      exists n, parent, pn, sib, sn. rewrite <- Epn, <- Es. auto 10. }
  destruct (n_parent pn) as [g|] eqn:Eg.
  - destruct (parent_bit _ _ _ _ _ Hl Hr Hk _ _ _ Hpn Eg) as (gn & Hgn & _).
    rewrite (load_lookup _ _ _ Hgn). cbn -[SCRadixTransferNetmasksBWNodes]. rewrite Hsib.
    set (f := if bool_decide (n_left gn = Some parent)
              then with_left (Some sib) else with_right (Some sib)).
    destruct (store_total f g h ltac:(apply elem_of_dom; eauto)) as (h1 & Hst1 & Hd1).
    rewrite Hst1. cbn -[SCRadixTransferNetmasksBWNodes].
    destruct (store_total (with_parent (Some g)) sib h1
                ltac:(rewrite Hd1; apply elem_of_dom; eauto)) as (h2 & Hst2 & Hd2).
    rewrite Hst2. cbn -[SCRadixTransferNetmasksBWNodes].
    apply Htransfer. intros x.
    rewrite (store_payload _ _ _ _ x Hst2) by reflexivity.
    apply (store_payload _ _ _ _ x Hst1). intros m. unfold f.
    destruct (bool_decide _); reflexivity.
  - assert (head = parent) as ->.
    { destruct Hr as (_ & R1 & _). pose proof (R1 parent pn Hpn Eg) as E. simpl in E.
      congruence. }
    rewrite (load_lookup _ _ _ Hpn). cbn -[SCRadixTransferNetmasksBWNodes]. rewrite Hsib.
    destruct (store_total (with_parent None) sib h ltac:(apply elem_of_dom; eauto))
      as (h1 & Hst1 & Hd1).
    rewrite Hst1. cbn -[SCRadixTransferNetmasksBWNodes].
    apply Htransfer. intros x. apply (store_payload _ _ _ _ x Hst1). reflexivity.
Qed.

(** Insert 10.0.0.0/24, the host 192.168.1.1 and the host 10.0.1.0, and
    then remove the host 192.168.1.1: the removal exits.  The nodes put
    above 10.0.0.0 at the bits 0 and 23 both got an array of no netmasks,
    because the netmask 24 stayed at the leaf. *)
Example removal_exits_at_realloc :
  netblock_between_hosts = Done netblock_between_hosts_tree
  ∧ built 32 netblock_between_hosts_tree
  ∧ SCRadixRemoveKeyIPV4 scenario_fuel (Some [192; 168; 1; 1]) netblock_between_hosts_tree
    = Fault ExitFailure.
Proof.
  split; [vm_compute; reflexivity|]. split; [|vm_compute; reflexivity].
  eapply (built_add 32 scenario_fuel [10; 0; 1; 0] _ 2032 32).
  - eapply (built_add 32 scenario_fuel [192; 168; 1; 1] _ 1032 32).
    + eapply (built_add 32 scenario_fuel [10; 0; 0; 0] _ 1024 24).
      * apply built_create.
      * repeat constructor; lia.
      * lia.
      * vm_compute. reflexivity.
    + repeat constructor; lia.
    + lia.
    + vm_compute. reflexivity.
  - repeat constructor; lia.
  - lia.
  - vm_compute. reflexivity.
Qed.

(** X23.  A removal from a tree built by the operations makes no invalid
    access and ends.  With keys of [width] bits, a multiple of 8 below 256,
    a key buffer of at least [width / 8] bytes, and [width] units of fuel
    for the loops, [SCRadixRemoveKey] comes back with a tree, or it exits
    at the reallocation of [SCRadixTransferNetmasksBWNodes]; it exits only
    when the leaf of the key has a parent and a sibling that both hold an
    array of no netmasks.  In every other case the leaf that is unlinked
    has a parent and a sibling, and every pointer that is followed or
    stored through points to a live node. *)
Theorem remove_key_returns_or_exits width fuel key tree netmask :
  0 < width < 256 → width mod 8 = 0 →
  built width tree →
  width / 8 ≤ Z.of_nat (length key) →
  width ≤ Z.of_nat fuel →
  (∃ tree', SCRadixRemoveKey fuel (Some key) width tree netmask = Done tree')
  ∨ (SCRadixRemoveKey fuel (Some key) width tree netmask = Fault ExitFailure
     ∧ ∃ node l,
         entries_of (t_heap tree) node = Some (take (Z.to_nat (width / 8)) key, l)
         ∧ empty_arrays_around (t_heap tree) node).
Proof.
  intros HW Hmod Hb Hlen Hf.
  destruct (built_key_tree _ _ HW Hmod Hb) as ((Hhead & rank & Hl) & Hr & key_of & Hk).
  unfold SCRadixRemoveKey.
  destruct (t_head tree) as [hd|] eqn:Ehd; [|eauto].
  unfold SCRadixCreatePrefix.
  destruct (Z.eqb_spec (width mod 8) 0) as [_|]; [|lia].
  destruct (Z.eqb_spec width 0) as [|_]; [lia|].
  destruct (Z.ltb_spec (Z.of_nat (length key)) (width / 8)) as [|_]; [lia|].
  simpl.
  assert (0 ≤ width / 8) as Hdiv by (apply Z.div_pos; lia).
  set (stream := take (Z.to_nat (width / 8)) key).
  assert (Z.of_nat (length stream) = width / 8) as Hls
    by (unfold stream; rewrite length_take; lia).
  destruct (Hhead hd eq_refl) as (nh & Hnh & _).
  destruct (bit_bounds _ _ _ Hk _ _ Hnh) as (Hb0 & _).
  destruct (find_descent_total _ _ _ _ Hl Hk fuel stream hd nh ltac:(lia)
              ltac:(rewrite Hls; clear -Hmod; Z.div_mod_to_equations; lia)
              Hnh ltac:(lia)) as (x & nx & p & -> & Hx & Hp & Hbit).
  simpl. rewrite (load_lookup _ _ _ Hx). simpl.
  rewrite Hbit, Z.eqb_refl, Hp. simpl.
  destruct (Hk x nx Hx) as (_ & Hklen & _ & Hleaf & _).
  destruct (Hleaf p Hp) as (_ & _ & Hps & _).
  rewrite stream_match_spec; simpl; [|lia|exact Hmod|rewrite Hps; exact Hklen|exact Hls].
  case_bool_decide as Hsame; simpl; [|eauto].
  destruct (existsb _ _); simpl; [|eauto].
  destruct tree as [h0 head0]. simpl in *. subst head0.
  destruct (_ >? 1).
  { destruct (remove_netblock_entry_total _ _ _ _ _ fuel x nx p netmask Hl Hr Hk Hx Hp
                ltac:(lia)) as (h' & ->).
    simpl. eauto. }
  case_bool_decide; [eauto|].
  destruct (unlink_node_total _ _ _ _ _ _ _ Hl Hr Hk ltac:(eauto) Hx ltac:(congruence))
    as [Hdone|(Hexit & Harrays)]; [left; exact Hdone|].
  right. split; [exact Hexit|]. exists x, (pfx_user_data p). split; [|exact Harrays].
  unfold entries_of. rewrite Hx. simpl. rewrite Hp. simpl. rewrite Hsame. reflexivity.
Qed.

Lemma remove_key_returns_or_exits_witness :
  (∃ tree', SCRadixRemoveKey 32 (Some [192; 168; 1; 1]) 32 netblock_between_hosts_tree 32
            = Done tree')
  ∨ (SCRadixRemoveKey 32 (Some [192; 168; 1; 1]) 32 netblock_between_hosts_tree 32
     = Fault ExitFailure
     ∧ ∃ node l,
         entries_of (t_heap netblock_between_hosts_tree) node
         = Some (take (Z.to_nat (32 / 8)) [192; 168; 1; 1], l)
         ∧ empty_arrays_around (t_heap netblock_between_hosts_tree) node).
Proof.
  apply (remove_key_returns_or_exits 32 32 [192; 168; 1; 1] netblock_between_hosts_tree 32).
  - lia.
  - reflexivity.
  - apply removal_exits_at_realloc.
  - vm_compute. discriminate.
  - lia.
Defined.


(** ** An insertion returns *)

(** The test of a bit that lies within the stream returns. *)
Lemma bit_test_total stream pos :
  0 ≤ pos < 8 * Z.of_nat (length stream) → ∃ b, bit_test stream pos = Done b.
Proof.
  intros Hpos. rewrite bit_test_key_bit by lia. unfold key_bit.
  destruct (lookup_lt_is_Some_2 stream (Z.to_nat (pos / 8))) as (x & ->).
  - apply Nat2Z.inj_lt. rewrite Z2Nat.id by (apply Z.div_pos; lia).
    apply Z.div_lt_upper_bound; lia.
  - simpl. eauto.
Qed.

(** The split of an edge returns when the nodes it touches are live, and
    no node goes away. *)
Lemma add_split_total h head node n new stream d b :
  node ∈ dom h → new ∈ dom h →
  (∀ p, n_parent n = Some p → p ∈ dom h) →
  bit_test stream d = Done b →
  ∃ h2 head2, add_split h head node n new stream d = Done (h2, head2)
              ∧ dom h ⊆ dom h2.
Proof.
  intros Hnode Hnew Hpar Hb. unfold add_split, SCRadixCreateNode.
  set (inter := fresh (dom h)). set (ha := <[inter := zero_node]> h).
  assert (dom h ⊆ dom ha) as Hsub by apply dom_insert_subseteq.
  assert (inter ∈ dom ha) as Hinter
    by (apply elem_of_dom; unfold ha; rewrite lookup_insert_eq; eauto).
  destruct (store_total (λ m, with_parent (n_parent n) (with_bit d m)) inter ha Hinter)
    as (h1 & -> & Hd1).
  simpl. destruct (netmask_split (n_netmasks n) d) as [keep moved].
  destruct (store_total (with_netmasks moved) inter h1 ltac:(rewrite Hd1; exact Hinter))
    as (h2 & -> & Hd2).
  rewrite Hd1 in Hd2. simpl.
  destruct (store_total (with_netmasks keep) node h2 ltac:(rewrite Hd2; auto))
    as (h3 & -> & Hd3).
  rewrite Hd2 in Hd3. simpl. rewrite Hb. simpl.
  set (f := if b then λ m, with_right (Some new) (with_left (Some node) m)
            else λ m, with_right (Some node) (with_left (Some new) m)).
  destruct (store_total f inter h3 ltac:(rewrite Hd3; exact Hinter)) as (h4 & -> & Hd4).
  rewrite Hd3 in Hd4. simpl.
  destruct (store_total (with_parent (Some inter)) new h4 ltac:(rewrite Hd4; auto))
    as (h5 & -> & Hd5).
  rewrite Hd4 in Hd5. simpl.
  assert (∃ h6 head6, replace_child h5 head (n_parent n) node inter = Done (h6, head6)
                      ∧ dom h6 = dom ha) as (h6 & head6 & -> & Hd6).
  { unfold replace_child. destruct (n_parent n) as [p|]; [|eauto].
    assert (p ∈ dom h5) as Hp by (rewrite Hd5; auto).
    destruct (load_total _ _ Hp) as (pn & ->). simpl.
    case_bool_decide.
    - destruct (store_total (with_right (Some inter)) p h5 Hp) as (h6 & -> & Hd6).
      simpl. eexists _, _. split; [reflexivity|congruence].
    - destruct (store_total (with_left (Some inter)) p h5 Hp) as (h6 & -> & Hd6).
      simpl. eexists _, _. split; [reflexivity|congruence]. }
  simpl.
  destruct (store_total (with_parent (Some inter)) node h6 ltac:(rewrite Hd6; auto))
    as (h7 & -> & Hd7).
  simpl. eexists _, _. split; [reflexivity|]. rewrite Hd7, Hd6. exact Hsub.
Qed.

(** The links of the tree after the split of an edge. *)
Lemma add_split_linked h0 hd node n new leaf stream d h2 head2 :
  tree_linked {| t_heap := h0; t_head := Some hd |} →
  h0 !! node = Some n → h0 !! new = None →
  links leaf = (None, None, None) →
  add_split (<[new := leaf]> h0) (Some hd) node n new stream d = Done (h2, head2) →
  tree_linked {| t_heap := h2; t_head := head2 |}.
Proof.
  intros Hl Hn Hnew Hleaf Hsplit.
  apply tree_linked_links_ok in Hl as (rank & Hok). simpl in Hok.
  apply tree_linked_links_ok. simpl.
  assert (∀ x, <[new := leaf]> h0 !! x = None → h0 !! x = None) as Hdom.
  { intros x Hx. apply lookup_insert_None in Hx. tauto. }
  assert (∀ x, link_map (<[new := leaf]> h0) x
               = if decide (x = new) then Some (None, None, None) else link_map h0 x)
    as Hh1.
  { intros x. unfold link_map. destruct (decide (x = new)) as [->|Hne].
    - rewrite lookup_insert_eq. simpl. rewrite Hleaf. reflexivity.
    - rewrite lookup_insert_ne by congruence. reflexivity. }
  destruct (add_split_link_map _ _ _ _ _ _ _ _ _ _ _ _ Hok Hn Hnew Hdom Hh1 Hsplit)
    as (inter & node_left & Hi & Hne & -> & E).
  assert (∀ y, Some new = Some y → link_map h0 y = None ∧ y ≠ inter) as HY.
  { intros y [= <-]. split; [apply link_map_None, Hnew|congruence]. }
  pose proof (spliced_ok _ _ _ _ _ _ _ _ _ node_left Hok (link_map_lookup _ _ _ Hn) Hi HY)
    as Hok'.
  exists (spliced_rank rank node inter (Some new)).
  eapply links_ok_ext; [exact E|].
  destruct (n_parent n); exact Hok'.
Qed.

(** The insertion of an entry at a leaf that holds the key returns, when
    the user data is not [NULL]. *)
Lemma add_existing_total width key_of h rank head fuel node n np prefix user netmask :
  map_Forall (node_linked h rank) h →
  rooted {| t_heap := h; t_head := head |} →
  map_Forall (node_keyed width h key_of) h →
  h !! node = Some n → n_prefix n = Some np →
  user ≠ 0 → n_bit n ≤ Z.of_nat fuel →
  ∃ tree' r, add_existing fuel {| t_heap := h; t_head := head |} node n prefix user netmask
             = Done (tree', r).
Proof.
  intros Hl Hr Hk Hn Hnp Huser Hf. unfold add_existing. rewrite Hnp.
  destruct (SCRadixPrefixContainNetmask _ _); [simpl; eauto|].
  unfold SCRadixAddNetmaskUserDataToPrefix.
  destruct (Z.eqb_spec user 0) as [|_]; [contradiction|].
  cbn [t_heap t_head]. simpl.
  rewrite (store_lookup _ _ _ _ Hn). simpl.
  destruct (netmask_is_host netmask); [eauto|].
  match goal with
  | |- context [register_netmask fuel (<[node := ?m]> h)] => set (n1 := m)
  end.
  set (h1 := <[node := n1]> h).
  assert (same_keys h h1) as Hs.
  { intros x. unfold h1. destruct (decide (x = node)) as [->|Hne].
    - rewrite lookup_insert_eq, Hn. simpl. f_equal. unfold key_view. simpl.
      rewrite Hnp. reflexivity.
    - rewrite lookup_insert_ne by congruence. reflexivity. }
  pose proof (rooted_same_keys _ _ _ Hs Hr) as Hr1.
  pose proof (keyed_same_keys _ _ _ _ Hs Hk) as Hk1.
  assert (tree_linked {| t_heap := h; t_head := None |}) as Hlink
    by (split; [discriminate|exists rank; exact Hl]).
  destruct (linked_same_keys _ _ _ Hs Hlink) as (_ & rank1 & Hl1). simpl in Hl1.
  assert (h1 !! node = Some n1) as Hn1 by (unfold h1; apply lookup_insert_eq).
  destruct (register_netmask_total _ _ _ _ _ Hl1 Hr1 Hk1 fuel node netmask n1 Hn1 Hf)
    as (h' & target & first & ->).
  simpl. eauto.
Qed.

(** X24.  An insertion into a tree built by the operations returns.  With
    keys of [width] bits, a multiple of 8 below 256, a key buffer of at
    least [width / 8] bytes, user data that is not [NULL] and [width] units
    of fuel for the loops, [SCRadixAddKey] comes back with a tree, whatever
    the key and the netmask are: the walks end, the bytes that are compared
    lie within the streams, and every pointer that is followed or stored
    through points to a live node. *)
Theorem add_key_returns width fuel key tree user netmask :
  0 < width < 256 → width mod 8 = 0 →
  built width tree →
  is_bytes key → width / 8 ≤ Z.of_nat (length key) →
  user ≠ 0 →
  width ≤ Z.of_nat fuel →
  ∃ tree' r, SCRadixAddKey fuel (Some key) width tree user netmask = Done (tree', r).
Proof.
  intros HW Hmod Hb Hbytes Hlen Huser Hf.
  destruct (built_key_tree _ _ HW Hmod Hb) as (Hlinked & Hr & key_of & Hk).
  pose proof Hlinked as (Hhead & rank & Hl).
  unfold SCRadixAddKey, SCRadixChopIPAddressAgainstNetmask.
  assert (0 ≤ width / 8) as Hdiv by (apply Z.div_pos; lia).
  destruct (chop_loop_Done (Z.to_nat (width / 8)) 0 netmask key ltac:(lia))
    as (key' & Hchop & Hlen').
  rewrite Hchop. simpl.
  pose proof (chop_loop_bytes _ _ _ _ _ Hchop Hbytes) as Hbytes'.
  unfold SCRadixCreatePrefix.
  destruct (Z.eqb_spec (width mod 8) 0) as [_|]; [|lia].
  destruct (Z.eqb_spec width 0) as [|_]; [lia|].
  destruct (Z.ltb_spec (Z.of_nat (length key')) (width / 8)) as [|_]; [lia|].
  simpl. fold (prefix_of width key' user netmask).
  set (prefix := prefix_of width key' user netmask).
  set (stream := pfx_stream prefix).
  change (take (Z.to_nat (width / 8)) key') with stream.
  assert (is_bytes stream) as Hsb by (apply Forall_take, Hbytes').
  assert (Z.of_nat (length stream) = width / 8) as Hls
    by (unfold stream, prefix, prefix_of; simpl; rewrite length_take; lia).
  assert (width ≤ 8 * Z.of_nat (length stream)) as Hcover
    by (rewrite Hls; clear -Hmod; Z.div_mod_to_equations; lia).
  destruct tree as [h0 head0]. simpl in Hhead, Hl, Hk, Hr. cbn [t_heap t_head].
  set (new := fresh (dom h0)).
  assert (h0 !! new = None) as Hfresh by (apply not_elem_of_dom, is_fresh).
  destruct head0 as [hd|].
  - change (pfx_bitlen prefix) with width. rewrite (Z.mod_small width 256) by lia.
    destruct (Hhead hd eq_refl) as (nh & Hnh & Hnhp).
    destruct (bit_bounds _ _ _ Hk _ _ Hnh) as (Hb0 & _).
    destruct (add_descent_total _ _ _ _ Hl Hk fuel stream hd nh ltac:(lia) Hcover Hnh
                ltac:(lia)) as (bottom & bn & bp & Hdown & Hbn & Hbp & Hbbit).
    rewrite Hdown. simpl. rewrite (load_lookup _ _ _ Hbn). simpl.
    rewrite Hbbit, Z.ltb_irrefl, Hbp.
    destruct (Hk bottom bn Hbn) as (_ & Hklen & _ & Hleaf & _).
    destruct (Hleaf bp Hbp) as (_ & _ & Hbps & _).
    destruct (differ_loop_total (Z.to_nat width) 0 width stream bp 0 ltac:(lia) Hcover
                ltac:(rewrite Hbps, Hklen; clear -Hmod; Z.div_mod_to_equations; lia)
                ltac:(lia)) as (d0 & Hdiff).
    rewrite Hdiff. simpl.
    set (d := if width <? d0 then width else d0).
    destruct (walk_up_from_total _ _ _ _ _ Hl Hr Hk fuel (λ bit, d <=? bit) bottom bn Hbn
                ltac:(lia)) as (node & Hup & (n & Hn)).
    rewrite Hup. simpl. rewrite (load_lookup _ _ _ Hn). simpl.
    pose proof (add_key_position _ _ _ _ _ _ _ _ _ _ _ _ _ _ (proj1 HW) Hmod Hl Hk Hnh Hnhp
                  Hsb Hls Hdown Hbn Hbp Hdiff Hup Hn) as Hpos.
    cbv zeta in Hpos. fold d in Hpos.
    destruct ((d =? width) && (n_bit n =? width)) eqn:Ecase.
    + (* the key is in the tree *)
      destruct Hpos as (-> & _). assert (n = bn) as -> by congruence.
      apply (add_existing_total _ _ _ _ _ _ _ _ _ _ _ _ Hl Hr Hk Hbn Hbp Huser). lia.
    + (* a new leaf *)
      destruct Hpos as (Hd & Hdlt & Hag & Hflip & Hparent).
      rewrite (proj2 (Z.eqb_neq d width) ltac:(lia)).
      rewrite (store_lookup _ _ _ zero_node) by apply lookup_insert_eq.
      cbn [mbind outcome_bind]. rewrite insert_insert_eq.
      change (with_bit width (with_prefix (Some prefix) zero_node)) with (leaf_of prefix).
      destruct (bit_test_total stream d ltac:(lia)) as (b & Hbit).
      destruct (add_split_total (<[new := leaf_of prefix]> h0) (Some hd) node n new stream d b)
        as (h2 & head2 & Hsplit & Hsub).
      { apply (dom_insert_subseteq h0 new (leaf_of prefix)), elem_of_dom. eauto. }
      { apply elem_of_dom. rewrite lookup_insert_eq. eauto. }
      { intros p Hp. destruct (parent_bit _ _ _ _ _ Hl Hr Hk _ _ _ Hn Hp) as (pn & Hpn & _).
        apply (dom_insert_subseteq h0 new (leaf_of prefix)), elem_of_dom. eauto. }
      { exact Hbit. }
      rewrite Hsplit. simpl.
      destruct (netmask_is_host netmask); [eauto|].
      destruct (add_split_keyed width key_of h0 rank hd node n new prefix d h2 head2
                  Hl Hr Hk Hn Hfresh eq_refl Hsb Hls Hd Hdlt Hag Hflip Hparent Hsplit)
        as (Hr2 & key_of2 & Hk2).
      destruct (add_split_linked h0 hd node n new (leaf_of prefix) stream d h2 head2
                  Hlinked Hn Hfresh eq_refl Hsplit) as (_ & rank2 & Hl2).
      simpl in Hl2.
      assert (new ∈ dom h2) as Hnew2
        by (apply Hsub, elem_of_dom; rewrite lookup_insert_eq; eauto).
      apply elem_of_dom in Hnew2 as (nn & Hnn).
      destruct (bit_bounds _ _ _ Hk2 _ _ Hnn) as (_ & Hnb).
      destruct (register_netmask_total _ _ _ _ _ Hl2 Hr2 Hk2 fuel new netmask nn Hnn
                  ltac:(lia)) as (h3 & target & first & ->).
      simpl. eauto.
  - (* the first node of the tree *)
    rewrite (store_lookup _ _ _ zero_node) by apply lookup_insert_eq.
    simpl. destruct (netmask_is_host netmask); [eauto|].
    erewrite store_lookup by apply lookup_insert_eq. simpl. eauto.
Qed.

Lemma add_key_returns_witness :
  ∃ tree' r,
    SCRadixAddKey 32 (Some [192; 168; 77; 5]) 32 netblock_and_hosts 3024 24 = Done (tree', r).
Proof.
  apply (add_key_returns 32 32 [192; 168; 77; 5] netblock_and_hosts 3024 24).
  - lia.
  - reflexivity.
  - exact netblock_and_hosts_built.
  - repeat constructor; lia.
  - vm_compute. discriminate.
  - lia.
  - lia.
Defined.


(** ** The shape of a built tree *)

(** X25.  The shape of a tree built by the operations, with keys of [width]
    bits, a multiple of 8 below 256.  A node with a prefix is a leaf: its
    bit index is [width], its stream has [width / 8] bytes, it has no
    children, and the descent from the head along its own stream ends at
    it.  A node without a prefix has a bit index below [width] and two
    different children, which are live nodes with larger bit indexes that
    point back to it.  A node without a parent is the head, and a node
    with a parent is a child of that parent. *)
Theorem built_tree_shape width tree a n :
  0 < width < 256 → width mod 8 = 0 →
  built width tree →
  t_heap tree !! a = Some n →
  match n_prefix n with
  | Some p =>
      n_bit n = width ∧ pfx_bitlen p = width
      ∧ Z.of_nat (length (pfx_stream p)) = width / 8
      ∧ n_left n = None ∧ n_right n = None
      ∧ ∃ head k, t_head tree = Some head
                  ∧ descent (t_heap tree) (pfx_stream p) width k head a
                  ∧ Z.of_nat k ≤ width
  | None =>
      0 ≤ n_bit n < width
      ∧ ∃ l r nl nr,
          n_left n = Some l ∧ n_right n = Some r ∧ l ≠ r
          ∧ t_heap tree !! l = Some nl ∧ t_heap tree !! r = Some nr
          ∧ n_parent nl = Some a ∧ n_parent nr = Some a
          ∧ n_bit n < n_bit nl ∧ n_bit n < n_bit nr
  end
  ∧ match n_parent n with
    | Some p => ∃ pn, t_heap tree !! p = Some pn
                      ∧ (n_left pn = Some a ∨ n_right pn = Some a)
    | None => t_head tree = Some a
    end.
Proof.
  intros HW Hmod Hb Hn.
  pose proof (built_key_tree _ _ HW Hmod Hb) as Hkt.
  pose proof Hkt as ((_ & rank & Hl) & (_ & R1 & R2) & key_of & Hk).
  destruct (Hk a n Hn) as (_ & Hlen & H0 & Hleaf & Hinner & Hdir).
  destruct (Hl a n Hn) as (Hch & Hpar & Hlr).
  split.
  - destruct (n_prefix n) as [p|] eqn:Ep.
    + destruct (Hleaf p eq_refl) as (Hbit & Hpb & Hps & El & Er).
      rewrite Hps. repeat (split; [assumption|]).
      rewrite <- Hps. exact (key_tree_leaf_descent _ _ _ _ _ Hkt Hn Ep).
    + destruct (Hinner eq_refl) as (Hlt & (l & El) & (r & Er)).
      split; [lia|].
      destruct (Hch l (or_introl El)) as (nl & Hnl & Hpl & _).
      destruct (Hch r (or_intror Er)) as (nr & Hnr & Hpr & _).
      exists l, r, nl, nr.
      split; [exact El|]. split; [exact Er|].
      split; [intros ->; exact (Hlr r El Er)|].
      split; [exact Hnl|]. split; [exact Hnr|]. split; [exact Hpl|]. split; [exact Hpr|].
      split.
      * exact (proj1 (Hdir false l nl El Hnl)).
      * exact (proj1 (Hdir true r nr Er Hnr)).
  - destruct (n_parent n) as [p|] eqn:Ep.
    + destruct (Hpar p eq_refl) as ((pn & Hpn) & _). exists pn.
      split; [exact Hpn|]. exact (R2 a n p pn Hn Ep Hpn).
    + exact (R1 a n Hn Ep).
Qed.

Lemma built_tree_shape_witness :
  ∃ n, t_heap netblock_and_hosts !! 1%nat = Some n
       ∧ match n_prefix n with
         | Some p =>
             n_bit n = 32 ∧ pfx_bitlen p = 32
             ∧ Z.of_nat (length (pfx_stream p)) = 32 / 8
             ∧ n_left n = None ∧ n_right n = None
             ∧ ∃ head k, t_head netblock_and_hosts = Some head
                         ∧ descent (t_heap netblock_and_hosts) (pfx_stream p) 32 k head 1%nat
                         ∧ Z.of_nat k ≤ 32
         | None =>
             0 ≤ n_bit n < 32
             ∧ ∃ l r nl nr,
                 n_left n = Some l ∧ n_right n = Some r ∧ l ≠ r
                 ∧ t_heap netblock_and_hosts !! l = Some nl
                 ∧ t_heap netblock_and_hosts !! r = Some nr
                 ∧ n_parent nl = Some 1%nat ∧ n_parent nr = Some 1%nat
                 ∧ n_bit n < n_bit nl ∧ n_bit n < n_bit nr
         end
         ∧ match n_parent n with
           | Some p => ∃ pn, t_heap netblock_and_hosts !! p = Some pn
                             ∧ (n_left pn = Some 1%nat ∨ n_right pn = Some 1%nat)
           | None => t_head netblock_and_hosts = Some 1%nat
           end.
Proof.
  eexists. split; [vm_compute; reflexivity|].
  apply (built_tree_shape 32 netblock_and_hosts 1%nat).
  - lia.
  - reflexivity.
  - exact netblock_and_hosts_built.
  - vm_compute. reflexivity.
Defined.


(** ** The release of a tree *)

Lemma release_subtree_none fuel h : SCRadixReleaseRadixSubtree fuel h None = Done h.
Proof. destruct fuel; reflexivity. Qed.

Section release.
Context (width : Z) (key_of : addr → list Z) (h0 : gmap addr SCRadixNode)
        (rank : addr → nat) (head : option addr).
Hypothesis Hl : map_Forall (node_linked h0 rank) h0.
Hypothesis Hr : rooted {| t_heap := h0; t_head := head |}.
Hypothesis Hk : map_Forall (node_keyed width h0 key_of) h0.

Lemma under_rank a x : under h0 a x → (rank x ≤ rank a)%nat.
Proof using Hl.
  induction 1 as [|x nx p Hx Hp _ IH]; [lia|].
  destruct (Hl x nx Hx) as (_ & Hpar & _). destruct (Hpar p Hp). lia.
Qed.

Lemma under_child a c nc x :
  h0 !! c = Some nc → n_parent nc = Some a → under h0 c x → under h0 a x.
Proof.
  intros Hc Hp. induction 1 as [|x nx p Hx Hxp _ IH].
  - exact (under_parent _ _ _ _ _ Hc Hp (under_here _ _)).
  - exact (under_parent _ _ _ _ _ Hx Hxp IH).
Qed.

Lemma under_split a n x :
  h0 !! a = Some n → under h0 a x →
  x = a ∨ ∃ c, (n_left n = Some c ∨ n_right n = Some c) ∧ under h0 c x.
Proof using Hr.
  intros Ha. induction 1 as [|x nx p Hx Hp _ IH]; [left; reflexivity|].
  right. destruct IH as [->|(c & Hc & Hu)].
  - exists x. split; [|apply under_here].
    destruct Hr as (_ & _ & R2). exact (R2 x nx a n Hx Hp Ha).
  - exists c. split; [exact Hc|]. exact (under_parent _ _ _ _ _ Hx Hp Hu).
Qed.

Lemma under_disjoint a l r nl nr x :
  h0 !! l = Some nl → n_parent nl = Some a → (rank l < rank a)%nat →
  h0 !! r = Some nr → n_parent nr = Some a → (rank r < rank a)%nat →
  l ≠ r → under h0 l x → under h0 r x → False.
Proof using Hl.
  intros Hnl Hpl Hrl Hnr Hpr Hrr Hne Hul.
  induction Hul as [|x nx p Hx Hp Hu IH]; intros Hur.
  - inversion Hur as [|? nx p Hx Hp Hu]; subst; [congruence|].
    assert (p = a) as -> by congruence.
    pose proof (under_rank _ _ Hu). lia.
  - inversion Hur as [|? nx' p' Hx' Hp' Hu']; subst.
    + assert (p = a) as -> by congruence.
      pose proof (under_rank _ _ Hu). lia.
    + assert (p' = p) as -> by congruence. exact (IH Hu').
Qed.

(** The release of the subtree of a node frees the nodes below it and no
    other node. *)
Lemma release_subtree fuel a n h :
  h0 !! a = Some n → width - n_bit n < Z.of_nat fuel →
  (∀ x, under h0 a x → h !! x = h0 !! x) →
  ∃ h', SCRadixReleaseRadixSubtree fuel h (Some a) = Done h'
        ∧ (∀ x, under h0 a x → h' !! x = None)
        ∧ (∀ x, ¬ under h0 a x → h' !! x = h !! x).
Proof using Hl Hr Hk.
  revert a n h. induction fuel as [|fuel IH]; intros a n h Ha Hf Hsame.
  { destruct (bit_bounds _ _ _ Hk _ _ Ha). lia. }
  assert (h !! a = Some n) as Hha by (rewrite Hsame; [exact Ha|apply under_here]).
  cbn [SCRadixReleaseRadixSubtree]. rewrite (load_lookup _ _ _ Hha).
  cbn [mbind outcome_bind].
  destruct (Hk a n Ha) as (_ & _ & _ & Hleaf & Hinner & Hdir).
  destruct (Hl a n Ha) as (Hch & _ & Hlr).
  destruct (n_prefix n) as [p|] eqn:Ep.
  - (* a leaf *)
    destruct (Hleaf p eq_refl) as (_ & _ & _ & El & Er).
    rewrite El, release_subtree_none. cbn [mbind outcome_bind].
    rewrite (load_lookup _ _ _ Hha). cbn [mbind outcome_bind].
    rewrite Er, release_subtree_none. cbn [mbind outcome_bind].
    unfold SCRadixReleaseNode. rewrite (load_lookup _ _ _ Hha).
    eexists. split; [reflexivity|]. split.
    + intros x Hx. destruct (under_split _ _ _ Ha Hx) as [->|(c & Hc & _)].
      * apply lookup_delete_eq.
      * rewrite El, Er in Hc. destruct Hc; discriminate.
    + intros x Hx. apply lookup_delete_ne. intros <-. apply Hx, under_here.
  - (* a node with two children *)
    destruct (Hinner eq_refl) as (_ & (l & El) & (r & Er)).
    destruct (Hch l (or_introl El)) as (nl & Hnl & Hpl & Hrl).
    destruct (Hch r (or_intror Er)) as (nr & Hnr & Hpr & Hrr).
    assert (l ≠ r) as Hne by (intros ->; exact (Hlr r El Er)).
    pose proof (proj1 (Hdir false l nl El Hnl)) as Hbl.
    pose proof (proj1 (Hdir true r nr Er Hnr)) as Hbr.
    assert (¬ under h0 l a) as Hal by (intros Hu; pose proof (under_rank _ _ Hu); lia).
    assert (¬ under h0 r a) as Har by (intros Hu; pose proof (under_rank _ _ Hu); lia).
    rewrite El.
    destruct (IH l nl h Hnl ltac:(lia)) as (h1 & -> & Hgone1 & Hkept1).
    { intros x Hx. apply Hsame. exact (under_child _ _ _ _ Hnl Hpl Hx). }
    cbn [mbind outcome_bind].
    assert (h1 !! a = Some n) as Hh1a by (rewrite Hkept1; assumption).
    rewrite (load_lookup _ _ _ Hh1a). cbn [mbind outcome_bind]. rewrite Er.
    destruct (IH r nr h1 Hnr ltac:(lia)) as (h2 & -> & Hgone2 & Hkept2).
    { intros x Hx. rewrite Hkept1.
      - apply Hsame. exact (under_child _ _ _ _ Hnr Hpr Hx).
      - intros Hxl. exact (under_disjoint _ _ _ _ _ _ Hnl Hpl Hrl Hnr Hpr Hrr Hne Hxl Hx). }
    cbn [mbind outcome_bind].
    assert (h2 !! a = Some n) as Hh2a by (rewrite Hkept2; assumption).
    unfold SCRadixReleaseNode. rewrite (load_lookup _ _ _ Hh2a).
    eexists. split; [reflexivity|]. split.
    + intros x Hx. destruct (under_split _ _ _ Ha Hx) as [->|(c & Hc & Hu)].
      * apply lookup_delete_eq.
      * destruct (decide (x = a)) as [->|Hxa]; [apply lookup_delete_eq|].
        rewrite lookup_delete_ne by congruence.
        rewrite El, Er in Hc. destruct Hc as [[= <-]|[= <-]].
        -- rewrite Hkept2; [exact (Hgone1 x Hu)|].
           intros Hxr. exact (under_disjoint _ _ _ _ _ _ Hnl Hpl Hrl Hnr Hpr Hrr Hne Hu Hxr).
        -- exact (Hgone2 x Hu).
    + intros x Hx.
      assert (x ≠ a) as Hxa by (intros ->; apply Hx, under_here).
      rewrite lookup_delete_ne by congruence.
      rewrite Hkept2, Hkept1; [reflexivity| |].
      * intros Hu. exact (Hx (under_child _ _ _ _ Hnl Hpl Hu)).
      * intros Hu. exact (Hx (under_child _ _ _ _ Hnr Hpr Hu)).
Qed.

Lemma descent_under stream k a x :
  descent h0 stream width k a x → under h0 a x.
Proof using Hl.
  induction 1 as [|k a n b c x Ha Hlt Hb Hc _ IH]; [apply under_here|].
  destruct (Hl a n Ha) as (Hch & _).
  destruct (Hch c) as (nc & Hnc & Hp & _); [destruct b; auto|].
  exact (under_child _ _ _ _ Hnc Hp IH).
Qed.

End release.

(** X26.  The release of a tree built by the operations frees every node.
    With keys of [width] bits, a multiple of 8 below 256, and more than
    [width] levels of recursion, [SCRadixReleaseRadixTree] returns with an
    arena that holds no node and with a [NULL] head: each node is reached
    by the recursion and is live when it is released, so none is left and
    none is freed twice. *)
Theorem release_frees_every_node width fuel tree :
  0 < width < 256 → width mod 8 = 0 →
  built width tree →
  width < Z.of_nat fuel →
  SCRadixReleaseRadixTree fuel tree = Done {| t_heap := ∅; t_head := None |}.
Proof.
  intros HW Hmod Hb Hf.
  pose proof (built_key_tree _ _ HW Hmod Hb) as Hkt.
  pose proof Hkt as ((Hhead & rank & Hl) & Hr & key_of & Hk).
  unfold SCRadixReleaseRadixTree.
  destruct (t_head tree) as [hd|] eqn:Ehd.
  - destruct (Hhead hd eq_refl) as (nh & Hnh & _).
    destruct (bit_bounds _ _ _ Hk _ _ Hnh) as (Hb0 & _).
    destruct tree as [h0 head0]. simpl in *. subst head0.
    destruct (release_subtree _ _ _ _ _ Hl Hr Hk fuel hd nh h0 Hnh ltac:(lia)
                ltac:(reflexivity)) as (h' & -> & Hgone & Hkept).
    simpl. do 2 f_equal. apply map_empty. intros x.
    destruct (h0 !! x) as [nx|] eqn:Ex.
    + apply Hgone.
      destruct (key_tree_node_descent _ _ _ _ Hkt Ex) as (hd' & k & stream & Eh & Hd).
      simpl in Eh, Hd. injection Eh as <-.
      exact (descent_under _ _ _ Hl _ _ _ _ Hd).
    + rewrite Hkept; [exact Ex|]. intros Hu.
      inversion Hu; subst; congruence.
  - destruct Hr as (R0 & _). rewrite (R0 Ehd), release_subtree_none. reflexivity.
Qed.

Lemma release_frees_every_node_witness :
  SCRadixReleaseRadixTree 33 netblock_and_hosts = Done {| t_heap := ∅; t_head := None |}.
Proof.
  apply (release_frees_every_node 32 33 netblock_and_hosts).
  - lia.
  - reflexivity.
  - exact netblock_and_hosts_built.
  - lia.
Defined.

(** ** The registration of a netmask by an insertion (C3) *)










(** The insertion of 192.168.1.0/24 into the tree of 192.168.0.0/16 gives
    the new leaf the entry, and the netmask 24 is in the array of the
    node chosen for that leaf. *)
Example registration_of_a_second_netblock :
  ∃ t t' leaf target,
    one_netblock = Done t
    ∧ SCRadixAddKeyIPV4Netblock scenario_fuel (Some [192; 168; 1; 0]) t 1024 24
      = Done (t', Some leaf)
    ∧ holds_netmask (t_heap t') leaf 24 ∧ ¬ holds_netmask (t_heap t) leaf 24
    ∧ chosen_node (t_heap t') 24 leaf target
    ∧ netmasks_at t' target = [24].
Proof.
  eexists _, _, 1%nat, 1%nat. split; [vm_compute; reflexivity|].
  split; [vm_compute; reflexivity|]. split; [|split; [|split]].
  - eexists _, _. split; [vm_compute; reflexivity|]. left.
  - intros (s & l & He & _). vm_compute in He. discriminate.
  - split; [constructor|]. eexists. split; [vm_compute; reflexivity|].
    split; [left|]. intros p pn Hp Hpn. vm_compute in Hp. injection Hp as <-.
    vm_compute in Hpn. injection Hpn as <-. simpl. lia.
  - vm_compute. reflexivity.
Qed.
